(* ===== verification/_CoqProject ===== *)
-Q . S2P
Prelude.v
Float.v
Decimal.v
FloatRound.v
MeshTypes.v
FrameCodec.v
Proto.v
MeshCrypto.v
Message.v
Outbound.v
Delivery.v
StoreForward.v
Router.v
NodeDb.v
Topology.v
Partition.v
Gateway.v
Snapshot.v
Signal.v
MeshSignal.v
Baseline.v
Convergence.v
Aggregator.v
Alert.v
Pipeline.v
Handshake.v
PacketProc.v
Bridge.v
Mqtt.v
MeshConfig.v
Transport.v
Receiver.v
Monitor.v
Discovery.v
RoutingProc.v
Collector.v
RouterInv.v
System.v
Transmit.v
Bcd.v
Tone.v
ChannelCodec.v
Validate.v
CsvPlan.v
ImgImport.v
Variant.v
CloneProtocol.v
Settings.v
Yaesu.v
AutoDetect.v
Text.v
RadioDetect.v
Registry.v
ChirpCli.v
RadioCli.v
MeshCli.v
ServerApi.v
TamperLog.v
TamperSegments.v
TamperWriter.v
Caller.v
EffectReceipt.v
EffectGate.v
EffectLedger.v
VaultCrypto.v
Vault.v
VaultSpec.v
VaultConfig.v
VaultCli.v
Provenance.v
App.v
