(* ===== verification/Prelude.v ===== *)
(** * Akroasis: a verification development

    Akroasis is a signals and radio workbench. Its own logic is in eight crates
    under src/crates; this development models the parts of them that hold
    protocol logic and state:

    - kerykeion, the Meshtastic mesh stack: a serial frame codec feeds decoded
      [FromRadio] messages to a handshake and to packet processors; a connection
      reconnects behind a transport, and background tasks keep it alive; outbound
      messages are built, numbered and encrypted, sent through a router that
      composes a priority queue with retries, a store-and-forward buffer for
      nodes that are away and a delivery tracker; a node database, a topology
      graph, a gateway detector and a gateway bridge keep the state of the mesh,
      and what is learnt becomes events and signals;
    - stoicheion, the value types every collector shares: coordinates, confidence,
      frequencies, signals, and the statistical baselines;
    - semaino, the signal pipeline: signals are scored against hour-of-week
      baselines, placed in a spatial grid that detects domains converging on a
      cell, and turned into deduplicated alerts, by three tasks over channels;
    - syntonia, the handheld-radio programmer: channels are validated against a
      radio's constraints, encoded into an EEPROM image (BCD frequencies, tone
      words, names) and moved to and from the radio by a block protocol over a
      serial port;
    - tekmerion, the evidence log: a hash-chained, sealed and rotated log file
      with a verifier of one segment and of a segment set, and its writer; and the
      contracts of audited effects: callers with bounded authority and receipts
      that link an intent, its outcome and its recovery;
    - akroasis, the application: the commands for radios, the mesh and the vault,
      and the gate that runs an effect only between an accepted intent receipt and
      its outcome receipt; akroasis-server, the HTTP interface to detection and the
      mesh reports;
    - kryphos, the credential vault: secrets sealed under a key derived from a
      passphrase, whose every mutation is first written to an evidence log.

    ** Files and the source they model

    - [Prelude]: results, machine integers, bytes, time, iterators and hash-map
      order, with the tactics and lemmas the components share.
    - [Float]: f32 and f64 on Rocq's [SpecFloat], as far as the code computes with
      them, and their order. [Decimal]: number formatting and parsing.
      [FloatRound]: what rounding gives for quotients and products, in particular
      that a frequency printed in megahertz scales back.
    - [MeshTypes]: kerykeion types.rs. [Proto]: the messages of kerykeion/proto.
      [Text]: UTF-8 and the text operations of several components.
    - [FrameCodec]: codec.rs. The buffer is the state; [turn] is one turn of the
      decode loop, [decode_loop] the loop, [receive] a transport delivering chunks.
    - [MeshCrypto]: packet_id.rs and crypto.rs. [Message]: message.rs.
      [MeshConfig]: config.rs. [Mqtt]: mqtt.rs.
    - [Outbound]: outbound.rs. [Delivery]: delivery.rs. [StoreForward]:
      store_forward.rs. [Router]: router.rs, composed of the three. [RouterInv]:
      the router's invariant under every operation.
    - [NodeDb]: node_db.rs. [Handshake]: handshake.rs. [Transport]: connection.rs,
      transport/ and heartbeat.rs; the interface [MeshConnection] is what the
      tasks use, and its laws [LinkAware] are proved for each transport.
      [Receiver]: collector.rs's recv_yielding, a TCP transport shared between
      the receive loop and the tasks that send.
    - [Topology], [Partition], [Snapshot]: topology.rs. The graph library is the
      class [StableGraph]; [topo_ok] is the invariant of the graph with its index,
      [link] the abstract view of it, [connected] the relation the partition
      search is proved against. [Gateway]: gateway.rs.
    - [Signal]: stoicheion's coordinates.rs, signal.rs, frequency.rs, power.rs and
      entity.rs. [Baseline]: baseline.rs. [Registry]: hardware.rs. [MeshSignal]:
      kerykeion's signals.rs.
    - [PacketProc]: the packet processor of processor.rs, composed of [NodeDb],
      [Topology] and [MeshSignal]. [RoutingProc]: its routing processor.
      [Discovery]: discovery.rs over the processor and a connection.
    - [Convergence], [Aggregator], [Alert]: semaino's convergence.rs,
      aggregator.rs and alert.rs. [Pipeline]: pipeline.rs, a step relation on the
      state of the three tasks and the queues between them.
    - [Bridge]: bridge.rs; [Monitor]: its health monitor. [Collector]:
      collector.rs, composed of [NodeDb], [Handshake], [PacketProc], [RoutingProc]
      and [Router]; [shared_step] is the interleaving of the flush task with the
      receive loop. [System]: the whole running collector, [system_step] being
      what one of its tasks does under one lock. [Transmit]: an account of the
      transmissions of a packet over the runs of [shared_step].
    - [Bcd], [Tone], [ChannelCodec], [Validate], [Variant], [CloneProtocol]:
      syntonia's bcd.rs, tone.rs and tone_codec.rs, codec.rs with image.rs and
      memmap.rs, validate.rs, variant.rs with ident.rs, protocol.rs with
      constants.rs and serial.rs. [CsvPlan]: import/csv.rs, export/csv.rs,
      csv_formula.rs and plan.rs, over the class [CsvFormat] of the CSV syntax.
      [ImgImport]: import/img.rs. [RadioDetect]: hardware/. [AutoDetect]:
      baofeng/detect.rs. [Settings]: config.rs. [Yaesu]: yaesu/.
    - [TamperLog], [TamperSegments], [TamperWriter]: tekmerion's tamper_log.rs,
      tamper_log_entry.rs, tamper_log_seal.rs, tamper_log_verify.rs,
      tamper_log_rotation.rs, tamper_log_segments.rs and tamper_log_lock.rs.
    - [Caller]: tekmerion's caller.rs, caller_ref.rs and caller_error.rs.
      [EffectReceipt]: effect_receipt.rs and effect_receipt_state.rs.
      [EffectGate]: akroasis's caller.rs, [execute_effect] in a state and error
      monad over any clock and receipt sink; a traced instance records the calls
      of a run. [EffectLedger]: the ledger of akroasis/tests/caller_recovery.rs,
      an instance of the sink that enforces the receipt contract.
    - [VaultCrypto]: kryphos's crypto.rs, vault.rs, key.rs and error.rs. [Vault]:
      storage.rs over a directory and a keyspace, composed with [TamperWriter].
      [VaultSpec]: the abstract vault, a map of credentials, and the simulation
      relation [implements] between it and a keyspace. [VaultConfig]: config.rs.
      [Provenance]: the signed tip of the audit log, from the vault down to the
      seal.
    - [ChirpCli]: akroasis's radio/import.rs and radio/export.rs. [RadioCli]: the
      other files of radio/, over the interfaces [Hardware] and [Session] with
      their serial implementation. [MeshCli]: mesh/mod.rs. [VaultCli]:
      vault/mod.rs. [App]: cli.rs and main.rs, composed of the three commands.
    - [ServerApi]: akroasis-server's handlers, errors, router and listener,
      [server_step] being the life of requests under the limits.

    ** How the code is read

    A method that takes [&mut self] takes the state and returns it with its
    result; a fallible function returns [result]; a panic is [None] or an
    outcome of its own. Unsigned integers are [Z] with their width written out
    where the code casts, saturates, wraps or checks. A [HashMap] with integer
    keys is a [gmap]; where the code iterates one, the order is the class
    [HashOrder], so a theorem holds for every order. A clock read is an argument,
    and so is a fresh identifier.

    Code outside the repository is a parameter: the protobuf, JSON and CBOR
    codecs, the block cipher in counter mode ([Ctr128LE]), BLAKE3 ([KeyedHash]),
    Argon2id, the AEAD and Ed25519 ([Argon2id], [Aead], [Ed25519]), the graph
    library ([StableGraph], with the instance [MapGraph]) and its path searches,
    the application's caller authority ([CallerAuthority]), the calendar, the serial
    port ([SerialPort], of which [Radio] of CloneProtocol is an instance), sockets and
    timers ([Network], [Framed], [BlePeripheral]), configuration merging ([Figment]),
    the CSV reader, the terminal and the file system. Each class or hypothesis states documented
    behaviour and has a concrete instance in the witnesses.

    ** What the theorems show

    - Framing and transport (C1 to C4): decoding does not depend on how reads cut
      the stream and resynchronises over noise; a receive loop that shares its TCP
      transport yields exactly the messages of the stream, whenever its window
      ends, and lets every sender in by then; reconnection backs off up to its cap
      and ends at the first success.
    - Packet ids and encryption (C5 to C7): ids and nonces never repeat, there is
      no fall-back to clear text, and every key the configuration accepts
      encrypts. A lemma shows that the key stream of neighbouring packets overlaps
      all the same.
    - Effects (C8, C9): an effect runs at most once, after its intent was accepted
      and the caller was authorized again; an accepted intent ends in an accepted
      outcome or in a ticket for it. Lemmas: gate and ledger fit, and the ledger
      accepts exactly the transitions of the receipts' state machine.
    - Vault (C10 to C17): the encrypted store implements a map of credentials, and
      so do the commands on it; revocation is final; configuration references
      resolve to its secrets; every mutation is audited first (C14), and the log
      verifies: to exactly the committed mutations when no seal write fails, and when
      one does to all of them and possibly calls that reported an error of the log
      (C15, which excludes the interrupted rotation of the evidence log); its tip names
      their installation (C16); but the metadata of an entry is not bound to it (C17).
    - Evidence log (C18 to C20): what verifies is what the writer wrote; a log
      written and rotated with no seal write failing verifies to the events appended;
      a seal write that fails after an entry is recovered, at every stage but those of
      a rotation's new seal before it is in place. Lemmas show two defects, that
      interrupted rotation, after which the log reopens unlinked and verifies as
      broken, and an entry forged from a seal. Faults are [d_faults] of the directory:
      which of the seal writes ahead fails, and at which stage.
    - Sending (C21 to C23): the queue's invariant, what becomes of the messages
      stored for a node that comes online (none is lost within the store's limits),
      and a packet is transmitted at most once and its retries for each
      time it was accepted. Lemmas add the behaviour of the single operations
      (stable insertion, retries, eviction, statistics, acknowledgements,
      store-and-forward bounds) and two defects of the collector's flush, which
      sends past the window and retransmits what was acknowledged early.
    - Mesh state (C24 to C27): no message panics the receive loop, and the
      collector's and the processor's node tables agree while they have room; no
      interleaving of the collector's tasks and clients breaks an invariant of its
      parts or keeps it from stopping (C25, which composes the invariants of every
      part, for any configuration and any received message); a background task panics
      only over a timer without a period or a stale timeout too long, and a stored
      position is off the planet only if a node record brought it there; stale
      detection removes exactly what is old; a packet speaks
      only for its sender. Lemmas: the health monitor ticks at the configured
      interval, the handshake accepts exactly a complete dump, the active gateway
      is usable.
    - Topology (C28 to C30): the invariant under any sequence of operations, the
      partition into connected components, and snapshots restore.
    - Signals (C31 to C33): the pipeline terminates without loss under every
      schedule; alerts refine a specification without a sweep; the bounded grid
      detects what a full history would. Lemmas: coordinates are validated, an
      aggregate is seen only after ingestion, scores compare with the past of the
      same bucket, finite observations can disable a baseline.
    - Radio plans (C34 to C36): whole plans round-trip through image files,
      through the library's CSV where the frequencies scale back, and through the
      command's CSV. Lemmas: BCD, tone words, channel slots.
    - Radios (C37, C38): calibration memory is never written, against any port;
      what a programming session reports is what happened to the radio. Lemmas:
      downloads and uploads are exact against a radio that answers, auto-detection
      reports the first magic sequence that is answered, the probe's two tables
      agree.
    - Application (C39, C40): the configuration decides whether commands run, and
      a documented variable stops them all; a request reaches only serial devices.
      Lemmas: the requests in hand are bounded, a listener's errors.

    Fuel. [decode_loop] runs with one more unit than the buffer has bytes, as
    every turn that goes on consumes at least one; [stream_loop] and
    [recover_loop] likewise on the file. C1 to C3 state that decoding returns;
    [stream_loop_fuel] that more fuel changes nothing. The partition search
    [visit] runs on the sum of the degrees, which bounds its pops; C29 states
    that it returns. [drain_sendable] runs on the length of the queue, which
    every turn shortens. Retry loops carry the source's own bounds. A loop the
    source runs until it succeeds ([reconnect_loop], a transport's receive) has an
    outcome [Running] for the end of its fuel, and C4 states when it returns. The
    pipeline has no fuel: C31 bounds the length of every run by [work]. The tasks of
    [System] are a relation without fuel; C25 states that it can always stop.

    ** Not modelled

    Timers are the events they cause, and a broadcast channel the list of what was
    sent; logging, serde derivations, argument parsing, table rendering, the
    CORS and tracing layers of the HTTP router; the text of most error
    messages; transcendental functions (distances, watts); zeroizing and file modes;
    [Debug] implementations; ULID wrappers and timestamps, which are the values
    they wrap; random generation, whose results are arguments. What is left of the
    source beyond this is tests, accessors and derived code. I/O failures of the
    evidence log other than those of its seal writes are not injected. *)

From Stdlib Require Export ZArith Lia ZifyBool List Bool Sorting.Sorted.
From stdpp Require Export base numbers list gmap fin_maps option strings.

Local Open Scope Z_scope.

(** ** Results: Rust's [Result<T, E>] *)

Inductive result (A E : Type) : Type :=
| Ok (a : A)
| Err (e : E).
Arguments Ok {A E} _.
Arguments Err {A E} _.

Definition is_ok {A E} (r : result A E) : bool :=
  match r with Ok _ => true | Err _ => false end.

Definition result_bind {A B E} (r : result A E) (f : A -> result B E) : result B E :=
  match r with Ok a => f a | Err e => Err e end.

Definition map_err {A E F} (f : E -> F) (r : result A E) : result A F :=
  match r with Ok a => Ok a | Err e => Err (f e) end.

Declare Scope akroasis_scope.
Delimit Scope akroasis_scope with ak.
Notation "'let?' x ':=' r 'in' k" := (result_bind r (fun x => k))
  (at level 10, x pattern, k at level 200) : akroasis_scope.
Open Scope akroasis_scope.

(** ** Machine integers: a [w]-bit unsigned integer is a [Z] in range *)

Definition is_uint (w x : Z) : Prop := 0 <= x < 2 ^ w.
Definition uint_max (w : Z) : Z := 2 ^ w - 1.

(** [as] casts truncate; [checked_], [saturating_] and [wrapping_] as in core. *)
Definition as_uint (w x : Z) : Z := x mod 2 ^ w.
Definition try_uint (w x : Z) : option Z :=
  if (0 <=? x) && (x <? 2 ^ w) then Some x else None.
Definition checked_add (w a b : Z) : option Z :=
  if a + b <? 2 ^ w then Some (a + b) else None.
Definition saturating_add (w a b : Z) : Z := Z.min (a + b) (uint_max w).
Definition saturating_sub (a b : Z) : Z := Z.max 0 (a - b).
Definition saturating_mul (w a b : Z) : Z := Z.min (a * b) (uint_max w).
Definition wrapping_add (w a b : Z) : Z := (a + b) mod 2 ^ w.

(** ** Bytes *)

Abbreviation bytes := (list Z).
Definition is_byte (b : Z) : Prop := 0 <= b < 256.
Definition bytes_ok (l : bytes) : Prop := Forall is_byte l.

(** The bytes of an ASCII literal. *)
Definition byte_str (s : string) : bytes :=
  map (fun a => Z.of_N (Ascii.N_of_ascii a)) (String.list_ascii_of_string s).

Fixpoint to_le_bytes (n : nat) (x : Z) : bytes :=
  match n with
  | O => []
  | S m => x mod 256 :: to_le_bytes m (x / 256)
  end.

Fixpoint from_le_bytes (l : bytes) : Z :=
  match l with
  | [] => 0
  | b :: r => b + 256 * from_le_bytes r
  end.

Definition to_be_bytes (n : nat) (x : Z) : bytes := rev (to_le_bytes n x).
Definition from_be_bytes (l : bytes) : Z := from_le_bytes (rev l).

(** [strip_prefix] of strings and slices. *)
Fixpoint strip_prefix (prefix s : list Z) : option (list Z) :=
  match prefix, s with
  | [], s => Some s
  | a :: prefix, b :: s => if a =? b then strip_prefix prefix s else None
  | _ :: _, [] => None
  end.

(** ** Time

    A [tokio::time::Instant] is a number of nanoseconds on the monotonic clock,
    a [Duration] a number of nanoseconds. [Instant::duration_since] saturates
    at zero. *)

Abbreviation Instant := Z (only parsing).
Abbreviation Duration := Z (only parsing).

Definition NANOS_PER_SEC : Z := 1000000000.
Definition NANOS_PER_MILLI : Z := 1000000.
Definition duration_from_secs (s : Z) : Duration := s * NANOS_PER_SEC.
Definition duration_from_millis (ms : Z) : Duration := ms * NANOS_PER_MILLI.
Definition duration_as_millis (d : Duration) : Z := d / NANOS_PER_MILLI.
Definition duration_since (now earlier : Instant) : Duration :=
  saturating_sub now earlier.

(** ** Vectors and iterators *)

(** [Iterator::position]. *)
Fixpoint position {A} (p : A -> bool) (l : list A) : option nat :=
  match l with
  | [] => None
  | x :: r => if p x then Some O else S <$> position p r
  end.

(** [Vec::insert] / [VecDeque::insert] for an index within bounds. *)
Definition insert_at {A} (i : nat) (x : A) (l : list A) : list A :=
  take i l ++ x :: drop i l.

(** [VecDeque::remove]. *)
Definition remove_at {A} (i : nat) (l : list A) : list A :=
  take i l ++ drop (S i) l.

(** [Iterator::min_by_key] with an integer key: the first of the minima. *)
Fixpoint min_by_key {A} (key : A -> Z) (l : list A) : option A :=
  match l with
  | [] => None
  | x :: r =>
      match min_by_key key r with
      | None => Some x
      | Some y => if key y <? key x then Some y else Some x
      end
  end.

(** [Iterator::min_by]: of two elements the later one is kept only when the
    comparison of the earlier with it is [Greater]. *)
Definition min_by {A} (greater : A -> A -> bool) (l : list A) : option A :=
  match l with
  | [] => None
  | x :: r => Some (fold_left (fun x y => if greater x y then y else x) r x)
  end.

(** [Ord for Option<T>]: [None] is below every [Some]. *)
Definition option_gtb (a b : option Z) : bool :=
  match a, b with
  | Some x, Some y => y <? x
  | Some _, None => true
  | None, _ => false
  end.

(** [Iterator::take_while]. *)
Fixpoint take_while {A} (p : A -> bool) (l : list A) : list A :=
  match l with
  | [] => []
  | x :: r => if p x then x :: take_while p r else []
  end.

(** ** Hash maps

    A [HashMap] with integer keys is a [gmap]; the order in which it is
    iterated is not specified, so code that iterates takes the order from
    this class. *)

Class HashOrder : Type := {
  hm_iter : forall {V : Type}, gmap Z V -> list (Z * V);
  hm_iter_perm : forall {V : Type} (m : gmap Z V), hm_iter m ≡ₚ map_to_list m
}.

Definition canonical_order : HashOrder :=
  {| hm_iter := fun V m => map_to_list m; hm_iter_perm := fun V m => reflexivity _ |}.

(** The same for a map with another key type. *)
Class KeyOrder (K : Type) `{Countable K} : Type := {
  key_iter : forall {V : Type}, gmap K V -> list (K * V);
  key_iter_perm : forall {V : Type} (m : gmap K V), key_iter m ≡ₚ map_to_list m
}.

Definition i64_saturating_sub (a b : Z) : Z :=
  Z.max (- 2 ^ 63) (Z.min (a - b) (2 ^ 63 - 1)).

(** [x as i64]: two's complement. *)
Definition as_i64 (x : Z) : Z := (x + 2 ^ 63) mod 2 ^ 64 - 2 ^ 63.

(** * Lemmas and automation *)

(** Case analysis on the conditions of the code, innermost first, leaving
    boolean equations that [lia] reads. *)
Ltac split_ifs :=
  repeat match goal with
  | |- context [if ?b then _ else _] =>
      lazymatch type of b with bool => destruct b eqn:? end
  | H : context [if ?b then _ else _] |- _ =>
      lazymatch type of b with bool => destruct b eqn:? end
  end.

(** Destructs every existential and conjunction of the context. *)
Ltac unpack :=
  repeat match goal with
  | H : _ /\ _ |- _ => destruct H
  | H : exists _, _ |- _ => destruct H
  | H : Some _ = Some _ |- _ => injection H as H; subst
  | H : Ok _ = Ok _ |- _ => injection H as H; subst
  | H : (_, _) = (_, _) |- _ => injection H as ? ?; subst
  end.

(** Closes the propositional leftovers of a case analysis on conditions. *)
Ltac finish :=
  repeat match goal with
  | H : Some _ = Some _ |- _ => injection H as H
  | H : Ok _ = Ok _ |- _ => injection H as H
  end;
  try done; try congruence; try lia; try (f_equal; lia).
Ltac solve_ifs := split_ifs; intuition (subst; finish).

Create HintDb ak discriminated.
Create HintDb ak_len.

(** Injectivity without the reductions [injection] performs. *)
Lemma Ok_inj {A E} (a b : A) : @Ok A E a = Ok b -> a = b.
Proof. by intros [= ->]. Qed.

(** ** Lists *)

Section Lists.
Context {A : Type}.
Implicit Types (l : list A) (p : A -> bool).

Lemma position_Some p l i :
  position p l = Some i <->
  exists x, l !! i = Some x /\ p x = true /\
            forall j y, (j < i)%nat -> l !! j = Some y -> p y = false.
Proof.
  revert i; induction l as [|a l IH]; intros i; simpl.
  - split; [done|]. intros (x & Hx & _). by rewrite lookup_nil in Hx.
  - destruct (p a) eqn:Ha.
    + split.
      * intros [= <-]. exists a. split; [done|]. split; [done|]. intros; lia.
      * intros (x & Hx & Hpx & Hmin). destruct i as [|i]; [done|].
        assert (p a = false) by (apply (Hmin O); [lia | done]). congruence.
    + rewrite fmap_Some. split.
      * intros (j & Hj & ->). apply IH in Hj as (x & Hx & Hpx & Hmin).
        exists x. split; [done|]. split; [done|].
        intros [|k] y Hk Hy; simpl in Hy; [congruence|]. apply (Hmin k); [lia|done].
      * intros (x & Hx & Hpx & Hmin). destruct i as [|i]; [simpl in Hx; congruence|].
        exists i. split; [|done]. apply IH. exists x. split; [done|]. split; [done|].
        intros j y Hj Hy. apply (Hmin (S j)); [lia|done].
Qed.

Lemma position_None p l :
  position p l = None <-> Forall (fun x => p x = false) l.
Proof.
  induction l as [|a l IH]; simpl; [split; [by constructor|done]|].
  destruct (p a) eqn:Ha.
  - split; [done|]. intros H. inversion H; congruence.
  - rewrite fmap_None, IH. split; [by constructor|]. intros H; by inversion H.
Qed.

Lemma position_lt p l i : position p l = Some i -> (i < length l)%nat.
Proof. intros (x & Hx & _)%position_Some. by eapply lookup_lt_Some. Qed.

Lemma length_insert_at i (x : A) l :
  (i <= length l)%nat -> length (insert_at i x l) = S (length l).
Proof. intros. unfold insert_at. rewrite length_app, length_take. simpl. rewrite length_drop. lia. Qed.

Lemma insert_at_perm i (x : A) l : insert_at i x l ≡ₚ x :: l.
Proof.
  unfold insert_at. rewrite <- Permutation_middle.
  by rewrite take_drop.
Qed.

Lemma length_remove_at i l :
  (i < length l)%nat -> length (remove_at i l) = (length l - 1)%nat.
Proof. intros. unfold remove_at. rewrite length_app, length_take, length_drop. lia. Qed.

Lemma remove_at_perm i (x : A) l : l !! i = Some x -> l ≡ₚ x :: remove_at i l.
Proof.
  intros Hi. unfold remove_at. rewrite <- (take_drop_middle l i x) at 1 by done.
  by rewrite <- Permutation_middle.
Qed.

Lemma min_by_key_None (key : A -> Z) l : min_by_key key l = None <-> l = [].
Proof.
  destruct l as [|x r]; simpl; [done|].
  destruct (min_by_key key r); split; intros; try done; by destruct (_ <? _).
Qed.

Lemma min_by_key_Some (key : A -> Z) l x :
  min_by_key key l = Some x -> x ∈ l /\ forall y, y ∈ l -> key x <= key y.
Proof.
  revert x; induction l as [|a l IH]; simpl; intros x; [done|].
  destruct (min_by_key key l) as [y|] eqn:E.
  - destruct (IH y eq_refl) as [Hy Hmin].
    destruct (key y <? key a) eqn:L; intros [= <-].
    + split; [by constructor|]. intros z [->|Hz]%elem_of_cons; [lia|auto].
    + split; [by constructor|]. intros z [->|Hz]%elem_of_cons; [lia|].
      specialize (Hmin z Hz). lia.
  - apply min_by_key_None in E as ->. intros [= <-].
    split; [constructor|]. intros z [->|Hz]%elem_of_cons; [lia|by inversion Hz].
Qed.

Lemma take_while_app_stop p l r (x : A) :
  Forall (fun y => p y = true) l -> p x = false ->
  take_while p (l ++ x :: r) = l.
Proof. intros Hl Hx. induction Hl; simpl; [by rewrite Hx|]. by rewrite H, IHHl. Qed.

Lemma take_while_all p l : Forall (fun y => p y = true) l -> take_while p l = l.
Proof. induction 1; simpl; [done|]. by rewrite H, IHForall. Qed.

End Lists.

Lemma Forall_sublist {A} (P : A -> Prop) l k : l `sublist_of` k -> Forall P k -> Forall P l.
Proof. rewrite !Forall_forall. intros Hs HP x Hx. apply HP. by eapply elem_of_sublist. Qed.

Lemma StronglySorted_app_iff {A} (R : A -> A -> Prop) l1 l2 :
  StronglySorted R (l1 ++ l2) <->
  StronglySorted R l1 /\ StronglySorted R l2 /\ Forall (fun a => Forall (R a) l2) l1.
Proof.
  induction l1 as [|a l1 IH]; simpl.
  - split; [|tauto]. intros; split; [constructor|]. by split.
  - split.
    + intros H. inversion H as [|? ? Hs Hf]; subst. apply IH in Hs as (S1 & S2 & F).
      apply Forall_app in Hf as [F1 F2]. split; [by constructor|]. split; [done|]. by constructor.
    + intros (H1 & H2 & H3). inversion H1; subst. inversion H3; subst.
      constructor; [by apply IH|]. by apply Forall_app.
Qed.

Lemma StronglySorted_sublist {A} (R : A -> A -> Prop) l k :
  l `sublist_of` k -> StronglySorted R k -> StronglySorted R l.
Proof.
  induction 1 as [|x l k Hsub IH|x l k Hsub IH]; intros H; [done| |]; inversion H; subst; [|auto].
  constructor; [auto|]. by eapply Forall_sublist.
Qed.

Lemma omap_ext_elem {A B} (f g : A -> option B) (l : list A) :
  (forall x, x ∈ l -> f x = g x) -> omap f l = omap g l.
Proof.
  induction l as [|a l IH]; intros H; [done|]. simpl.
  specialize (IH (fun x Hx => H x (proj2 (elem_of_cons l x a) (or_intror Hx)))).
  rewrite (H a) by left. destruct (g a); [f_equal|]; exact IH.
Qed.

Lemma remove_at_sublist {A} i (l : list A) : remove_at i l `sublist_of` l.
Proof.
  unfold remove_at. rewrite <- (take_drop i l) at 3. apply sublist_app; [done|].
  rewrite <- (Nat.add_1_r i), <- (drop_drop l 1 i). apply sublist_drop.
Qed.

Lemma filter_sublist {A} (p : A -> bool) l : List.filter p l `sublist_of` l.
Proof. induction l as [|a l IH]; simpl; [done|]. destruct (p a); by constructor. Qed.

Lemma find_seq_Some (p : nat -> bool) s n i :
  find p (seq s n) = Some i <->
  (s <= i < s + n)%nat /\ p i = true /\ forall j, (s <= j < i)%nat -> p j = false.
Proof.
  revert s; induction n as [|n IH]; intros s; simpl; [split; [done|]; intros; lia|].
  destruct (p s) eqn:Hs.
  - split.
    + intros [= ->]. split; [lia|]. split; [done|]. intros; lia.
    + intros (Hi & Hp & Hmin). f_equal. destruct (decide (s = i)); [done|].
      rewrite Hmin in Hs by lia. done.
  - rewrite IH. split; intros (Hi & Hp & Hmin).
    + split; [lia|]. split; [done|]. intros j Hj.
      destruct (decide (j = s)) as [->|]; [done|apply Hmin; lia].
    + assert (i <> s) by congruence. split; [lia|]. split; [done|]. intros; apply Hmin; lia.
Qed.

Lemma find_seq_None (p : nat -> bool) s n :
  find p (seq s n) = None <-> forall j, (s <= j < s + n)%nat -> p j = false.
Proof.
  revert s; induction n as [|n IH]; intros s; simpl; [split; [intros; lia|done]|].
  destruct (p s) eqn:Hs.
  - split; [done|]. intros H. rewrite H in Hs by lia. done.
  - rewrite IH. split; intros H j Hj; [|apply H; lia].
    destruct (decide (j = s)) as [->|]; [done|apply H; lia].
Qed.

#[export] Hint Rewrite @length_app @length_take @length_drop @length_map
  @length_rev @length_replicate @length_fmap : ak_len.
#[export] Hint Resolve position_lt : ak.

(** ** Endian encodings *)

Lemma length_to_le_bytes n x : length (to_le_bytes n x) = n.
Proof. revert x; induction n; intros; simpl; auto. Qed.
#[export] Hint Rewrite length_to_le_bytes : ak_len.

Lemma to_le_bytes_ok n x : bytes_ok (to_le_bytes n x).
Proof.
  revert x; induction n; intros; simpl; constructor; [|apply IHn].
  unfold is_byte. pose proof (Z.mod_pos_bound x 256). lia.
Qed.

Lemma from_to_le_bytes n x : 0 <= x < 256 ^ Z.of_nat n -> from_le_bytes (to_le_bytes n x) = x.
Proof.
  revert x; induction n as [|n IH]; intros x Hx.
  - change (256 ^ Z.of_nat 0) with 1 in Hx. simpl. lia.
  - cbn [to_le_bytes from_le_bytes]. rewrite IH.
    + pose proof (Z_div_mod_eq_full x 256). lia.
    + rewrite Nat2Z.inj_succ, Z.pow_succ_r in Hx by lia.
      split; [apply Z.div_pos; lia|]. apply Z.div_lt_upper_bound; lia.
Qed.

Lemma from_le_bytes_app a b :
  from_le_bytes (a ++ b) = from_le_bytes a + 256 ^ Z.of_nat (length a) * from_le_bytes b.
Proof.
  induction a as [|x a IH]; cbn [from_le_bytes app length].
  - change (256 ^ Z.of_nat 0) with 1. lia.
  - rewrite IH, Nat2Z.inj_succ, Z.pow_succ_r by lia. lia.
Qed.

Lemma from_le_bytes_range l :
  bytes_ok l -> 0 <= from_le_bytes l < 256 ^ Z.of_nat (length l).
Proof.
  induction 1 as [|b l Hb Hl IH]; cbn [from_le_bytes length]; [simpl; lia|].
  rewrite Nat2Z.inj_succ, Z.pow_succ_r by lia. unfold is_byte in Hb. lia.
Qed.

Lemma to_from_le_bytes l : bytes_ok l -> to_le_bytes (length l) (from_le_bytes l) = l.
Proof.
  induction 1 as [|b l Hb Hl IH]; cbn [to_le_bytes from_le_bytes length]; [done|].
  unfold is_byte in Hb. f_equal.
  - rewrite Z.mul_comm, Z_mod_plus_full, Z.mod_small; lia.
  - replace ((b + 256 * from_le_bytes l) / 256) with (from_le_bytes l); [done|].
    rewrite Z.mul_comm, Z.div_add, Z.div_small; lia.
Qed.

Lemma to_le_bytes_inj n x y :
  0 <= x < 256 ^ Z.of_nat n -> 0 <= y < 256 ^ Z.of_nat n ->
  to_le_bytes n x = to_le_bytes n y -> x = y.
Proof. intros Hx Hy E. rewrite <- (from_to_le_bytes n x), <- (from_to_le_bytes n y) by done. by rewrite E. Qed.

Lemma strip_prefix_Some prefix : forall s r, strip_prefix prefix s = Some r <-> s = prefix ++ r.
Proof.
  induction prefix as [|a prefix IH]; intros s r; [split; cbn; congruence|]. destruct s as [|b s]; [done|].
  cbn. destruct (a =? b) eqn:E; [rewrite IH|].
  - apply Z.eqb_eq in E as ->. split; [by intros ->|by intros [= ->]].
  - apply Z.eqb_neq in E. split; [done|]. intros [= -> _]. done.
Qed.

(** ** Hash maps *)

Lemma hm_iter_elem `{HashOrder} {V} (m : gmap Z V) k v :
  (k, v) ∈ hm_iter m <-> m !! k = Some v.
Proof. rewrite hm_iter_perm. apply elem_of_map_to_list. Qed.

Lemma hm_iter_length `{HashOrder} {V} (m : gmap Z V) : length (hm_iter m) = size m.
Proof. rewrite hm_iter_perm. apply length_map_to_list. Qed.

(** [min_by] with a comparison whose "not greater" is transitive through the
    elements of the list returns a minimum. *)
Lemma min_by_fold {A} (P : A -> Prop) (greater : A -> A -> bool) :
  (forall x y, greater x y = true -> greater y x = false) ->
  (forall x y z, P y -> greater x y = false -> greater y z = false -> greater x z = false) ->
  forall r x (seen : list A), P x -> Forall P r ->
  (forall y, y ∈ seen -> greater x y = false) -> greater x x = false ->
  let m := fold_left (fun x y => if greater x y then y else x) r x in
  (m = x \/ m ∈ r) /\ forall y, y = x \/ y ∈ seen \/ y ∈ r -> greater m y = false.
Proof.
  intros Hasym Htrans. induction r as [|z r IH]; intros x seen HPx HPr Hseen Hx; cbn.
  - split; [by left|]. intros y [->|[Hy|Hy]]; [done|by apply Hseen|by apply not_elem_of_nil in Hy].
  - apply Forall_cons in HPr as [HPz HPr]. assert (Hz : greater z z = false).
    { destruct (greater z z) eqn:E; [|done]. pose proof (Hasym _ _ E). congruence. }
    destruct (greater x z) eqn:E.
    + pose proof (Hasym _ _ E) as E'.
      destruct (IH z (x :: seen)) as [Hm Hall]; [done|done| |done|].
      { intros y [->|Hy]%elem_of_cons; [done|]. by apply (Htrans _ x), Hseen. }
      split; [destruct Hm as [->|Hm]; right; by constructor|].
      intros y [->|[Hy|Hy]]; apply Hall.
      * right. left. by constructor.
      * right. left. by constructor.
      * apply elem_of_cons in Hy as [->|Hy]; [by left|by right; right].
    + destruct (IH x (z :: seen)) as [Hm Hall]; [done|done| |done|].
      { intros y [->|Hy]%elem_of_cons; [done|by apply Hseen]. }
      split; [destruct Hm as [->|Hm]; [by left|right; by constructor]|].
      intros y [->|[Hy|Hy]]; apply Hall; [by left|right; left; by constructor|].
      apply elem_of_cons in Hy as [->|Hy]; [right; left; by constructor|by right; right].
Qed.

Lemma min_by_Some_on {A} (P : A -> Prop) (greater : A -> A -> bool) l m :
  (forall x y, greater x y = true -> greater y x = false) ->
  (forall x y z, P y -> greater x y = false -> greater y z = false -> greater x z = false) ->
  Forall P l -> min_by greater l = Some m -> m ∈ l /\ forall y, y ∈ l -> greater m y = false.
Proof.
  intros Hasym Htrans HP. destruct l as [|x r]; cbn; [done|]. intros [= <-].
  apply Forall_cons in HP as [HPx HPr].
  assert (Hx : greater x x = false).
  { destruct (greater x x) eqn:E; [|done]. pose proof (Hasym _ _ E). congruence. }
  destruct (min_by_fold P greater Hasym Htrans r x []) as [Hm Hall]; [done|done| |done|].
  { intros y Hy. by apply not_elem_of_nil in Hy. }
  split; [destruct Hm as [->|Hm]; by constructor|].
  intros y [->|Hy]%elem_of_cons; apply Hall; [by left|by right; right].
Qed.

Lemma min_by_Some {A} (greater : A -> A -> bool) l m :
  (forall x y, greater x y = true -> greater y x = false) ->
  (forall x y z, greater x y = false -> greater y z = false -> greater x z = false) ->
  min_by greater l = Some m -> m ∈ l /\ forall y, y ∈ l -> greater m y = false.
Proof.
  intros Hasym Htrans. apply (min_by_Some_on (fun _ => True)); [done|eauto|]. by apply Forall_forall.
Qed.

Lemma min_by_None {A} (greater : A -> A -> bool) l : min_by greater l = None <-> l = [].
Proof. by destruct l. Qed.

Lemma option_gtb_asym a b : option_gtb a b = true -> option_gtb b a = false.
Proof. destruct a, b; cbn; try done. lia. Qed.

Lemma option_gtb_trans a b c :
  option_gtb a b = false -> option_gtb b c = false -> option_gtb a c = false.
Proof. destruct a, b, c; cbn; try done; lia. Qed.

(** A sublist of the same length is the list. *)
(** A property every step keeps, unless something bad was there when it was taken, holds
    along a run unless a state of the run was bad. *)
Lemma rtc_unless {A} (R : relation A) (inv good bad : A -> Prop) :
  (forall x y, R x y -> inv x -> inv y) ->
  (forall x y, R x y -> inv x -> good x -> good y \/ bad x) ->
  forall x y, rtc R x y -> inv x -> good x ->
    inv y /\ (good y \/ exists z, rtc R x z /\ rtc R z y /\ bad z).
Proof.
  intros Hinv Hstep x y Hrun. induction Hrun as [x|x y z Hxy Hyz IH]; intros Hi Hg; [by auto|].
  pose proof (Hinv _ _ Hxy Hi) as Hi'. destruct (Hstep _ _ Hxy Hi Hg) as [Hg'|Hb].
  - destruct (IH Hi' Hg') as [? [?|(w & Hw & Hwz & Hb)]]; [by auto|]. split; [done|]. right.
    exists w. split; [by eapply rtc_l|done].
  - split; [|right; exists x; split; [done|split; [by eapply rtc_l|done]]].
    clear -Hinv Hyz Hi'. induction Hyz; eauto.
Qed.

Lemma sublist_same_length {A} (l1 l2 : list A) : l1 `sublist_of` l2 -> length l1 = length l2 -> l1 = l2.
Proof.
  induction 1 as [|x l1 l2 _ IH|x l1 l2 Hs _]; intros Hl; [done| |].
  - f_equal. apply IH. by injection Hl.
  - apply sublist_length in Hs. cbn in Hl. lia.
Qed.

(** ** Sums over lists and maps *)

Definition zsum {A} (f : A -> Z) (l : list A) : Z := fold_right (fun x acc => f x + acc) 0 l.
Definition map_sum {A} (f : A -> Z) (m : gmap Z A) : Z := zsum (fun kv => f kv.2) (map_to_list m).

Lemma zsum_cons {A} (f : A -> Z) x l : zsum f (x :: l) = f x + zsum f l.
Proof. done. Qed.

Lemma zsum_app {A} (f : A -> Z) l1 l2 : zsum f (l1 ++ l2) = zsum f l1 + zsum f l2.
Proof. unfold zsum. induction l1 as [|x l1 IH]; cbn; lia. Qed.

Lemma zsum_perm {A} (f : A -> Z) l1 l2 : l1 ≡ₚ l2 -> zsum f l1 = zsum f l2.
Proof. unfold zsum. induction 1; cbn in *; lia. Qed.

Lemma zsum_nonneg {A} (f : A -> Z) l : Forall (fun x => 0 <= f x) l -> 0 <= zsum f l.
Proof. unfold zsum. induction 1; cbn in *; lia. Qed.

Lemma zsum_sublist {A} (f : A -> Z) l1 l2 : l1 `sublist_of` l2 -> Forall (fun x => 0 <= f x) l2 -> zsum f l1 <= zsum f l2.
Proof.
  unfold zsum. induction 1 as [|x l1 l2 _ IH|x l1 l2 _ IH]; [done|intros [Hx Hl]%Forall_cons..]; specialize (IH Hl); cbn; lia.
Qed.

Lemma map_sum_insert {A} (f : A -> Z) m k x : map_sum f (<[k := x]> m) = f x + map_sum f (delete k m).
Proof.
  rewrite <- insert_delete_eq. unfold map_sum.
  rewrite (zsum_perm _ _ _ (map_to_list_insert _ k x (lookup_delete_eq m k))). done.
Qed.

Lemma map_sum_lookup {A} (f : A -> Z) m k x : m !! k = Some x -> map_sum f m = f x + map_sum f (delete k m).
Proof. intros Hx. rewrite <- map_sum_insert. by rewrite insert_id. Qed.

Lemma map_sum_le {A} (f g : A -> Z) (m' : gmap Z A) : forall m,
  map_Forall (fun _ x => 0 <= f x) m ->
  (forall k x, m' !! k = Some x -> exists y, m !! k = Some y /\ g x <= f y) -> map_sum g m' <= map_sum f m.
Proof.
  induction m' as [|k x m' Hk IH] using map_ind; intros m Hpos Hm.
  - unfold map_sum. rewrite map_to_list_empty. apply zsum_nonneg, Forall_forall. intros [k x] Hx%elem_of_map_to_list. by apply (Hpos k).
  - destruct (Hm k x) as (y & Hy & Hxy); [apply lookup_insert_eq|].
    rewrite map_sum_insert, delete_id by done. rewrite (map_sum_lookup f m k y Hy).
    specialize (IH (delete k m)). enough (map_sum g m' <= map_sum f (delete k m)) by lia. apply IH.
    + by apply map_Forall_delete.
    + intros k' x' Hx'. assert (k' <> k) by congruence. destruct (Hm k' x') as (y' & Hy' & ?); [by rewrite lookup_insert_ne|].
      exists y'. by rewrite lookup_delete_ne.
Qed.

Lemma map_sum_subseteq {A} (f : A -> Z) m' m : map_Forall (fun _ x => 0 <= f x) m -> m' ⊆ m -> map_sum f m' <= map_sum f m.
Proof. intros Hpos Hsub. apply map_sum_le; [done|]. intros k x Hx. exists x. split; [by eapply lookup_weaken|done]. Qed.
