(* ===== verification/Float.v ===== *)
(** * IEEE-754 binary32 and binary64 values

    Rust's [f32] and [f64], as Rocq's executable specification of
    floating-point arithmetic ([SpecFloat]) at precision 24 and maximal
    exponent 128 (53 and 1024 for [f64]), with round-to-nearest-even. Only the
    operations the modelled code uses. *)

From Stdlib Require Import SpecFloat.
From S2P Require Import Prelude.

Local Open Scope Z_scope.

Definition f32 : Type := spec_float.
Definition f32_prec : Z := 24.
Definition f32_emax : Z := 128.

#[export] Instance f32_eq_dec : EqDecision f32.
Proof. unfold f32. solve_decision. Defined.

Definition f32_mul (x y : f32) : f32 := SFmul f32_prec f32_emax x y.
Definition f32_div (x y : f32) : f32 := SFdiv f32_prec f32_emax x y.
Definition f32_add (x y : f32) : f32 := SFadd f32_prec f32_emax x y.
Definition f32_sub (x y : f32) : f32 := SFsub f32_prec f32_emax x y.
Definition f32_eqb (x y : f32) : bool := SFeqb x y.
Definition f32_ltb (x y : f32) : bool := SFltb x y.

(** [f32::from] of an integer (exact below [2^24]). *)
Definition f32_of_Z (z : Z) : f32 := binary_normalize f32_prec f32_emax z 0 false.

Definition f32_zero : f32 := S754_zero false.

Definition f32_is_finite (x : f32) : bool :=
  match x with
  | S754_zero _ | S754_finite _ _ _ => true
  | S754_infinity _ | S754_nan => false
  end.

(** The decimal literal [n / 10]: the division is correctly rounded, so it is
    the [f32] nearest to the decimal. *)
Definition f32_tenths (n : Z) : f32 := f32_div (f32_of_Z n) (f32_of_Z 10).

(** Magnitude truncated to an integer, and rounded half away from zero. *)
Definition mantissa_trunc (m : positive) (e : Z) : Z :=
  if 0 <=? e then Z.pos m * 2 ^ e else Z.pos m / 2 ^ (- e).
Definition mantissa_round (m : positive) (e : Z) : Z :=
  if 0 <=? e then Z.pos m * 2 ^ e
  else (2 * Z.pos m + 2 ^ (- e)) / (2 * 2 ^ (- e)).

(** [f32::round]. *)
Definition f32_round (x : f32) : f32 :=
  match x with
  | S754_finite s m e =>
      if 0 <=? e then x
      else
        let v := mantissa_round m e in
        binary_normalize f32_prec f32_emax (if s then - v else v) 0 s
  | _ => x
  end.

(** [x as uN]: truncation toward zero, saturating, NaN to zero. *)
Definition f32_as_uint (w : Z) (x : f32) : Z :=
  match x with
  | S754_finite false m e => Z.min (mantissa_trunc m e) (uint_max w)
  | S754_infinity false => uint_max w
  | _ => 0
  end.

(** [mul_add]: the exact dyadic value of [x * y + z], rounded once; an exact
    zero has the common sign of the product and [z], and is positive otherwise. *)
Definition signed (s : bool) (m : positive) : Z := if s then Z.neg m else Z.pos m.
Definition dyadic (x : spec_float) : option (Z * Z) :=
  match x with
  | S754_finite s m e => Some (signed s m, e)
  | S754_zero _ => Some (0, 0)
  | _ => None
  end.
Definition is_sign_negative (x : spec_float) : bool :=
  match x with
  | S754_finite s _ _ | S754_zero s | S754_infinity s => s
  | S754_nan => false
  end.
Definition mul_add (prec emax : Z) (x y z : spec_float) : spec_float :=
  match dyadic x, dyadic y, dyadic z with
  | Some (mx, ex), Some (my, ey), Some (mz, ez) =>
      let e := Z.min (ex + ey) ez in
      let negative := xorb (is_sign_negative x) (is_sign_negative y) in
      binary_normalize prec emax
        (mx * my * 2 ^ (ex + ey - e) + mz * 2 ^ (ez - e)) e (negative && is_sign_negative z)
  | Some _, Some _, None => z
  | _, _, _ => SFadd prec emax (SFmul prec emax x y) z
  end.
Definition f32_mul_add (x y z : f32) : f32 := mul_add f32_prec f32_emax x y z.

(** [f32::clamp]. *)
Definition f32_clamp (x lo hi : f32) : f32 :=
  if f32_ltb x lo then lo else if f32_ltb hi x then hi else x.

(** ** binary64 *)

Definition f64 : Type := spec_float.
Definition f64_prec : Z := 53.
Definition f64_emax : Z := 1024.

Definition f64_mul (x y : f64) : f64 := SFmul f64_prec f64_emax x y.
Definition f64_of_Z (z : Z) : f64 := binary_normalize f64_prec f64_emax z 0 false.
Definition f64_div (x y : f64) : f64 := SFdiv f64_prec f64_emax x y.
Definition f64_ltb (x y : f64) : bool := SFltb x y.
Definition f64_leb (x y : f64) : bool := SFleb x y.
Definition f64_is_finite (x : f64) : bool := f32_is_finite x.

(** [x as i32]: truncation toward zero, saturating, NaN to zero. *)
Definition f64_as_i32 (x : f64) : Z :=
  match x with
  | S754_finite false m e => Z.min (mantissa_trunc m e) (2 ^ 31 - 1)
  | S754_finite true m e => Z.max (- mantissa_trunc m e) (- 2 ^ 31)
  | S754_infinity false => 2 ^ 31 - 1
  | S754_infinity true => - 2 ^ 31
  | _ => 0
  end.

Definition f64_add (x y : f64) : f64 := SFadd f64_prec f64_emax x y.
Definition f64_sub (x y : f64) : f64 := SFsub f64_prec f64_emax x y.
Definition f64_sqrt (x : f64) : f64 := SFsqrt f64_prec f64_emax x.
Definition f64_mul_add (x y z : f64) : f64 := mul_add f64_prec f64_emax x y z.
Definition f64_eqb (x y : f64) : bool := SFeqb x y.
Definition f64_abs (x : f64) : f64 := SFabs x.
Definition f64_zero : f64 := S754_zero false.
Definition f64_infinity : f64 := S754_infinity false.
Definition f64_neg_infinity : f64 := S754_infinity true.
(** [f64::round]. *)
Definition f64_round (x : f64) : f64 :=
  match x with
  | S754_finite s m e =>
      if 0 <=? e then x
      else
        let v := mantissa_round m e in
        binary_normalize f64_prec f64_emax (if s then - v else v) 0 s
  | _ => x
  end.
Definition f64_is_nan (x : f64) : bool := match x with S754_nan => true | _ => false end.

(** [f64::from] of an [f32]: exact. *)
Definition f64_of_f32 (x : f32) : f64 :=
  match x with
  | S754_finite s m e => binary_normalize f64_prec f64_emax (signed s m) e s
  | _ => x
  end.

(** [f64::floor]. *)
Definition f64_floor (x : f64) : f64 :=
  match x with
  | S754_finite s m e =>
      if 0 <=? e then x
      else binary_normalize f64_prec f64_emax (signed s m / 2 ^ (- e)) 0 s
  | _ => x
  end.

(** [f64::clamp] and [f64::copysign]. *)
Definition f64_clamp (x lo hi : f64) : f64 :=
  if f64_ltb x lo then lo else if f64_ltb hi x then hi else x.
Definition f64_copysign (x y : f64) : f64 :=
  match x with
  | S754_finite _ m e => S754_finite (is_sign_negative y) m e
  | S754_zero _ => S754_zero (is_sign_negative y)
  | S754_infinity _ => S754_infinity (is_sign_negative y)
  | S754_nan => S754_nan
  end.

(** * Ordering

    Comparisons read a value as a key in lexicographic order; a NaN has none. *)

Definition float_key (x : spec_float) : option (Z * (Z * Z)) :=
  match x with
  | S754_infinity true => Some (-2, (0, 0))
  | S754_finite true m e => Some (-1, (- e, - Z.pos m))
  | S754_zero _ => Some (0, (0, 0))
  | S754_finite false m e => Some (1, (e, Z.pos m))
  | S754_infinity false => Some (2, (0, 0))
  | S754_nan => None
  end.

Definition key_lt (a b : Z * (Z * Z)) : Prop :=
  a.1 < b.1 \/ (a.1 = b.1 /\ (a.2.1 < b.2.1 \/ (a.2.1 = b.2.1 /\ a.2.2 < b.2.2))).

Lemma SFltb_key x y :
  SFltb x y = true <->
  exists a b, float_key x = Some a /\ float_key y = Some b /\ key_lt a b.
Proof.
  unfold SFltb, key_lt.
  destruct x as [sx|[]| |[] mx ex], y as [sy|[]| |[] my ey]; cbn;
    try (split; [discriminate|intros (a & b & Ha & Hb & Hl); simplify_eq; cbn in Hl; lia]);
    try (split; [intros _; eexists _, _; split_and!; [done|done|cbn; lia]|done]);
    try (split; [done|intros (a & b & Ha & Hb & Hl); discriminate]).
  all: destruct (Z.compare_spec ex ey); cbn;
    (split; [intros Hc; eexists _, _; split_and!; [done|done|cbn]
            |intros (a & b & [= <-] & [= <-] & Hl); cbn in Hl]).
  all: try discriminate; try lia; try done.
  all: change (PosDef.Pos.compare_cont Eq mx my) with (Pos.compare mx my) in *;
    destruct (Pos.compare_spec mx my); cbn in *; try discriminate; try done; lia.
Qed.

Lemma SFltb_asym x y : SFltb x y = true -> SFltb y x = false.
Proof.
  intros (a & b & Ha & Hb & Hl)%SFltb_key. apply not_true_is_false. intros (a' & b' & Ha' & Hb' & Hl')%SFltb_key.
  simplify_eq. unfold key_lt in *. lia.
Qed.

(** "Not below" is transitive through a number. *)
Lemma SFltb_not_trans x y z :
  y <> S754_nan -> SFltb y x = false -> SFltb z y = false -> SFltb z x = false.
Proof.
  intros Hy Hyx Hzy. apply not_true_is_false. intros (c & a & Hc & Ha & Hl)%SFltb_key.
  destruct (float_key y) as [b|] eqn:Hb; [|by destruct y as [?|[]| |[]]].
  assert (~ key_lt b a) by (intros ?; rewrite (proj2 (SFltb_key y x)) in Hyx; [done|eauto 6]).
  assert (~ key_lt c b) by (intros ?; rewrite (proj2 (SFltb_key z y)) in Hzy; [done|eauto 6]).
  unfold key_lt in *. lia.
Qed.

Lemma SFcompare_swap x y : SFcompare y x = CompOpp <$> SFcompare x y.
Proof.
  destruct x as [sx|[]| |[] mx ex], y as [sy|[]| |[] my ey]; cbn; try done;
    rewrite (Z.compare_antisym ex ey);
    change (PosDef.Pos.compare_cont Eq mx my) with (Pos.compare mx my);
    change (PosDef.Pos.compare_cont Eq my mx) with (Pos.compare my mx);
    rewrite (Pos.compare_antisym mx my); destruct (ex ?= ey); cbn; try done; by destruct (mx ?= my)%positive.
Qed.

Lemma SFcompare_numbers x y : x <> S754_nan -> y <> S754_nan -> is_Some (SFcompare x y).
Proof.
  intros Hx Hy. destruct x as [sx|[]| |[] mx ex], y as [sy|[]| |[] my ey]; cbn; try done; eauto;
    destruct (ex ?= ey); eauto.
Qed.

(** Between numbers, "not below" is "at least". *)
Lemma SFleb_ltb x y :
  x <> S754_nan -> y <> S754_nan -> SFleb x y = negb (SFltb y x).
Proof.
  intros Hx Hy. unfold SFleb, SFltb. rewrite (SFcompare_swap x y).
  destruct (SFcompare_numbers x y Hx Hy) as [c ->]. by destruct c.
Qed.

Lemma SFltb_trans x y z : SFltb x y = true -> SFltb y z = true -> SFltb x z = true.
Proof.
  rewrite !SFltb_key. intros (a & b & Ha & Hb & Hl) (b' & c & Hb' & Hc & Hl'). simplify_eq.
  exists a, c. split_and!; [done|done|]. unfold key_lt in *. lia.
Qed.

Example f32_literal_is_nearest :
  f32_tenths 693 = S754_finite false 9083290 (-17).
Proof. reflexivity. Qed.

Example f32_round_half_away :
  f32_round (f32_div (f32_of_Z 5) (f32_of_Z 2)) = f32_of_Z 3.
Proof. reflexivity. Qed.
