(* ===== verification/Decimal.v ===== *)
(** * Decimal text of numbers

    What the sources use of Rust's number formatting and parsing: [to_string] and
    [str::parse] of unsigned integers, [{:.k}] of a float and [str::parse] of [f32]
    and [f64]. Text is a list of code points. *)

From Stdlib Require Import SpecFloat.
From S2P Require Import Prelude Float.

Local Open Scope Z_scope.

(** ** Unsigned integers *)

Fixpoint decimal_digits (fuel : nat) (n : Z) : list Z :=
  match fuel with
  | O => []
  | S fuel => if n <? 10 then [48 + n] else decimal_digits fuel (n / 10) ++ [48 + n mod 10]
  end.

(** A number has no more decimal digits than binary ones. *)
Definition show_uint (n : Z) : list Z := decimal_digits (S (Z.to_nat (Z.log2 n))) n.

(** [{:0width}]. *)
Definition pad_zero (width : nat) (l : list Z) : list Z := repeat 48 (width - length l) ++ l.

Definition is_digit (c : Z) : bool := (48 <=? c) && (c <=? 57).

Fixpoint parse_digits (w acc : Z) (l : list Z) : option Z :=
  match l with
  | [] => Some acc
  | c :: r =>
      if is_digit c
      then let acc := acc * 10 + (c - 48) in
           if acc <? 2 ^ w then parse_digits w acc r else None
      else None
  end.

(** [str::parse] of a [w]-bit unsigned integer. *)
Definition parse_uint (w : Z) (l : list Z) : option Z :=
  match l with
  | [] => None
  | 43 :: [] => None
  | 43 :: r => parse_digits w 0 r
  | _ => parse_digits w 0 l
  end.

(** ** Floats *)

(** The float nearest to [n / d], for [0 <= n] and [0 < d]. *)
Definition float_ratio (prec emax : Z) (s : bool) (n d : Z) : spec_float :=
  match n with
  | Zpos _ =>
      let '(mz, ez, lz) := SFdiv_core_binary prec emax n 0 d 0 in
      binary_round_aux prec emax s mz ez lz
  | _ => S754_zero s
  end.

Definition float_decimal (prec emax : Z) (s : bool) (mantissa e10 : Z) : spec_float :=
  if 0 <=? e10 then float_ratio prec emax s (mantissa * 10 ^ e10) 1
  else float_ratio prec emax s mantissa (10 ^ (- e10)).

(** [a / b] rounded to the nearest integer, ties to even. *)
Definition div_nearest (a b : Z) : Z :=
  let q := a / b in
  let r := a mod b in
  if 2 * r <? b then q else if b <? 2 * r then q + 1 else if Z.even q then q else q + 1.

Definition sign_text (s : bool) : list Z := if s then [45] else [].

(** [format!("{:.k}", x)] of a float, [k] positive: the exact value rounded to
    [k] decimals. *)
Definition format_fixed (k : nat) (x : spec_float) : list Z :=
  match x with
  | S754_nan => byte_str "NaN"
  | S754_infinity s => sign_text s ++ byte_str "inf"
  | S754_zero s => sign_text s ++ [48; 46] ++ repeat 48 k
  | S754_finite s m e =>
      let scale := 10 ^ Z.of_nat k in
      let n := if 0 <=? e then Z.pos m * 2 ^ e * scale else div_nearest (Z.pos m * scale) (2 ^ (- e)) in
      sign_text s ++ show_uint (n / scale) ++ [46] ++ pad_zero k (show_uint (n mod scale))
  end.

Fixpoint span_digits (l : list Z) : list Z * list Z :=
  match l with
  | c :: r => if is_digit c then let '(d, r) := span_digits r in (c :: d, r) else ([], l)
  | [] => ([], [])
  end.

Definition digits_value (l : list Z) : Z := fold_left (fun acc c => acc * 10 + (c - 48)) l 0.

(** The exponent part: none, or [e] or [E], a sign, and at least one digit, and
    nothing after. *)
Definition parse_exponent (l : list Z) : option Z :=
  match l with
  | [] => Some 0
  | c :: r =>
      if (c =? 101) || (c =? 69) then
        let '(neg, r) := match r with 43 :: r => (false, r) | 45 :: r => (true, r) | _ => (false, r) end in
        match span_digits r with
        | ([], _) => None
        | (ds, []) => Some (if (neg : bool) then - digits_value ds else digits_value ds)
        | (_, _ :: _) => None
        end
      else None
  end.

Definition parse_number (prec emax : Z) (s : bool) (l : list Z) : option spec_float :=
  let '(whole, r) := span_digits l in
  let '(frac, r) := match r with 46 :: r => span_digits r | _ => ([], r) end in
  match whole ++ frac with
  | [] => None
  | ds => e ← parse_exponent r; Some (float_decimal prec emax s (digits_value ds) (e - Z.of_nat (length frac)))
  end.

Definition ascii_lower (c : Z) : Z := if (65 <=? c) && (c <=? 90) then c + 32 else c.

Definition parse_inf_nan (s : bool) (l : list Z) : option spec_float :=
  let l := map ascii_lower l in
  if bool_decide (l = byte_str "nan") then Some S754_nan
  else if bool_decide (l = byte_str "inf" \/ l = byte_str "infinity") then Some (S754_infinity s)
  else None.

(** [str::parse] of a float. *)
Definition parse_float (prec emax : Z) (l : list Z) : option spec_float :=
  let '(s, l) := match l with 45 :: l => (true, l) | 43 :: l => (false, l) | _ => (false, l) end in
  match parse_number prec emax s l with
  | Some x => Some x
  | None => parse_inf_nan s l
  end.
Definition parse_f64 : list Z -> option f64 := parse_float f64_prec f64_emax.
Definition parse_f32 : list Z -> option f32 := parse_float f32_prec f32_emax.

(** ** Reading back what was written *)

Lemma decimal_digits_step fuel n :
  decimal_digits (S fuel) n
  = if n <? 10 then [48 + n] else decimal_digits fuel (n / 10) ++ [48 + n mod 10].
Proof. done. Qed.

Lemma is_digit_48 d : 0 <= d < 10 -> is_digit (48 + d) = true.
Proof. unfold is_digit. lia. Qed.

Lemma parse_decimal_digits w fuel : forall n r,
  0 <= n < 10 ^ Z.of_nat fuel -> n < 2 ^ w -> fuel <> 0%nat ->
  parse_digits w 0 (decimal_digits fuel n ++ r) = parse_digits w n r.
Proof.
  induction fuel as [|fuel IH]; intros n r Hn Hw Hf; [done|].
  rewrite decimal_digits_step. destruct (n <? 10) eqn:E.
  - cbn [app parse_digits]. rewrite is_digit_48 by lia.
    replace (0 * 10 + (48 + n - 48)) with n by lia. by rewrite (proj2 (Z.ltb_lt _ _) Hw).
  - rewrite Nat2Z.inj_succ, Z.pow_succ_r in Hn by lia.
    assert (fuel <> 0%nat) by (intros ->; cbn in Hn; lia).
    pose proof (Z.div_mod n 10 ltac:(lia)). pose proof (Z.mod_pos_bound n 10 ltac:(lia)).
    rewrite <- app_assoc, IH by (lia || done).
    cbn [app parse_digits]. rewrite is_digit_48 by lia.
    replace (n / 10 * 10 + (48 + n mod 10 - 48)) with n by lia.
    by rewrite (proj2 (Z.ltb_lt _ _) Hw).
Qed.

Lemma decimal_digits_Forall fuel n : 0 <= n -> Forall (fun c => is_digit c = true) (decimal_digits fuel n).
Proof.
  revert n. induction fuel as [|fuel IH]; intros n Hn; [constructor|].
  rewrite decimal_digits_step. destruct (n <? 10) eqn:E.
  - constructor; [apply is_digit_48; lia|constructor].
  - apply Forall_app. split; [apply IH, Z.div_pos; lia|].
    constructor; [apply is_digit_48, Z.mod_pos_bound; lia|constructor].
Qed.

Lemma decimal_digits_cons fuel n : fuel <> 0%nat -> exists c r, decimal_digits fuel n = c :: r.
Proof.
  destruct fuel as [|fuel]; [done|]. intros _. rewrite decimal_digits_step.
  destruct (n <? 10); [eauto|]. destruct (decimal_digits fuel (n / 10)); cbn; eauto.
Qed.

Lemma parse_uint_digits w l :
  l <> [] -> Forall (fun c => is_digit c = true) l -> parse_uint w l = parse_digits w 0 l.
Proof.
  intros Hl Hd. destruct l as [|c l]; [done|]. inversion_clear Hd as [|? ? Hc _].
  unfold parse_uint. destruct (decide (c = 43)) as [->|Hne]; [done|]. by repeat case_match.
Qed.

Lemma parse_uint_decimal w fuel n :
  0 <= n < 10 ^ Z.of_nat fuel -> n < 2 ^ w -> fuel <> 0%nat -> parse_uint w (decimal_digits fuel n) = Some n.
Proof.
  intros Hn Hw Hf. destruct (decimal_digits_cons fuel n Hf) as (c & r & E).
  rewrite parse_uint_digits; [|by rewrite E|apply decimal_digits_Forall; lia].
  by rewrite <- (app_nil_r (decimal_digits _ _)), parse_decimal_digits.
Qed.

Lemma log2_fuel n : 0 <= n -> n < 10 ^ Z.of_nat (S (Z.to_nat (Z.log2 n))).
Proof.
  intros Hn. rewrite Nat2Z.inj_succ, Z2Nat.id by apply Z.log2_nonneg.
  destruct (decide (n = 0)) as [->|Hne]; [done|].
  pose proof (Z.log2_spec n ltac:(lia)). pose proof (Z.log2_nonneg n).
  enough (2 ^ Z.succ (Z.log2 n) <= 10 ^ Z.succ (Z.log2 n)) by lia. apply Z.pow_le_mono_l. lia.
Qed.

Lemma parse_show_uint w n : 0 <= n < 2 ^ w -> parse_uint w (show_uint n) = Some n.
Proof. intros Hn. apply parse_uint_decimal; [split; [lia|apply log2_fuel; lia]|lia|done]. Qed.

Lemma digits_value_app a b : digits_value (a ++ b) = digits_value a * 10 ^ Z.of_nat (length b) + digits_value b.
Proof.
  unfold digits_value. rewrite fold_left_app. generalize (fold_left (fun acc c => acc * 10 + (c - 48)) a 0) as x.
  induction b as [|c b IH] using rev_ind; intros x; [cbn; lia|].
  rewrite !fold_left_app, length_app, IH. cbn [fold_left length].
  replace (Z.of_nat (length b + 1)) with (Z.succ (Z.of_nat (length b))) by lia.
  rewrite Z.pow_succ_r by lia. lia.
Qed.

Lemma digits_value_decimal fuel : forall n,
  0 <= n < 10 ^ Z.of_nat fuel -> fuel <> 0%nat -> digits_value (decimal_digits fuel n) = n.
Proof.
  induction fuel as [|fuel IH]; intros n Hn Hf; [done|]. rewrite decimal_digits_step.
  destruct (n <? 10) eqn:E; [unfold digits_value; cbn; lia|].
  rewrite Nat2Z.inj_succ, Z.pow_succ_r in Hn by lia.
  assert (fuel <> 0%nat) by (intros ->; cbn in Hn; lia).
  pose proof (Z.div_mod n 10 ltac:(lia)). pose proof (Z.mod_pos_bound n 10 ltac:(lia)).
  rewrite digits_value_app, IH by (lia || done). unfold digits_value. cbn. lia.
Qed.

Lemma digits_value_zeros k l : digits_value (repeat 48 k ++ l) = digits_value l.
Proof.
  rewrite digits_value_app. assert (digits_value (repeat 48 k) = 0) as ->; [|lia].
  unfold digits_value. induction k as [|k IH]; [done|]. exact IH.
Qed.

Lemma digits_value_show n : 0 <= n -> digits_value (show_uint n) = n.
Proof. intros Hn. apply digits_value_decimal; [split; [lia|by apply log2_fuel]|done]. Qed.

Lemma decimal_digits_length fuel k : forall n,
  0 <= n < 10 ^ Z.of_nat k -> k <> 0%nat -> (length (decimal_digits fuel n) <= k)%nat.
Proof.
  revert k. induction fuel as [|fuel IH]; intros k n Hn Hk; [cbn; lia|]. rewrite decimal_digits_step.
  destruct (n <? 10) eqn:E; [cbn; lia|].
  destruct k as [|k]; [done|]. rewrite Nat2Z.inj_succ, Z.pow_succ_r in Hn by lia.
  assert (k <> 0%nat) by (intros ->; cbn in Hn; lia).
  rewrite length_app. cbn [length].
  pose proof (IH k (n / 10) ltac:(split; [apply Z.div_pos; lia|apply Z.div_lt_upper_bound; lia]) ltac:(done)). lia.
Qed.

Lemma length_pad_zero k n :
  0 <= n < 10 ^ Z.of_nat k -> k <> 0%nat -> length (pad_zero k (show_uint n)) = k.
Proof.
  intros Hn Hk. unfold pad_zero. rewrite length_app, repeat_length.
  pose proof (decimal_digits_length (S (Z.to_nat (Z.log2 n))) k n Hn Hk). unfold show_uint. lia.
Qed.

Lemma show_uint_digits n : 0 <= n -> Forall (fun c => is_digit c = true) (show_uint n).
Proof. apply decimal_digits_Forall. Qed.

Lemma pad_zero_digits k l :
  Forall (fun c => is_digit c = true) l -> Forall (fun c => is_digit c = true) (pad_zero k l).
Proof.
  intros Hl. apply Forall_app. split; [|done]. induction (k - length l)%nat; constructor; done.
Qed.

Lemma span_digits_app ds r :
  Forall (fun c => is_digit c = true) ds ->
  match r with c :: _ => is_digit c = false | [] => True end ->
  span_digits (ds ++ r) = (ds, r).
Proof.
  intros Hds Hr. induction Hds as [|c ds Hc Hds IH]; cbn [app span_digits].
  - destruct r as [|c r]; [done|]. cbn [span_digits]. by rewrite Hr.
  - by rewrite Hc, IH.
Qed.

(** A number in fixed notation parses to the float nearest to it. *)
Lemma parse_fixed prec emax k n :
  0 <= n -> k <> 0%nat ->
  parse_float prec emax
    (show_uint (n / 10 ^ Z.of_nat k) ++ [46] ++ pad_zero k (show_uint (n mod 10 ^ Z.of_nat k)))
  = Some (float_ratio prec emax false n (10 ^ Z.of_nat k)).
Proof.
  intros Hn Hk. set (scale := 10 ^ Z.of_nat k).
  assert (0 < scale) as Hs by (apply Z.pow_pos_nonneg; lia).
  assert (0 <= n / scale) by (apply Z.div_pos; lia).
  pose proof (Z.mod_pos_bound n scale Hs) as Hm.
  destruct (decimal_digits_cons (S (Z.to_nat (Z.log2 (n / scale)))) (n / scale) ltac:(done)) as (c & r & E).
  fold (show_uint (n / scale)) in E.
  pose proof (show_uint_digits (n / scale) ltac:(done)) as Hd. rewrite E in Hd.
  assert (is_digit c = true) as Hc by by inversion Hd.
  unfold parse_float. rewrite E. cbn [app].
  assert (c <> 45 /\ c <> 43) as [] by (unfold is_digit in Hc; lia).
  replace (match c with 45 => _ | 43 => _ | _ => _ end) with (false, c :: r ++ [46] ++ pad_zero k (show_uint (n mod scale)))
    by by repeat case_match.
  cbv beta iota. rewrite app_comm_cons, <- E. unfold parse_number.
  rewrite span_digits_app by (done || by apply show_uint_digits). cbn [app].
  pose proof (span_digits_app (pad_zero k (show_uint (n mod scale))) []
    (pad_zero_digits _ _ (show_uint_digits _ (proj1 Hm))) I) as Hf. rewrite app_nil_r in Hf. rewrite Hf.
  destruct (show_uint (n / scale) ++ pad_zero k (show_uint (n mod scale))) as [|d ds] eqn:Hds.
  { rewrite E in Hds. done. }
  rewrite <- Hds. cbn [parse_exponent mbind option_bind].
  rewrite digits_value_app, length_pad_zero by done. unfold pad_zero at 1.
  rewrite digits_value_zeros, !digits_value_show by lia.
  unfold float_decimal. replace (0 <=? 0 - Z.of_nat k) with false by lia.
  replace (- (0 - Z.of_nat k)) with (Z.of_nat k) by lia. fold scale.
  replace (n / scale * scale + n mod scale) with n by (pose proof (Z.div_mod n scale); lia). done.
Qed.
