(* ===== verification/FloatRound.v ===== *)
(** * Rounding of binary64 products and quotients

    [SpecFloat] computes a product or a quotient exactly, keeps the position of the
    remainder (below, at or above one half) and rounds to nearest even. The lemmas
    here state what that gives for positive normal numbers: a mantissa of 53 bits
    within one half of the exact quotient. *)

From Stdlib Require Import SpecFloat.
From S2P Require Import Prelude Float Decimal.

Local Open Scope Z_scope.

Lemma digits2_log2 p : Z.pos (digits2_pos p) = Z.log2 (Z.pos p) + 1.
Proof.
  induction p as [p IH|p IH|]; cbn [digits2_pos]; rewrite ?Pos2Z.inj_succ, ?IH; [| |done].
  - rewrite Pos2Z.inj_xI, Z.log2_succ_double by lia. lia.
  - rewrite Pos2Z.inj_xO, Z.log2_double by lia. lia.
Qed.

Lemma Zdigits2_log2 n : 0 < n -> Zdigits2 n = Z.log2 n + 1.
Proof. destruct n as [|p|p]; [done| |done]. intros _. apply digits2_log2. Qed.

(** A record of a shift stands for the quotient [n / d]: its integer part, whether
    the fraction reaches one half, and whether anything is left below that. *)
Record stands_for (mrs : shr_record) (n d : Z) : Prop := mkStands {
  sf_pos : 0 <= n /\ 0 < d;
  sf_int : shr_m mrs = n / d;
  sf_half : shr_r mrs = (d <=? 2 * (n mod d));
  sf_rest : shr_s mrs = negb ((2 * (n mod d)) mod d =? 0) }.

Lemma shr_1_even_odd m r s :
  0 <= m -> shr_1 (Build_shr_record m r s) = Build_shr_record (m / 2) (Z.odd m) (r || s).
Proof.
  intros Hm. destruct m as [|p|p]; [done| |lia]. destruct p as [p|p|]; cbn [shr_1].
  - f_equal. rewrite Pos2Z.inj_xI. replace (2 * Z.pos p + 1) with (1 + Z.pos p * 2) by lia.
    by rewrite Z.div_add by lia.
  - f_equal. rewrite Pos2Z.inj_xO, Z.mul_comm. by rewrite Z.div_mul by lia.
  - done.
Qed.

Lemma shr_1_stands mrs n d : stands_for mrs n d -> stands_for (shr_1 mrs) n (d * 2).
Proof.
  intros [[Hn Hd] Hm Hr Hs]. destruct mrs as [m r s]. cbn in Hm, Hr, Hs.
  assert (0 <= m) by (subst; apply Z.div_pos; lia). rewrite shr_1_even_odd by done.
  pose proof (Z.mod_pos_bound n d Hd) as Hb. pose proof (Z.div_mod n d ltac:(lia)) as Hdm.
  assert (n mod (d * 2) = n mod d + d * (m mod 2)) as Hmod.
  { rewrite Hm. rewrite Z.rem_mul_r by lia. lia. }
  pose proof (Z.mod_pos_bound m 2 ltac:(lia)).
  constructor; cbn [shr_m shr_r shr_s]; [lia| | |].
  - by rewrite Hm, Z.div_div by lia.
  - rewrite Hmod. rewrite <- Z.bit0_odd, Z.bit0_eqb. destruct (decide (m mod 2 = 1)) as [->|]; [lia|].
    replace (m mod 2) with 0 by lia. lia.
  - rewrite Hr, Hs, Hmod. rewrite Z.mul_add_distr_l.
    replace (2 * (n mod d) + 2 * (d * (m mod 2))) with (2 * (n mod d + (m mod 2) * d)) by lia.
    rewrite (Z.mul_comm d 2), Z.mul_mod_distr_l by lia. rewrite Z.mod_add, (Z.mod_small (n mod d)) by lia.
    destruct (decide (n mod d = 0)) as [->|Hne]; [cbn; rewrite Z.mod_0_l by lia; lia|].
    replace (2 * (n mod d) =? 0) with false by lia. cbn [negb].
    destruct (d <=? 2 * (n mod d)) eqn:E; [done|]. cbn [orb].
    rewrite Z.mod_small by lia. lia.
Qed.

Lemma iter_shr_stands p : forall mrs n d,
  stands_for mrs n d -> stands_for (SpecFloat.iter_pos shr_1 p mrs) n (d * 2 ^ Z.pos p).
Proof.
  assert (forall x, 2 ^ (2 * Z.pos x) = 2 ^ Z.pos x * 2 ^ Z.pos x) as Hp.
  { intros x. rewrite <- Z.pow_add_r by lia. f_equal. lia. }
  induction p as [p IH|p IH|]; intros mrs n d H; cbn [SpecFloat.iter_pos].
  - apply shr_1_stands in H. do 2 apply IH in H.
    replace (2 ^ Z.pos p~1) with (2 * 2 ^ Z.pos p * 2 ^ Z.pos p); [by rewrite !Z.mul_assoc in *|].
    by rewrite (Pos2Z.inj_xI p), Z.add_1_r, Z.pow_succ_r, Hp, Z.mul_assoc by lia.
  - do 2 apply IH in H. rewrite (Pos2Z.inj_xO p), Hp, Z.mul_assoc. exact H.
  - by apply shr_1_stands in H.
Qed.

Lemma shr_stands mrs e k n d :
  0 <= k -> stands_for mrs n d ->
  exists mrs', shr mrs e k = (mrs', e + k) /\ stands_for mrs' n (d * 2 ^ k).
Proof.
  intros Hk H. destruct k as [|p|p]; [| |lia]; unfold shr.
  - exists mrs. split; [f_equal; lia|]. by rewrite Z.pow_0_r, Z.mul_1_r.
  - eexists. split; [done|]. by apply iter_shr_stands.
Qed.

Lemma stands_exact m : 0 <= m -> stands_for (shr_record_of_loc m loc_Exact) m 1.
Proof.
  intros Hm. constructor; cbn [shr_record_of_loc shr_m shr_r shr_s];
    rewrite ?Z.div_1_r, ?Z.mod_1_r; [lia|done|done|done].
Qed.

Lemma stands_quotient n d : 0 <= n -> 0 < d -> stands_for (shr_record_of_loc (n / d) (new_location d (n mod d))) n d.
Proof.
  intros Hn Hd. pose proof (Z.mod_pos_bound n d Hd) as Hb. set (k := n mod d) in *.
  assert (new_location d k = if k =? 0 then loc_Exact else loc_Inexact (2 * k ?= d)) as ->.
  { unfold new_location, new_location_even, new_location_odd. destruct (Z.even d) eqn:Ev; [done|].
    destruct (k =? 0); [done|]. f_equal.
    assert (2 * k <> d) by (intros Hk; rewrite <- Hk, Z.even_even in Ev; done).
    destruct (2 * k + 1 ?= d) eqn:E; destruct (2 * k ?= d) eqn:E'; (done || (rewrite ?Z.compare_eq_iff, ?Z.compare_lt_iff, ?Z.compare_gt_iff in *; lia)). }
  constructor; [lia| | |]; destruct (k =? 0) eqn:E0; cbn [shr_record_of_loc];
    try (destruct (2 * k ?= d) eqn:Ec); cbn [shr_m shr_r shr_s]; try done; fold k;
    rewrite ?Z.compare_eq_iff, ?Z.compare_lt_iff, ?Z.compare_gt_iff in *; try lia.
  - replace (2 * k) with 0 by lia. by rewrite Z.mod_0_l by lia.
  - rewrite Ec, Z.mod_same by lia. lia.
  - rewrite Z.mod_small by lia. lia.
  - replace (2 * k) with (2 * k - d + 1 * d) by lia. rewrite Z.mod_add, Z.mod_small by lia. lia.
Qed.

(** The rounded integer is within one half. *)
Lemma round_nearest_stands mrs n d :
  stands_for mrs n d ->
  let q := round_nearest_even (shr_m mrs) (loc_of_shr_record mrs) in
  2 * Z.abs (q * d - n) <= d /\ n / d <= q <= n / d + 1.
Proof.
  intros [[Hn Hd] Hm Hr Hs]. destruct mrs as [m r s]. cbn in Hm, Hr, Hs. cbn [shr_m].
  pose proof (Z.mod_pos_bound n d Hd) as Hb. pose proof (Z.div_mod n d ltac:(lia)) as Hdm.
  set (k := n mod d) in *. subst m.
  assert ((2 * k) mod d = 0 -> k = 0 \/ 2 * k = d) as Hz.
  { intros H. destruct (decide (2 * k < d)); [rewrite Z.mod_small in H; lia|].
    replace (2 * k) with (2 * k - d + 1 * d) in H by lia. rewrite Z.mod_add, Z.mod_small in H by lia. lia. }
  destruct r, s; cbn [loc_of_shr_record round_nearest_even]; try (destruct (Z.even (n / d))); split; try lia;
    try (apply Z.eqb_eq in Hs || (symmetry in Hs; apply negb_false_iff, Z.eqb_eq in Hs)); try (apply Hz in Hs); nia.
Qed.

(** The float of mantissa [q], a power of two renormalised. *)
Definition normal (q e : Z) : f64 :=
  if q =? 2 ^ 53 then S754_finite false (Z.to_pos (2 ^ 52)) (e + 1) else S754_finite false (Z.to_pos q) e.

Lemma shr_fexp_normal m e l n d :
  stands_for (shr_record_of_loc m l) n d -> 2 ^ 52 <= m -> -1000 <= Z.log2 m + e ->
  exists mrs, shr_fexp f64_prec f64_emax m e l = (mrs, e + (Z.log2 m - 52)) /\
              stands_for mrs n (d * 2 ^ (Z.log2 m - 52)) /\ 2 ^ 52 <= shr_m mrs < 2 ^ 53.
Proof.
  intros Hst Hm He. unfold shr_fexp, fexp, SpecFloat.emin, f64_prec, f64_emax.
  rewrite Zdigits2_log2 by lia.
  assert (52 <= Z.log2 m) as Hk by (apply Z.log2_le_pow2; lia).
  replace (Z.max _ _ - e) with (Z.log2 m - 52) by lia.
  destruct (shr_stands _ e (Z.log2 m - 52) n d ltac:(lia) Hst) as (mrs & -> & H). exists mrs.
  split; [done|]. split; [done|]. rewrite (sf_int _ _ _ H).
  assert (n / d = m) as Hnd by (rewrite <- (sf_int _ _ _ Hst); by destruct l as [|[]]).
  destruct (sf_pos _ _ _ Hst). rewrite <- Z.div_div, Hnd by lia.
  pose proof (Z.log2_spec m ltac:(lia)) as [Hlo Hhi].
  replace (Z.log2 m) with (52 + (Z.log2 m - 52)) in Hlo at 1 by lia.
  replace (Z.succ (Z.log2 m)) with (53 + (Z.log2 m - 52)) in Hhi by lia.
  rewrite Z.pow_add_r in Hlo, Hhi by lia.
  split; [apply Z.div_le_lower_bound|apply Z.div_lt_upper_bound]; lia.
Qed.

Lemma binary_round_aux_normal m e l n d :
  stands_for (shr_record_of_loc m l) n d -> 2 ^ 52 <= m -> -900 <= Z.log2 m + e <= 900 ->
  let k := Z.log2 m - 52 in
  exists q, binary_round_aux f64_prec f64_emax false m e l = normal q (e + k) /\
            2 ^ 52 <= q <= 2 ^ 53 /\ 2 * Z.abs (q * (d * 2 ^ k) - n) <= d * 2 ^ k.
Proof.
  intros Hst Hm He k. unfold binary_round_aux.
  destruct (shr_fexp_normal m e l n d Hst Hm ltac:(lia)) as (mrs & -> & H & Hb). fold k.
  destruct (round_nearest_stands _ _ _ H) as [Hnear Hq]. cbv zeta in Hnear, Hq.
  rewrite <- (sf_int _ _ _ H) in Hq.
  set (q := round_nearest_even _ _) in *. exists q.
  assert (2 ^ 52 <= q <= 2 ^ 53) as Hq' by lia. split; [|done].
  assert (Z.log2 q = if q =? 2 ^ 53 then 53 else 52) as Hlog.
  { destruct (q =? 2 ^ 53) eqn:E; [by replace q with (2 ^ 53) by lia|]. apply Z.log2_unique; lia. }
  destruct (shr_fexp_normal q (e + k) loc_Exact q 1) as (mrs2 & -> & H2 & _);
    [apply stands_exact; lia|lia|rewrite Hlog; destruct (q =? 2 ^ 53); lia|].
  rewrite (sf_int _ _ _ H2), Hlog. unfold normal, f64_prec, f64_emax.
  destruct (q =? 2 ^ 53) eqn:E.
  - replace q with (2 ^ 53) by lia. cbn [Z.sub]. change (2 ^ 53 / (1 * 2 ^ (53 - 52))) with (2 ^ 52).
    change (2 ^ 52) with 4503599627370496. cbn match. by replace (_ <=? _) with true by lia.
  - replace (q / (1 * 2 ^ (52 - 52))) with q by (cbn; by rewrite Z.div_1_r).
    replace (e + k + (52 - 52)) with (e + k) by lia.
    destruct q as [|p|p]; [lia| |lia]. by replace (_ <=? _) with true by lia.
Qed.

Lemma log2_shift n k : 0 < n -> 0 <= k -> Z.log2 (n * 2 ^ k) = Z.log2 n + k.
Proof. intros. rewrite Z.log2_mul_pow2 by lia. lia. Qed.

Lemma log2_bounds n : 0 < n -> 2 ^ Z.log2 n <= n < 2 * 2 ^ Z.log2 n.
Proof.
  intros Hn. pose proof (Z.log2_spec n Hn) as H. pose proof (Z.log2_nonneg n).
  rewrite Z.pow_succ_r in H by lia. lia.
Qed.

(** Quotients: for the quotient of [m1 * 2^e1] by [m2 * 2^e2], the rounded mantissa
    and its exponent. *)
Lemma div_core_normal m1 e1 m2 e2 :
  0 < m1 -> 0 < m2 ->
  let x := Z.log2 m1 + e1 - (Z.log2 m2 + e2) in
  -800 <= x <= 800 -> x - 52 <= e1 - e2 ->
  exists q e, (let '(mz, ez, lz) := SFdiv_core_binary f64_prec f64_emax m1 e1 m2 e2 in
               binary_round_aux f64_prec f64_emax false mz ez lz) = normal q e /\
    2 ^ 52 <= q <= 2 ^ 53 /\ x - 53 <= e <= x - 52 /\
    2 * Z.abs (q * m2 - m1 * 2 ^ (e1 - e2 - e)) <= m2 /\
    2 ^ 52 * m2 <= m1 * 2 ^ (e1 - e2 - e) < 2 ^ 53 * m2.
Proof.
  intros Hm1 Hm2 x Hx He. unfold SFdiv_core_binary, fexp, SpecFloat.emin. rewrite !Zdigits2_log2 by done.
  set (s := e1 - e2 - (x - 53)).
  replace (Z.min _ _) with (x - 53) by (unfold x, f64_prec, f64_emax in *; lia). fold s.
  assert (1 <= s) as Hs by lia.
  replace (match s with Z0 => m1 | Z.pos _ => Z.shiftl m1 s | Z.neg _ => 0 end) with (m1 * 2 ^ s)
    by (destruct s; [lia|by rewrite Z.shiftl_mul_pow2 by lia|lia]).
  set (n := m1 * 2 ^ s). assert (0 < n) as Hn by (unfold n; pose proof (Z.pow_pos_nonneg 2 s); nia).
  pose proof (Z.log2_nonneg m1). pose proof (Z.log2_nonneg m2).
  assert (Z.log2 n = Z.log2 m2 + 53) as Hlog by (unfold n; rewrite log2_shift by lia; unfold s, x; lia).
  pose proof (log2_bounds n Hn) as Hbn. pose proof (log2_bounds m2 Hm2) as Hb2.
  rewrite Hlog, Z.pow_add_r in Hbn by lia.
  unfold Z.div_eucl. fold (Z.div_eucl n m2).
  destruct (Z.div_eucl n m2) as [mz r] eqn:Heu.
  assert (mz = n / m2) as -> by (unfold Z.div; by rewrite Heu).
  assert (r = n mod m2) as -> by (unfold Z.modulo; by rewrite Heu).
  assert (2 ^ 52 <= n / m2 < 2 ^ 54) as Hmz
    by (split; [apply Z.div_le_lower_bound|apply Z.div_lt_upper_bound]; lia).
  set (k := Z.log2 (n / m2) - 52).
  assert (0 <= k <= 1) as Hk.
  { unfold k. assert (52 <= Z.log2 (n / m2) < 54); [|lia].
    split; [apply Z.log2_le_pow2|apply Z.log2_lt_pow2]; lia. }
  destruct (binary_round_aux_normal (n / m2) (x - 53) (new_location m2 (n mod m2)) n m2) as (q & Hr & Hq & Hnear);
    [apply stands_quotient; lia|lia|lia|]. fold k in Hr, Hnear.
  exists q, (x - 53 + k). split; [done|]. split; [done|]. split; [lia|].
  pose proof (Z.pow_pos_nonneg 2 k ltac:(lia) ltac:(lia)) as Hpk.
  assert (n = m1 * 2 ^ (e1 - e2 - (x - 53 + k)) * 2 ^ k) as Hnk.
  { unfold n. rewrite <- Z.mul_assoc, <- Z.pow_add_r by lia. do 2 f_equal. lia. }
  set (n' := m1 * 2 ^ (e1 - e2 - (x - 53 + k))) in *.
  split.
  - rewrite Hnk in Hnear. rewrite Z.mul_assoc, <- Z.mul_sub_distr_r, Z.abs_mul, (Z.abs_eq (2 ^ k)) in Hnear by lia. nia.
  - pose proof (log2_bounds (n / m2) ltac:(lia)) as Hb.
    replace (Z.log2 (n / m2)) with (52 + k) in Hb by lia. rewrite Z.pow_add_r in Hb by lia.
    pose proof (Z.div_mod n m2 ltac:(lia)). pose proof (Z.mod_pos_bound n m2 Hm2).
    set (y := n / m2) in *. assert (y * m2 <= n' * 2 ^ k < (y + 1) * m2) as Hy by lia. clearbody y n'. nia.
Qed.

(** [x] is the float nearest to [n / d], of magnitude below 2^53. *)
Definition nearest_ratio (x : f64) (n d : Z) : Prop :=
  exists q e, x = normal q e /\ 2 ^ 52 <= q <= 2 ^ 53 /\ -900 <= e <= 0 /\
    2 * Z.abs (q * d - n * 2 ^ (- e)) <= d /\ 2 ^ 52 * d <= n * 2 ^ (- e) < 2 ^ 53 * d.

Lemma log2_range n b : 0 < n < 2 ^ b -> 0 <= Z.log2 n < b.
Proof. intros Hn. split; [apply Z.log2_nonneg|apply Z.log2_lt_pow2; lia]. Qed.

Lemma float_ratio_nearest n d :
  0 < n < 2 ^ 53 -> 0 < d < 2 ^ 53 -> nearest_ratio (float_ratio f64_prec f64_emax false n d) n d.
Proof.
  intros Hn Hd. pose proof (log2_range n 53 Hn). pose proof (log2_range d 53 Hd).
  destruct (div_core_normal n 0 d 0) as (q & e & Hr & Hq & He & Hnear & Hb); [lia..|].
  exists q, e. replace (0 - 0 - e) with (- e) in * by lia.
  split; [|repeat split; lia]. unfold float_ratio. destruct n as [|p|p]; [lia| |lia]. exact Hr.
Qed.

Lemma iter_xO p d : Z.pos (Pos.iter xO p d) = Z.pos p * 2 ^ Z.pos d.
Proof.
  induction d as [|d IH] using Pos.peano_ind; [cbn; lia|].
  rewrite Pos.iter_succ, Pos2Z.inj_xO, IH, Pos2Z.inj_succ, Z.pow_succ_r by lia. lia.
Qed.

(** Integers below 2^53 are exact. *)
Lemma f64_of_Z_exact n :
  0 < n < 2 ^ 53 -> f64_of_Z n = S754_finite false (Z.to_pos (n * 2 ^ (52 - Z.log2 n))) (Z.log2 n - 52).
Proof.
  intros Hn. pose proof (log2_range n 53 Hn) as Hl. destruct n as [|p|p]; [lia| |lia].
  set (k := Z.log2 (Z.pos p)) in *. set (m := Z.pos p * 2 ^ (52 - k)).
  assert (0 < m) as Hm by (unfold m; pose proof (Z.pow_pos_nonneg 2 (52 - k)); lia).
  assert (Z.log2 m = 52) as Hlm by (unfold m; rewrite log2_shift by lia; fold k; lia).
  unfold f64_of_Z, binary_normalize, binary_round.
  assert (shl_align p 0 (fexp f64_prec f64_emax (Z.pos (digits2_pos p) + 0)) = (Z.to_pos m, k - 52)) as ->.
  { rewrite digits2_log2. fold k. unfold fexp, SpecFloat.emin, f64_prec, f64_emax, shl_align.
    replace (Z.max _ _ - 0) with (k - 52) by lia. replace (Z.max _ _) with (k - 52) by lia.
    unfold m. destruct (k - 52) as [|d|d] eqn:E; [|lia|].
    - replace (52 - k) with 0 by lia. by rewrite Z.mul_1_r.
    - replace (52 - k) with (Z.pos d) by lia. by rewrite <- iter_xO. }
  pose proof (log2_bounds m Hm) as Hb. rewrite Hlm in Hb.
  rewrite Z2Pos.id by done.
  destruct (binary_round_aux_normal m (k - 52) loc_Exact m 1) as (q & -> & Hq & Hnear);
    [apply stands_exact; lia|lia|lia|].
  rewrite Hlm in *. replace (1 * 2 ^ (52 - 52)) with 1 in Hnear by done.
  assert (q = m) as -> by lia. unfold normal. replace (m =? 2 ^ 53) with false by lia. f_equal. lia.
Qed.

Lemma f64_div_nearest n d :
  0 < n < 2 ^ 53 -> 0 < d < 2 ^ 53 -> nearest_ratio (f64_div (f64_of_Z n) (f64_of_Z d)) n d.
Proof.
  intros Hn Hd. pose proof (log2_range n 53 Hn). pose proof (log2_range d 53 Hd).
  rewrite !f64_of_Z_exact by done. unfold f64_div, SFdiv.
  set (a := 52 - Z.log2 n). set (b := 52 - Z.log2 d).
  assert (0 < 2 ^ a /\ 0 < 2 ^ b) as [] by (split; apply Z.pow_pos_nonneg; lia).
  rewrite !Z2Pos.id by lia.
  destruct (div_core_normal (n * 2 ^ a) (Z.log2 n - 52) (d * 2 ^ b) (Z.log2 d - 52))
    as (q & e & Hr & Hq & He & Hnear & Hb); rewrite ?log2_shift by lia; [lia..|].
  exists q, e. rewrite !log2_shift in He by lia. cbn [xorb].
  assert (n * 2 ^ a * 2 ^ (Z.log2 n - 52 - (Z.log2 d - 52) - e) = n * 2 ^ (- e) * 2 ^ b) as Hx.
  { rewrite <- !Z.mul_assoc, <- !Z.pow_add_r by lia. do 2 f_equal. lia. }
  rewrite Hx in Hnear, Hb. split; [exact Hr|]. split; [done|]. split; [lia|].
  rewrite Z.mul_assoc, <- Z.mul_sub_distr_r, Z.abs_mul, (Z.abs_eq (2 ^ b)) in Hnear by lia.
  split; nia.
Qed.

(** ** Megahertz: [n / 10^6] printed with six decimals and scaled back *)

Definition MILLION : Z := 1000000.

Lemma mul_small d b : 0 < b -> - b < d * b < b -> d = 0.
Proof.
  intros Hb H. assert (d < 1) by (apply (Z.mul_lt_mono_pos_r b); lia).
  assert (-1 < d) by (apply (Z.mul_lt_mono_pos_r b); lia). lia.
Qed.

Lemma div_nearest_unique a b n : 0 < b -> 2 * Z.abs (a - n * b) < b -> div_nearest a b = n.
Proof.
  intros Hb Hn. unfold div_nearest.
  pose proof (Z.div_mod a b ltac:(lia)). pose proof (Z.mod_pos_bound a b Hb).
  set (q := a / b) in *. set (r := a mod b) in *.
  assert (q = n /\ 2 * r < b \/ q + 1 = n /\ b < 2 * r) as Hc.
  { destruct (decide (2 * r < b)) as [H1|H1]; [left|right].
    - split; [|done]. enough (q - n = 0) by lia. apply (mul_small _ b); lia.
    - enough (n - q - 1 = 0) by lia. apply (mul_small _ b); lia. }
  destruct Hc as [[-> ?]|[<- ?]]; [by replace (2 * r <? b) with true by lia|].
  by replace (2 * r <? b) with false by lia; replace (b <? 2 * r) with true by lia.
Qed.

(** With fewer than 34 bits, a nearest quotient by a million has more than 18
    binary digits of fraction to spare. *)
Lemma nearest_million_exponent n e : 0 < n < 2 ^ 34 -> 2 ^ 52 * MILLION <= n * 2 ^ (- e) -> e <= 0 -> 38 <= - e.
Proof.
  intros Hn Hb He. destruct (decide (38 <= - e)) as [|Hlt]; [done|].
  assert (2 ^ (- e) <= 2 ^ 37) by (apply Z.pow_le_mono_r; lia).
  assert (n * 2 ^ (- e) < 2 ^ 34 * 2 ^ 37) by nia. unfold MILLION in *. lia.
Qed.

Lemma format_nearest_million x n :
  0 < n < 2 ^ 34 -> nearest_ratio x n MILLION ->
  format_fixed 6 x = show_uint (n / MILLION) ++ [46] ++ pad_zero 6 (show_uint (n mod MILLION)).
Proof.
  intros Hn (q & e & -> & Hq & He & Hnear & Hb & _).
  pose proof (nearest_million_exponent n e Hn Hb ltac:(lia)) as Hexp.
  assert (2 ^ 38 <= 2 ^ (- e)) as Hp by (apply Z.pow_le_mono_r; lia).
  unfold normal, format_fixed. change (10 ^ Z.of_nat 6) with MILLION.
  destruct (q =? 2 ^ 53) eqn:E.
  - replace (0 <=? e + 1) with false by lia. rewrite Z2Pos.id by lia.
    assert (2 ^ (- e) = 2 * 2 ^ (- (e + 1))) as Hh
      by (rewrite <- Z.pow_succ_r by lia; f_equal; lia).
    rewrite (div_nearest_unique _ _ n); [done|lia|]. unfold MILLION in *. nia.
  - replace (0 <=? e) with false by lia. rewrite Z2Pos.id by lia.
    rewrite (div_nearest_unique _ _ n); [done|lia|]. unfold MILLION in *. lia.
Qed.

(** The scaled value is exact when the quotient has twenty binary digits less than
    the number, that is, unless the leading bits of the number are those of a
    million. *)
Definition scales_back (n : Z) : bool :=
  (n * 2 ^ 19 <? MILLION * 2 ^ Z.log2 n) && negb (n =? 2 ^ Z.log2 n).

Lemma million_float : f64_of_Z MILLION = S754_finite false (Z.to_pos (MILLION * 2 ^ 33)) (-33).
Proof. vm_compute. reflexivity. Qed.

(** A mantissa [m] at exponent [e] near [n / 10^6] times a million, as an exact
    product, rounds to [n]. *)
Lemma million_product_rounds m e n :
  0 < n < 2 ^ 34 -> scales_back n = true -> 0 < m ->
  e <= -20 -> 71 <= Z.log2 n - e ->
  2 * Z.abs (m * MILLION - n * 2 ^ (- e)) * 2 ^ 52 < 2 ^ (Z.log2 n - e) ->
  f32_as_uint 64 (binary_round_aux f64_prec f64_emax false (m * (MILLION * 2 ^ 33)) (e - 33) loc_Exact) = n.
Proof.
  intros Hn Hs Hm He Hgap Hnear. unfold scales_back in Hs.
  apply andb_true_iff in Hs as [_ Hs]. apply negb_true_iff, Z.eqb_neq in Hs.
  pose proof (log2_range n 34 Hn) as Hk. pose proof (log2_bounds n ltac:(lia)) as Hbn. set (k := Z.log2 n) in *.
  assert (2 ^ 20 <= 2 ^ (- e)) as Hp by (apply Z.pow_le_mono_r; lia).
  assert (2 ^ (k - e) = 2 ^ k * 2 ^ (- e)) as Hpk by (rewrite <- Z.pow_add_r by lia; f_equal; lia).
  set (M := m * (MILLION * 2 ^ 33)).
  assert (2 ^ (k - e) * 2 ^ 33 <= M < 2 * (2 ^ (k - e) * 2 ^ 33)) as HM.
  { rewrite Hpk in *. assert (2 ^ k * 2 ^ (- e) <= 2 ^ 34 * 2 ^ (- e)).
    { apply Z.mul_le_mono_nonneg_r; [lia|]. apply Z.pow_le_mono_r; lia. }
    unfold M. nia. }
  assert (Z.log2 M = k - e + 33) as HlM.
  { apply Z.log2_unique; [lia|]. rewrite Z.pow_succ_r, Z.pow_add_r by lia. lia. }
  assert (2 ^ 52 <= M) as HM52.
  { assert (2 ^ 71 <= 2 ^ (k - e)) by (apply Z.pow_le_mono_r; lia). lia. }
  destruct (binary_round_aux_normal M (e - 33) loc_Exact M 1) as (q & -> & Hq & Hr);
    [apply stands_exact; lia|done|lia|].
  rewrite HlM in *. replace (e - 33 + (k - e + 33 - 52)) with (k - 52) by lia.
  set (K := k - e + 33 - 52) in *.
  assert (n * 2 ^ (- e) * 2 ^ 33 = n * 2 ^ (52 - k) * 2 ^ K) as HH.
  { rewrite <- !Z.mul_assoc, <- !Z.pow_add_r by lia. do 2 f_equal. lia. }
  assert (0 < 2 ^ K) as HK by (apply Z.pow_pos_nonneg; lia).
  assert (2 ^ (k - e) = 2 ^ K * 2 ^ 19) as HK19 by (rewrite <- Z.pow_add_r by lia; f_equal; lia).
  assert (2 * Z.abs (M - n * 2 ^ (52 - k) * 2 ^ K) < 2 ^ K) as HMH by (unfold M; lia).
  assert (0 < 2 ^ (52 - k)) as Hpos by (apply Z.pow_pos_nonneg; lia).
  assert (2 ^ k * 2 ^ (52 - k) = 2 ^ 52) as H52 by (rewrite <- Z.pow_add_r by lia; f_equal; lia).
  assert (q = n * 2 ^ (52 - k)) as ->.
  { enough (q - n * 2 ^ (52 - k) = 0) by lia. apply (mul_small _ (2 ^ K)); lia. }
  unfold normal. replace (_ =? 2 ^ 53) with false by (symmetry; apply Z.eqb_neq; nia).
  unfold f32_as_uint, mantissa_trunc. replace (0 <=? k - 52) with false by lia.
  rewrite Z2Pos.id by nia. replace (- (k - 52)) with (52 - k) by lia. rewrite Z.div_mul by lia.
  unfold uint_max. lia.
Qed.

Theorem million_roundtrip x n :
  0 < n < 2 ^ 34 -> nearest_ratio x n MILLION -> scales_back n = true ->
  f32_as_uint 64 (f64_mul x (f64_of_Z MILLION)) = n.
Proof.
  intros Hn (q & e & -> & Hq & He & Hnear & Hb) Hs.
  pose proof (nearest_million_exponent n e Hn (proj1 Hb) ltac:(lia)) as Hexp.
  pose proof (log2_range n 34 Hn) as Hk. pose proof (log2_bounds n ltac:(lia)) as Hbn.
  assert (e + 52 < Z.log2 n - 19) as Hgap.
  { unfold scales_back in Hs. apply andb_true_iff in Hs as [Hs _]. apply Z.ltb_lt in Hs.
    destruct (decide (e + 52 < Z.log2 n - 19)) as [|Hge]; [done|].
    assert (2 ^ (Z.log2 n - e) <= 2 ^ 71) by (apply Z.pow_le_mono_r; lia).
    assert (2 ^ (Z.log2 n - e) = 2 ^ Z.log2 n * 2 ^ (- e)) as Hpk by (rewrite <- Z.pow_add_r by lia; f_equal; lia).
    unfold MILLION in *. nia. }
  assert (2 ^ 72 <= 2 ^ (Z.log2 n - e)) by (apply Z.pow_le_mono_r; lia).
  rewrite million_float. unfold normal, f64_mul, SFmul.
  destruct (q =? 2 ^ 53) eqn:E.
  - rewrite Pos2Z.inj_mul, !Z2Pos.id by done. cbn [xorb].
    assert (2 ^ (- e) = 2 * 2 ^ (- (e + 1))) as Hh by (rewrite <- Z.pow_succ_r by lia; f_equal; lia).
    assert (2 ^ (Z.log2 n - e) = 2 * 2 ^ (Z.log2 n - (e + 1))) as Hh2
      by (rewrite <- Z.pow_succ_r by lia; f_equal; lia).
    apply (million_product_rounds (2 ^ 52) (e + 1)); try done; unfold MILLION in *; lia.
  - rewrite Pos2Z.inj_mul, !Z2Pos.id by (done || lia). cbn [xorb].
    apply (million_product_rounds q e); try done; unfold MILLION in *; lia.
Qed.

(** ** Rounding back from megahertz

    Rounded to the nearest integer instead of truncated, every frequency below
    [2^34] Hz comes back. *)

Lemma mantissa_round_unique m e n :
  e < 0 -> 2 * Z.abs (Z.pos m - n * 2 ^ (- e)) < 2 ^ (- e) -> mantissa_round m e = n.
Proof.
  intros He Hn. unfold mantissa_round. replace (0 <=? e) with false by lia.
  symmetry. apply (Z.div_unique_pos _ _ _ (2 * Z.pos m + 2 ^ (- e) - 2 * 2 ^ (- e) * n)); lia.
Qed.

Lemma round_normal q e n :
  2 ^ 52 <= q <= 2 ^ 53 -> e < -1 -> 0 < n < 2 ^ 34 -> 2 * Z.abs (q - n * 2 ^ (- e)) < 2 ^ (- e) ->
  f32_as_uint 64 (f64_round (normal q e)) = n.
Proof.
  intros Hq He Hn Hnear.
  assert (exists m e', normal q e = S754_finite false m e' /\ e' < 0 /\ mantissa_round m e' = n)
    as (m & e' & -> & He' & Hm).
  { unfold normal. destruct (q =? 2 ^ 53) eqn:E; eexists _, _; (split; [reflexivity|split; [lia|]]).
    - apply mantissa_round_unique; [lia|]. rewrite Z2Pos.id by lia.
      assert (2 ^ (- e) = 2 * 2 ^ (- (e + 1))) by (rewrite <- Z.pow_succ_r by lia; f_equal; lia). lia.
    - apply mantissa_round_unique; [lia|]. rewrite Z2Pos.id by lia. lia. }
  unfold f64_round. replace (0 <=? e') with false by lia. rewrite Hm. fold (f64_of_Z n).
  pose proof (log2_range n 34 Hn). rewrite f64_of_Z_exact by lia.
  assert (0 < 2 ^ (52 - Z.log2 n)) by (apply Z.pow_pos_nonneg; lia).
  unfold f32_as_uint, mantissa_trunc. replace (0 <=? Z.log2 n - 52) with false by lia.
  rewrite Z2Pos.id by lia. replace (- (Z.log2 n - 52)) with (52 - Z.log2 n) by lia. rewrite Z.div_mul by lia.
  unfold uint_max. lia.
Qed.

Lemma million_product_near m e n :
  0 < n < 2 ^ 34 -> 0 < m -> -900 <= e <= -37 ->
  2 * Z.abs (m * MILLION - n * 2 ^ (- e)) <= MILLION ->
  f32_as_uint 64 (f64_round
    (binary_round_aux f64_prec f64_emax false (m * (MILLION * 2 ^ 33)) (e - 33) loc_Exact)) = n.
Proof.
  intros Hn Hm He Hnear. set (M := m * (MILLION * 2 ^ 33)).
  assert (2 ^ 37 <= 2 ^ (- e)) as Hp by (apply Z.pow_le_mono_r; lia).
  assert (2 ^ 52 <= M < 2 ^ (68 - e)) as HM.
  { replace (68 - e) with (35 + 33 + - e) by lia. rewrite !Z.pow_add_r by lia. unfold M, MILLION in *. nia. }
  assert (52 <= Z.log2 M < 68 - e) as HlM.
  { split; [apply Z.log2_le_pow2; lia|apply Z.log2_lt_pow2; lia]. }
  destruct (binary_round_aux_normal M (e - 33) loc_Exact M 1) as (q & -> & Hq & Hr);
    [apply stands_exact; lia|lia|lia|].
  set (k := Z.log2 M - 52) in *. set (E := e - 33 + k).
  assert (0 < 2 ^ k) as Hk by (apply Z.pow_pos_nonneg; lia).
  assert (2 ^ (- e) * 2 ^ 33 = 2 ^ (- E) * 2 ^ k) as HE by (rewrite <- !Z.pow_add_r by lia; f_equal; lia).
  assert (2 ^ k * 2 ^ 18 <= 2 ^ (- e) * 2 ^ 33) as HK.
  { rewrite <- !Z.pow_add_r by lia. apply Z.pow_le_mono_r; lia. }
  apply round_normal; [done|lia|done|].
  apply (Z.mul_lt_mono_pos_r (2 ^ k)); [done|].
  assert (M - n * 2 ^ (- E) * 2 ^ k = (m * MILLION - n * 2 ^ (- e)) * 2 ^ 33) by (unfold M; lia).
  unfold MILLION in *. nia.
Qed.

Theorem million_round_roundtrip x n :
  0 < n < 2 ^ 34 -> nearest_ratio x n MILLION ->
  f32_as_uint 64 (f64_round (f64_mul x (f64_of_Z MILLION))) = n.
Proof.
  intros Hn (q & e & -> & Hq & He & Hnear & Hb).
  pose proof (nearest_million_exponent n e Hn (proj1 Hb) ltac:(lia)) as Hexp.
  rewrite million_float. unfold normal, f64_mul, SFmul.
  destruct (q =? 2 ^ 53) eqn:E.
  - rewrite Pos2Z.inj_mul, !Z2Pos.id by done. cbn [xorb].
    assert (2 ^ (- e) = 2 * 2 ^ (- (e + 1))) as Hh by (rewrite <- Z.pow_succ_r by lia; f_equal; lia).
    apply (million_product_near (2 ^ 52) (e + 1)); unfold MILLION in *; lia.
  - rewrite Pos2Z.inj_mul, !Z2Pos.id by (done || lia). cbn [xorb].
    apply (million_product_near q e); lia.
Qed.
