(* ===== verification/MeshTypes.v ===== *)
(** * Mesh type primitives (crates/kerykeion/src/types.rs)

    Node numbers, channel indices, hop counts: the gates every value read off
    the radio passes before it is used as an identity or a measurement. *)

From S2P Require Import Prelude.

Local Open Scope Z_scope.

(** [NodeNum(u32)], [PacketId(u32)], [ChannelIndex(u8)] are integers in range. *)
Abbreviation NodeNum := Z (only parsing).
Abbreviation PacketId := Z (only parsing).
Abbreviation ChannelIndex := Z (only parsing).

Definition BROADCAST_ADDR : NodeNum := 0xFFFFFFFF.
Definition MAX_CHANNELS : Z := 8.
Definition MAX_HOP_LIMIT : Z := 7.
Definition MAX_PACKET_SIZE : nat := 512.
Definition MAX_LIVE_NODES : nat := 4096.
Definition MAX_LIVE_LINKS : Z := 16384.
Definition FRAME_MAGIC : Z * Z := (0x94, 0xC3).

Definition broadcast : NodeNum := BROADCAST_ADDR.
Definition is_broadcast (n : NodeNum) : bool := n =? BROADCAST_ADDR.

Inductive InvalidChannel : Type := InvalidChannelIndex (index : Z).

(** [ChannelIndex::new]. *)
Definition ChannelIndex_new (index : Z) : result ChannelIndex InvalidChannel :=
  if index <? MAX_CHANNELS then Ok index else Err (InvalidChannelIndex index).

(** [ClaimedNodeNum::from_wire]; [accept_unauthenticated] is the projection. *)
Definition from_wire (raw : Z) : option NodeNum :=
  if negb (raw =? 0) && negb (is_broadcast raw) then Some raw else None.

(** [hop_count_from_wire]. *)
Definition hop_count_from_wire (hop_start hop_limit : Z) : option Z :=
  if (hop_start =? 0) || (hop_start <? hop_limit) then None
  else
    match try_uint 8 (hop_start - hop_limit) with
    | Some hops => if hops <=? MAX_HOP_LIMIT then Some hops else None
    | None => None
    end.

Lemma from_wire_Some raw n :
  from_wire raw = Some n <-> raw = n /\ n <> 0 /\ n <> BROADCAST_ADDR.
Proof. unfold from_wire, is_broadcast. solve_ifs. Qed.

Lemma hop_count_from_wire_Some hop_start hop_limit h :
  0 <= hop_limit ->
  hop_count_from_wire hop_start hop_limit = Some h <->
  0 < hop_start /\ hop_limit <= hop_start /\ h = hop_start - hop_limit /\ h <= MAX_HOP_LIMIT.
Proof.
  intros Hl. unfold hop_count_from_wire, try_uint, MAX_HOP_LIMIT.
  change (2 ^ 8) with 256.
  solve_ifs.
Qed.

Lemma ChannelIndex_new_Ok i c : ChannelIndex_new i = Ok c <-> c = i /\ i < MAX_CHANNELS.
Proof. unfold ChannelIndex_new. solve_ifs. Qed.
