(* ===== verification/FrameCodec.v ===== *)
(** * Serial frame codec (crates/kerykeion/src/codec.rs)

    [MeshCodec] wraps protobuf payloads in a four-byte header. The decoder is a
    resynchronising state machine over a byte buffer: it skips noise, rejects
    oversized lengths, drops empty and malformed frames, and waits for partial
    ones. The protobuf codecs of [FromRadio] and [ToRadio] are parameters. *)

From S2P Require Import Prelude MeshTypes.

Local Open Scope Z_scope.

Section MeshCodec.
Context {FromRadio ToRadio : Type}.
Context (from_radio_decode : bytes -> option FromRadio).
Context (to_radio_encode : ToRadio -> bytes).

Inductive CodecError : Type := SendFailed (len : nat).

(** The test of the [find] closure: the magic pair at offset [i]. *)
Definition magic_at (src : bytes) (i : nat) : bool :=
  bool_decide (src !! i = Some (fst FRAME_MAGIC)) &&
  bool_decide (src !! S i = Some (snd FRAME_MAGIC)).

Definition find_magic (src : bytes) : option nat :=
  find (magic_at src) (seq 0 (length src - 1)).

(** The length field of a header whose four bytes are present. *)
Definition payload_len_of (src : bytes) : nat :=
  match src !! 2%nat, src !! 3%nat with
  | Some msb, Some lsb => Z.to_nat (from_be_bytes [msb; lsb])
  | _, _ => 0%nat
  end.

(** One turn of the decoder's [loop]: [Return] leaves the loop with the value
    and the buffer, [Continue] takes another turn on what is left. *)
Inductive turn : Type :=
| Return (item : option FromRadio) (src : bytes)
| Continue (src : bytes).

Definition decode_turn (src : bytes) : turn :=
  if (length src <? 2)%nat then Return None src
  else
    match find_magic src with
    | None => Return None (drop (length src - 1) src)
    | Some (S n) => Continue (drop (S n) src)
    | Some O =>
        if (length src <? 4)%nat then Return None src
        else
          let payload_len := payload_len_of src in
          if (MAX_PACKET_SIZE <? payload_len)%nat then Continue (drop 2 src)
          else if (payload_len =? 0)%nat then Continue (drop 4 src)
          else
            let total_needed := (4 + payload_len)%nat in
            if (length src <? total_needed)%nat then Return None src
            else
              let payload := take payload_len (drop 4 src) in
              match from_radio_decode payload with
              | Some msg => Return (Some msg) (drop total_needed src)
              | None => Continue (drop total_needed src)
              end
    end.

Fixpoint decode_loop (fuel : nat) (src : bytes)
  : option (result (option FromRadio) CodecError * bytes) :=
  match fuel with
  | O => None
  | S fuel =>
      match decode_turn src with
      | Return item rest => Some (Ok item, rest)
      | Continue rest => decode_loop fuel rest
      end
  end.

(** [Decoder::decode]: every turn that continues shortens the buffer, so its
    length bounds the turns. *)
Definition decode (src : bytes) : option (result (option FromRadio) CodecError * bytes) :=
  decode_loop (S (length src)) src.

(** [Encoder::encode]. *)
Definition encode (item : ToRadio) (dst : bytes) : result bytes CodecError :=
  let payload := to_radio_encode item in
  let len := length payload in
  if (MAX_PACKET_SIZE <? len)%nat then Err (SendFailed len)
  else
    let len_u16 := as_uint 16 (Z.of_nat len) in
    Ok (dst ++ [fst FRAME_MAGIC; snd FRAME_MAGIC] ++ to_be_bytes 2 len_u16 ++ payload).

(** The reader of a stream: append what arrived, then decode until the decoder
    asks for more. *)
Fixpoint drain_loop (fuel : nat) (src : bytes) : option (list FromRadio * bytes) :=
  match fuel with
  | O => None
  | S fuel =>
      match decode src with
      | Some (Ok (Some msg), rest) =>
          p ← drain_loop fuel rest; Some (msg :: fst p, snd p)
      | Some (Ok None, rest) => Some ([], rest)
      | _ => None
      end
  end.

Definition drain (src : bytes) : option (list FromRadio * bytes) :=
  drain_loop (S (length src)) src.

Fixpoint receive (buf : bytes) (chunks : list bytes) : option (list FromRadio * bytes) :=
  match chunks with
  | [] => Some ([], buf)
  | c :: cs =>
      p ← drain (buf ++ c);
      q ← receive (snd p) cs;
      Some (fst p ++ fst q, snd q)
  end.

(** The bytes of one frame around a payload. *)
Definition frame (payload : bytes) : bytes :=
  [fst FRAME_MAGIC; snd FRAME_MAGIC] ++ to_be_bytes 2 (Z.of_nat (length payload)) ++ payload.

(** Noise between frames: bytes that contain no magic pair. *)
Definition noise (g : bytes) : Prop := forall j, magic_at g j = false.

(** A stream of frames, each after some noise, and what a reader should get:
    one message per well-formed non-empty payload, in order. *)
Definition stream_of (items : list (bytes * bytes)) : bytes :=
  concat (map (fun it => it.1 ++ frame it.2) items).
Definition message_of (payload : bytes) : option FromRadio :=
  match payload with [] => None | _ => from_radio_decode payload end.
Definition item_ok (it : bytes * bytes) : Prop :=
  noise it.1 /\ (length it.2 <= MAX_PACKET_SIZE)%nat.

(** A sequence of [encode] calls into one buffer. *)
Fixpoint encode_all (items : list ToRadio) (dst : bytes) : result bytes CodecError :=
  match items with
  | [] => Ok dst
  | i :: more => let? dst := encode i dst in encode_all more dst
  end.

(** ** The magic pair *)

Lemma magic_at_iff src i :
  magic_at src i = true <-> src !! i = Some 0x94 /\ src !! S i = Some 0xC3.
Proof. unfold magic_at, FRAME_MAGIC; simpl. by rewrite andb_true_iff, !bool_decide_eq_true. Qed.

Lemma magic_at_app src more i :
  (S i < length src)%nat -> magic_at (src ++ more) i = magic_at src i.
Proof. intros. unfold magic_at. by rewrite !lookup_app_l by lia. Qed.

Lemma magic_at_drop src n i : magic_at (drop n src) i = magic_at src (n + i).
Proof. unfold magic_at. by rewrite !lookup_drop, Nat.add_succ_r. Qed.

Lemma magic_at_bound src i : magic_at src i = true -> (S i < length src)%nat.
Proof. intros [_ H]%magic_at_iff. by eapply lookup_lt_Some. Qed.

Lemma find_magic_Some src i :
  find_magic src = Some i <->
  magic_at src i = true /\ forall j, (j < i)%nat -> magic_at src j = false.
Proof.
  unfold find_magic. rewrite find_seq_Some. split.
  - intros (_ & Hi & Hmin). split; [done|]. intros; apply Hmin; lia.
  - intros [Hi Hmin]. pose proof (magic_at_bound _ _ Hi). split; [lia|].
    split; [done|]. intros; apply Hmin; lia.
Qed.

Lemma find_magic_None src :
  find_magic src = None <-> forall j, magic_at src j = false.
Proof.
  unfold find_magic. rewrite find_seq_None. split; intros H j; [|auto].
  destruct (magic_at src j) eqn:E; [|done].
  pose proof (magic_at_bound _ _ E). rewrite H in E by lia. done.
Qed.

(** ** Termination *)

Lemma decode_turn_shorter src rest :
  decode_turn src = Continue rest -> (length rest < length src)%nat.
Proof.
  unfold decode_turn. destruct (find_magic src) as [[|n]|] eqn:E;
    repeat (case_match; try done); intros [= <-]; rewrite length_drop; lia.
Qed.

Lemma decode_loop_total fuel src :
  (length src < fuel)%nat -> exists item rest, decode_loop fuel src = Some (Ok item, rest).
Proof.
  revert src. induction fuel as [|fuel IH]; intros src Hf; [lia|]. simpl.
  destruct (decode_turn src) as [item rest|rest] eqn:E; [eauto|].
  apply decode_turn_shorter in E. apply IH. lia.
Qed.

Lemma decode_loop_mono fuel fuel' src x :
  (fuel <= fuel')%nat -> decode_loop fuel src = Some x -> decode_loop fuel' src = Some x.
Proof.
  revert fuel' src. induction fuel as [|fuel IH]; intros fuel' src Hle; [done|].
  destruct fuel' as [|fuel']; [lia|]. simpl.
  destruct (decode_turn src); [done|]. apply IH. lia.
Qed.

Lemma decode_unfold src :
  decode src = match decode_turn src with
               | Return item rest => Some (Ok item, rest)
               | Continue rest => decode rest
               end.
Proof.
  unfold decode at 1. simpl. destruct (decode_turn src) as [item rest|rest] eqn:E; [done|].
  apply decode_turn_shorter in E. unfold decode.
  destruct (decode_loop_total (S (length rest)) rest) as (i & r & Hr); [lia|].
  rewrite Hr. eapply decode_loop_mono; [|done]. lia.
Qed.

Lemma decode_total src : exists item rest, decode src = Some (Ok item, rest).
Proof. apply decode_loop_total. lia. Qed.

(** ** Segmentation: how the bytes are cut into reads is invisible *)

(** Bytes in front of the first possible magic position do not matter. *)
Lemma decode_skip n src :
  (n < length src)%nat -> (forall j, (j < n)%nat -> magic_at src j = false) ->
  decode src = decode (drop n src).
Proof.
  intros Hn Hmin. destruct n as [|n]; [done|].
  rewrite (decode_unfold src). unfold decode_turn at 1.
  destruct (length src <? 2)%nat eqn:Hlen; [lia|].
  destruct (find_magic src) as [i|] eqn:Hfind.
  - apply find_magic_Some in Hfind as [Hi Hfirst].
    assert (S n <= i)%nat as Hle.
    { destruct (decide (i < S n)%nat) as [H|]; [|lia]. rewrite Hmin in Hi; done. }
    destruct i as [|i]; [lia|].
    destruct (decide (i = n)) as [->|Hne]; [done|].
    rewrite (decode_unfold (drop (S n) src)). unfold decode_turn.
    pose proof (magic_at_bound _ _ Hi).
    rewrite length_drop. destruct (length src - S n <? 2)%nat eqn:Hlen2; [lia|].
    assert (find_magic (drop (S n) src) = Some (i - n)%nat) as ->.
    { apply find_magic_Some. rewrite magic_at_drop. split.
      - by replace (S n + (i - n))%nat with (S i) by lia.
      - intros j Hj. rewrite magic_at_drop. apply Hfirst. lia. }
    destruct (i - n)%nat as [|k] eqn:Hk; [lia|].
    rewrite drop_drop. by replace (S n + S k)%nat with (S i) by lia.
  - rewrite (decode_unfold (drop (S n) src)). unfold decode_turn. rewrite length_drop.
    destruct (length src - S n <? 2)%nat eqn:Hlen2.
    + by replace (length src - 1)%nat with (S n) by lia.
    + assert (find_magic (drop (S n) src) = None) as ->.
      { apply find_magic_None. intros j. rewrite magic_at_drop. by apply find_magic_None. }
      rewrite drop_drop. do 3 f_equal. lia.
Qed.

Lemma find_magic_app src more i :
  find_magic src = Some i -> find_magic (src ++ more) = Some i.
Proof.
  rewrite !find_magic_Some. intros [Hi Hmin]. pose proof (magic_at_bound _ _ Hi).
  split; [by rewrite magic_at_app|]. intros j Hj. rewrite magic_at_app by lia. auto.
Qed.

Lemma payload_len_app src more :
  (4 <= length src)%nat -> payload_len_of (src ++ more) = payload_len_of src.
Proof. intros. unfold payload_len_of. by rewrite !lookup_app_l by lia. Qed.

(** A turn that made progress makes the same progress with more bytes behind. *)
Lemma decode_turn_app src more :
  match decode_turn src with
  | Return (Some msg) rest => decode_turn (src ++ more) = Return (Some msg) (rest ++ more)
  | Continue rest => decode_turn (src ++ more) = Continue (rest ++ more)
  | Return None _ => True
  end.
Proof.
  unfold decode_turn. destruct (length src <? 2)%nat eqn:H2; [done|].
  destruct (find_magic src) as [n|] eqn:Hfind; [|done].
  rewrite (find_magic_app _ more _ Hfind), length_app.
  pose proof Hfind as [Hb%magic_at_bound _]%find_magic_Some.
  destruct (length src + length more <? 2)%nat eqn:H2'; [lia|].
  destruct n as [|n]; [|by rewrite drop_app_le by lia].
  destruct (length src <? 4)%nat eqn:H4; [done|].
  destruct (length src + length more <? 4)%nat eqn:H4'; [lia|].
  rewrite payload_len_app by lia. generalize (payload_len_of src) as pl; intros pl.
  destruct (MAX_PACKET_SIZE <? pl)%nat; [by rewrite drop_app_le by lia|].
  destruct (pl =? 0)%nat; [by rewrite drop_app_le by lia|].
  destruct (length src <? 4 + pl)%nat eqn:Ht; [done|].
  destruct (length src + length more <? 4 + pl)%nat eqn:Ht'; [lia|].
  rewrite (drop_app_le src more 4), (drop_app_le src more (4 + pl)) by lia.
  rewrite take_app_le by (rewrite length_drop; lia).
  by destruct (from_radio_decode _).
Qed.

(** A turn that asked for more bytes loses nothing of what follows. *)
Lemma decode_turn_wait src more rest :
  decode_turn src = Return None rest -> decode (src ++ more) = decode (rest ++ more).
Proof.
  unfold decode_turn. destruct (length src <? 2)%nat eqn:H2; [by intros [= <-]|].
  destruct (find_magic src) as [[|n]|] eqn:Hfind; [|done|].
  - repeat (case_match; try done); by intros [= <-].
  - intros [= <-]. rewrite (decode_skip (length src - 1) (src ++ more)).
    + by rewrite drop_app_le by lia.
    + rewrite length_app. lia.
    + intros j Hj. rewrite magic_at_app by lia. by apply find_magic_None.
Qed.

Lemma decode_app_Some src more msg rest :
  decode src = Some (Ok (Some msg), rest) ->
  decode (src ++ more) = Some (Ok (Some msg), rest ++ more).
Proof.
  induction src as [src IH] using (induction_ltof1 _ (@length Z)). unfold ltof in IH.
  rewrite (decode_unfold src), (decode_unfold (src ++ more)).
  pose proof (decode_turn_app src more) as Happ.
  destruct (decode_turn src) as [[m|] r|r] eqn:E.
  - intros [= <- <-]. by rewrite Happ.
  - done.
  - rewrite Happ. apply IH. by apply decode_turn_shorter.
Qed.

Lemma decode_app_None src more rest :
  decode src = Some (Ok None, rest) -> decode (src ++ more) = decode (rest ++ more).
Proof.
  induction src as [src IH] using (induction_ltof1 _ (@length Z)). unfold ltof in IH.
  rewrite (decode_unfold src).
  pose proof (decode_turn_app src more) as Happ.
  destruct (decode_turn src) as [[m|] r|r] eqn:E.
  - done.
  - intros [= <-]. by apply decode_turn_wait.
  - intros Hr. rewrite (decode_unfold (src ++ more)), Happ. apply IH; [|done].
    by apply decode_turn_shorter.
Qed.

Lemma decode_Some_shorter src msg rest :
  decode src = Some (Ok (Some msg), rest) -> (length rest < length src)%nat.
Proof.
  induction src as [src IH] using (induction_ltof1 _ (@length Z)). unfold ltof in IH.
  rewrite decode_unfold. destruct (decode_turn src) as [i r|r] eqn:E.
  - intros [= -> <-]. revert E. unfold decode_turn.
    repeat (case_match; try done); intros [= _ <-]; rewrite length_drop; lia.
  - apply decode_turn_shorter in E. intros Hr. specialize (IH r E Hr). lia.
Qed.

Lemma drain_loop_total fuel src :
  (length src < fuel)%nat -> is_Some (drain_loop fuel src).
Proof.
  revert src. induction fuel as [|fuel IH]; intros src Hf; [lia|]. simpl.
  destruct (decode_total src) as (item & rest & Hd). rewrite Hd.
  destruct item as [msg|]; [|eauto].
  apply decode_Some_shorter in Hd. destruct (IH rest) as [p Hp]; [lia|].
  rewrite Hp. simpl. eauto.
Qed.

Lemma drain_loop_mono fuel fuel' src x :
  (fuel <= fuel')%nat -> drain_loop fuel src = Some x -> drain_loop fuel' src = Some x.
Proof.
  revert fuel' src x. induction fuel as [|fuel IH]; intros fuel' src x Hle; [done|].
  destruct fuel' as [|fuel']; [lia|]. simpl.
  destruct (decode src) as [[[[msg|]|] rest]|]; try done.
  rewrite bind_Some. intros (p & Hp & Hx). rewrite (IH fuel' rest p); [done|lia|done].
Qed.

Lemma drain_unfold src :
  drain src = match decode src with
              | Some (Ok (Some msg), rest) => p ← drain rest; Some (msg :: fst p, snd p)
              | Some (Ok None, rest) => Some ([], rest)
              | _ => None
              end.
Proof.
  unfold drain at 1. simpl. destruct (decode src) as [[[[msg|]|] rest]|] eqn:Hd; try done.
  apply decode_Some_shorter in Hd. unfold drain.
  destruct (drain_loop_total (S (length rest)) rest) as [p Hp]; [lia|].
  rewrite Hp, (drain_loop_mono (S (length rest)) (length src) rest p); [done|lia|done].
Qed.

Lemma drain_total src : exists p, drain src = Some p.
Proof. apply drain_loop_total. lia. Qed.

Lemma drain_app src more p :
  drain src = Some p ->
  drain (src ++ more) = q ← drain (snd p ++ more); Some (fst p ++ fst q, snd q).
Proof.
  revert p. induction src as [src IH] using (induction_ltof1 _ (@length Z)).
  unfold ltof in IH. intros p. rewrite drain_unfold.
  destruct (decode src) as [[[[msg|]|] rest]|] eqn:Hd; try done.
  - rewrite bind_Some. intros ([ms r] & Hp & [= <-]). simpl.
    rewrite (drain_unfold (src ++ more)), (decode_app_Some _ _ _ _ Hd).
    rewrite (IH rest (decode_Some_shorter _ _ _ Hd) _ Hp). simpl.
    by destruct (drain (r ++ more)) as [[ms' r']|].
  - intros [= <-]. simpl. rewrite (drain_unfold (src ++ more)), (drain_unfold (rest ++ more)).
    rewrite (decode_app_None _ _ _ Hd).
    destruct (decode (rest ++ more)) as [[[[m|]|] r]|]; try done.
    by destruct (drain r) as [[ms r']|].
Qed.

Lemma drain_idle src p : drain src = Some p -> drain (snd p) = Some ([], snd p).
Proof.
  intros Hp. pose proof (drain_app src [] p Hp) as H. rewrite !app_nil_r, Hp in H.
  destruct (drain_total (snd p)) as [[ms r] Hq]. rewrite Hq in H |- *. simpl in H.
  injection H as H. destruct p as [ms0 r0]; simpl in *. injection H as Hms Hr.
  rewrite <- Hr. destruct ms; [done|]. 
  apply (f_equal length) in Hms. rewrite length_app in Hms. simpl in Hms. lia.
Qed.

Lemma receive_concat buf chunks :
  drain buf = Some ([], buf) ->
  receive buf chunks = drain (buf ++ concat chunks).
Proof.
  revert buf. induction chunks as [|c cs IH]; intros buf Hidle; simpl.
  - by rewrite app_nil_r.
  - rewrite app_assoc. destruct (drain_total (buf ++ c)) as [p Hp].
    rewrite Hp, (drain_app _ (concat cs) _ Hp). simpl.
    rewrite IH; [done|]. by eapply drain_idle.
Qed.
(** ** Frames *)

Lemma frame_eq payload :
  (length payload <= MAX_PACKET_SIZE)%nat ->
  frame payload = [0x94; 0xC3; Z.of_nat (length payload) / 256; Z.of_nat (length payload) mod 256] ++ payload.
Proof.
  unfold frame, FRAME_MAGIC, to_be_bytes, MAX_PACKET_SIZE. intros. simpl.
  rewrite (Z.mod_small (_ / 256)); [done|].
  split; [apply Z.div_pos; lia|]. apply Z.div_lt_upper_bound; lia.
Qed.

Lemma payload_len_frame payload rest :
  (length payload <= MAX_PACKET_SIZE)%nat ->
  payload_len_of (frame payload ++ rest) = length payload.
Proof.
  intros. rewrite frame_eq by done. unfold payload_len_of, from_be_bytes. simpl.
  pose proof (Z_div_mod_eq_full (Z.of_nat (length payload)) 256). lia.
Qed.

Lemma decode_frame payload rest :
  (length payload <= MAX_PACKET_SIZE)%nat ->
  decode (frame payload ++ rest) =
  match message_of payload with
  | Some msg => Some (Ok (Some msg), rest)
  | None => decode rest
  end.
Proof.
  intros Hlen. rewrite decode_unfold. unfold decode_turn.
  rewrite payload_len_frame by done.
  assert (find_magic (frame payload ++ rest) = Some O) as ->.
  { apply find_magic_Some. rewrite frame_eq by done. by split; [|intros; lia]. }
  rewrite frame_eq by done. set (h := [0x94; 0xC3; Z.of_nat (length payload) / 256; Z.of_nat (length payload) mod 256]).
  rewrite !length_app. change (length h) with 4%nat.
  destruct (4 + length payload + length rest <? 2)%nat eqn:?; [lia|].
  destruct (4 + length payload + length rest <? 4)%nat eqn:?; [lia|].
  destruct (MAX_PACKET_SIZE <? length payload)%nat eqn:?; [lia|].
  rewrite <- !app_assoc.
  destruct (length payload =? 0)%nat eqn:E0.
  - destruct payload; [|simpl in *; lia]. simpl. by rewrite drop_0.
  - destruct (4 + length payload + length rest <? 4 + length payload)%nat eqn:?; [lia|].
    rewrite app_assoc, (drop_app_length' (h ++ payload) rest (4 + length payload))
      by (rewrite length_app; done).
    rewrite <- app_assoc.
    destruct payload as [|b pl]; [simpl in *; lia|].
    replace (drop 4 (h ++ (b :: pl) ++ rest)) with ((b :: pl) ++ rest) by done.
    rewrite take_app_length. simpl. by destruct (from_radio_decode (b :: pl)).
Qed.

Lemma decode_noise g payload rest :
  noise g -> decode (g ++ frame payload ++ rest) = decode (frame payload ++ rest).
Proof.
  intros Hg. rewrite (decode_skip (length g)).
  - by rewrite drop_app_length.
  - rewrite !length_app. unfold frame. simpl. lia.
  - intros j Hj. destruct (decide (S j < length g)%nat).
    + by rewrite magic_at_app.
    + replace j with (length g - 1)%nat by lia.
      apply not_true_iff_false. intros [_ H2]%magic_at_iff.
      replace (S (length g - 1)) with (length g + 0)%nat in H2 by lia.
      rewrite lookup_app_r in H2 by lia.
      by replace (length g + 0 - length g)%nat with O in H2 by lia.
Qed.

Lemma drain_decode src src' : decode src = decode src' -> drain src = drain src'.
Proof. intros E. by rewrite (drain_unfold src), (drain_unfold src'), E. Qed.

Lemma drain_stream items rest :
  Forall item_ok items ->
  drain (stream_of items ++ rest) =
  p ← drain rest; Some (omap message_of (map snd items) ++ fst p, snd p).
Proof.
  induction 1 as [|[g payload] items [Hg Hlen] Hitems IH]; unfold stream_of; simpl in *.
  - destruct (drain rest) as [[? ?]|]; done.
  - fold (stream_of items). rewrite <- !app_assoc.
    rewrite (drain_decode _ (frame payload ++ stream_of items ++ rest))
      by (by apply decode_noise).
    destruct (message_of payload) as [msg|] eqn:Hm.
    + rewrite drain_unfold, decode_frame, Hm, IH by done.
      by destruct (drain rest) as [[? ?]|].
    + rewrite (drain_decode _ (stream_of items ++ rest)), IH; [done|].
      by rewrite decode_frame, Hm by done.
Qed.

Lemma drain_nil : drain [] = Some ([], []).
Proof. done. Qed.

Lemma encode_frame item dst :
  encode item dst =
  if (MAX_PACKET_SIZE <? length (to_radio_encode item))%nat
  then Err (SendFailed (length (to_radio_encode item)))
  else Ok (dst ++ frame (to_radio_encode item)).
Proof.
  unfold encode, frame. destruct (MAX_PACKET_SIZE <? _)%nat eqn:Hlen; [done|].
  unfold as_uint. rewrite Z.mod_small; [done|]. unfold MAX_PACKET_SIZE in *. lia.
Qed.

Lemma encode_all_stream items dst out :
  encode_all items dst = Ok out ->
  out = dst ++ stream_of (map (fun i => ([], to_radio_encode i)) items) /\
  Forall item_ok (map (fun i => ([], to_radio_encode i)) items).
Proof.
  revert dst. induction items as [|i items IH]; intros dst; cbn [encode_all map].
  - intros [= <-]. by rewrite app_nil_r.
  - rewrite encode_frame. destruct (MAX_PACKET_SIZE <? _)%nat eqn:Hlen; [done|].
    intros [-> Hok]%IH. split.
    + unfold stream_of. cbn [map concat fst snd]. by rewrite <- !app_assoc.
    + constructor; [|done]. split; [intros j; done|]. simpl. lia.
Qed.
End MeshCodec.

(** * Properties *)

(** C1. The framing layer is independent of how the transport cuts the byte
    stream into reads: for every sequence of chunks, decoding after each
    arrival gives the same messages, in the same order, and leaves the same
    buffer, as decoding the concatenation at once; and it always returns. *)
Theorem receive_segmentation {M} (dec : bytes -> option M) (chunks : list bytes) :
  exists msgs rest,
    receive dec [] chunks = Some (msgs, rest) /\
    receive dec [] [concat chunks] = Some (msgs, rest).
Proof.
  destruct (drain_total dec (concat chunks)) as [[msgs rest] H].
  exists msgs, rest. rewrite !receive_concat by done. simpl. by rewrite app_nil_r.
Qed.

(** C2. Resynchronisation: a stream of frames separated by arbitrary noise
    (bytes without a magic pair), cut into arbitrary chunks, yields exactly the
    messages of the well-formed non-empty payloads, in order; a malformed
    payload or an empty frame costs that frame only, and nothing stays
    buffered. *)
Theorem receive_resynchronises {M} (dec : bytes -> option M) items chunks :
  Forall item_ok items -> concat chunks = stream_of items ->
  receive dec [] chunks = Some (omap (message_of dec) (map snd items), []).
Proof.
  intros Hok Hc. rewrite receive_concat by done. simpl. rewrite Hc.
  rewrite <- (app_nil_r (stream_of items)), drain_stream by done. simpl.
  by rewrite app_nil_r.
Qed.

Lemma receive_resynchronises_witness :
  Forall item_ok [([1; 0x94], [7; 8]); ([], [])] /\
  receive Some [] [[1; 0x94; 0x94]; [0xC3; 0; 2; 7]; [8; 0x94; 0xC3; 0]; [0]]
  = Some ([[7; 8]], []).
Proof.
  assert (Forall item_ok [([1; 0x94], [7; 8]); ([], [])]) as Hok.
  { repeat constructor; intros j; simpl.
    destruct j as [|[|[|j]]]; reflexivity. }
  split; [exact Hok|].
  exact (receive_resynchronises (M := bytes) Some
           [([1; 0x94], [7; 8]); ([], [])] _ Hok eq_refl).
Defined.

(** Wire round trip: whatever sequence of messages the encoder accepts, a
    peer that can decode each payload recovers the whole sequence from the
    encoded bytes, in order, however they are cut into reads. *)
Theorem encode_receive_roundtrip {T M} (enc : T -> bytes) (dec : bytes -> option M)
    (view : T -> M) items out chunks :
  (forall i, i ∈ items -> enc i <> [] /\ dec (enc i) = Some (view i)) ->
  encode_all enc items [] = Ok out -> concat chunks = out ->
  receive dec [] chunks = Some (map view items, []).
Proof.
  intros Hdec [-> Hok]%encode_all_stream Hc. simpl in Hc.
  rewrite receive_concat by done. simpl. rewrite Hc.
  rewrite <- (app_nil_r (stream_of _)), drain_stream by done. simpl.
  rewrite app_nil_r. do 2 f_equal. clear -Hdec.
  induction items as [|i items IH]; simpl; [done|].
  destruct (Hdec i) as [Hne Hi]; [constructor|].
  destruct (enc i) eqn:E; [done|]. simpl. rewrite Hi. f_equal.
  apply IH. intros j Hj. apply Hdec. by constructor.
Qed.

Lemma encode_receive_roundtrip_witness :
  encode_all (fun p => p) [[1; 2; 3]; [4]] [] = Ok [0x94; 0xC3; 0; 3; 1; 2; 3; 0x94; 0xC3; 0; 1; 4] /\
  receive Some [] [[0x94]; [0xC3; 0; 3; 1; 2; 3; 0x94; 0xC3; 0; 1; 4]] = Some ([[1; 2; 3]; [4]], []).
Proof.
  assert (encode_all (fun p : bytes => p) [[1; 2; 3]; [4]] []
          = Ok [0x94; 0xC3; 0; 3; 1; 2; 3; 0x94; 0xC3; 0; 1; 4]) as He by reflexivity.
  split; [exact He|].
  apply (encode_receive_roundtrip (fun p : bytes => p) Some (fun p => p) [[1; 2; 3]; [4]]
           [0x94; 0xC3; 0; 3; 1; 2; 3; 0x94; 0xC3; 0; 1; 4]
           [[0x94]; [0xC3; 0; 3; 1; 2; 3; 0x94; 0xC3; 0; 1; 4]]); [|exact He|reflexivity].
  intros i Hi. split; [|reflexivity].
  apply elem_of_cons in Hi as [->|Hi]; [done|]. apply list_elem_of_singleton in Hi as ->. done.
Defined.
