(* ===== verification/Proto.v ===== *)
(** * Meshtastic messages (crates/kerykeion/proto/*.proto)

    The records and enumerations the protobuf definitions declare, as far as
    the modelled code reads them. The byte codecs prost generates for them are
    parameters of the components that call them. *)

From S2P Require Import Prelude Float MeshTypes.

Local Open Scope Z_scope.

(** [MeshPacket.Priority]. *)
Inductive Priority : Type :=
| PUnset | PMin | PBackground | PDefault | PReliable | PAck | PMax.

#[export] Instance Priority_eq_dec : EqDecision Priority.
Proof. solve_decision. Defined.

(** [i32::from(Priority)] and [Priority::try_from(i32)]. *)
Definition priority_to_i32 (p : Priority) : Z :=
  match p with
  | PUnset => 0 | PMin => 1 | PBackground => 10 | PDefault => 64
  | PReliable => 70 | PAck => 120 | PMax => 127
  end.

Definition priority_try_from (z : Z) : option Priority :=
  find (fun p => priority_to_i32 p =? z)
       [PUnset; PMin; PBackground; PDefault; PReliable; PAck; PMax].

(** [PortNum] as the [i32] the wire carries. *)
Inductive PortNum : Type :=
| PortUnspecified | TextMessageApp | PositionApp | RoutingApp | AdminApp | TracerouteApp.

Definition portnum_to_i32 (p : PortNum) : Z :=
  match p with
  | PortUnspecified => 0 | TextMessageApp => 1 | PositionApp => 3
  | RoutingApp => 5 | AdminApp => 6 | TracerouteApp => 70
  end.

Record Data : Type := mkData {
  d_portnum : Z;
  d_payload : bytes;
  d_want_response : bool;
  d_dest : Z;
  d_source : Z;
  d_request_id : Z;
  d_reply_id : Z;
  d_emoji : bytes
}.

Inductive PayloadVariant : Type :=
| Decoded (d : Data)
| Encrypted (b : bytes).

Record MeshPacket : Type := mkMeshPacket {
  mp_from : Z;
  mp_to : Z;
  mp_channel : Z;
  mp_payload_variant : option PayloadVariant;
  mp_id : Z;
  mp_rx_time : Z;
  mp_rx_snr : f32;
  mp_hop_limit : Z;
  mp_want_ack : bool;
  mp_priority : Z;
  mp_rx_rssi : Z;
  mp_via_mqtt : bool;
  mp_hop_start : Z
}.

(** [Routing.Error]. *)
Inductive RoutingError : Type :=
| RNone | NoRoute | GotNak | RTimeout | NoInterface | MaxRetransmit | NoChannel
| TooLarge | NoResponse | DutyCycleLimit | BadRequest | NotAuthorized.

Definition routing_error_to_i32 (e : RoutingError) : Z :=
  match e with
  | RNone => 0 | NoRoute => 1 | GotNak => 2 | RTimeout => 3 | NoInterface => 4
  | MaxRetransmit => 5 | NoChannel => 6 | TooLarge => 7 | NoResponse => 8
  | DutyCycleLimit => 9 | BadRequest => 32 | NotAuthorized => 33
  end.

Definition routing_error_try_from (z : Z) : option RoutingError :=
  find (fun e => routing_error_to_i32 e =? z)
       [RNone; NoRoute; GotNak; RTimeout; NoInterface; MaxRetransmit; NoChannel;
        TooLarge; NoResponse; DutyCycleLimit; BadRequest; NotAuthorized].

(** [Routing]: the one variant the definition keeps. *)
Inductive RoutingVariant : Type := ErrorReason (code : Z).
Record Routing : Type := mkRouting { routing_variant : option RoutingVariant }.

(** The session messages of the handshake. *)
Record User : Type := mkUser {
  u_id : string; u_long_name : string; u_short_name : string;
  u_hw_model : Z; u_is_licensed : bool }.

Record Position : Type := mkPosition {
  latitude_i : Z; longitude_i : Z; altitude : Z; pos_time : Z }.

Record NodeInfo : Type := mkNodeInfo {
  ni_num : Z; ni_user : option User; ni_position : option Position;
  ni_snr : f32; ni_last_heard : Z; ni_hops_away : Z }.

(** The payloads of the telemetry and traceroute ports. *)
Record DeviceMetricsMsg : Type := mkDeviceMetricsMsg {
  dmm_battery_level : Z; dmm_voltage : f32; dmm_channel_utilization : f32; dmm_air_util_tx : f32;
  dmm_uptime_seconds : Z }.
Inductive TelemetryVariant : Type := TVDeviceMetrics (dm : DeviceMetricsMsg).
Record Telemetry : Type := mkTelemetry { tel_time : Z; tel_variant : option TelemetryVariant }.

Record RouteDiscovery : Type := mkRouteDiscovery {
  rd_route : list Z; rd_snr_towards : list Z; rd_back : list Z; rd_snr_back : list Z }.

Inductive FromRadioVariant : Type :=
| FRPacket (p : MeshPacket)
| FRMyInfo (my_node_num : Z)
| FRNodeInfo (ni : NodeInfo)
| FRConfigCompleteId (id : Z)
| FRRebooted (b : bool)
| FRChannel (index : Z).

Inductive ToRadioVariant : Type :=
| TRPacket (p : MeshPacket)
| TRWantConfigId (id : Z).

(** The enumerations' conversions are inverse to each other. *)
Lemma priority_try_from_to p : priority_try_from (priority_to_i32 p) = Some p.
Proof. by destruct p. Qed.

Lemma routing_error_try_from_to e : routing_error_try_from (routing_error_to_i32 e) = Some e.
Proof. by destruct e. Qed.

Lemma routing_error_try_from_None c :
  routing_error_try_from c = Some RNone <-> c = 0.
Proof.
  split; [|by intros ->]. unfold routing_error_try_from. cbn [find routing_error_to_i32].
  repeat case_match; try done; lia.
Qed.
