(* ===== verification/MeshCrypto.v ===== *)
(** * Packet ids and channel encryption
      (crates/kerykeion/src/packet_id.rs, crates/kerykeion/src/crypto.rs)

    The outbound id counter, the AES-CTR nonce derived from it, and the
    channel encryption and decryption paths. The cipher itself is third-party
    code: the class [Ctr128LE] states what the [ctr] crate documents of a
    128-bit little-endian counter mode, and everything is proved against it. *)

From S2P Require Import Prelude MeshTypes Proto.

Local Open Scope Z_scope.

(** ** [PacketIdCounter] *)

Record PacketIdCounter : Type := mkCounter { last_issued : Z }.

Inductive MeshError : Type :=
| PacketIdSpaceExhausted
| Encryption (len : nat)
| AesInitFailed
| NoChannelDecrypts
| InvalidPosition.

(** The seed is the [u32] the system's generator returns. *)
Definition seed_random (seed : Z) : PacketIdCounter := mkCounter seed.
Definition resume (last_used : Z) : PacketIdCounter := mkCounter last_used.
Definition current (c : PacketIdCounter) : Z := last_issued c.

Definition next_id (c : PacketIdCounter) : result Z MeshError * PacketIdCounter :=
  match checked_add 32 (last_issued c) 1 with
  | Some next => (Ok next, mkCounter next)
  | None => (Err PacketIdSpaceExhausted, c)
  end.

(** [n] calls of [next_id], with the ids issued. *)
Fixpoint issue (n : nat) (c : PacketIdCounter) : list (result Z MeshError) * PacketIdCounter :=
  match n with
  | O => ([], c)
  | S n =>
      let (r, c) := next_id c in
      let (rs, c) := issue n c in
      (r :: rs, c)
  end.

Definition issued_ids (rs : list (result Z MeshError)) : list Z :=
  omap (fun r => match r with Ok i => Some i | Err _ => None end) rs.

(** ** Keys and nonces *)

Definition AES128_KEY_LEN : nat := 16.
Definition AES256_KEY_LEN : nat := 32.

Definition DEFAULT_PSK : bytes :=
  [0xd4; 0xf1; 0xbb; 0x3a; 0x20; 0x29; 0x07; 0x59;
   0xf0; 0xbc; 0xff; 0xab; 0xcf; 0x4e; 0x69; 0x01].

(** [packet_id as u64] little-endian, [from_node as u32] little-endian, zeros. *)
Definition build_nonce (packet_id from_node : Z) : bytes :=
  to_le_bytes 8 packet_id ++ to_le_bytes 4 from_node ++ replicate 4 0.

Inductive PskResolution : Type :=
| Unencrypted
| Key (key : bytes)
| Undefined (len : nat).

Definition resolve_psk (psk : bytes) : PskResolution :=
  match psk with
  | [] => Unencrypted
  | n :: rest =>
      if (length rest =? 0)%nat && (1 <=? n) && (n <=? 10)
      then Key (<[15%nat := n]> DEFAULT_PSK)
      else if (length psk =? AES128_KEY_LEN)%nat || (length psk =? AES256_KEY_LEN)%nat
      then Key psk
      else Undefined (length psk)
  end.

(** ** The cipher *)

Definition xor_bytes (a b : bytes) : bytes := zip_with Z.lxor a b.

(** The key stream of [n] bytes from counter value [c]: blocks of 16 bytes at
    [c], [c + 1], ... modulo [2^128]. *)
Fixpoint keystream_blocks (block : Z -> bytes) (c : Z) (k : nat) : bytes :=
  match k with
  | O => []
  | S k => block c ++ keystream_blocks block ((c + 1) mod 2 ^ 128) k
  end.

Definition keystream (block : Z -> bytes) (c : Z) (n : nat) : bytes :=
  take n (keystream_blocks block c (S (n / 16))).

(** What the [aes] and [ctr] crates document: a keyed permutation of 16-byte
    blocks, and [Ctr128LE], whose [i]-th key-stream block is the encryption of
    the little-endian encoding of [nonce + i]. Initialisation succeeds for a
    key of the cipher's size and a 16-byte nonce. *)
Class Ctr128LE : Type := {
  aes_block : bytes -> Z -> bytes;
  aes_block_length : forall key c, length (aes_block key c) = 16%nat;
  ctr128le_new : nat -> bytes -> bytes -> option (bytes -> bytes);
  ctr128le_spec : forall n key nonce,
    length key = n -> length nonce = 16%nat ->
    exists apply, ctr128le_new n key nonce = Some apply /\
      forall data, apply data =
        xor_bytes data (keystream (aes_block key) (from_le_bytes nonce) (length data))
}.

Section Crypto.
Context `{Ctr128LE}.
Context (data_decode : bytes -> option Data).

Definition apply_aes_ctr (data : bytes) (packet_id from_node : Z) (key : bytes)
  : result bytes MeshError :=
  let nonce := build_nonce packet_id from_node in
  if (length key =? 16)%nat || (length key =? 32)%nat then
    match ctr128le_new (length key) key nonce with
    | Some apply_keystream => Ok (apply_keystream data)
    | None => Err AesInitFailed
    end
  else Err (Encryption (length key)).

Definition encrypt (plaintext : bytes) (packet_id from_node : Z) (psk : bytes)
  : result bytes MeshError :=
  match resolve_psk psk with
  | Key key => apply_aes_ctr plaintext packet_id from_node key
  | Unencrypted => Ok plaintext
  | Undefined len => Err (Encryption len)
  end.

Fixpoint decrypt (ciphertext : bytes) (packet_id from_node : Z)
    (channel_psks : list (nat * bytes)) : result (bytes * nat) MeshError :=
  match channel_psks with
  | [] => Err NoChannelDecrypts
  | (channel_idx, psk) :: more =>
      match resolve_psk psk with
      | Key key =>
          match apply_aes_ctr ciphertext packet_id from_node key with
          | Ok candidate =>
              match data_decode candidate with
              | Some _ => Ok (candidate, channel_idx)
              | None => decrypt ciphertext packet_id from_node more
              end
          | Err _ => decrypt ciphertext packet_id from_node more
          end
      | Unencrypted | Undefined _ => decrypt ciphertext packet_id from_node more
      end
  end.

(** The channel's PSK gives no valid [Data] for this ciphertext. *)
Definition not_this_channel (ciphertext : bytes) (packet_id from_node : Z) (psk : bytes) : Prop :=
  match resolve_psk psk with
  | Key key =>
      match apply_aes_ctr ciphertext packet_id from_node key with
      | Ok candidate => data_decode candidate = None
      | Err _ => True
      end
  | _ => True
  end.

End Crypto.

(** ** Issued ids *)

Lemma next_id_Ok c i c' : next_id c = (Ok i, c') -> i = last_issued c + 1 /\ c' = mkCounter i /\ i < 2 ^ 32.
Proof. unfold next_id, checked_add. split_ifs; intros [= <- <-]. repeat split; simpl; lia. Qed.

Lemma issue_ids n c rs c' :
  issue n c = (rs, c') ->
  exists k, issued_ids rs = seqZ (last_issued c + 1) (Z.of_nat k) /\ (k <= n)%nat /\
    last_issued c' = last_issued c + Z.of_nat k /\
    (last_issued c < 2 ^ 32 -> last_issued c' < 2 ^ 32) /\
    (forall r, r ∈ rs -> r = Err PacketIdSpaceExhausted \/ is_ok r = true).
Proof.
  revert c rs. induction n as [|n IH]; intros c rs; simpl.
  - intros [= <- <-]. exists O. split; [done|]. split; [lia|]. split; [lia|].
    split; [done|]. intros r Hr. by inversion Hr.
  - destruct (next_id c) as [r c1] eqn:Hn. destruct (issue n c1) as [rs1 c2] eqn:Hi.
    intros [= <- <-]. apply IH in Hi as (k & Hk & Hle & Hlast & Hb & Hall).
    unfold next_id, checked_add in Hn. split_ifs; injection Hn as <- <-; simpl in *.
    + exists (S k). split.
      { change (issued_ids (Ok (last_issued c + 1) :: rs1))
          with ((last_issued c + 1) :: issued_ids rs1).
        rewrite Hk, Nat2Z.inj_succ, (seqZ_cons (last_issued c + 1)) by lia.
        rewrite Z.pred_succ. f_equal; lia. }
      split; [lia|]. split; [lia|]. split; [intros; apply Hb; lia|].
      intros r [->|Hr]%elem_of_cons; [by right|auto].
    + exists k. split; [done|]. split; [lia|]. split; [done|]. split; [done|].
      intros r [->|Hr]%elem_of_cons; [by left|auto].
Qed.

(** ** Nonces *)

Lemma build_nonce_length p f : length (build_nonce p f) = 16%nat.
Proof. done. Qed.

Lemma build_nonce_value p f :
  is_uint 32 p -> is_uint 32 f -> from_le_bytes (build_nonce p f) = p + 2 ^ 64 * f.
Proof.
  unfold is_uint, build_nonce. intros Hp Hf.
  rewrite !from_le_bytes_app, !from_to_le_bytes, !length_to_le_bytes by lia.
  change (from_le_bytes (replicate 4 0)) with 0. lia.
Qed.

Lemma build_nonce_inj p f p' f' :
  is_uint 32 p -> is_uint 32 f -> is_uint 32 p' -> is_uint 32 f' ->
  build_nonce p f = build_nonce p' f' -> p = p' /\ f = f'.
Proof.
  intros Hp Hf Hp' Hf' E. apply (f_equal from_le_bytes) in E.
  rewrite !build_nonce_value in E by done. unfold is_uint in *. lia.
Qed.

(** ** Key resolution *)

Lemma resolve_psk_Key psk key :
  resolve_psk psk = Key key ->
  length key = AES128_KEY_LEN \/ length key = AES256_KEY_LEN.
Proof.
  unfold resolve_psk. destruct psk as [|n rest]; [done|].
  destruct ((length rest =? 0)%nat && (1 <=? n) && (n <=? 10)) eqn:E1; [intros [= <-]; by left|].
  destruct ((length (n :: rest) =? AES128_KEY_LEN)%nat) eqn:E2.
  - intros [= <-]. left. lia.
  - destruct ((length (n :: rest) =? AES256_KEY_LEN)%nat) eqn:E3; [|done].
    intros [= <-]. right. lia.
Qed.

Lemma resolve_psk_Undefined psk len : resolve_psk psk = Undefined len -> len = length psk.
Proof.
  unfold resolve_psk. destruct psk as [|n rest]; [done|].
  repeat case_match; try done. by intros [= <-].
Qed.

(** ** The key stream *)

Lemma xor_bytes_involutive a k : (length a <= length k)%nat -> xor_bytes (xor_bytes a k) k = a.
Proof.
  revert k. induction a as [|x a IH]; intros [|y k] Hlen; simpl in *; try done; [lia|].
  unfold xor_bytes in *. simpl. rewrite IH by lia. f_equal.
  by rewrite Z.lxor_assoc, Z.lxor_nilpotent, Z.lxor_0_r.
Qed.

Lemma length_xor_bytes a k : (length a <= length k)%nat -> length (xor_bytes a k) = length a.
Proof. intros. unfold xor_bytes. rewrite length_zip_with. lia. Qed.

Lemma xor_bytes_drop a b k n :
  length a = n -> (n <= length k)%nat -> drop n (xor_bytes (a ++ b) k) = xor_bytes b (drop n k).
Proof.
  intros Ha Hk. unfold xor_bytes.
  rewrite <- (take_drop n k) at 1. rewrite zip_with_app by (rewrite length_take; lia).
  rewrite drop_app_length'; [done|]. rewrite length_zip_with, length_take. lia.
Qed.

(** XOR-ing two texts under the same key bytes cancels the key. *)
Lemma xor_bytes_cancel a b k :
  length a = length b -> length k = length b ->
  xor_bytes (xor_bytes a k) (xor_bytes b k) = xor_bytes a b.
Proof.
  revert b k. induction a as [|x a IH]; intros [|y b] [|z k] Hl Hk; simpl in *; try lia; [done|].
  unfold xor_bytes in *. simpl. rewrite IH by lia. f_equal.
  rewrite (Z.lxor_comm y z), Z.lxor_assoc, <- (Z.lxor_assoc z z), Z.lxor_nilpotent. done.
Qed.

Section Keystream.
Context (block : Z -> bytes) (block_length : forall c, length (block c) = 16%nat).

Lemma length_keystream_blocks c k : length (keystream_blocks block c k) = (16 * k)%nat.
Proof. revert c; induction k; intros; cbn [keystream_blocks]; [done|]. rewrite length_app, block_length, IHk. lia. Qed.

Lemma keystream_blocks_take c k k' n :
  (n <= 16 * k)%nat -> (k <= k')%nat ->
  take n (keystream_blocks block c k') = take n (keystream_blocks block c k).
Proof.
  revert c k' n. induction k as [|k IH]; intros c k' n Hn Hk.
  - by replace n with O by lia.
  - destruct k' as [|k']; [lia|]. cbn [keystream_blocks].
    rewrite !take_app, block_length. f_equal. apply IH; lia.
Qed.

Lemma length_keystream c n : length (keystream block c n) = n.
Proof.
  unfold keystream. rewrite length_take, length_keystream_blocks.
  pose proof (Nat.div_mod_eq n 16). pose proof (Nat.mod_upper_bound n 16). lia.
Qed.

(** The key stream from [c], less its first block, is the one from [c + 1]. *)
Lemma keystream_shift c n :
  drop 16 (keystream block c (16 + n)) = keystream block ((c + 1) mod 2 ^ 128) n.
Proof.
  unfold keystream. pose proof (Nat.div_mod_eq n 16).
  pose proof (Nat.mod_upper_bound n 16).
  replace ((16 + n) / 16)%nat with (S (n / 16)).
  2: { replace (16 + n)%nat with (n + 1 * 16)%nat by lia. rewrite Nat.div_add by lia. lia. }
  set (k := S (n / 16)). cbn [keystream_blocks].
  rewrite take_app_ge by (rewrite block_length; lia). rewrite block_length.
  rewrite drop_app_length' by done. by replace (16 + n - 16)%nat with n by lia.
Qed.
End Keystream.

(** ** Encryption *)

Section CryptoLemmas.
Context `{Ctr128LE}.
Context (data_decode : bytes -> option Data).

Lemma apply_aes_ctr_key data p f key :
  length key = AES128_KEY_LEN \/ length key = AES256_KEY_LEN ->
  apply_aes_ctr data p f key =
  Ok (xor_bytes data (keystream (aes_block key) (from_le_bytes (build_nonce p f)) (length data))).
Proof.
  intros Hlen. unfold apply_aes_ctr.
  destruct ((length key =? 16)%nat || (length key =? 32)%nat) eqn:E.
  - destruct (ctr128le_spec (length key) key (build_nonce p f)) as (apply & -> & Happly);
      [done..|]. by rewrite Happly.
  - unfold AES128_KEY_LEN, AES256_KEY_LEN in Hlen. lia.
Qed.

Lemma encrypt_key plaintext p f psk key :
  resolve_psk psk = Key key ->
  encrypt plaintext p f psk =
  Ok (xor_bytes plaintext
        (keystream (aes_block key) (from_le_bytes (build_nonce p f)) (length plaintext))).
Proof.
  intros Hr. unfold encrypt. rewrite Hr. apply apply_aes_ctr_key. by eapply resolve_psk_Key.
Qed.

Lemma encrypt_length plaintext p f psk ct :
  encrypt plaintext p f psk = Ok ct -> length ct = length plaintext.
Proof.
  destruct (resolve_psk psk) as [|key|len] eqn:Hr.
  - unfold encrypt. rewrite Hr. by intros [= <-].
  - rewrite (encrypt_key _ _ _ _ key) by done. intros <-%Ok_inj.
    apply length_xor_bytes. rewrite length_keystream; [done|]. apply aes_block_length.
  - unfold encrypt. by rewrite Hr.
Qed.

Lemma apply_aes_ctr_involutive data p f key ct :
  length key = AES128_KEY_LEN \/ length key = AES256_KEY_LEN ->
  apply_aes_ctr data p f key = Ok ct -> apply_aes_ctr ct p f key = Ok data.
Proof.
  intros Hk. rewrite !apply_aes_ctr_key by done. intros <-%Ok_inj.
  set (ks := keystream (aes_block key) (from_le_bytes (build_nonce p f)) (length data)).
  assert (length ks = length data) as Hks by (apply length_keystream; apply aes_block_length).
  rewrite length_xor_bytes by lia. fold ks. by rewrite xor_bytes_involutive by lia.
Qed.

Lemma decrypt_skip ct p f pre more :
  Forall (fun c => not_this_channel data_decode ct p f c.2) pre ->
  decrypt data_decode ct p f (pre ++ more) = decrypt data_decode ct p f more.
Proof.
  induction 1 as [|[idx psk] pre Hc Hpre IH]; [done|].
  cbn [app decrypt]. unfold not_this_channel in Hc. simpl in Hc.
  destruct (resolve_psk psk); [done| |done].
  destruct (apply_aes_ctr ct p f key); [|done]. by rewrite Hc.
Qed.
End CryptoLemmas.

(** A concrete cipher with the documented interface (the block function is the
    identity on counter blocks): the class is inhabited. *)
Definition counter_cipher : Ctr128LE.
Proof.
  refine {| aes_block := fun _ c => to_le_bytes 16 c;
            ctr128le_new := fun n key nonce =>
              if (length key =? n)%nat && (length nonce =? 16)%nat
              then Some (fun data => xor_bytes data
                     (keystream (fun c => to_le_bytes 16 c) (from_le_bytes nonce) (length data)))
              else None |}.
  - intros. apply length_to_le_bytes.
  - intros n key nonce Hk Hn. eexists. split; [|reflexivity].
    rewrite Hk, Hn, Nat.eqb_refl. reflexivity.
Defined.

(** * Properties *)

(** C5. Nonces never repeat under one key, across restarts included: the ids a
    counter issues, followed by those a counter resumed from its persisted
    [current] value issues, lie above the persisted starting point, are
    pairwise distinct and give pairwise distinct AES-CTR nonces; once the
    32-bit space is exhausted the counter fails rather than wrap. *)
Theorem issued_nonces_unique (last from_node : Z) (n m : nat) rs1 c1 rs2 c2 :
  is_uint 32 last -> is_uint 32 from_node ->
  issue n (resume last) = (rs1, c1) -> issue m (resume (current c1)) = (rs2, c2) ->
  let ids := issued_ids rs1 ++ issued_ids rs2 in
  Forall (fun i => last < i < 2 ^ 32) ids /\ NoDup ids /\
  NoDup (map (fun i => build_nonce i from_node) ids).
Proof.
  intros Hl Hf (k1 & E1 & _ & L1 & B1 & _)%issue_ids (k2 & E2 & _ & L2 & B2 & _)%issue_ids.
  unfold is_uint, resume, current in *. simpl in *.
  assert (issued_ids rs1 ++ issued_ids rs2 = seqZ (last + 1) (Z.of_nat (k1 + k2))) as ->.
  { rewrite E1, E2, L1, Nat2Z.inj_add, seqZ_app by lia. do 2 f_equal; lia. }
  assert (forall i, i ∈ seqZ (last + 1) (Z.of_nat (k1 + k2)) -> last < i < 2 ^ 32) as Hin.
  { intros i Hi%elem_of_seqZ. lia. }
  split; [by apply Forall_forall|]. split; [apply NoDup_seqZ|].
  apply NoDup_fmap_2_strong; [|apply NoDup_seqZ].
  intros i j Hi Hj E. pose proof (Hin i Hi). pose proof (Hin j Hj).
  apply build_nonce_inj in E; unfold is_uint; lia.
Qed.

Lemma issued_nonces_unique_witness :
  issue 2 (resume 4294967292) = ([Ok 4294967293; Ok 4294967294], mkCounter 4294967294) /\
  issue 2 (resume 4294967294) = ([Ok 4294967295; Err PacketIdSpaceExhausted], mkCounter 4294967295) /\
  NoDup (map (fun i => build_nonce i 7) [4294967293; 4294967294; 4294967295]).
Proof.
  split; [reflexivity|]. split; [reflexivity|].
  refine (proj2 (proj2 (issued_nonces_unique 4294967292 7 2 2
    [Ok 4294967293; Ok 4294967294] (mkCounter 4294967294)
    [Ok 4294967295; Err PacketIdSpaceExhausted] (mkCounter 4294967295) _ _ _ _)));
  first [reflexivity | unfold is_uint; lia].
Defined.

(** C6. Encrypting on a channel whose PSK is not empty never falls back to
    clear text: it succeeds only when the PSK resolves to a 16- or 32-byte key,
    the ciphertext is then the plaintext under that key's key stream at the
    packet's nonce, and a PSK of any undefined shape is an error for every
    packet. *)
Theorem encrypt_never_falls_back `{Ctr128LE} (plaintext : bytes) (packet_id from_node : Z) (psk : bytes) :
  psk <> [] ->
  match encrypt plaintext packet_id from_node psk with
  | Ok ciphertext =>
      exists key, resolve_psk psk = Key key /\
        (length key = AES128_KEY_LEN \/ length key = AES256_KEY_LEN) /\
        ciphertext = xor_bytes plaintext
          (keystream (aes_block key) (from_le_bytes (build_nonce packet_id from_node)) (length plaintext))
  | Err e => e = Encryption (length psk) /\ length psk <> AES128_KEY_LEN /\ length psk <> AES256_KEY_LEN
  end.
Proof.
  intros Hne. destruct (resolve_psk psk) as [|key|len] eqn:Hr.
  - unfold resolve_psk in Hr. destruct psk; [done|]. by repeat case_match.
  - rewrite (encrypt_key _ _ _ _ key) by done. exists key. split; [done|].
    split; [by eapply resolve_psk_Key|done].
  - unfold encrypt. rewrite Hr. unfold resolve_psk in Hr. destruct psk as [|n rest]; [done|].
    repeat case_match; try done. injection Hr as <-. split; [done|].
    unfold AES128_KEY_LEN, AES256_KEY_LEN in *. lia.
Qed.

Lemma encrypt_never_falls_back_witness :
  [9] <> ([] : bytes) /\
  exists key, resolve_psk [9] = Key key /\
    (length key = AES128_KEY_LEN \/ length key = AES256_KEY_LEN) /\
    @encrypt counter_cipher [1; 2] 5 7 [9] = Ok (xor_bytes [1; 2]
      (keystream (@aes_block counter_cipher key) (from_le_bytes (build_nonce 5 7)) 2)).
Proof.
  split; [discriminate|].
  pose proof (@encrypt_never_falls_back counter_cipher [1; 2] 5 7 [9] ltac:(discriminate)) as T.
  destruct (@encrypt counter_cipher [1; 2] 5 7 [9]) as [ct|e] eqn:E.
  - destruct T as (key & T1 & T2 & T3). exists key. split; [exact T1|]. split; [exact T2|].
    rewrite T3. reflexivity.
  - vm_compute in E. discriminate E.
Defined.

(** Channel round trip: a packet encrypted under a channel's key is
    decrypted by a receiver that holds that channel, to the same plaintext and
    attributed to that channel, whatever other channels are configured after
    it and before it, as long as no earlier one decodes the bytes. *)
Theorem decrypt_encrypt `{Ctr128LE} (data_decode : bytes -> option Data)
    (plaintext : bytes) (packet_id from_node : Z) (psk ciphertext : bytes) idx pre post :
  psk <> [] -> is_Some (data_decode plaintext) ->
  encrypt plaintext packet_id from_node psk = Ok ciphertext ->
  Forall (fun c => not_this_channel data_decode ciphertext packet_id from_node c.2) pre ->
  decrypt data_decode ciphertext packet_id from_node (pre ++ (idx, psk) :: post)
  = Ok (plaintext, idx).
Proof.
  intros Hne [d Hd] He Hpre. rewrite decrypt_skip by done. cbn [decrypt].
  unfold encrypt in He. destruct (resolve_psk psk) as [|key|len] eqn:Hr.
  - unfold resolve_psk in Hr. destruct psk; [done|]. by repeat case_match.
  - rewrite (apply_aes_ctr_involutive _ _ _ _ _ (resolve_psk_Key _ _ Hr) He). by rewrite Hd.
  - done.
Qed.

Lemma decrypt_encrypt_witness :
  let dec := fun b : bytes => match b with 1 :: _ => Some (mkData 1 b false 0 0 0 0 []) | _ => None end in
  @encrypt counter_cipher [1; 2] 5 7 [3] = Ok [4; 2] /\
  @decrypt counter_cipher dec [4; 2] 5 7 [(0%nat, [0; 0]); (1%nat, [3])] = Ok ([1; 2], 1%nat).
Proof.
  intros dec. split; [vm_compute; reflexivity|].
  apply (@decrypt_encrypt counter_cipher dec [1; 2] 5 7 [3] [4; 2] 1%nat [(0%nat, [0; 0])] []).
  - discriminate.
  - eexists. reflexivity.
  - vm_compute. reflexivity.
  - repeat constructor.
Defined.

(** Key-stream reuse between consecutive packets: with the 128-bit
    little-endian counter and the packet id in the counter's low bytes, the
    key stream of packet [p] after its first block is the key stream of packet
    [p + 1] from the same node, so the bytes of the two ciphertexts XOR to the
    XOR of the plaintexts there; and [next_id] issues exactly such neighbours. *)
Theorem consecutive_packets_share_keystream `{Ctr128LE} (p from_node : Z) (psk key first tail second c1 c2 : bytes) :
  resolve_psk psk = Key key ->
  is_uint 32 p -> is_uint 32 (p + 1) -> is_uint 32 from_node ->
  length first = 16%nat -> length tail = length second ->
  encrypt (first ++ tail) p from_node psk = Ok c1 ->
  encrypt second (p + 1) from_node psk = Ok c2 ->
  next_id (mkCounter p) = (Ok (p + 1), mkCounter (p + 1)) /\
  xor_bytes (drop 16 c1) c2 = xor_bytes tail second.
Proof.
  intros Hr Hp Hp1 Hf Hfirst Htail Hc1 Hc2. split.
  { unfold next_id, checked_add, is_uint in *. cbn [last_issued].
    destruct (p + 1 <? 2 ^ 32) eqn:?; [done|lia]. }
  rewrite (encrypt_key _ _ _ _ key), build_nonce_value in Hc1 by done.
  rewrite (encrypt_key _ _ _ _ key), build_nonce_value in Hc2 by done.
  apply Ok_inj in Hc1 as <-, Hc2 as <-.
  rewrite length_app, Hfirst.
  set (ks := keystream _ _ (16 + length tail)).
  assert (length ks = (16 + length tail)%nat) as Hks by (apply length_keystream; apply aes_block_length).
  assert (drop 16 (xor_bytes (first ++ tail) ks) = xor_bytes tail (drop 16 ks)) as ->.
  { by apply xor_bytes_drop; [|lia]. }
  unfold ks. rewrite keystream_shift by (apply aes_block_length).
  rewrite Z.mod_small by (unfold is_uint in *; lia).
  replace (p + 2 ^ 64 * from_node + 1) with (p + 1 + 2 ^ 64 * from_node) by lia.
  rewrite Htail. set (k := keystream _ _ _).
  assert (length k = length second) as Hk by (apply length_keystream; apply aes_block_length).
  by apply xor_bytes_cancel.
Qed.

Lemma consecutive_packets_share_keystream_witness :
  let m1 := replicate 16 65 ++ [10; 20] in
  exists c1 c2,
    @encrypt counter_cipher m1 41 7 [1] = Ok c1 /\
    @encrypt counter_cipher [30; 40] 42 7 [1] = Ok c2 /\
    xor_bytes (drop 16 c1) c2 = [20; 60].
Proof.
  intros m1. eexists _, _. split; [vm_compute; reflexivity|]. split; [vm_compute; reflexivity|].
  refine (proj2 (@consecutive_packets_share_keystream counter_cipher 41 7 [1] DEFAULT_PSK
    (replicate 16 65) [10; 20] [30; 40] _ _ _ _ _ _ _ _ _ _));
  first [reflexivity | unfold is_uint; lia | vm_compute; reflexivity].
Defined.
