(* ===== verification/Message.v ===== *)
(** * Outbound message construction (crates/kerykeion/src/message.rs)

    [MessageBuilder]: its constructors, its setters and [build], which draws a
    packet id from the counter, encrypts the encoded [Data] under the channel's
    PSK and fills in the packet. The protobuf encoders are parameters. *)

From S2P Require Import Prelude Float MeshTypes Proto MeshCrypto.

Local Open Scope Z_scope.

(** [MessageConfig] (config.rs). *)
Record MessageConfig : Type := mkMessageConfig { default_hop_limit : Z }.
Definition MessageConfig_default : MessageConfig := mkMessageConfig 3.

Record MessageBuilder : Type := mkBuilder {
  mb_dest : NodeNum;
  mb_portnum : PortNum;
  mb_payload : bytes;
  mb_channel : ChannelIndex;
  mb_want_ack : bool;
  mb_hop_limit : Z;
  mb_priority : Priority
}.

(** ** Constructors *)

Definition text_with_config (dest : NodeNum) (text : bytes) (config : MessageConfig) : MessageBuilder :=
  mkBuilder dest TextMessageApp text 0 false
    (Z.min (default_hop_limit config) MAX_HOP_LIMIT) PDefault.

Definition text (dest : NodeNum) (t : bytes) : MessageBuilder :=
  text_with_config dest t MessageConfig_default.

Section Constructors.
Context {AdminMessage : Type}.
Context (position_encode : Position -> bytes) (admin_encode : AdminMessage -> bytes).

Definition position_with_config (dest : NodeNum) (lat lon : f64) (config : MessageConfig)
  : result MessageBuilder MeshError :=
  let within (bound : Z) (x : f64) :=
    f64_leb (f64_of_Z (- bound)) x && f64_leb x (f64_of_Z bound) in
  if negb (f64_is_finite lat) || negb (within 90 lat)
     || negb (f64_is_finite lon) || negb (within 180 lon)
  then Err InvalidPosition
  else
    let pos := mkPosition (f64_as_i32 (f64_mul lat (f64_of_Z 10000000)))
                          (f64_as_i32 (f64_mul lon (f64_of_Z 10000000))) 0 0 in
    Ok (mkBuilder dest PositionApp (position_encode pos) 0 false
          (Z.min (default_hop_limit config) MAX_HOP_LIMIT) PDefault).

Definition position_message (dest : NodeNum) (lat lon : f64) : result MessageBuilder MeshError :=
  position_with_config dest lat lon MessageConfig_default.

Definition admin_with_config (dest : NodeNum) (admin_msg : AdminMessage) (config : MessageConfig)
  : MessageBuilder :=
  mkBuilder dest AdminApp (admin_encode admin_msg) 0 true
    (Z.min (default_hop_limit config) MAX_HOP_LIMIT) PReliable.

Definition admin (dest : NodeNum) (admin_msg : AdminMessage) : MessageBuilder :=
  admin_with_config dest admin_msg MessageConfig_default.
End Constructors.

Definition traceroute (dest : NodeNum) : MessageBuilder :=
  mkBuilder dest TracerouteApp [] 0 true MAX_HOP_LIMIT PReliable.

(** ** Setters *)

Definition channel (b : MessageBuilder) (ch : ChannelIndex) : MessageBuilder :=
  mkBuilder (mb_dest b) (mb_portnum b) (mb_payload b) ch (mb_want_ack b) (mb_hop_limit b) (mb_priority b).

Definition with_ack (b : MessageBuilder) : MessageBuilder :=
  mkBuilder (mb_dest b) (mb_portnum b) (mb_payload b) (mb_channel b) true (mb_hop_limit b) (mb_priority b).

Definition hop_limit (b : MessageBuilder) (limit : Z) : MessageBuilder :=
  mkBuilder (mb_dest b) (mb_portnum b) (mb_payload b) (mb_channel b) (mb_want_ack b)
    (if MAX_HOP_LIMIT <? limit then MAX_HOP_LIMIT else limit) (mb_priority b).

Definition priority (b : MessageBuilder) (p : Priority) : MessageBuilder :=
  mkBuilder (mb_dest b) (mb_portnum b) (mb_payload b) (mb_channel b) (mb_want_ack b) (mb_hop_limit b) p.

(** ** [build] *)

Definition data_of (b : MessageBuilder) : Data :=
  mkData (portnum_to_i32 (mb_portnum b)) (mb_payload b) false 0 0 0 0 [].

Section Build.
Context `{Ctr128LE} (data_encode : Data -> bytes).

Definition build (b : MessageBuilder) (from : NodeNum) (psk : bytes) (packet_ids : PacketIdCounter)
  : result MeshPacket MeshError * PacketIdCounter :=
  let (r, packet_ids) := next_id packet_ids in
  (let? packet_id := r in
   let data := data_of b in
   let plaintext := data_encode data in
   let? encrypted := encrypt plaintext packet_id from psk in
   let payload_variant :=
     match psk with [] => Decoded data | _ => Encrypted encrypted end in
   Ok {| mp_from := from; mp_to := mb_dest b; mp_channel := mb_channel b;
         mp_payload_variant := Some payload_variant;
         mp_id := packet_id; mp_rx_time := 0; mp_rx_snr := f32_zero;
         mp_hop_limit := mb_hop_limit b; mp_want_ack := mb_want_ack b;
         mp_priority := priority_to_i32 (mb_priority b);
         mp_rx_rssi := 0; mp_via_mqtt := false; mp_hop_start := mb_hop_limit b |},
   packet_ids).
End Build.

(** ** What clients can obtain: builders reachable through the public API *)

Inductive built_with {AdminMessage} (pe : Position -> bytes) (ae : AdminMessage -> bytes)
  : MessageBuilder -> Prop :=
| bw_text dest t cfg : 0 <= default_hop_limit cfg -> built_with pe ae (text_with_config dest t cfg)
| bw_position dest lat lon cfg b :
    0 <= default_hop_limit cfg ->
    position_with_config pe dest lat lon cfg = Ok b -> built_with pe ae b
| bw_admin dest m cfg :
    0 <= default_hop_limit cfg -> built_with pe ae (admin_with_config ae dest m cfg)
| bw_traceroute dest : built_with pe ae (traceroute dest)
| bw_channel b ch : built_with pe ae b -> built_with pe ae (channel b ch)
| bw_with_ack b : built_with pe ae b -> built_with pe ae (with_ack b)
| bw_hop_limit b l : 0 <= l -> built_with pe ae b -> built_with pe ae (hop_limit b l)
| bw_priority b p : built_with pe ae b -> built_with pe ae (priority b p).

(** * Lemmas *)

Lemma built_with_hop_limit {AdminMessage} pe (ae : AdminMessage -> bytes) b :
  built_with pe ae b -> 0 <= mb_hop_limit b <= MAX_HOP_LIMIT.
Proof.
  unfold MAX_HOP_LIMIT.
  induction 1 as [|dest lat lon cfg b Hc E| | | | | |]; simpl; unfold MAX_HOP_LIMIT in *; try lia.
  - unfold position_with_config in E. case_match; [done|]. apply Ok_inj in E as <-.
    simpl. unfold MAX_HOP_LIMIT. lia.
  - split_ifs; lia.
Qed.

(** The counter moves by one on every call until the id space is exhausted,
    whatever becomes of the packet. *)
Lemma build_counter `{Ctr128LE} enc b from psk c r c' :
  build enc b from psk c = (r, c') ->
  c' = (next_id c).2 /\ (is_ok r = true -> last_issued c' = last_issued c + 1).
Proof.
  unfold build, next_id, checked_add. destruct (last_issued c + 1 <? 2 ^ 32); intros [= <- <-]; done.
Qed.

(** * Properties *)

(** What [build] puts on the air: for a builder obtained through the public
    constructors and setters, a built packet carries the id the counter issued
    (one above the last, so never one used before), a hop limit within the
    protocol's maximum that equals its hop start, and the builder's address;
    on a channel with a PSK its payload is ciphertext that a receiver holding
    the channel decrypts to the encoding of the builder's [Data], and only an
    empty PSK sends it in the clear. When [build] fails the id space is
    exhausted or the PSK has no defined key, and in the latter case the id is
    consumed and never reused. *)
Theorem build_packet `{Ctr128LE} {AdminMessage} pe (ae : AdminMessage -> bytes)
    (data_encode : Data -> bytes) (data_decode : bytes -> option Data) b from psk c :
  built_with pe ae b -> data_decode (data_encode (data_of b)) = Some (data_of b) ->
  match build data_encode b from psk c with
  | (Ok p, c') =>
      mp_id p = last_issued c + 1 /\ mp_id p < 2 ^ 32 /\ c' = mkCounter (mp_id p) /\
      mp_from p = from /\ mp_to p = mb_dest b /\
      0 <= mp_hop_limit p <= MAX_HOP_LIMIT /\ mp_hop_start p = mp_hop_limit p /\
      match mp_payload_variant p with
      | Some (Decoded d) => psk = [] /\ d = data_of b
      | Some (Encrypted ct) =>
          psk <> [] /\ forall idx,
            decrypt data_decode ct (mp_id p) from [(idx, psk)] = Ok (data_encode (data_of b), idx)
      | None => False
      end
  | (Err e, c') =>
      (e = PacketIdSpaceExhausted /\ c' = c /\ 2 ^ 32 - 1 <= last_issued c) \/
      (e = Encryption (length psk) /\ resolve_psk psk = Undefined (length psk) /\
       last_issued c' = last_issued c + 1)
  end.
Proof.
  intros Hb Hcodec. pose proof (built_with_hop_limit _ _ _ Hb) as Hhop.
  unfold build, next_id, checked_add.
  destruct (last_issued c + 1 <? 2 ^ 32) eqn:Hid; cbn [result_bind]; [|left; repeat split; lia].
  destruct psk as [|k psk].
  { cbn. repeat split; lia. }
  destruct (resolve_psk (k :: psk)) as [|key|len] eqn:Hr.
  - unfold resolve_psk in Hr. by repeat case_match.
  - rewrite (encrypt_key _ _ _ _ key) by done. cbn -[resolve_psk apply_aes_ctr xor_bytes keystream build_nonce].
    repeat split; try lia; try done. intros idx. rewrite Hr.
    erewrite (apply_aes_ctr_involutive (data_encode (data_of b)));
      [by rewrite Hcodec | by eapply resolve_psk_Key | ].
    apply apply_aes_ctr_key. by eapply resolve_psk_Key.
  - unfold encrypt. rewrite Hr. right. apply resolve_psk_Undefined in Hr as ->. done.
Qed.

Lemma build_packet_witness :
  let b := hop_limit (with_ack (text 0x1234 [104; 105])) 9 in
  let enc := fun d : Data => d_portnum d :: d_payload d in
  let dec := fun l : bytes =>
    match l with [] => None | p :: l => Some (mkData p l false 0 0 0 0 []) end in
  exists p c', @build counter_cipher enc b 0xABCD [1] (resume 41) = (Ok p, c') /\
    mp_id p = 42 /\ mp_hop_start p = mp_hop_limit p /\ 0 <= mp_hop_limit p <= MAX_HOP_LIMIT.
Proof.
  intros b enc dec.
  assert (built_with (fun _ => []) (fun _ : unit => []) b) as Hb.
  { apply bw_hop_limit; [lia|]. apply bw_with_ack, bw_text. vm_compute. discriminate. }
  pose proof (@build_packet counter_cipher unit (fun _ => []) (fun _ => []) enc dec b
    0xABCD [1] (resume 41) Hb eq_refl) as T.
  destruct (@build counter_cipher enc b 0xABCD [1] (resume 41)) as [[p|e] c'] eqn:E.
  - exists p, c'. destruct T as (T1 & _ & _ & _ & _ & T6 & T7 & _).
    split; [reflexivity|]. split; [exact T1|]. split; [exact T7|exact T6].
  - vm_compute in E. discriminate E.
Defined.
