(* ===== verification/Outbound.v ===== *)
(** * The outbound queue (crates/kerykeion/src/outbound.rs)

    Messages waiting to be sent, ordered by priority and first-in first-out
    within a priority, and messages awaiting an acknowledgement. Reads of the
    clock are the argument [now]. *)

From S2P Require Import Prelude MeshTypes Proto.

Local Open Scope Z_scope.

(** [OutboundConfig] (config.rs). *)
Record OutboundConfig : Type := mkOutboundConfig {
  oc_max_inflight : nat;
  oc_max_pending : nat;
  oc_max_retries : Z;
  oc_ack_timeout_secs : Z;
  oc_store_forward_ttl_secs : Z;
  oc_delivery_record_max_age_secs : Z
}.
Definition OutboundConfig_default : OutboundConfig := mkOutboundConfig 8 1024 5 30 3600 7200.

Record PendingMessage : Type := mkPending {
  pm_packet : MeshPacket;
  pm_created : Instant;
  pm_ttl : Duration;
  pm_priority : Priority;
  pm_retries : Z
}.

Record InflightMessage : Type := mkInflight {
  im_packet : MeshPacket;
  im_created : Instant;
  im_ttl : Duration;
  im_sent_at : Instant;
  im_retries : Z;
  im_max_retries : Z;
  im_ack_timeout : Duration
}.

Definition pm_is_expired (m : PendingMessage) (now : Instant) : bool :=
  pm_ttl m <=? duration_since now (pm_created m).
Definition im_is_expired (m : InflightMessage) (now : Instant) : bool :=
  im_ttl m <=? duration_since now (im_created m).
Definition has_timed_out (m : InflightMessage) (now : Instant) : bool :=
  im_ack_timeout m <=? duration_since now (im_sent_at m).

Record OutboundQueue : Type := mkOutbound {
  pending : list PendingMessage;
  inflight : gmap Z InflightMessage;
  max_inflight : nat;
  max_pending : nat;
  max_retries : Z
}.

Definition outbound_with_config (c : OutboundConfig) : OutboundQueue :=
  mkOutbound [] ∅ (oc_max_inflight c) (oc_max_pending c) (oc_max_retries c).

Definition set_pending (q : OutboundQueue) (p : list PendingMessage) : OutboundQueue :=
  mkOutbound p (inflight q) (max_inflight q) (max_pending q) (max_retries q).
Definition set_inflight (q : OutboundQueue) (i : gmap Z InflightMessage) : OutboundQueue :=
  mkOutbound (pending q) i (max_inflight q) (max_pending q) (max_retries q).

Definition with_max_inflight (n : nat) : OutboundQueue :=
  mkOutbound [] ∅ n (oc_max_pending OutboundConfig_default) (oc_max_retries OutboundConfig_default).
Definition pending_count (q : OutboundQueue) : nat := length (pending q).
Definition inflight_count (q : OutboundQueue) : nat := size (inflight q).

Definition remaining_capacity (q : OutboundQueue) : nat := max_pending q - length (pending q).

Definition enqueue (q : OutboundQueue) (msg : PendingMessage)
  : OutboundQueue * result unit PendingMessage :=
  if (max_pending q <=? length (pending q))%nat then (q, Err msg)
  else
    let insert_pos := default (length (pending q))
      (position (fun existing => priority_to_i32 (pm_priority existing)
                                 <? priority_to_i32 (pm_priority msg)) (pending q)) in
    (set_pending q (insert_at insert_pos msg (pending q)), Ok tt).

(** The [while let] loop of [next_to_send]: expired messages at the front are
    popped, then the first other one. *)
Fixpoint pop_unexpired (now : Instant) (l : list PendingMessage)
  : option PendingMessage * list PendingMessage :=
  match l with
  | [] => (None, [])
  | front :: rest =>
      if pm_is_expired front now then pop_unexpired now rest else (Some front, rest)
  end.

Definition next_to_send (q : OutboundQueue) (now : Instant) : option PendingMessage * OutboundQueue :=
  if (max_inflight q <=? size (inflight q))%nat then (None, q)
  else let (m, rest) := pop_unexpired now (pending q) in (m, set_pending q rest).

Definition mark_sent (q : OutboundQueue) (id : PacketId) (timeout : Duration) (now : Instant)
  : OutboundQueue :=
  match position (fun m => mp_id (pm_packet m) =? id) (pending q) with
  | Some pos =>
      match pending q !! pos with
      | Some msg =>
          set_inflight (set_pending q (remove_at pos (pending q)))
            (<[id := mkInflight (pm_packet msg) (pm_created msg) (pm_ttl msg) now 0
                       (max_retries q) timeout]> (inflight q))
      | None => q
      end
  | None => q
  end.

Definition track_inflight (q : OutboundQueue) (msg : PendingMessage) (timeout : Duration)
    (now : Instant) : OutboundQueue :=
  set_inflight q
    (<[mp_id (pm_packet msg) := mkInflight (pm_packet msg) (pm_created msg) (pm_ttl msg) now
          (pm_retries msg) (max_retries q) timeout]> (inflight q)).

Definition queue_handle_ack (q : OutboundQueue) (id : PacketId)
  : option InflightMessage * OutboundQueue :=
  (inflight q !! id, set_inflight q (delete id (inflight q))).

Definition check_timeouts `{HashOrder} (q : OutboundQueue) (now : Instant) : list PacketId :=
  map fst (List.filter (fun kv => has_timed_out kv.2 now) (hm_iter (inflight q))).

Definition retry (q : OutboundQueue) (id : PacketId) : bool * OutboundQueue :=
  match inflight q !! id with
  | None => (false, q)
  | Some msg =>
      let q := set_inflight q (delete id (inflight q)) in
      if im_max_retries msg <=? im_retries msg then (false, q)
      else
        let retries := wrapping_add 8 (im_retries msg) 1 in
        let priority := default PDefault (priority_try_from (mp_priority (im_packet msg))) in
        let (q, r) := enqueue q (mkPending (im_packet msg) (im_created msg) (im_ttl msg)
                                   priority retries) in
        (is_ok r, q)
  end.

Definition queue_handle_nak (q : OutboundQueue) (id : PacketId) : bool * OutboundQueue :=
  retry q id.

Definition drain_expired (q : OutboundQueue) (now : Instant) : OutboundQueue :=
  set_inflight
    (set_pending q (List.filter (fun m => negb (pm_is_expired m now)) (pending q)))
    (filter (fun kv => im_is_expired kv.2 now = false) (inflight q)).

(** ** Sequences of operations *)

Inductive QueueOp : Type :=
| OpEnqueue (msg : PendingMessage)
| OpNextToSend (now : Instant)
| OpMarkSent (id : PacketId) (timeout : Duration) (now : Instant)
| OpTrackInflight (msg : PendingMessage) (timeout : Duration) (now : Instant)
| OpHandleAck (id : PacketId)
| OpRetry (id : PacketId)
| OpDrainExpired (now : Instant).

Definition run_op (q : OutboundQueue) (op : QueueOp) : OutboundQueue :=
  match op with
  | OpEnqueue msg => (enqueue q msg).1
  | OpNextToSend now => (next_to_send q now).2
  | OpMarkSent id timeout now => mark_sent q id timeout now
  | OpTrackInflight msg timeout now => track_inflight q msg timeout now
  | OpHandleAck id => (queue_handle_ack q id).2
  | OpRetry id => (retry q id).2
  | OpDrainExpired now => drain_expired q now
  end.

Definition run_ops (q : OutboundQueue) (ops : list QueueOp) : OutboundQueue :=
  fold_left run_op ops q.

(** ** The invariant *)

Definition prio (m : PendingMessage) : Z := priority_to_i32 (pm_priority m).

(** [a] may precede [b] in the pending queue. *)
Definition before (a b : PendingMessage) : Prop := prio b <= prio a.

Record queue_ok (q : OutboundQueue) : Prop := {
  ok_sorted : StronglySorted before (pending q);
  ok_bounded : (length (pending q) <= max_pending q)%nat;
  ok_pending_retries : Forall (fun m => 0 <= pm_retries m <= max_retries q) (pending q);
  ok_inflight : map_Forall (fun id m =>
      mp_id (im_packet m) = id /\ 0 <= im_retries m <= im_max_retries m /\
      im_max_retries m = max_retries q) (inflight q)
}.

(** The messages clients hand in have a retry count within the limit. *)
Definition op_ok (limit : Z) (op : QueueOp) : Prop :=
  match op with
  | OpEnqueue msg | OpTrackInflight msg _ _ => 0 <= pm_retries msg <= limit
  | _ => True
  end.

(** * Lemmas *)

(** Where [enqueue] inserts in a sorted queue: behind everything of at least
    the message's priority, ahead of everything below it. *)
Lemma insert_pos_split (msg : PendingMessage) l :
  StronglySorted before l ->
  exists l1 l2, l = l1 ++ l2 /\
    insert_at (default (length l) (position (fun e => prio e <? prio msg) l)) msg l
      = l1 ++ msg :: l2 /\
    Forall (fun e => prio msg <= prio e) l1 /\ Forall (fun e => prio e < prio msg) l2.
Proof.
  induction 1 as [|a l Hs IH Ha]; simpl; [by exists [], []|].
  destruct (prio a <? prio msg) eqn:E; simpl.
  - exists [], (a :: l). split; [done|]. split; [done|]. split; [done|].
    constructor; [lia|]. eapply Forall_impl; [exact Ha|]. unfold before. intros; lia.
  - destruct IH as (l1 & l2 & Hl & Hins & H1 & H2). exists (a :: l1), l2.
    split; [by rewrite Hl|]. split; [|split; [constructor; [lia|done]|done]].
    transitivity (a :: (l1 ++ msg :: l2)); [|done]. rewrite <- Hins.
    by destruct (position _ l).
Qed.

Lemma enqueue_room q msg :
  StronglySorted before (pending q) -> (length (pending q) < max_pending q)%nat ->
  exists l1 l2, pending q = l1 ++ l2 /\
    enqueue q msg = (set_pending q (l1 ++ msg :: l2), Ok tt) /\
    Forall (fun e => prio msg <= prio e) l1 /\ Forall (fun e => prio e < prio msg) l2.
Proof.
  intros Hs Hroom. destruct (insert_pos_split msg (pending q) Hs) as (l1 & l2 & Hl & Hins & H1 & H2).
  exists l1, l2. split; [done|]. split; [|done].
  unfold enqueue. rewrite leb_correct_conv by done. unfold prio in Hins.
  by rewrite Hins.
Qed.

Lemma enqueue_full q msg :
  (max_pending q <= length (pending q))%nat -> enqueue q msg = (q, Err msg).
Proof. intros. unfold enqueue. by rewrite leb_correct. Qed.

Lemma insert_sorted msg l1 l2 :
  StronglySorted before (l1 ++ l2) ->
  Forall (fun e => prio msg <= prio e) l1 -> Forall (fun e => prio e < prio msg) l2 ->
  StronglySorted before (l1 ++ msg :: l2).
Proof.
  rewrite !StronglySorted_app_iff. intros (S1 & S2 & F) H1 H2. split; [done|]. split.
  - constructor; [done|]. eapply Forall_impl; [exact H2|]. unfold before. intros; lia.
  - apply Forall_forall. intros x Hx. constructor.
    + rewrite Forall_forall in H1. unfold before. by apply H1.
    + rewrite Forall_forall in F. by apply F.
Qed.

Lemma pop_unexpired_spec now l m rest :
  pop_unexpired now l = (m, rest) ->
  exists dropped, Forall (fun d => pm_is_expired d now = true) dropped /\
    match m with
    | Some m => l = dropped ++ m :: rest /\ pm_is_expired m now = false
    | None => l = dropped /\ rest = []
    end.
Proof.
  revert m rest. induction l as [|a l IH]; simpl; intros m rest.
  - intros [= <- <-]. by exists [].
  - destruct (pm_is_expired a now) eqn:E.
    + intros (d & Hd & Hm)%IH. exists (a :: d). split; [by constructor|].
      destruct m; simpl; [destruct Hm as [-> ?]|destruct Hm as [-> ->]]; done.
    + intros [= <- <-]. by exists [].
Qed.

(** An operation that only drops pending messages keeps the invariant. *)
Lemma queue_ok_sublist q l :
  queue_ok q -> l `sublist_of` pending q -> queue_ok (set_pending q l).
Proof.
  intros [H1 H2 H3 H4] Hl. constructor; simpl; [|  | |done].
  - by eapply StronglySorted_sublist.
  - apply sublist_length in Hl. lia.
  - by eapply Forall_sublist.
Qed.

Lemma queue_ok_inflight q i :
  queue_ok q -> i ⊆ inflight q -> queue_ok (set_inflight q i).
Proof.
  intros [H1 H2 H3 H4] Hi. constructor; simpl; [done..|]. intros k x Hx. by eapply H4, lookup_weaken.
Qed.

Lemma queue_ok_insert q id m :
  queue_ok q -> mp_id (im_packet m) = id -> 0 <= im_retries m <= im_max_retries m ->
  im_max_retries m = max_retries q -> queue_ok (set_inflight q (<[id := m]> (inflight q))).
Proof.
  intros [H1 H2 H3 H4] Hid Hr Hm. constructor; simpl; [done..|].
  apply map_Forall_insert_2; [done|]. done.
Qed.

Lemma enqueue_ok q msg :
  queue_ok q -> 0 <= pm_retries msg <= max_retries q -> queue_ok (enqueue q msg).1.
Proof.
  intros Hq Hr. destruct (decide (length (pending q) < max_pending q)%nat) as [Hlt|Hge].
  - destruct (enqueue_room q msg) as (l1 & l2 & Hl & -> & F1 & F2); [apply Hq|done|].
    destruct Hq as [H1 H2 H3 H4]. rewrite Hl in *. constructor; simpl; [| | |done].
    + by apply insert_sorted.
    + rewrite length_app in *. simpl. lia.
    + apply Forall_app in H3 as [? ?]. apply Forall_app. split; [done|]. by constructor.
  - by rewrite enqueue_full by lia.
Qed.

Lemma retry_found q id m :
  queue_ok q -> is_uint 8 (max_retries q) -> inflight q !! id = Some m ->
  im_retries m < im_max_retries m ->
  exists priority, priority = default PDefault (priority_try_from (mp_priority (im_packet m))) /\
  let q1 := set_inflight q (delete id (inflight q)) in
  let m1 := mkPending (im_packet m) (im_created m) (im_ttl m) priority (im_retries m + 1) in
  retry q id = (is_ok (enqueue q1 m1).2, (enqueue q1 m1).1).
Proof.
  unfold is_uint. intros [_ _ _ H4] Hm Hid Hlt. specialize (H4 id m Hid) as (_ & Hr & Hmax).
  eexists. split; [done|]. unfold retry. rewrite Hid.
  destruct (im_max_retries m <=? im_retries m) eqn:E; [lia|].
  assert (wrapping_add 8 (im_retries m) 1 = im_retries m + 1) as ->.
  { unfold wrapping_add. apply Z.mod_small. lia. }
  cbv zeta. by destruct (enqueue _ _).
Qed.

Lemma run_op_ok q op :
  queue_ok q -> is_uint 8 (max_retries q) -> op_ok (max_retries q) op ->
  queue_ok (run_op q op) /\ max_retries (run_op q op) = max_retries q /\
  max_pending (run_op q op) = max_pending q.
Proof.
  intros Hq Hu Hop.
  assert (forall q msg, max_retries (enqueue q msg).1 = max_retries q /\
                        max_pending (enqueue q msg).1 = max_pending q) as Henq.
  { intros ? ?. unfold enqueue. by split_ifs. }
  destruct op as [msg|now|id tmo now|msg tmo now|id|id|now]; simpl in *.
  - split; [by apply enqueue_ok|apply Henq].
  - unfold next_to_send. split_ifs; [done|].
    destruct (pop_unexpired now (pending q)) as [m rest] eqn:E. simpl. split; [|done].
    apply pop_unexpired_spec in E as (d & _ & Hm). apply queue_ok_sublist; [done|].
    destruct m; [destruct Hm as [-> _]|destruct Hm as [_ ->]; apply sublist_nil_l].
    apply sublist_inserts_l. by constructor.
  - unfold mark_sent. destruct (position _ _) as [pos|] eqn:E; [|done].
    destruct (pending q !! pos) as [msg|] eqn:Hp; [|done]. split; [|done].
    apply position_Some in E as (x & Hx & Hid & _). assert (x = msg) as -> by congruence.
    apply (queue_ok_insert (set_pending q _)); simpl; [|lia|unfold is_uint in Hu; lia|done].
    apply queue_ok_sublist; [done|apply remove_at_sublist].
  - split; [|done]. by apply queue_ok_insert.
  - split; [|done]. apply queue_ok_inflight; [done|apply delete_subseteq].
  - destruct (inflight q !! id) as [m|] eqn:E; [|unfold retry; by rewrite E].
    assert (queue_ok (set_inflight q (delete id (inflight q)))) as Hq1.
    { apply queue_ok_inflight; [done|apply delete_subseteq]. }
    destruct (decide (im_retries m < im_max_retries m)) as [Hlt|Hge].
    + destruct (retry_found q id m Hq Hu E Hlt) as (pr & _ & ->). simpl.
      destruct Hq as [_ _ _ H4]. specialize (H4 id m E) as (_ & Hr & Hmax).
      split; [|apply (Henq (set_inflight q _))]. apply enqueue_ok; [done|]. simpl. lia.
    + unfold retry. rewrite E. destruct (im_max_retries m <=? im_retries m) eqn:E'; [done|lia].
  - split; [|done]. apply (queue_ok_inflight (set_pending q _)); [|apply map_filter_subseteq].
    apply queue_ok_sublist; [done|apply filter_sublist].
Qed.

Lemma run_ops_ok q ops :
  queue_ok q -> is_uint 8 (max_retries q) -> Forall (op_ok (max_retries q)) ops ->
  queue_ok (run_ops q ops) /\ max_retries (run_ops q ops) = max_retries q /\
  max_pending (run_ops q ops) = max_pending q.
Proof.
  unfold run_ops. revert q. induction ops as [|op ops IH]; intros q Hq Hu Hops; [done|].
  inversion Hops as [|? ? Hop Hrest]; subst.
  destruct (run_op_ok q op Hq Hu Hop) as (H1 & H2 & H3). simpl.
  rewrite <- H2, <- H3. apply IH; rewrite ?H2; done.
Qed.

Lemma queue_ok_new c : is_uint 8 (oc_max_retries c) -> queue_ok (outbound_with_config c).
Proof.
  intros. constructor; simpl; [constructor|lia|constructor|apply map_Forall_empty].
Qed.

(** * Properties *)

(** C21. The outbound queue's invariant: after any sequence of its operations
    from a fresh queue, the messages handed in carrying at most [max_retries]
    retries (the router's carry none, or come from the queue), the pending messages
    are in descending priority order and number at most [max_pending], no message
    anywhere carries more than [max_retries] retries, and the in-flight table is
    keyed by packet id. *)
Theorem outbound_queue_invariant (c : OutboundConfig) (ops : list QueueOp) :
  is_uint 8 (oc_max_retries c) -> Forall (op_ok (oc_max_retries c)) ops ->
  let q := run_ops (outbound_with_config c) ops in
  queue_ok q /\ max_pending q = oc_max_pending c /\ max_retries q = oc_max_retries c.
Proof.
  intros Hc Hops.
  destruct (run_ops_ok (outbound_with_config c) ops) as (H1 & H2 & H3);
    [by apply queue_ok_new|done..|].
  by split; [|split].
Qed.

(** Sample packets: an id, a destination and a wire priority. *)
Definition sample_packet (id to prio : Z) : MeshPacket :=
  mkMeshPacket 1 to 0 None id 0 SpecFloat.S754_nan 3 true prio 0 false 3.
Definition sample_pending (id created ttl : Z) (p : Priority) : PendingMessage :=
  mkPending (sample_packet id 9 64) created ttl p 0.

Lemma outbound_queue_invariant_witness :
  let ops := [OpEnqueue (sample_pending 1 0 100 PBackground); OpEnqueue (sample_pending 2 0 100 PAck);
              OpMarkSent 1 30 5; OpRetry 1; OpDrainExpired 50] in
  map (fun m => (mp_id (pm_packet m), pm_retries m))
      (pending (run_ops (outbound_with_config OutboundConfig_default) ops)) = [(2, 0); (1, 1)] /\
  queue_ok (run_ops (outbound_with_config OutboundConfig_default) ops).
Proof.
  intros ops. split; [vm_compute; reflexivity|].
  refine (proj1 (outbound_queue_invariant OutboundConfig_default ops _ _)).
  - unfold is_uint. simpl. lia.
  - repeat constructor; simpl; lia.
Defined.

(** Enqueuing is stable priority insertion and refuses when full: with
    room, the message goes behind every pending message of its own or a higher
    priority and ahead of every lower one, the others keeping their order; at
    [max_pending] the queue is unchanged and the message is handed back. *)
Theorem enqueue_stable (q : OutboundQueue) (msg : PendingMessage) :
  queue_ok q ->
  if decide (length (pending q) < max_pending q)%nat
  then exists ahead behind,
    pending q = ahead ++ behind /\
    enqueue q msg = (set_pending q (ahead ++ msg :: behind), Ok tt) /\
    Forall (fun e => prio msg <= prio e) ahead /\ Forall (fun e => prio e < prio msg) behind
  else enqueue q msg = (q, Err msg).
Proof.
  intros Hq. case_decide.
  - by apply enqueue_room; [apply Hq|].
  - apply enqueue_full. lia.
Qed.

Lemma enqueue_stable_witness :
  let q := set_pending (outbound_with_config OutboundConfig_default)
             [sample_pending 1 0 9 PAck; sample_pending 2 0 9 PDefault; sample_pending 3 0 9 PMin] in
  queue_ok q /\
  exists ahead behind, pending q = ahead ++ behind /\
    enqueue q (sample_pending 4 0 9 PDefault)
    = (set_pending q (ahead ++ sample_pending 4 0 9 PDefault :: behind), Ok tt).
Proof.
  intros q.
  assert (queue_ok q) as Hq.
  { constructor; [|vm_compute; lia|repeat constructor; vm_compute; discriminate|apply map_Forall_empty].
    repeat constructor; vm_compute; discriminate. }
  split; [exact Hq|].
  pose proof (enqueue_stable q (sample_pending 4 0 9 PDefault) Hq) as T.
  destruct (decide _) as [Hlt|Hge]; [|exfalso; apply Hge; vm_compute; lia].
  destruct T as (a & b & T1 & T2 & _). exists a, b. split; [exact T1|exact T2].
Defined.

(** The message [next_to_send] returns is not expired, no unexpired
    pending message has a higher priority, and of those with its priority it is
    the first; the messages it drops are all expired, the rest keep their
    order. It returns nothing only when the in-flight window is full (leaving
    the queue alone) or every pending message is expired. *)
Theorem next_to_send_best (q : OutboundQueue) (now : Instant) :
  queue_ok q ->
  match next_to_send q now with
  | (Some m, q') =>
      exists dropped, pending q = dropped ++ m :: pending q' /\
        Forall (fun d => pm_is_expired d now = true) dropped /\
        pm_is_expired m now = false /\ (size (inflight q) < max_inflight q)%nat /\
        forall e, e ∈ pending q -> pm_is_expired e now = false -> prio e <= prio m
  | (None, q') =>
      ((max_inflight q <= size (inflight q))%nat /\ q' = q) \/
      (Forall (fun d => pm_is_expired d now = true) (pending q) /\ pending q' = [])
  end.
Proof.
  intros Hq. unfold next_to_send.
  destruct (max_inflight q <=? size (inflight q))%nat eqn:Hfull; [left; split; [lia|done]|].
  destruct (pop_unexpired now (pending q)) as [m rest] eqn:E.
  apply pop_unexpired_spec in E as (d & Hd & Hm).
  destruct m as [m|]; [|right; by destruct Hm as [-> ->]].
  destruct Hm as [Hp Hm]. exists d. split; [done|]. split; [done|]. split; [done|].
  split; [lia|]. intros e He Hexp.
  destruct Hq as [Hs _ _ _]. rewrite Hp in Hs, He.
  apply StronglySorted_app_iff in Hs as (_ & Hs & _).
  apply elem_of_app in He as [He|[->|He]%elem_of_cons].
  - rewrite Forall_forall in Hd. apply Hd in He. congruence.
  - done.
  - inversion Hs as [|? ? _ Hall]; subst. rewrite Forall_forall in Hall. by apply Hall.
Qed.

Lemma next_to_send_best_witness :
  let q := set_pending (outbound_with_config OutboundConfig_default)
             [sample_pending 1 0 10 PAck; sample_pending 2 0 90 PDefault; sample_pending 3 0 90 PMin] in
  queue_ok q /\
  exists q', next_to_send q 50 = (Some (sample_pending 2 0 90 PDefault), q') /\
    forall e, e ∈ pending q -> pm_is_expired e 50 = false -> prio e <= 64.
Proof.
  intros q.
  assert (queue_ok q) as Hq.
  { constructor; [|vm_compute; lia|repeat constructor; vm_compute; discriminate|apply map_Forall_empty].
    repeat constructor; vm_compute; discriminate. }
  split; [exact Hq|]. eexists. split; [vm_compute; reflexivity|].
  pose proof (next_to_send_best q 50 Hq) as T.
  change (next_to_send q 50) with
    (Some (sample_pending 2 0 90 PDefault), set_pending q [sample_pending 3 0 90 PMin]) in T.
  destruct T as (d & _ & _ & _ & _ & T). exact T.
Defined.

(** Retrying an unacknowledged message: it leaves the in-flight table and
    is queued again exactly when it has retries left and the queue has room,
    with the same packet, the same creation time and TTL (so the same deadline,
    however often it is retried) and one more retry on its count. The priority
    it is queued under is the one in the packet's header, not the one it was
    first enqueued under. *)
Theorem retry_keeps_deadline (q : OutboundQueue) (id : PacketId) (m : InflightMessage) :
  queue_ok q -> is_uint 8 (max_retries q) -> inflight q !! id = Some m ->
  let (again, q') := retry q id in
  inflight q' = delete id (inflight q) /\
  (again = true <->
     im_retries m < max_retries q /\ (length (pending q) < max_pending q)%nat) /\
  if again
  then exists ahead behind m',
    pending q = ahead ++ behind /\ pending q' = ahead ++ m' :: behind /\
    pm_packet m' = im_packet m /\ pm_retries m' = im_retries m + 1 /\
    (forall now, pm_is_expired m' now = im_is_expired m now) /\
    pm_priority m' = default PDefault (priority_try_from (mp_priority (im_packet m)))
  else pending q' = pending q.
Proof.
  intros Hq Hu Hid.
  assert (im_max_retries m = max_retries q) as Hmax by apply (ok_inflight _ Hq id m Hid).
  destruct (decide (im_retries m < im_max_retries m)) as [Hlt|Hge].
  2: { unfold retry. rewrite Hid. destruct (_ <=? _) eqn:E; [|lia].
       split; [done|]. split; [|done]. split; [done|lia]. }
  destruct (retry_found q id m Hq Hu Hid Hlt) as (pr & Hpr & ->).
  set (q1 := set_inflight q (delete id (inflight q))).
  set (m1 := mkPending (im_packet m) (im_created m) (im_ttl m) pr (im_retries m + 1)).
  destruct (decide (length (pending q) < max_pending q)%nat) as [Hroom|Hfull].
  - destruct (enqueue_room q1 m1) as (a & b & Hp & -> & _ & _); [apply Hq|done|].
    split; [done|]. split; [split; [intros _; split; [lia|done]|done]|].
    by exists a, b, m1.
  - rewrite (enqueue_full q1 m1) by (simpl; lia). split; [done|]. split; [|done].
    split; [done|lia].
Qed.

Lemma retry_keeps_deadline_witness :
  let m := mkInflight (sample_packet 7 9 10) 0 100 20 2 5 30 in
  let q := set_inflight (outbound_with_config OutboundConfig_default) {[7 := m]} in
  queue_ok q /\ inflight (retry q 7).2 = ∅.
Proof.
  intros m q.
  assert (queue_ok q) as Hq.
  { constructor; [constructor|vm_compute; lia|constructor|].
    apply map_Forall_singleton. split; [reflexivity|]. split; [simpl; lia|reflexivity]. }
  split; [exact Hq|].
  assert (is_uint 8 (max_retries q)) as Hu by (unfold is_uint; simpl; lia).
  pose proof (retry_keeps_deadline q 7 m Hq Hu eq_refl) as T.
  change (retry q 7) with ((retry q 7).1, (retry q 7).2) in T.
  destruct T as [T _]. rewrite T. reflexivity.
Defined.
