(* ===== verification/Delivery.v ===== *)
(** * Delivery tracking (crates/kerykeion/src/delivery.rs)

    The lifecycle record of every outbound packet and the per-destination
    statistics. The [u64] statistics counters, which move by one per event, are
    unbounded integers here; the [u8] retry count keeps its width. *)

From S2P Require Import Prelude MeshTypes Proto.

Local Open Scope Z_scope.

Inductive DeliveryFailure : Type :=
| FNoRoute
| FMaxRetries
| FNak (e : RoutingError)
| FUnknownNak (code : Z)
| FTtl
| FNodeOffline.

Inductive DeliveryStatus : Type :=
| Queued
| Sent (at_ : Instant)
| Acknowledged (at_ : Instant) (hops : option Z)
| Failed (reason : DeliveryFailure)
| Expired.

Record DestStats : Type := mkStats {
  attempted : Z;
  acknowledged : Z;
  failed : Z;
  latency_sum_ms : Z;
  total_retries : Z
}.
Definition DestStats_default : DestStats := mkStats 0 0 0 0 0.

(** [checked_div]: [None] when nothing was acknowledged. *)
Definition average_latency_ms (s : DestStats) : option Z :=
  if acknowledged s =? 0 then None else Some (latency_sum_ms s / acknowledged s).

Record DeliveryRecord : Type := mkRecord {
  dr_status : DeliveryStatus;
  dr_dest : Z;
  dr_created : Instant;
  dr_retries : Z
}.

Record DeliveryTracker : Type := mkTracker {
  records : gmap Z DeliveryRecord;
  dest_stats : gmap Z DestStats
}.
Definition DeliveryTracker_new : DeliveryTracker := mkTracker ∅ ∅.

(** [dest_stats.entry(dest).or_default()] followed by an update in place. *)
Definition with_stats (dest : Z) (f : DestStats -> DestStats) (m : gmap Z DestStats) : gmap Z DestStats :=
  <[dest := f (default DestStats_default (m !! dest))]> m.

Definition set_status (r : DeliveryRecord) (s : DeliveryStatus) : DeliveryRecord :=
  mkRecord s (dr_dest r) (dr_created r) (dr_retries r).

Definition add_failed (s : DestStats) : DestStats :=
  mkStats (attempted s) (acknowledged s) (failed s + 1) (latency_sum_ms s) (total_retries s).

Definition track (t : DeliveryTracker) (id : PacketId) (dest : Z) (now : Instant) : DeliveryTracker :=
  mkTracker (<[id := mkRecord Queued dest now 0]> (records t))
    (with_stats dest (fun s => mkStats (attempted s + 1) (acknowledged s) (failed s)
                                 (latency_sum_ms s) (total_retries s)) (dest_stats t)).

Definition tracker_mark_sent (t : DeliveryTracker) (id : PacketId) (now : Instant) : DeliveryTracker :=
  match records t !! id with
  | Some record => mkTracker (<[id := set_status record (Sent now)]> (records t)) (dest_stats t)
  | None => t
  end.

Definition mark_acknowledged (t : DeliveryTracker) (id : PacketId) (hops : option Z) (now : Instant)
  : DeliveryTracker :=
  match records t !! id with
  | None => t
  | Some record =>
      let acknowledge (reconcile_failed : bool) :=
        let latency_ms := duration_as_millis (duration_since now (dr_created record)) in
        let latency_u64 := Z.min latency_ms (uint_max 64) in
        mkTracker (<[id := set_status record (Acknowledged now hops)]> (records t))
          (with_stats (dr_dest record) (fun s =>
             let failed' := if reconcile_failed then saturating_sub (failed s) 1 else failed s in
             mkStats (attempted s) (acknowledged s + 1) failed'
               (saturating_add 64 (latency_sum_ms s) latency_u64) (total_retries s))
             (dest_stats t)) in
      match dr_status record with
      | Acknowledged _ _ => t
      | Failed _ | Expired => acknowledge true
      | Queued | Sent _ => acknowledge false
      end
  end.

Definition mark_failed (t : DeliveryTracker) (id : PacketId) (reason : DeliveryFailure) : DeliveryTracker :=
  match records t !! id with
  | Some record =>
      mkTracker (<[id := set_status record (Failed reason)]> (records t))
        (with_stats (dr_dest record) add_failed (dest_stats t))
  | None => t
  end.

Definition mark_expired (t : DeliveryTracker) (id : PacketId) : DeliveryTracker :=
  match records t !! id with
  | Some record =>
      mkTracker (<[id := set_status record Expired]> (records t))
        (with_stats (dr_dest record) add_failed (dest_stats t))
  | None => t
  end.

Definition record_retry (t : DeliveryTracker) (id : PacketId) : DeliveryTracker :=
  match records t !! id with
  | Some r =>
      mkTracker (<[id := mkRecord (dr_status r) (dr_dest r) (dr_created r)
                           (wrapping_add 8 (dr_retries r) 1)]> (records t))
        (with_stats (dr_dest r) (fun s => mkStats (attempted s) (acknowledged s) (failed s)
                                   (latency_sum_ms s) (total_retries s + 1)) (dest_stats t))
  | None => t
  end.

Definition delivery_status (t : DeliveryTracker) (id : PacketId) : option DeliveryStatus :=
  dr_status <$> records t !! id.
Definition stats_for (t : DeliveryTracker) (dest : Z) : option DestStats := dest_stats t !! dest.
Definition tracked_count (t : DeliveryTracker) : nat := size (records t).

Definition is_active (r : DeliveryRecord) : bool :=
  match dr_status r with Queued | Sent _ => true | _ => false end.

Definition keep_record (now : Instant) (max_age : Duration) (r : DeliveryRecord) : bool :=
  match dr_status r with
  | Acknowledged _ _ | Failed _ | Expired => duration_since now (dr_created r) <? max_age
  | Queued | Sent _ => true
  end.

Definition prune_completed (t : DeliveryTracker) (max_age : Duration) (now : Instant) : DeliveryTracker :=
  mkTracker (filter (fun kv => keep_record now max_age kv.2 = true) (records t)) (dest_stats t).

(** The body of the loop of [expire_stale] at the record of one key. *)
Definition expire_one (max_age : Duration) (now : Instant)
    (acc : DeliveryTracker * list PacketId) (id : PacketId) : DeliveryTracker * list PacketId :=
  let (t, expired) := acc in
  match records t !! id with
  | Some record =>
      if is_active record && (max_age <=? duration_since now (dr_created record))
      then (mkTracker (<[id := set_status record Expired]> (records t))
              (with_stats (dr_dest record) add_failed (dest_stats t)), expired ++ [id])
      else (t, expired)
  | None => (t, expired)
  end.

Definition expire_stale `{HashOrder} (t : DeliveryTracker) (max_age : Duration) (now : Instant)
  : DeliveryTracker * list PacketId :=
  fold_left (expire_one max_age now) (map fst (hm_iter (records t))) (t, []).

(** ** Sequences of operations *)

Inductive TrackerOp : Type :=
| TTrack (id dest now : Z)
| TMarkSent (id now : Z)
| TMarkAcknowledged (id : Z) (hops : option Z) (now : Z)
| TMarkFailed (id : Z) (reason : DeliveryFailure)
| TMarkExpired (id : Z)
| TRecordRetry (id : Z)
| TPruneCompleted (max_age now : Z)
| TExpireStale (max_age now : Z).

Definition run_tracker_op `{HashOrder} (t : DeliveryTracker) (op : TrackerOp) : DeliveryTracker :=
  match op with
  | TTrack id dest now => track t id dest now
  | TMarkSent id now => tracker_mark_sent t id now
  | TMarkAcknowledged id hops now => mark_acknowledged t id hops now
  | TMarkFailed id reason => mark_failed t id reason
  | TMarkExpired id => mark_expired t id
  | TRecordRetry id => record_retry t id
  | TPruneCompleted max_age now => prune_completed t max_age now
  | TExpireStale max_age now => (expire_stale t max_age now).1
  end.

Definition run_tracker `{HashOrder} (t : DeliveryTracker) (ops : list TrackerOp) : DeliveryTracker :=
  fold_left run_tracker_op ops t.

(** ** The invariant: statistics cover the records still held *)

Definition is_failed (s : DeliveryStatus) : bool :=
  match s with Failed _ | Expired => true | _ => false end.
Definition is_acked (s : DeliveryStatus) : bool :=
  match s with Acknowledged _ _ => true | _ => false end.

(** Records of destination [d] whose status satisfies [p]. *)
Definition held (p : DeliveryStatus -> bool) (d : Z) (m : gmap Z DeliveryRecord) : Z :=
  Z.of_nat (size (filter (fun kv => dr_dest kv.2 = d /\ p (dr_status kv.2) = true) m)).

Definition stats_of (t : DeliveryTracker) (d : Z) : DestStats :=
  default DestStats_default (dest_stats t !! d).

Definition tracker_ok (t : DeliveryTracker) : Prop :=
  forall d,
    held is_failed d (records t) <= failed (stats_of t d) /\
    held is_acked d (records t) <= acknowledged (stats_of t d) /\
    held (fun _ => true) d (records t) <= attempted (stats_of t d).

(** * Lemmas *)

Definition weight (p : DeliveryStatus -> bool) (d : Z) (r : DeliveryRecord) : Z :=
  if (dr_dest r =? d) && p (dr_status r) then 1 else 0.

Lemma held_insert p d m id r :
  held p d (<[id := r]> m) = held p d (delete id m) + weight p d r.
Proof.
  unfold held, weight. rewrite <- (insert_delete_eq m id r).
  destruct ((dr_dest r =? d) && p (dr_status r)) eqn:E.
  - rewrite map_filter_insert_True by (simpl; lia).
    rewrite map_size_insert_None; [lia|].
    apply map_lookup_filter_None. left. apply lookup_delete_eq.
  - rewrite map_filter_insert_False by (simpl; lia). rewrite delete_delete_eq. lia.
Qed.

Lemma held_lookup p d m id r :
  m !! id = Some r -> held p d m = held p d (delete id m) + weight p d r.
Proof. intros Hr. rewrite <- held_insert. by rewrite insert_id. Qed.

Lemma weight_range p d r : 0 <= weight p d r <= 1.
Proof. unfold weight. destruct (_ && _); lia. Qed.

Lemma held_delete_le p d m id : held p d (delete id m) <= held p d m.
Proof.
  destruct (m !! id) as [r|] eqn:E.
  - rewrite (held_lookup p d m id r) by done. pose proof (weight_range p d r). lia.
  - by rewrite delete_id.
Qed.

Lemma held_mono p d m1 m2 : m1 ⊆ m2 -> held p d m1 <= held p d m2.
Proof.
  intros Hsub. unfold held. apply inj_le, map_subseteq_size, map_filter_subseteq_mono, Hsub.
Qed.

Lemma stats_of_with t recs d f d' :
  stats_of (mkTracker recs (with_stats d f (dest_stats t))) d'
  = if decide (d = d') then f (stats_of t d) else stats_of t d'.
Proof.
  unfold stats_of, with_stats. simpl. case_decide; subst.
  - by rewrite lookup_insert_eq.
  - by rewrite lookup_insert_ne.
Qed.

(** One record changes status and the destination's statistics follow: the
    invariant holds as long as each counter grows with the status it counts. *)
Lemma tracker_ok_update t id r r' f :
  tracker_ok t -> records t !! id = Some r -> dr_dest r' = dr_dest r ->
  let s := stats_of t (dr_dest r) in
  let w (b : bool) := if b then 1 else 0 in
  (w (is_failed (dr_status r)) <= failed s ->
   failed s + w (is_failed (dr_status r')) <= failed (f s) + w (is_failed (dr_status r))) ->
  acknowledged s + w (is_acked (dr_status r')) <= acknowledged (f s) + w (is_acked (dr_status r)) ->
  attempted s <= attempted (f s) ->
  tracker_ok (mkTracker (<[id := r']> (records t)) (with_stats (dr_dest r) f (dest_stats t))).
Proof.
  intros Ht Hr Hd s w Hf Ha Htry d. specialize (Ht d) as (H1 & H2 & H3).
  rewrite stats_of_with. cbn [records]. rewrite !held_insert.
  rewrite (held_lookup _ _ _ _ _ Hr) in H1. rewrite (held_lookup _ _ _ _ _ Hr) in H2.
  rewrite (held_lookup _ _ _ _ _ Hr) in H3.
  unfold weight in *. rewrite Hd. case_decide as E.
  - subst d. rewrite Z.eqb_refl in *. simpl in *. fold s in H1, H2, H3.
    unfold w in *.
    assert (0 <= held is_failed (dr_dest r) (delete id (records t))) by (unfold held; lia).
    assert ((if is_failed (dr_status r) then 1 else 0) <= failed s) as Hle by lia.
    specialize (Hf Hle). fold s. lia.
  - assert ((dr_dest r =? d) = false) as Hne by lia. rewrite Hne in *. simpl in *. lia.
Qed.

Lemma tracker_ok_filter t keep :
  tracker_ok t -> (keep ⊆ records t) -> tracker_ok (mkTracker keep (dest_stats t)).
Proof.
  intros Ht Hk d. specialize (Ht d).
  pose proof (held_mono is_failed d _ _ Hk). pose proof (held_mono is_acked d _ _ Hk).
  pose proof (held_mono (fun _ => true) d _ _ Hk).
  change (stats_of (mkTracker keep (dest_stats t)) d) with (stats_of t d). simpl. lia.
Qed.

Lemma tracker_ok_track t id dest now : tracker_ok t -> tracker_ok (track t id dest now).
Proof.
  intros Ht d. specialize (Ht d). unfold track. rewrite stats_of_with. cbn [records].
  rewrite !held_insert. unfold weight. cbn [dr_dest dr_status is_failed is_acked].
  pose proof (held_delete_le is_failed d (records t) id).
  pose proof (held_delete_le is_acked d (records t) id).
  pose proof (held_delete_le (fun _ => true) d (records t) id).
  rewrite !andb_false_r, andb_true_r. case_decide; subst; cbn [failed acknowledged attempted];
    split_ifs; lia.
Qed.

Lemma expire_one_ok max_age now acc id :
  tracker_ok acc.1 -> tracker_ok (expire_one max_age now acc id).1.
Proof.
  destruct acc as [t ex]. unfold expire_one. simpl. intros Ht.
  destruct (records t !! id) as [r|] eqn:E; [|done].
  destruct (is_active r && _) eqn:Ha; [|done]. simpl.
  apply (tracker_ok_update t id r); [done..| | |]; simpl;
    unfold is_active in Ha; destruct (dr_status r); simpl in *; lia.
Qed.

Lemma run_tracker_op_ok `{HashOrder} t op : tracker_ok t -> tracker_ok (run_tracker_op t op).
Proof.
  intros Ht. destruct op as [id dest now|id now|id hops now|id reason|id|id|age now|age now]; simpl.
  - by apply tracker_ok_track.
  - unfold tracker_mark_sent. destruct (records t !! id) as [r|] eqn:E; [|done].
    intros d. specialize (Ht d). rewrite !(held_lookup _ _ _ _ _ E) in Ht.
    change (stats_of (mkTracker _ (dest_stats t)) d) with (stats_of t d). cbn [records].
    rewrite !held_insert. unfold weight in *. simpl.
    rewrite !andb_false_r, andb_true_r in *. split_ifs; lia.
  - unfold mark_acknowledged. destruct (records t !! id) as [r|] eqn:E; [|done].
    destruct (dr_status r) eqn:Es; try done;
      (apply (tracker_ok_update t id r); [done..| | |]); rewrite ?Es; simpl;
      unfold saturating_sub; lia.
  - unfold mark_failed. destruct (records t !! id) as [r|] eqn:E; [|done].
    apply (tracker_ok_update t id r); [done..| | |]; simpl; split_ifs; lia.
  - unfold mark_expired. destruct (records t !! id) as [r|] eqn:E; [|done].
    apply (tracker_ok_update t id r); [done..| | |]; simpl; split_ifs; lia.
  - unfold record_retry. destruct (records t !! id) as [r|] eqn:E; [|done].
    apply (tracker_ok_update t id r); [done..| | |]; simpl; split_ifs; lia.
  - apply tracker_ok_filter; [done|apply map_filter_subseteq].
  - unfold expire_stale. set (ids := map fst _). change t with (t, @nil Z).1 in Ht.
    generalize dependent (t, @nil Z). induction ids as [|i ids IH]; intros acc Hacc; [done|].
    simpl. by apply IH, expire_one_ok.
Qed.

Lemma tracker_ok_new : tracker_ok DeliveryTracker_new.
Proof.
  intros d. assert (forall p, held p d ∅ = 0) as He.
  { intros p. unfold held. by rewrite map_filter_empty, map_size_empty. }
  cbn [records DeliveryTracker_new]. by rewrite !He.
Qed.

Lemma run_tracker_ok `{HashOrder} t ops : tracker_ok t -> tracker_ok (run_tracker t ops).
Proof.
  unfold run_tracker. revert t. induction ops as [|op ops IH]; intros t Ht; [done|].
  simpl. by apply IH, run_tracker_op_ok.
Qed.

Lemma mark_acknowledged_acked t id r hops now :
  records t !! id = Some r -> is_acked (dr_status r) = true -> mark_acknowledged t id hops now = t.
Proof. intros Hr Ha. unfold mark_acknowledged. rewrite Hr. by destruct (dr_status r). Qed.

Lemma mark_acknowledged_fresh t id r hops now :
  records t !! id = Some r -> is_acked (dr_status r) = false ->
  mark_acknowledged t id hops now =
  mkTracker (<[id := set_status r (Acknowledged now hops)]> (records t))
    (with_stats (dr_dest r) (fun s => mkStats (attempted s) (acknowledged s + 1)
       (if is_failed (dr_status r) then saturating_sub (failed s) 1 else failed s)
       (saturating_add 64 (latency_sum_ms s)
          (Z.min (duration_as_millis (duration_since now (dr_created r))) (uint_max 64)))
       (total_retries s)) (dest_stats t)).
Proof. intros Hr Ha. unfold mark_acknowledged. rewrite Hr. by destruct (dr_status r). Qed.

(** ** What [expire_stale] leaves *)

Definition is_stale (max_age : Duration) (now : Instant) (r : DeliveryRecord) : bool :=
  is_active r && (max_age <=? duration_since now (dr_created r)).

Lemma expire_fold max_age now ids t ex t' ex' :
  NoDup ids -> fold_left (expire_one max_age now) ids (t, ex) = (t', ex') ->
  (forall k, records t' !! k =
     (fun r => if bool_decide (k ∈ ids) && is_stale max_age now r then set_status r Expired else r)
       <$> records t !! k) /\
  ex' = ex ++ List.filter (fun k => match records t !! k with
                                    | Some r => is_stale max_age now r | None => false end) ids.
Proof.
  intros Hnd. revert t ex. induction Hnd as [|i ids Hi Hnd IH]; intros t ex Hf; simpl in Hf.
  { injection Hf as <- <-. rewrite app_nil_r. split; [|done].
    intros k. by destruct (records t !! k). }
  assert (forall k, k <> i -> bool_decide (k ∈ i :: ids) = bool_decide (k ∈ ids)) as Hbd.
  { intros k Hk. apply bool_decide_ext. rewrite elem_of_cons. tauto. }
  destruct (records t !! i) as [r|] eqn:Hr.
  2: { apply IH in Hf as [H1 H2]. simpl. rewrite Hr. split; [|done]. intros k. rewrite H1.
       destruct (decide (k = i)) as [->|Hne]; [by rewrite Hr|].
       destruct (records t !! k); simpl; [|done]. by rewrite Hbd. }
  fold (is_stale max_age now r) in Hf. simpl. rewrite Hr.
  destruct (is_stale max_age now r) eqn:Hs; apply IH in Hf as [H1 H2]; split.
  - intros k. rewrite H1. cbn [records]. destruct (decide (k = i)) as [->|Hne].
    + rewrite lookup_insert_eq, Hr. simpl. rewrite (bool_decide_false (i ∈ ids)) by done.
      rewrite bool_decide_true by (by left). simpl. by rewrite Hs.
    + rewrite lookup_insert_ne by done. destruct (records t !! k); simpl; [|done]. by rewrite Hbd.
  - rewrite H2, <- app_assoc. simpl. do 2 f_equal. apply filter_ext_in. intros k Hk.
    cbn [records]. rewrite lookup_insert_ne; [done|]. intros ->.
    by apply Hi, list_elem_of_In.
  - intros k. rewrite H1. destruct (decide (k = i)) as [->|Hne].
    + rewrite Hr. simpl. by rewrite Hs, !andb_false_r.
    + destruct (records t !! k); simpl; [|done]. by rewrite Hbd.
  - done.
Qed.

Lemma expire_stale_spec `{HashOrder} t max_age now t' ex :
  expire_stale t max_age now = (t', ex) ->
  (forall k, records t' !! k =
     (fun r => if is_stale max_age now r then set_status r Expired else r) <$> records t !! k) /\
  (forall k, k ∈ ex <-> exists r, records t !! k = Some r /\ is_stale max_age now r = true).
Proof.
  intros Hf. unfold expire_stale in Hf.
  assert (NoDup (map fst (hm_iter (records t)))) as Hnd.
  { change (map fst) with (fmap (M := list) (fst (A := Z) (B := DeliveryRecord))).
    rewrite hm_iter_perm. apply NoDup_fst_map_to_list. }
  assert (forall k, k ∈ map fst (hm_iter (records t)) <-> is_Some (records t !! k)) as Hin.
  { intros k. change (map fst) with (fmap (M := list) (fst (A := Z) (B := DeliveryRecord))).
    rewrite list_elem_of_fmap. setoid_rewrite hm_iter_perm. split.
    - intros ([k' r] & -> & Hk). apply elem_of_map_to_list in Hk. by eexists.
    - intros [r Hk]. exists (k, r). split; [done|]. by apply elem_of_map_to_list. }
  destruct (expire_fold _ _ _ _ _ _ _ Hnd Hf) as [H1 H2]. split.
  - intros k. rewrite H1. destruct (records t !! k) as [r|] eqn:E; simpl; [|done].
    rewrite bool_decide_true; [done|]. apply Hin. by rewrite E.
  - intros k. rewrite H2. simpl. rewrite list_elem_of_In, filter_In, <- list_elem_of_In, Hin. split.
    + intros [[r Hr] Hs]. rewrite Hr in Hs. by exists r.
    + intros (r & Hr & Hs). rewrite Hr. by split.
Qed.

(** * Properties *)

(** The statistics cover the records: after any sequence of tracker
    operations, for every destination the number of retained records that are
    failed or expired, acknowledged, or tracked at all is at most the
    [failed], [acknowledged] and [attempted] counter; so the decrement of
    [failed] on a late acknowledgement never saturates. *)
Theorem statistics_cover_records `{HashOrder} (ops : list TrackerOp) (d : Z) :
  let t := run_tracker DeliveryTracker_new ops in
  held is_failed d (records t) <= failed (stats_of t d) /\
  held is_acked d (records t) <= acknowledged (stats_of t d) /\
  held (fun _ => true) d (records t) <= attempted (stats_of t d).
Proof. apply run_tracker_ok, tracker_ok_new. Qed.

Lemma statistics_cover_records_witness :
  let ops := [TTrack 1 9 0; TTrack 2 9 0; TMarkFailed 1 FMaxRetries; TMarkAcknowledged 2 None 5;
              TExpireStale 100 50] in
  let t := @run_tracker canonical_order DeliveryTracker_new ops in
  held is_failed 9 (records t) = 1 /\ held is_failed 9 (records t) <= failed (stats_of t 9).
Proof.
  intros ops t. split; [vm_compute; reflexivity|].
  exact (proj1 (@statistics_cover_records canonical_order ops 9)).
Defined.

(** Acknowledgement is idempotent and reconciles a late one: the first
    ACK of a tracked packet makes it acknowledged and counts it once, takes a
    previously counted failure or expiry back exactly once, and leaves other
    packets and destinations alone; a duplicate ACK changes nothing. *)
Theorem acknowledge_once t id r hops now :
  tracker_ok t -> records t !! id = Some r ->
  let t' := mark_acknowledged t id hops now in
  (exists at_ h, delivery_status t' id = Some (Acknowledged at_ h)) /\
  (forall hops' now', mark_acknowledged t' id hops' now' = t') /\
  (forall id', id' <> id -> records t' !! id' = records t !! id') /\
  (forall d, d <> dr_dest r -> stats_of t' d = stats_of t d) /\
  (is_acked (dr_status r) = false ->
   let s := stats_of t (dr_dest r) in let s' := stats_of t' (dr_dest r) in
   acknowledged s' = acknowledged s + 1 /\ attempted s' = attempted s /\
   failed s' = failed s - (if is_failed (dr_status r) then 1 else 0) /\ 0 <= failed s').
Proof.
  intros Ht Hr. specialize (Ht (dr_dest r)) as (Hf & _ & _).
  rewrite (held_lookup _ _ _ _ _ Hr) in Hf. unfold weight in Hf. rewrite Z.eqb_refl in Hf.
  assert (0 <= held is_failed (dr_dest r) (delete id (records t))) as Hpos by (unfold held; lia).
  destruct (is_acked (dr_status r)) eqn:Ea; cbv zeta.
  { rewrite (mark_acknowledged_acked t id r hops now) by done.
    split; [unfold delivery_status; rewrite Hr; simpl; destruct (dr_status r); try done; eauto|].
    split; [intros; by apply (mark_acknowledged_acked t id r)|]. done. }
  rewrite (mark_acknowledged_fresh t id r hops now) by done. set (t' := mkTracker _ _).
  split; [exists now, hops; unfold delivery_status, t'; simpl; by rewrite lookup_insert_eq|].
  split; [intros; eapply mark_acknowledged_acked; [apply lookup_insert_eq|done]|].
  split; [intros; unfold t'; simpl; by rewrite lookup_insert_ne|].
  split; [intros; unfold t'; rewrite stats_of_with; by case_decide|].
  intros _. unfold t'. rewrite stats_of_with, decide_True by done. simpl. simpl in Hf.
  unfold saturating_sub. destruct (is_failed (dr_status r)); lia.
Qed.

Lemma acknowledge_once_witness :
  let t := mark_failed (track DeliveryTracker_new 5 9 0) 5 FMaxRetries in
  let t' := mark_acknowledged t 5 (Some 2) 1000000 in
  failed (stats_of t 9) = 1 /\ failed (stats_of t' 9) = failed (stats_of t 9) - 1 /\
  mark_acknowledged t' 5 None 2000000 = t'.
Proof.
  intros t t'. split; [reflexivity|].
  assert (tracker_ok t) as Ht.
  { exact (@run_tracker_ok canonical_order DeliveryTracker_new [TTrack 5 9 0; TMarkFailed 5 FMaxRetries]
             tracker_ok_new). }
  destruct (acknowledge_once t 5 (mkRecord (Failed FMaxRetries) 9 0 0) (Some 2) 1000000 Ht eq_refl)
    as (_ & T2 & _ & _ & T5).
  split; [exact (proj1 (proj2 (proj2 (T5 eq_refl))))|apply T2].
Defined.
