(* ===== verification/StoreForward.v ===== *)
(** * Store-and-forward (crates/kerykeion/src/store_forward.rs)

    Bounded per-destination queues for nodes that are not reachable. The JSON
    codec of [serialize] and [deserialize] is a parameter. *)

From S2P Require Import Prelude MeshTypes Proto.

Local Open Scope Z_scope.

(** [StoreForwardConfig] (config.rs). *)
Record StoreForwardConfig : Type := mkSFConfig {
  sf_enabled : bool; max_queue_per_dest : nat; message_ttl_secs : Z }.
Definition StoreForwardConfig_default : StoreForwardConfig := mkSFConfig false 16 3600.

Definition MAX_DESTINATIONS : nat := 256.

Record StoredMessage : Type := mkStored {
  sm_packet_bytes : bytes;
  sm_packet_id : Z;
  sm_dest : Z;
  sm_portnum : Z;
  sm_priority : Z;
  sm_stored_at_ms : Z;
  sm_ttl_secs : Z;
  sm_delivery_attempts : Z
}.

Inductive SFError : Type :=
| QueueFull (dest : Z)
| StoreForwardSerde
| StoreForwardOverCapacity (destination_count max : nat).

(** [BoundedQueue]: its one field. *)
Abbreviation BoundedQueue := (list StoredMessage).

Record StoreForward : Type := mkSF {
  queues : gmap Z BoundedQueue;
  config : StoreForwardConfig
}.

Definition StoreForward_new (c : StoreForwardConfig) : StoreForward := mkSF ∅ c.

(** [iter().map(|m| m.priority).min()]. *)
Definition min_priority (q : list StoredMessage) : option Z :=
  sm_priority <$> min_by_key sm_priority q.

Definition store (s : StoreForward) (dest : NodeNum) (msg : StoredMessage)
  : StoreForward * result unit SFError :=
  if negb (bool_decide (is_Some (queues s !! dest))) && (MAX_DESTINATIONS <=? size (queues s))%nat
  then (s, Err (QueueFull dest))
  else
    let queue := default [] (queues s !! dest) in
    let commit q := mkSF (<[dest := q]> (queues s)) (config s) in
    if (max_queue_per_dest (config s) <=? length queue)%nat then
      let min_priority := default 0 (min_priority queue) in
      if min_priority <? sm_priority msg then
        let queue :=
          match position (fun m => sm_priority m =? min_priority) queue with
          | Some pos => remove_at pos queue
          | None => queue
          end in
        (commit (queue ++ [msg]), Ok tt)
      else (commit queue, Err (QueueFull dest))
    else (commit (queue ++ [msg]), Ok tt).

Definition drain_for (s : StoreForward) (dest : NodeNum) : list StoredMessage * StoreForward :=
  (default [] (queues s !! dest), mkSF (delete dest (queues s)) (config s)).

Definition unexpired (now_ms : Z) (msg : StoredMessage) : bool :=
  let expires_at_ms :=
    saturating_add 64 (sm_stored_at_ms msg) (saturating_mul 64 (sm_ttl_secs msg) 1000) in
  now_ms <? expires_at_ms.

Definition prune_expired (s : StoreForward) (now_ms : Z) : StoreForward :=
  let retained := List.filter (unexpired now_ms) <$> queues s in
  mkSF (filter (fun kv => kv.2 <> []) retained) (config s).

Definition queue_depth (s : StoreForward) (dest : NodeNum) : nat :=
  match queues s !! dest with Some q => length q | None => O end.
Definition total_stored `{HashOrder} (s : StoreForward) : nat :=
  sum_list (map (fun kv => length kv.2) (hm_iter (queues s))).
Definition destination_count (s : StoreForward) : nat := size (queues s).

Section Serde.
Context (to_vec : gmap Z (list StoredMessage) -> option bytes)
        (from_slice : bytes -> option (gmap Z (list StoredMessage))).

Definition serialize (s : StoreForward) : result bytes SFError :=
  match to_vec (queues s) with
  | Some b => Ok b
  | None => Err StoreForwardSerde
  end.

Definition deserialize (s : StoreForward) (data : bytes) : StoreForward * result unit SFError :=
  match from_slice data with
  | None => (s, Err StoreForwardSerde)
  | Some raw =>
      if (MAX_DESTINATIONS <? size raw)%nat
      then (s, Err (StoreForwardOverCapacity (size raw) MAX_DESTINATIONS))
      else (mkSF raw (config s), Ok tt)
  end.

(** ** Sequences of operations *)

Inductive SFOp : Type :=
| SStore (dest : Z) (msg : StoredMessage)
| SDrainFor (dest : Z)
| SPruneExpired (now_ms : Z)
| SDeserialize (data : bytes).

Definition run_sf_op (s : StoreForward) (op : SFOp) : StoreForward :=
  match op with
  | SStore dest msg => (store s dest msg).1
  | SDrainFor dest => (drain_for s dest).2
  | SPruneExpired now_ms => prune_expired s now_ms
  | SDeserialize data => (deserialize s data).1
  end.

Definition run_sf (s : StoreForward) (ops : list SFOp) : StoreForward := fold_left run_sf_op ops s.
End Serde.

Definition is_deserialize (op : SFOp) : bool :=
  match op with SDeserialize _ => true | _ => false end.

Definition stored_for (s : StoreForward) (dest : Z) : list StoredMessage :=
  default [] (queues s !! dest).

(** Per-destination bound: a limit of zero still lets one message in. *)
Definition queues_bounded (s : StoreForward) : Prop :=
  map_Forall (fun _ q => (length q <= Nat.max 1 (max_queue_per_dest (config s)))%nat) (queues s).

(** * Lemmas *)

Lemma min_priority_spec q p :
  min_priority q = Some p ->
  (exists i v, q !! i = Some v /\ sm_priority v = p /\
     position (fun m => sm_priority m =? p) q = Some i) /\
  Forall (fun m => p <= sm_priority m) q.
Proof.
  unfold min_priority. intros (v & Hv & ->)%fmap_Some. apply min_by_key_Some in Hv as [Hin Hmin].
  split; [|by apply Forall_forall].
  destruct (position (fun m => sm_priority m =? sm_priority v) q) as [i|] eqn:E.
  - pose proof E as (w & Hw & Heq & _)%position_Some. exists i, w. split; [done|]. split; [lia|done].
  - apply position_None in E. rewrite Forall_forall in E. apply E in Hin. lia.
Qed.

(** What [store] does to the destination's own queue. *)
Lemma store_full s dest msg :
  is_Some (queues s !! dest) -> stored_for s dest <> [] ->
  (max_queue_per_dest (config s) <= length (stored_for s dest))%nat ->
  exists lo, Forall (fun m => lo <= sm_priority m) (stored_for s dest) /\
  if lo <? sm_priority msg
  then exists l1 v l2, stored_for s dest = l1 ++ v :: l2 /\ sm_priority v = lo /\
         Forall (fun m => lo < sm_priority m) l1 /\
         store s dest msg = (mkSF (<[dest := l1 ++ l2 ++ [msg]]> (queues s)) (config s), Ok tt)
  else store s dest msg = (s, Err (QueueFull dest)).
Proof.
  intros Hsome Hne Hfull. unfold store. rewrite bool_decide_true by done. simpl.
  fold (stored_for s dest). rewrite leb_correct by done.
  destruct (min_priority (stored_for s dest)) as [lo|] eqn:Hmin.
  2: { unfold min_priority in Hmin. rewrite fmap_None, min_by_key_None in Hmin. done. }
  apply min_priority_spec in Hmin as ((i & v & Hi & Hv & Hpos) & Hall).
  exists lo. split; [done|]. simpl. destruct (lo <? sm_priority msg).
  - exists (take i (stored_for s dest)), v, (drop (S i) (stored_for s dest)).
    split; [symmetry; by apply take_drop_middle|]. split; [done|]. split.
    + pose proof Hpos as (_ & _ & _ & Hbefore)%position_Some. apply Forall_forall.
      intros m Hm. apply list_elem_of_lookup in Hm as (j & Hj).
      apply lookup_take_Some in Hj as [Hj Hlt]. specialize (Hbefore j m Hlt Hj).
      rewrite Forall_forall in Hall. specialize (Hall m (list_elem_of_lookup_2 _ _ _ Hj)).
      simpl in *. lia.
    + rewrite Hpos. unfold remove_at. by rewrite <- app_assoc.
  - rewrite insert_id; [by destruct s|]. destruct Hsome as [q Hq]. unfold stored_for.
    by rewrite Hq.
Qed.

Lemma store_room s dest msg :
  (is_Some (queues s !! dest) \/ (size (queues s) < MAX_DESTINATIONS)%nat) ->
  (length (stored_for s dest) < max_queue_per_dest (config s))%nat ->
  store s dest msg = (mkSF (<[dest := stored_for s dest ++ [msg]]> (queues s)) (config s), Ok tt).
Proof.
  intros Hd Hroom. unfold store. fold (stored_for s dest).
  destruct (_ && _) eqn:E.
  - apply andb_true_iff in E as [E1 E2]. apply negb_true_iff, bool_decide_eq_false in E1.
    destruct Hd; [done|lia].
  - by rewrite leb_correct_conv.
Qed.

Lemma store_shape s dest msg :
  (store s dest msg).1 = s \/
  exists q', (store s dest msg).1 = mkSF (<[dest := q']> (queues s)) (config s) /\
    (is_Some (queues s !! dest) \/ (size (queues s) < MAX_DESTINATIONS)%nat) /\
    (length q' <= Nat.max (length (stored_for s dest)) (Nat.max 1 (max_queue_per_dest (config s))))%nat.
Proof.
  unfold store. destruct (_ && _) eqn:E; [by left|]. right.
  assert (is_Some (queues s !! dest) \/ (size (queues s) < MAX_DESTINATIONS)%nat) as Hd.
  { apply andb_false_iff in E as [E|E]; [left|right; lia].
    by apply negb_false_iff, bool_decide_eq_true in E. }
  fold (stored_for s dest). set (q := stored_for s dest).
  destruct (max_queue_per_dest (config s) <=? length q)%nat eqn:Hcap.
  - destruct (_ <? sm_priority msg).
    + eexists. split; [done|]. split; [done|]. rewrite length_app. simpl.
      destruct (min_priority q) as [lo|] eqn:Hmin.
      * apply min_priority_spec in Hmin as ((i & v & Hi & _ & Hpos) & _). simpl. rewrite Hpos.
        rewrite length_remove_at by (by eapply lookup_lt_Some).
        apply lookup_lt_Some in Hi. lia.
      * unfold min_priority in Hmin. rewrite fmap_None, min_by_key_None in Hmin.
        rewrite Hmin. simpl. lia.
    + exists q. split; [done|]. split; [done|]. lia.
  - eexists. split; [done|]. split; [done|]. rewrite length_app. simpl. lia.
Qed.

Lemma stored_for_prune s now_ms dest :
  stored_for (prune_expired s now_ms) dest = List.filter (unexpired now_ms) (stored_for s dest).
Proof.
  unfold stored_for, prune_expired. cbn [queues].
  rewrite map_lookup_filter, lookup_fmap.
  destruct (queues s !! dest) as [q|]; cbn; [|done].
  case_guard as E; cbn in *; by rewrite ?E.
Qed.

Section Invariant.
Context (from_slice : bytes -> option (gmap Z (list StoredMessage))).

Lemma run_sf_op_size s op :
  (size (queues s) <= MAX_DESTINATIONS)%nat ->
  (size (queues (run_sf_op from_slice s op)) <= MAX_DESTINATIONS)%nat /\
  config (run_sf_op from_slice s op) = config s.
Proof.
  intros Hs. destruct op as [dest msg|dest|now_ms|data]; simpl.
  - destruct (store_shape s dest msg) as [->|(q' & -> & Hd & _)]; [done|]. simpl. split; [|done].
    destruct (queues s !! dest) eqn:E.
    + by rewrite map_size_insert_Some.
    + rewrite map_size_insert_None by done. destruct Hd as [[? ?]|]; [congruence|lia].
  - split; [|done]. pose proof (map_subseteq_size _ _ (delete_subseteq (queues s) dest)). lia.
  - split; [|done]. pose proof (map_subseteq_size _ _ (map_filter_subseteq
      (fun kv => kv.2 <> []) (List.filter (unexpired now_ms) <$> queues s))) as Hle.
    rewrite map_size_fmap in Hle. lia.
  - unfold deserialize. destruct (from_slice data) as [raw|]; [|done].
    destruct (MAX_DESTINATIONS <? size raw)%nat eqn:E; [done|]. simpl. split; [lia|done].
Qed.

Lemma run_sf_op_bounded s op :
  is_deserialize op = false -> queues_bounded s -> queues_bounded (run_sf_op from_slice s op).
Proof.
  intros Hop Hs. destruct op as [dest msg|dest|now_ms|data]; simpl; [| | |done].
  - destruct (store_shape s dest msg) as [->|(q' & -> & _ & Hlen)]; [done|].
    apply map_Forall_insert_2; [|done]. cbn [config].
    unfold stored_for in Hlen. destruct (queues s !! dest) as [q|] eqn:E; simpl in Hlen; [|lia].
    specialize (Hs dest q E). cbn beta in Hs. lia.
  - intros k q Hq. cbn in Hq. apply lookup_delete_Some in Hq as [_ Hq]. by apply (Hs k).
  - intros k q Hq. cbn in Hq. apply map_lookup_filter_Some in Hq as [Hq _].
    apply lookup_fmap_Some in Hq as (q0 & <- & Hq0). specialize (Hs k q0 Hq0). cbn beta in Hs.
    pose proof (sublist_length _ _ (filter_sublist (unexpired now_ms) q0)). cbn [config prune_expired]. lia.
Qed.

Lemma run_sf_invariant s ops :
  (size (queues s) <= MAX_DESTINATIONS)%nat ->
  (size (queues (run_sf from_slice s ops)) <= MAX_DESTINATIONS)%nat /\
  config (run_sf from_slice s ops) = config s /\
  (queues_bounded s -> forallb (fun op => negb (is_deserialize op)) ops = true ->
   queues_bounded (run_sf from_slice s ops)).
Proof.
  unfold run_sf. revert s. induction ops as [|op ops IH]; intros s Hs; [done|].
  destruct (run_sf_op_size s op Hs) as [H1 H2]. specialize (IH _ H1) as (I1 & I2 & I3).
  simpl. rewrite I2. split; [done|]. split; [done|]. intros Hb Hops.
  apply andb_true_iff in Hops as [Hop Hops]. apply I3; [|done].
  apply run_sf_op_bounded; [|done]. by apply negb_true_iff.
Qed.
End Invariant.

(** * Properties *)

(** Store-and-forward memory is bounded: after any sequence of stores,
    drains, TTL passes and snapshot restores at most [MAX_DESTINATIONS]
    destinations are tracked; and when no snapshot was restored every queue
    holds at most [max_queue_per_dest] messages (one, if that is zero). A
    restored snapshot is bounded in destinations only. *)
Theorem store_forward_bounded from_slice (c : StoreForwardConfig) (ops : list SFOp) :
  let s := run_sf from_slice (StoreForward_new c) ops in
  (destination_count s <= MAX_DESTINATIONS)%nat /\
  (forallb (fun op => negb (is_deserialize op)) ops = true ->
   forall dest, (queue_depth s dest <= Nat.max 1 (max_queue_per_dest c))%nat).
Proof.
  destruct (run_sf_invariant from_slice (StoreForward_new c) ops) as (H1 & H2 & H3);
    [simpl; rewrite map_size_empty; unfold MAX_DESTINATIONS; lia|].
  split; [done|]. intros Hops dest. specialize (H3 (map_Forall_empty _) Hops).
  unfold queue_depth. destruct (queues _ !! dest) as [q|] eqn:E; [|lia].
  specialize (H3 dest q E). cbn beta in H3. by rewrite H2 in H3.
Qed.

(** What [store] does to a queue at capacity: the first message of the
    lowest priority makes way for a strictly more important one, which goes to
    the back, everything else keeping its place; a message no more important
    than every stored one is refused and nothing changes. *)
Theorem store_at_capacity s dest msg :
  stored_for s dest <> [] ->
  (max_queue_per_dest (config s) <= length (stored_for s dest))%nat ->
  exists lo, Forall (fun m => lo <= sm_priority m) (stored_for s dest) /\
  if lo <? sm_priority msg
  then exists l1 v l2, stored_for s dest = l1 ++ v :: l2 /\ sm_priority v = lo /\
         Forall (fun m => lo < sm_priority m) l1 /\
         store s dest msg = (mkSF (<[dest := l1 ++ l2 ++ [msg]]> (queues s)) (config s), Ok tt)
  else store s dest msg = (s, Err (QueueFull dest)).
Proof.
  intros Hne Hfull. apply store_full; [|done..].
  unfold stored_for in Hne. by destruct (queues s !! dest).
Qed.

Definition sample_stored (id prio : Z) : StoredMessage := mkStored [1] id 9 1 prio 0 3600 0.

Lemma store_at_capacity_witness :
  let s := mkSF {[9 := [sample_stored 1 64; sample_stored 2 10; sample_stored 3 10]]} (mkSFConfig true 3 60) in
  (max_queue_per_dest (config s) <= length (stored_for s 9))%nat /\
  exists lo, Forall (fun m => lo <= sm_priority m) (stored_for s 9) /\
    stored_for (store s 9 (sample_stored 4 70)).1 9
    = [sample_stored 1 64; sample_stored 3 10; sample_stored 4 70].
Proof.
  intros s. split; [vm_compute; lia|].
  assert (stored_for s 9 <> []) as Hne by (vm_compute; discriminate).
  assert (max_queue_per_dest (config s) <= length (stored_for s 9))%nat as Hf by (vm_compute; lia).
  destruct (store_at_capacity s 9 (sample_stored 4 70) Hne Hf) as (lo & T1 & T2).
  exists lo. split; [exact T1|vm_compute; reflexivity].
Defined.
