(* ===== verification/Router.v ===== *)
(** * The message router (crates/kerykeion/src/router.rs)

    [MeshRouter] composes the outbound queue, store-and-forward and the
    delivery tracker into the send path. The protobuf codec of [MeshPacket] is
    a parameter; each read of a clock is an argument. *)

From S2P Require Import Prelude MeshTypes Proto Outbound Delivery StoreForward.

Local Open Scope Z_scope.

(** [now_ms]: the wall clock in milliseconds since the epoch as [u64], 0 when
    it reads before the epoch. *)
Definition now_ms (timestamp_ms : Z) : Z := default 0 (try_uint 64 timestamp_ms).

Record MeshRouter : Type := mkRouter {
  outbound : OutboundQueue;
  store_forward : StoreForward;
  delivery : DeliveryTracker;
  ack_timeout : Duration;
  sf_ttl_secs : Z;
  record_max_age : Duration
}.

Record SendOptions : Type := mkSendOptions {
  so_want_ack : bool; so_priority : Priority; so_ttl_secs : Z }.

Definition SendOptions_with_config (c : OutboundConfig) : SendOptions :=
  mkSendOptions false PDefault (oc_store_forward_ttl_secs c).

Definition router_with_config (o : OutboundQueue) (s : StoreForward) (d : DeliveryTracker)
    (c : OutboundConfig) : MeshRouter :=
  mkRouter o s d (duration_from_secs (oc_ack_timeout_secs c)) (oc_store_forward_ttl_secs c)
    (duration_from_secs (oc_delivery_record_max_age_secs c)).

Definition set_outbound (r : MeshRouter) (o : OutboundQueue) : MeshRouter :=
  mkRouter o (store_forward r) (delivery r) (ack_timeout r) (sf_ttl_secs r) (record_max_age r).
Definition set_store_forward (r : MeshRouter) (s : StoreForward) : MeshRouter :=
  mkRouter (outbound r) s (delivery r) (ack_timeout r) (sf_ttl_secs r) (record_max_age r).
Definition set_delivery (r : MeshRouter) (d : DeliveryTracker) : MeshRouter :=
  mkRouter (outbound r) (store_forward r) d (ack_timeout r) (sf_ttl_secs r) (record_max_age r).

Section Codec.
Context (packet_encode : MeshPacket -> bytes) (packet_decode : bytes -> option MeshPacket).

(** [now_q] and [now_t] are the monotonic clock when the message is queued and
    when it is tracked, [ts] the wall clock. *)
Definition send (r : MeshRouter) (packet : MeshPacket) (reachable : bool) (options : SendOptions)
    (now_q now_t : Instant) (ts : Z) : result PacketId SFError * MeshRouter :=
  let id := mp_id packet in
  let dest := mp_to packet in
  let dispatched :=
    if reachable then
      match enqueue (outbound r)
              (mkPending packet now_q (duration_from_secs (so_ttl_secs options))
                 (so_priority options) 0) with
      | (o, Ok _) => (set_outbound r o, Ok tt)
      | (o, Err _) => (set_outbound r o, Err (QueueFull dest))
      end
    else
      let portnum :=
        match mp_payload_variant packet with
        | Some (Decoded data) => d_portnum data
        | _ => 0
        end in
      let (s, res) := store (store_forward r) dest
        {| sm_packet_bytes := packet_encode packet; sm_packet_id := id; sm_dest := dest;
           sm_portnum := portnum; sm_priority := priority_to_i32 (so_priority options);
           sm_stored_at_ms := now_ms ts; sm_ttl_secs := so_ttl_secs options;
           sm_delivery_attempts := 0 |} in
      (set_store_forward r s, res) in
  match dispatched with
  | (r, Ok _) => (Ok id, set_delivery r (track (delivery r) id dest now_t))
  | (r, Err e) => (Err e, r)
  end.

Definition handle_ack (r : MeshRouter) (packet_id : PacketId) (hops : option Z) (now : Instant)
  : MeshRouter :=
  let r := set_outbound r (queue_handle_ack (outbound r) packet_id).2 in
  set_delivery r (mark_acknowledged (delivery r) packet_id hops now).

Definition handle_nak (r : MeshRouter) (packet_id : PacketId) (error : RoutingError) : MeshRouter :=
  let (retried, o) := queue_handle_nak (outbound r) packet_id in
  let r := set_outbound r o in
  if retried
  then set_delivery r (record_retry (delivery r) packet_id)
  else set_delivery r (mark_failed (delivery r) packet_id (FNak error)).

(** The body of the loop of [process_timeouts]. *)
Definition timeout_one (acc : MeshRouter * list PacketId) (id : PacketId) : MeshRouter * list PacketId :=
  let (r, failed) := acc in
  let (retried, o) := retry (outbound r) id in
  let r := set_outbound r o in
  if retried
  then (set_delivery r (record_retry (delivery r) id), failed)
  else (set_delivery r (mark_failed (delivery r) id FMaxRetries), failed ++ [id]).

Definition process_timeouts `{HashOrder} (r : MeshRouter) (now : Instant) : MeshRouter * list PacketId :=
  fold_left timeout_one (check_timeouts (outbound r) now) (r, []).

(** The four passes, in order, each with its own clock reading. *)
Definition run_maintenance `{HashOrder} (r : MeshRouter) (now1 now2 : Instant) (ts : Z) (now3 : Instant)
  : list PacketId * MeshRouter :=
  let (d, expired) := expire_stale (delivery r) (record_max_age r) now1 in
  let d := prune_completed d (record_max_age r) now2 in
  let r := set_delivery r d in
  let r := set_store_forward r (prune_expired (store_forward r) (now_ms ts)) in
  let r := set_outbound r (drain_expired (outbound r) now3) in
  (expired, r).

(** The first loop of [node_came_online]: undecodable bytes are skipped, a
    refusal ends the loop. *)
Fixpoint enqueue_stored (o : OutboundQueue) (stored : list StoredMessage) (now : Instant) : OutboundQueue :=
  match stored with
  | [] => o
  | msg :: rest =>
      let priority := default PDefault (priority_try_from (sm_priority msg)) in
      match packet_decode (sm_packet_bytes msg) with
      | None => enqueue_stored o rest now
      | Some packet =>
          match enqueue o (mkPending packet now (duration_from_secs (sm_ttl_secs msg)) priority 0) with
          | (o, Ok _) => enqueue_stored o rest now
          | (o, Err _) => o
          end
      end
  end.

Definition node_came_online (r : MeshRouter) (dest : NodeNum) (now : Instant) : MeshRouter :=
  let (stored, s) := drain_for (store_forward r) dest in
  let capacity := remaining_capacity (outbound r) in
  let at_ := Nat.min (length stored) capacity in
  let deferred := drop at_ stored in
  let stored := take at_ stored in
  let o := enqueue_stored (outbound r) stored now in
  let s := fold_left (fun s msg => (store s dest msg).1) deferred s in
  set_store_forward (set_outbound r o) s.

Definition router_next_to_send (r : MeshRouter) (now now' : Instant)
  : option PendingMessage * MeshRouter :=
  match next_to_send (outbound r) now with
  | (None, o) => (None, set_outbound r o)
  | (Some msg, o) =>
      (Some msg, set_delivery (set_outbound r o)
                   (tracker_mark_sent (delivery r) (mp_id (pm_packet msg)) now'))
  end.

Definition track_sent (r : MeshRouter) (msg : PendingMessage) (now : Instant) : MeshRouter :=
  set_outbound r (track_inflight (outbound r) msg (ack_timeout r) now).

(** The pending messages that the decodable stored messages become. *)
Definition decoded_pending (stored : list StoredMessage) (now : Instant) : list PendingMessage :=
  omap (fun msg =>
    (fun packet => mkPending packet now (duration_from_secs (sm_ttl_secs msg))
                     (default PDefault (priority_try_from (sm_priority msg))) 0)
      <$> packet_decode (sm_packet_bytes msg)) stored.

(** * Lemmas *)

Lemma enqueue_perm o msg :
  (length (pending o) < max_pending o)%nat ->
  exists p, enqueue o msg = (set_pending o p, Ok tt) /\ p ≡ₚ msg :: pending o.
Proof.
  intros Hroom. unfold enqueue. rewrite leb_correct_conv by done.
  eexists. split; [done|apply insert_at_perm].
Qed.

Lemma enqueue_stored_perm stored o now :
  (length stored <= remaining_capacity o)%nat ->
  exists p, enqueue_stored o stored now = set_pending o p /\
    p ≡ₚ pending o ++ decoded_pending stored now.
Proof.
  revert o. induction stored as [|m stored IH]; intros o Hcap; simpl.
  { exists (pending o). split; [by destruct o|]. by rewrite app_nil_r. }
  simpl in Hcap. destruct (packet_decode (sm_packet_bytes m)) as [packet|]; simpl.
  2: { apply IH. lia. }
  set (pm := mkPending _ _ _ _ _).
  destruct (enqueue_perm o pm) as (p & -> & Hp); [unfold remaining_capacity in Hcap; lia|].
  destruct (IH (set_pending o p)) as (p' & -> & Hp').
  { unfold remaining_capacity in *. simpl. rewrite Hp. simpl. lia. }
  exists p'. split; [done|]. rewrite Hp'. simpl. rewrite Hp. by rewrite <- Permutation_middle.
Qed.

(** Storing messages back, one by one, into a queue with room appends them. *)
Lemma store_all dest msgs s :
  (length (stored_for s dest) + length msgs <= max_queue_per_dest (config s))%nat ->
  (is_Some (queues s !! dest) \/ (size (queues s) < MAX_DESTINATIONS)%nat) ->
  let s' := fold_left (fun s msg => (store s dest msg).1) msgs s in
  stored_for s' dest = stored_for s dest ++ msgs /\
  (forall d, d <> dest -> queues s' !! d = queues s !! d) /\ config s' = config s.
Proof.
  revert s. induction msgs as [|m msgs IH]; intros s Hlen Hd; simpl.
  { by rewrite app_nil_r. }
  simpl in Hlen. rewrite store_room by (done || lia). simpl.
  set (s1 := mkSF _ _).
  assert (stored_for s1 dest = stored_for s dest ++ [m]) as Hs1.
  { unfold stored_for at 1, s1. simpl. by rewrite lookup_insert_eq. }
  destruct (IH s1) as (H1 & H2 & H3).
  - rewrite Hs1, length_app. simpl. lia.
  - left. unfold s1. simpl. by rewrite lookup_insert_eq.
  - split; [by rewrite H1, Hs1, <- app_assoc|]. split; [|done].
    intros d Hne. rewrite H2 by done. unfold s1. simpl. by rewrite lookup_insert_ne.
Qed.

Lemma store_err s dest msg e s' :
  store s dest msg = (s', Err e) -> (forall d, stored_for s' d = stored_for s d) /\ e = QueueFull dest.
Proof.
  unfold store. split_ifs; intros [= <- <-]; (split; [|done]); [done|].
  intros d. unfold stored_for at 1. simpl. destruct (decide (d = dest)) as [->|Hne].
  - by rewrite lookup_insert_eq.
  - by rewrite lookup_insert_ne.
Qed.

Lemma store_ok_elem s dest msg s' :
  store s dest msg = (s', Ok tt) -> msg ∈ stored_for s' dest.
Proof.
  unfold store. split_ifs; intros [= <-]; unfold stored_for; simpl; rewrite lookup_insert_eq;
    simpl; apply elem_of_app; right; left.
Qed.
End Codec.

(** * Properties *)

(** [send] tracks a message exactly when it dispatched it: on success the
    id returned is the packet's, the tracker holds a fresh [Queued] record for
    it, and the message is in the outbound queue (reachable) or stored under
    its destination with the packet's encoding (not reachable); on failure the
    error names the destination, and the tracker, the queue and every stored
    message are as before. *)
Theorem send_tracks_iff_dispatched enc r packet reachable options now_q now_t ts :
  match send enc r packet reachable options now_q now_t ts with
  | (Ok id, r') =>
      id = mp_id packet /\
      delivery_status (delivery r') id = Some Queued /\
      if reachable
      then (exists m, m ∈ pending (outbound r') /\ pm_packet m = packet /\
                      pm_priority m = so_priority options) /\ store_forward r' = store_forward r
      else (exists m, m ∈ stored_for (store_forward r') (mp_to packet) /\
                      sm_packet_bytes m = enc packet) /\ outbound r' = outbound r
  | (Err e, r') =>
      e = QueueFull (mp_to packet) /\ delivery r' = delivery r /\ outbound r' = outbound r /\
      forall d, stored_for (store_forward r') d = stored_for (store_forward r) d
  end.
Proof.
  unfold send. destruct reachable.
  - set (m := mkPending _ _ _ _ _). destruct (enqueue (outbound r) m) as [o [[]|e]] eqn:E.
    + split; [done|]. split; [unfold delivery_status; simpl; by rewrite lookup_insert_eq|].
      split; [|done]. exists m. split; [|done]. simpl.
      unfold enqueue in E. split_ifs; [done|]. injection E as <-. simpl.
      rewrite insert_at_perm. left.
    + unfold enqueue in E. split_ifs; [|done]. by injection E as <- _.
  - destruct (store _ _ _) as [s [[]|e]] eqn:E.
    + split; [done|]. split; [unfold delivery_status; simpl; by rewrite lookup_insert_eq|].
      split; [|done]. eexists. split; [by eapply store_ok_elem|done].
    + by apply store_err in E as [E ->].
Qed.

(** Whatever the limits, storing keeps the other destinations and reorders nothing. *)
Lemma store_sublist s dest msg :
  let s' := (store s dest msg).1 in
  stored_for s' dest `sublist_of` stored_for s dest ++ [msg] /\
  (forall d, d <> dest -> queues s' !! d = queues s !! d).
Proof.
  unfold store. fold (stored_for s dest).
  destruct (_ && _); cbn; [split; [by apply sublist_inserts_r|done]|].
  assert (forall q, let s1 := mkSF (<[dest := q]> (queues s)) (config s) in
    stored_for s1 dest = q /\ forall d, d <> dest -> queues s1 !! d = queues s !! d) as Hc.
  { intros q s1. unfold stored_for, s1. cbn. split; [by rewrite lookup_insert_eq|]. intros d Hd. by rewrite lookup_insert_ne. }
  destruct (_ <=? _)%nat; [destruct (_ <? _)|]; cbn [fst];
    (match goal with |- context [mkSF (<[dest := ?q]> _) _] => destruct (Hc q) as [-> Hd] end; split; [|exact Hd]).
  - apply sublist_app; [|done]. destruct (position _ _); [apply remove_at_sublist|done].
  - by apply sublist_inserts_r.
  - done.
Qed.

Lemma store_all_sublist dest msgs : forall s,
  let s' := fold_left (fun s msg => (store s dest msg).1) msgs s in
  stored_for s' dest `sublist_of` stored_for s dest ++ msgs /\
  (forall d, d <> dest -> queues s' !! d = queues s !! d).
Proof.
  induction msgs as [|m msgs IH]; intros s; cbn [fold_left]; [by rewrite app_nil_r|].
  destruct (store_sublist s dest m) as [Hs Hd]. destruct (IH (store s dest m).1) as [Hs' Hd']. split.
  - etransitivity; [exact Hs'|]. change (m :: msgs) with ([m] ++ msgs). rewrite app_assoc. by apply sublist_app.
  - intros d Hne. by rewrite Hd', Hd.
Qed.

(** C22. A node coming online: as many of its stored messages as the outbound queue has
    room for move there, in order of storage, those whose bytes decode becoming pending
    messages and the others being dropped; of the rest none is duplicated or reordered,
    and all stay stored for it if they fit the limit of a destination's queue and the
    store holds at most MAX_DESTINATIONS destinations; other destinations, messages in
    flight and delivery records are untouched. The two limits hold in every store that
    was filled through this module with a queue limit of at least one; a snapshot
    restored under a smaller limit can exceed the first, and then messages are lost. *)
Theorem node_came_online_conserves dec r dest now :
  let r' := node_came_online dec r dest now in
  let stored := stored_for (store_forward r) dest in
  let k := Nat.min (length stored) (remaining_capacity (outbound r)) in
  pending (outbound r') ≡ₚ pending (outbound r) ++ decoded_pending dec (take k stored) now /\
  stored_for (store_forward r') dest `sublist_of` drop k stored /\
  ((length (drop k stored) <= max_queue_per_dest (config (store_forward r)))%nat ->
   (size (queues (store_forward r)) <= MAX_DESTINATIONS)%nat ->
   stored_for (store_forward r') dest = drop k stored) /\
  (forall d, d <> dest -> stored_for (store_forward r') d = stored_for (store_forward r) d) /\
  inflight (outbound r') = inflight (outbound r) /\ delivery r' = delivery r.
Proof.
  unfold node_came_online, drain_for. fold (stored_for (store_forward r) dest).
  cbv zeta. set (stored := stored_for _ dest) in *. set (k := Nat.min _ _).
  destruct (enqueue_stored_perm dec (take k stored) (outbound r) now) as (p & -> & Hp).
  { rewrite length_take. lia. }
  set (s0 := mkSF (delete dest _) _).
  assert (stored_for s0 dest = []) as Hs0 by (unfold stored_for, s0; cbn; by rewrite lookup_delete_eq).
  destruct (store_all_sublist dest (drop k stored) s0) as [Hsub Hoth]. rewrite Hs0 in Hsub.
  split; [done|]. split; [done|]. split; [|split; [|done]].
  - intros Hlen Hsize. destruct (drop k stored) as [|x l] eqn:Hdrop; [by apply sublist_nil_r in Hsub|].
    destruct (store_all dest (x :: l) s0) as (H1 & _); [rewrite Hs0; done| |by rewrite Hs0 in H1].
    right. assert (is_Some (queues (store_forward r) !! dest)) as [q Hq].
    { unfold stored, stored_for in Hdrop. destruct (queues _ !! dest); [done|].
      simpl in Hdrop. by rewrite drop_nil in Hdrop. }
    assert (size (queues (store_forward r)) <> O).
    { intros Hz%map_size_empty_inv. by rewrite Hz, lookup_empty in Hq. }
    unfold s0. simpl. rewrite map_size_delete, Hq. lia.
  - intros d Hne. unfold stored_for at 1. cbn [store_forward set_store_forward]. rewrite Hoth by done.
    unfold s0. cbn. by rewrite lookup_delete_ne.
Qed.

(** Two messages stored and room for one. *)
Lemma node_came_online_conserves_witness :
  let dec := fun b : bytes => match b with [i] => Some (sample_packet i 9 64) | _ => None end in
  let s := mkSF {[9 := [mkStored [1] 1 9 1 64 0 60 0; mkStored [2] 2 9 1 64 0 60 0]]}
                StoreForwardConfig_default in
  let o := mkOutbound [] ∅ 8 1 5 in
  let r := router_with_config o s DeliveryTracker_new OutboundConfig_default in
  stored_for (store_forward (node_came_online dec r 9 0)) 9 = [mkStored [2] 2 9 1 64 0 60 0].
Proof.
  intros dec s o r.
  destruct (node_came_online_conserves dec r 9 0) as (_ & _ & Hkeep & _). apply Hkeep; vm_compute; lia.
Defined.

(** One maintenance pass bounds every structure: for clock readings in
    order, each delivery record that remains is younger than the retention
    bound at the first reading, every stored message is within its TTL, no
    expired message is pending or in flight, and the ids returned are exactly
    those of the records that were active and past the bound. *)
Theorem run_maintenance_bounds `{HashOrder} r now1 now2 ts now3 expired r' :
  now1 <= now2 -> run_maintenance r now1 now2 ts now3 = (expired, r') ->
  map_Forall (fun _ rec => duration_since now1 (dr_created rec) < record_max_age r)
             (records (delivery r')) /\
  (forall id, id ∈ expired <-> exists rec, records (delivery r) !! id = Some rec /\
      is_active rec = true /\ record_max_age r <= duration_since now1 (dr_created rec)) /\
  (forall d, stored_for (store_forward r') d
             = List.filter (unexpired (now_ms ts)) (stored_for (store_forward r) d)) /\
  Forall (fun m => pm_is_expired m now3 = false) (pending (outbound r')) /\
  map_Forall (fun _ m => im_is_expired m now3 = false) (inflight (outbound r')).
Proof.
  intros Hnow. unfold run_maintenance.
  destruct (expire_stale (delivery r) (record_max_age r) now1) as [d ex] eqn:E.
  intros [= <- <-]. simpl. apply expire_stale_spec in E as [E1 E2].
  split; [|split; [|split; [|split]]].
  - intros k rec Hk. apply map_lookup_filter_Some in Hk as [Hk Hkeep].
    rewrite E1 in Hk. apply fmap_Some in Hk as (rec0 & Hrec0 & ->).
    unfold keep_record, is_stale, is_active, duration_since, saturating_sub in *. simpl in Hkeep.
    destruct (dr_status rec0) eqn:Es; simpl in *; rewrite ?Es in Hkeep; split_ifs; simpl in *;
      rewrite ?Es in Hkeep; lia.
  - intros id. rewrite E2. unfold is_stale. split; intros (rec & Hr & Hs); exists rec.
    + split; [done|]. destruct (is_active rec); simpl in *; [lia|done].
    + destruct Hs as [Ha Hs]. split; [done|]. rewrite Ha. simpl. lia.
  - intros dd. apply stored_for_prune.
  - apply Forall_forall. intros m Hm. apply list_elem_of_In, filter_In in Hm as [_ Hm].
    by apply negb_true_iff.
  - intros k m Hm. by apply map_lookup_filter_Some in Hm as [_ Hm].
Qed.

Lemma run_maintenance_bounds_witness :
  let t := track (track DeliveryTracker_new 1 9 0) 2 9 (duration_from_secs 7000) in
  let r := router_with_config (outbound_with_config OutboundConfig_default)
             (StoreForward_new StoreForwardConfig_default) t OutboundConfig_default in
  let n := duration_from_secs 7200 in
  exists expired r', @run_maintenance canonical_order r n n 0 n = (expired, r') /\ expired = [1] /\
    map_Forall (fun _ rec => duration_since n (dr_created rec) < record_max_age r)
               (records (delivery r')).
Proof.
  intros t r n. eexists _, _. split; [reflexivity|]. split; [vm_compute; reflexivity|].
  refine (proj1 (@run_maintenance_bounds canonical_order r n n 0 n _ _ _ eq_refl)). lia.
Defined.

(** A negative acknowledgement that arrives after a positive one
    overturns it: the ACK took the packet out of the in-flight table, so the
    NAK finds nothing to retry, and the record of a delivered message becomes
    failed while the destination's statistics count it under both. *)
Theorem late_nak_overturns_ack r id rec hops now error :
  records (delivery r) !! id = Some rec -> is_acked (dr_status rec) = false ->
  let r' := handle_nak (handle_ack r id hops now) id error in
  delivery_status (delivery r') id = Some (Failed (FNak error)) /\
  let s := stats_of (delivery r) (dr_dest rec) in
  let s' := stats_of (delivery r') (dr_dest rec) in
  attempted s' = attempted s /\ acknowledged s' = acknowledged s + 1 /\
  (is_failed (dr_status rec) = false -> failed s' = failed s + 1).
Proof.
  intros Hr Ha. unfold handle_nak, handle_ack, queue_handle_nak, queue_handle_ack, retry. simpl.
  rewrite lookup_delete_eq. simpl. rewrite (mark_acknowledged_fresh _ _ _ _ _ Hr Ha).
  unfold mark_failed. cbn [records]. rewrite lookup_insert_eq. cbn [set_status dr_dest].
  split; [unfold delivery_status; cbn [records]; by rewrite lookup_insert_eq|].
  cbv zeta. rewrite (stats_of_with (mkTracker _ _)), decide_True, stats_of_with, decide_True by done.
  simpl. split; [done|]. split; [done|]. by intros ->.
Qed.

Lemma late_nak_overturns_ack_witness :
  let t := track DeliveryTracker_new 5 9 0 in
  let r := router_with_config (outbound_with_config OutboundConfig_default)
             (StoreForward_new StoreForwardConfig_default) t OutboundConfig_default in
  let r' := handle_nak (handle_ack r 5 None 1) 5 NoRoute in
  delivery_status (delivery r') 5 = Some (Failed (FNak NoRoute)) /\
  acknowledged (stats_of (delivery r') 9) = 1.
Proof.
  intros t r r'.
  pose proof (late_nak_overturns_ack r 5 (mkRecord Queued 9 0 0) None 1 NoRoute eq_refl eq_refl) as T.
  split; [exact (proj1 T)|]. exact (proj1 (proj2 (proj2 T))).
Defined.
