(* ===== verification/NodeDb.v ===== *)
(** * The node database and node life cycle
      (crates/kerykeion/src/node_db.rs, crates/kerykeion/src/discovery.rs)

    The table of nodes heard on the mesh, bounded against identity floods by
    evicting the stalest entry, and the classification of a node by the time
    since it was last heard. A [jiff::Timestamp] is observed only through
    [as_millisecond], so it is its millisecond count. *)

From S2P Require Import Prelude Float MeshTypes Proto.

Local Open Scope Z_scope.

Abbreviation Timestamp := Z (only parsing).

Record UserInfo : Type := mkUserInfo {
  ui_id : string; ui_long_name : string; ui_short_name : string;
  ui_hw_model : Z; ui_is_licensed : bool }.

Record NodePosition : Type := mkNodePosition {
  np_latitude : f64; np_longitude : f64; np_altitude : option Z; np_timestamp : option Timestamp }.

Record DeviceMetrics : Type := mkMetrics {
  dm_battery_level : option Z; dm_voltage : option f32;
  dm_channel_utilization : option f32; dm_air_util_tx : option f32 }.

Record MeshNode : Type := mkMeshNode {
  mn_num : NodeNum;
  mn_user : option UserInfo;
  mn_position : option NodePosition;
  mn_metrics : option DeviceMetrics;
  mn_last_heard : option Timestamp;
  mn_snr : option f32;
  mn_hop_count : option Z
}.

(** A difference cast [as u64], so a negative one wraps. In milliseconds, as [Duration::from_millis] takes them. *)
Definition elapsed_since_heard (n : MeshNode) (now : Timestamp) : option Z :=
  (fun last_heard => as_uint 64 (i64_saturating_sub now last_heard)) <$> mn_last_heard n.

Record NodeDb : Type := mkNodeDb {
  nodes : gmap Z MeshNode;
  my_node : option NodeNum
}.
Definition NodeDb_new : NodeDb := mkNodeDb ∅ None.

Definition I64_MIN : Z := - 2 ^ 63.
Definition staleness_key (kv : Z * MeshNode) : Z := default I64_MIN (mn_last_heard kv.2).

Definition victim `{HashOrder} (db : NodeDb) : option NodeNum :=
  fst <$> min_by_key staleness_key
            (List.filter (fun kv => negb (bool_decide (Some kv.1 = my_node db))) (hm_iter (nodes db))).

Definition evict_stalest `{HashOrder} (db : NodeDb) : NodeDb :=
  match victim db with
  | Some v => mkNodeDb (delete v (nodes db)) (my_node db)
  | None => db
  end.

Definition db_insert `{HashOrder} (db : NodeDb) (node : MeshNode) : NodeDb :=
  let db :=
    if negb (bool_decide (is_Some (nodes db !! mn_num node)))
       && (MAX_LIVE_NODES <=? size (nodes db))%nat
    then evict_stalest db else db in
  mkNodeDb (<[mn_num node := node]> (nodes db)) (my_node db).

Definition db_get (db : NodeDb) (num : NodeNum) : option MeshNode := nodes db !! num.
Definition db_remove (db : NodeDb) (num : NodeNum) : option MeshNode * NodeDb :=
  (nodes db !! num, mkNodeDb (delete num (nodes db)) (my_node db)).
Definition db_len (db : NodeDb) : nat := size (nodes db).
Definition set_my_node (db : NodeDb) (num : NodeNum) : NodeDb := mkNodeDb (nodes db) (Some num).

(** ** Node life cycle (discovery.rs) *)

Inductive NodeState : Type := Active | Stale | Offline | Removed.

Definition classify_node_state (elapsed stale_timeout : Duration) : NodeState :=
  if elapsed <? stale_timeout then Active
  else if elapsed <? stale_timeout * 2 then Stale
  else if elapsed <? stale_timeout * 3 then Offline
  else Removed.

(** [build_traceroute_request]: the packet handed to the radio. *)
Definition build_traceroute_request (dest_node : NodeNum) : ToRadioVariant :=
  TRPacket {| mp_from := 0; mp_to := dest_node; mp_channel := 0;
     mp_payload_variant := Some (Decoded (mkData 70 [] true 0 0 0 0 []));
     mp_id := 0; mp_rx_time := 0; mp_rx_snr := f32_zero; mp_hop_limit := 7;
     mp_want_ack := true; mp_priority := 70; mp_rx_rssi := 0; mp_via_mqtt := false;
     mp_hop_start := 0 |}.

(** The destinations [send_traceroutes] collects under the lock. *)
Definition traceroute_targets `{HashOrder} (db : NodeDb) : list NodeNum :=
  List.filter (fun num => negb (bool_decide (Some num = my_node db))) (map fst (hm_iter (nodes db))).

(** The nodes [run_stale_detection] reports offline. *)
Definition offline_nodes `{HashOrder} (db : NodeDb) (now : Timestamp) (stale_timeout : Duration)
  : list NodeNum :=
  omap (fun kv =>
    match elapsed_since_heard kv.2 now with
    | Some elapsed =>
        match classify_node_state (elapsed * NANOS_PER_MILLI) stale_timeout with
        | Offline => Some kv.1
        | _ => None
        end
    | None => None
    end) (hm_iter (nodes db)).

(** ** Sequences of operations *)

Inductive DbOp : Type := DInsert (node : MeshNode) | DRemove (num : NodeNum) | DSetMyNode (num : NodeNum).

Definition run_db_op `{HashOrder} (db : NodeDb) (op : DbOp) : NodeDb :=
  match op with
  | DInsert node => db_insert db node
  | DRemove num => (db_remove db num).2
  | DSetMyNode num => set_my_node db num
  end.

Definition run_db `{HashOrder} (db : NodeDb) (ops : list DbOp) : NodeDb := fold_left run_db_op ops db.

Definition db_ok (db : NodeDb) : Prop :=
  (size (nodes db) <= MAX_LIVE_NODES)%nat /\ map_Forall (fun num n => mn_num n = num) (nodes db).

(** * Lemmas *)

Section DbLemmas.
Context `{HashOrder}.

Lemma victim_spec db v :
  victim db = Some v ->
  exists n, nodes db !! v = Some n /\ Some v <> my_node db /\
    forall k m, nodes db !! k = Some m -> Some k <> my_node db ->
      default I64_MIN (mn_last_heard n) <= default I64_MIN (mn_last_heard m).
Proof.
  unfold victim. intros ([k n] & Hmin & ->)%fmap_Some. apply min_by_key_Some in Hmin as [Hin Hmin].
  apply list_elem_of_In, filter_In in Hin as [Hin Hk]. apply list_elem_of_In, hm_iter_elem in Hin.
  apply negb_true_iff, bool_decide_eq_false in Hk. simpl in *.
  exists n. split; [done|]. split; [done|]. intros k' m Hm Hk'.
  apply (Hmin (k', m)), list_elem_of_In, filter_In. split; [by apply list_elem_of_In, hm_iter_elem|].
  by apply negb_true_iff, bool_decide_eq_false.
Qed.

(** Only a table of at most the local node has no victim. *)
Lemma victim_exists db : (2 <= size (nodes db))%nat -> is_Some (victim db).
Proof.
  intros Hsz. unfold victim. destruct (min_by_key _ _) as [kv|] eqn:E; [done|].
  apply min_by_key_None in E. exfalso.
  assert (forall k n, nodes db !! k = Some n -> Some k = my_node db) as Hall.
  { intros k n Hk. destruct (decide (Some k = my_node db)) as [|Hne]; [done|].
    assert ((k, n) ∈ List.filter (fun kv => negb (bool_decide (Some kv.1 = my_node db)))
                       (hm_iter (nodes db))) as Hin.
    { apply list_elem_of_In, filter_In. split; [by apply list_elem_of_In, hm_iter_elem|].
      by apply negb_true_iff, bool_decide_eq_false. }
    rewrite E in Hin. by inversion Hin. }
  assert (exists X : gset Z, dom (nodes db) ⊆ X /\ (size X <= 1)%nat) as (X & Hsub & HX).
  { destruct (my_node db) as [me|].
    - exists {[me]}. split; [|by rewrite size_singleton].
      intros k [n Hk]%elem_of_dom. specialize (Hall k n Hk) as [= ->]. set_solver.
    - exists ∅. split; [|rewrite size_empty; lia].
      intros k [n Hk]%elem_of_dom. by specialize (Hall k n Hk). }
  apply subseteq_size in Hsub. rewrite size_dom in Hsub. lia.
Qed.

Lemma db_insert_ok db node : db_ok db -> db_ok (db_insert db node).
Proof.
  intros [Hsz Hnum]. unfold db_insert.
  destruct (_ && _) eqn:E.
  - apply andb_true_iff in E as [E1 E2]. apply negb_true_iff, bool_decide_eq_false in E1.
    unfold evict_stalest. destruct (victim_exists db) as [v Hv].
    { unfold MAX_LIVE_NODES in *. lia. }
    rewrite Hv. apply victim_spec in Hv as (n & Hn & Hmy & _). split; simpl.
    + rewrite map_size_insert_None, map_size_delete, Hn; [unfold MAX_LIVE_NODES in *; lia|].
      apply lookup_delete_None. right. by apply eq_None_not_Some.
    + apply map_Forall_insert_2; [done|]. by apply map_Forall_delete.
  - apply andb_false_iff in E. split; simpl; [|by apply map_Forall_insert_2].
    destruct (nodes db !! mn_num node) eqn:El.
    + by rewrite map_size_insert_Some.
    + rewrite map_size_insert_None by done.
      destruct E as [E|E]; [|lia]. apply negb_false_iff, bool_decide_eq_true in E. by destruct E.
Qed.

Lemma run_db_ok db ops : db_ok db -> db_ok (run_db db ops).
Proof.
  unfold run_db. revert db. induction ops as [|op ops IH]; intros db Hdb; [done|]. simpl. apply IH.
  destruct op as [node|num|num]; simpl; [by apply db_insert_ok| |done].
  destruct Hdb as [Hsz Hnum]. split; simpl; [|by apply map_Forall_delete].
  pose proof (map_subseteq_size _ _ (delete_subseteq (nodes db) num)). lia.
Qed.
End DbLemmas.

(** * Properties *)

(** The node table is bounded and evicts the stalest stranger: after any
    sequence of operations it holds at most [MAX_LIVE_NODES] nodes, each under
    its own number; and inserting a node into such a table stores it, removes
    at most one other entry, which is never the local radio's and which no
    other evictable node was heard less recently than, and only when the table
    is full and the node new. *)
Theorem node_db_bounded_eviction `{HashOrder} (ops : list DbOp) (node : MeshNode) :
  let db := run_db NodeDb_new ops in
  let db' := db_insert db node in
  (db_len db <= MAX_LIVE_NODES)%nat /\ (db_len db' <= MAX_LIVE_NODES)%nat /\
  db_get db' (mn_num node) = Some node /\
  (forall k n, k <> mn_num node -> db_get db k = Some n -> db_get db' k <> Some n ->
     db_get db' k = None /\ Some k <> my_node db /\ (db_len db = MAX_LIVE_NODES)%nat /\
     db_get db (mn_num node) = None /\
     (forall k' n', k' <> k -> db_get db k' = Some n' ->
        (k' <> mn_num node -> db_get db' k' = Some n') /\
        (Some k' <> my_node db ->
         default I64_MIN (mn_last_heard n) <= default I64_MIN (mn_last_heard n')))).
Proof.
  intros db db'. assert (db_ok db) as Hok.
  { apply run_db_ok. split; simpl; [rewrite map_size_empty; lia|apply map_Forall_empty]. }
  pose proof (db_insert_ok db node Hok) as Hok'. fold db' in Hok'.
  split; [apply Hok|]. split; [apply Hok'|].
  split; [unfold db', db_insert, db_get; simpl; by rewrite lookup_insert_eq|].
  intros k n Hk Hn Hgone. unfold db', db_insert, db_get, db_len in *. cbn [nodes] in *.
  rewrite lookup_insert_ne in Hgone |- * by done.
  destruct (_ && _) eqn:E; [|done].
  apply andb_true_iff in E as [E1 E2]. apply negb_true_iff, bool_decide_eq_false in E1.
  unfold evict_stalest in *. destruct (victim db) as [v|] eqn:Hv; [|done]. cbn [nodes] in *.
  apply victim_spec in Hv as (nv & Hnv & Hmy & Hmin).
  destruct (decide (k = v)) as [->|Hne]; [|by rewrite lookup_delete_ne in Hgone].
  assert (nv = n) as -> by congruence.
  split; [apply lookup_delete_eq|]. split; [done|].
  split; [apply Nat.le_antisymm; [apply Hok|lia]|].
  split; [by apply eq_None_not_Some|]. intros k' n' Hk' Hn'. split.
  - intros Hkn. by rewrite lookup_insert_ne, lookup_delete_ne.
  - intros Hm. by apply (Hmin k').
Qed.

(** The life-cycle classes partition the time since a node was heard at
    one, two and three times the timeout for a node heard in the past; but a
    node whose [last_heard] lies in the future, be it by a millisecond, is
    classified [Removed], since the negative difference is cast to [u64]: it
    is neither active nor ever reported offline. *)
Theorem classify_elapsed (n : MeshNode) (now heard : Timestamp) (stale_timeout : Duration) :
  mn_last_heard n = Some heard ->
  0 <= now < 2 ^ 62 -> 0 <= heard < 2 ^ 62 -> 0 < stale_timeout < 2 ^ 80 ->
  exists e, elapsed_since_heard n now = Some e /\
  let age := (now - heard) * NANOS_PER_MILLI in
  classify_node_state (e * NANOS_PER_MILLI) stale_timeout =
    if heard <=? now then
      if age / stale_timeout =? 0 then Active
      else if age / stale_timeout =? 1 then Stale
      else if age / stale_timeout =? 2 then Offline
      else Removed
    else Removed.
Proof.
  intros Hh Hnow Hheard Hst. unfold elapsed_since_heard. rewrite Hh. eexists. split; [done|].
  cbv zeta. unfold as_uint, i64_saturating_sub, classify_node_state, NANOS_PER_MILLI.
  rewrite Z.min_l, Z.max_r by lia.
  destruct (heard <=? now) eqn:E.
  - rewrite Z.mod_small by lia. set (age := (now - heard) * 1000000).
    assert (0 <= age) by lia.
    pose proof (Z.div_mod age stale_timeout). pose proof (Z.mod_pos_bound age stale_timeout).
    assert (0 <= age / stale_timeout) by (apply Z.div_pos; lia).
    set (q := age / stale_timeout) in *. set (m := age mod stale_timeout) in *.
    split_ifs; try done; exfalso; nia.
  - assert ((now - heard) mod 2 ^ 64 = now - heard + 2 ^ 64) as ->.
    { rewrite <- (Z_mod_plus_full _ 1). apply Z.mod_small. lia. }
    split_ifs; try done; lia.
Qed.

Lemma classify_elapsed_witness :
  let n := mkMeshNode 7 None None None (Some 1000) None None in
  mn_last_heard n = Some 1000 /\
  exists e, elapsed_since_heard n 999 = Some e /\
    classify_node_state (e * NANOS_PER_MILLI) (duration_from_secs 3600) = Removed.
Proof.
  intros n. split; [reflexivity|].
  destruct (classify_elapsed n 999 1000 (duration_from_secs 3600) eq_refl) as (e & T1 & T2);
    [lia|lia|vm_compute; split; reflexivity|].
  exists e. split; [exact T1|]. rewrite T2. reflexivity.
Defined.
