(* ===== verification/Topology.v ===== *)
(** * Mesh topology (crates/kerykeion/src/topology.rs)

    The directed graph of heard links, bounded in nodes and links by evicting
    the coldest, its snapshots, and the partition of the mesh into weakly
    connected components. The graph library is the class [StableGraph]: what
    petgraph documents of a graph with stable indices, with the indices it
    hands out and the order it iterates in left open. *)

From S2P Require Import Prelude Float MeshTypes.

Local Open Scope Z_scope.

Record LinkQuality : Type := mkLink {
  lq_snr : f32; lq_last_observed : Instant; lq_packet_count : Z }.

Definition is_stale (l : LinkQuality) (cutoff : Instant) : bool := lq_last_observed l <? cutoff.

(** ** The graph library

    [node_weights] and [edge_refs] are what [node_weight], [edge_weight] and
    [edge_endpoints] answer; an [EdgeRef] is an index with its endpoints and weight. *)

Abbreviation NodeIndex := Z (only parsing).
Abbreviation EdgeIndex := Z (only parsing).
Definition EdgeRef : Type := (EdgeIndex * (NodeIndex * NodeIndex * LinkQuality)).
Definition edge_source (e : EdgeRef) : NodeIndex := e.2.1.1.
Definition edge_target (e : EdgeRef) : NodeIndex := e.2.1.2.
Definition edge_weight (e : EdgeRef) : LinkQuality := e.2.2.

Class StableGraph : Type := {
  SG : Type;
  node_weights : SG -> gmap Z NodeNum;
  edge_refs : SG -> gmap Z (NodeIndex * NodeIndex * LinkQuality);
  sg_new : SG;
  sg_add_node : SG -> NodeNum -> NodeIndex * SG;
  sg_remove_node : SG -> NodeIndex -> SG;
  sg_add_edge : SG -> NodeIndex -> NodeIndex -> LinkQuality -> option SG;
  sg_remove_edge : SG -> EdgeIndex -> SG;
  sg_set_weight : SG -> EdgeIndex -> LinkQuality -> SG;
  edges_outgoing : SG -> NodeIndex -> list EdgeRef;
  edges_incoming : SG -> NodeIndex -> list EdgeRef;
  edges_connecting : SG -> NodeIndex -> NodeIndex -> list EdgeRef;
  edge_indices : SG -> list EdgeRef;

  sg_new_empty : node_weights sg_new = ∅ /\ edge_refs sg_new = ∅;
  sg_add_node_spec : forall g n,
    let '(i, g') := sg_add_node g n in
    node_weights g !! i = None /\ node_weights g' = <[i := n]> (node_weights g) /\
    edge_refs g' = edge_refs g;
  sg_remove_node_spec : forall g i,
    node_weights (sg_remove_node g i) = delete i (node_weights g) /\
    edge_refs (sg_remove_node g i) =
      filter (fun kv => kv.2.1.1 <> i /\ kv.2.1.2 <> i) (edge_refs g);
  sg_add_edge_spec : forall g a b w,
    match sg_add_edge g a b w with
    | Some g' => node_weights g' = node_weights g /\
        exists e, edge_refs g !! e = None /\ edge_refs g' = <[e := (a, b, w)]> (edge_refs g)
    | None => node_weights g !! a = None \/ node_weights g !! b = None
    end;
  sg_remove_edge_spec : forall g e,
    node_weights (sg_remove_edge g e) = node_weights g /\
    edge_refs (sg_remove_edge g e) = delete e (edge_refs g);
  sg_set_weight_spec : forall g e w,
    node_weights (sg_set_weight g e w) = node_weights g /\
    edge_refs (sg_set_weight g e w) = alter (fun r => (r.1, w)) e (edge_refs g);
  edges_outgoing_spec : forall g i e,
    e ∈ edges_outgoing g i <-> edge_refs g !! e.1 = Some e.2 /\ edge_source e = i;
  edges_incoming_spec : forall g i e,
    e ∈ edges_incoming g i <-> edge_refs g !! e.1 = Some e.2 /\ edge_target e = i;
  edges_connecting_spec : forall g a b e,
    e ∈ edges_connecting g a b <->
    edge_refs g !! e.1 = Some e.2 /\ edge_source e = a /\ edge_target e = b;
  edge_indices_spec : forall g, edge_indices g ≡ₚ map_to_list (edge_refs g)
}.

Record LinkSnapshot : Type := mkLinkSnapshot {
  ls_from : NodeNum; ls_to : NodeNum; ls_snr : f32; ls_packet_count : Z }.

Record TopologySnapshot : Type := mkTopologySnapshot {
  ts_nodes : list NodeNum; ts_links : list LinkSnapshot }.

Inductive TopologyError : Type := TopologySnapshotError.

Section Topology.
Context `{StableGraph} `{HashOrder}.

Record MeshTopology : Type := mkTopology {
  graph : SG;
  node_index : gmap Z NodeIndex
}.

Definition MeshTopology_new : MeshTopology := mkTopology sg_new ∅.

(** ** Insertion and eviction *)

Definition incident (g : SG) (idx : NodeIndex) : list EdgeRef :=
  edges_incoming g idx ++ edges_outgoing g idx.

Definition freshness (t : MeshTopology) (idx : NodeIndex) : option Instant :=
  fold_left (fun m e => if option_gtb m (Some (lq_last_observed (edge_weight e))) then m
                        else Some (lq_last_observed (edge_weight e)))
            (incident (graph t) idx) None.

Definition evict_coldest_node (t : MeshTopology) (protect : list NodeNum) : MeshTopology :=
  match min_by (fun a b => option_gtb (freshness t a.2) (freshness t b.2))
          (List.filter (fun kv => negb (bool_decide (kv.1 ∈ protect))) (hm_iter (node_index t))) with
  | Some (num, idx) => mkTopology (sg_remove_node (graph t) idx) (delete num (node_index t))
  | None => t
  end.

Definition add_node_protecting (t : MeshTopology) (node : NodeNum) (protect : list NodeNum)
  : NodeIndex * MeshTopology :=
  match node_index t !! node with
  | Some idx => (idx, t)
  | None =>
      let t := if (MAX_LIVE_NODES <=? size (node_index t))%nat
               then evict_coldest_node t protect else t in
      let (idx, g) := sg_add_node (graph t) node in
      (idx, mkTopology g (<[node := idx]> (node_index t)))
  end.

Definition add_node (t : MeshTopology) (node : NodeNum) : NodeIndex * MeshTopology :=
  add_node_protecting t node [].

Definition edge_count (t : MeshTopology) : Z := Z.of_nat (size (edge_refs (graph t))).
Definition node_count (t : MeshTopology) : nat := size (node_index t).
Definition contains_node (t : MeshTopology) (n : NodeNum) : bool :=
  bool_decide (is_Some (node_index t !! n)).

Definition evict_coldest_edge (t : MeshTopology) : MeshTopology :=
  match min_by (fun a b => lq_last_observed (edge_weight b) <? lq_last_observed (edge_weight a))
          (edge_indices (graph t)) with
  | Some e => mkTopology (sg_remove_edge (graph t) e.1) (node_index t)
  | None => t
  end.

(** [None] is the panic of [add_edge] on an index that is not in the graph. *)
Definition update_link (t : MeshTopology) (from to : NodeNum) (snr : f32) (now : Instant)
  : option MeshTopology :=
  if negb (f32_is_finite snr) then Some t
  else
    let (from_idx, t) := add_node_protecting t from [to] in
    let (to_idx, t) := add_node_protecting t to [from] in
    match head (edges_connecting (graph t) from_idx to_idx) with
    | Some e =>
        let w := edge_weight e in
        Some (mkTopology
          (sg_set_weight (graph t) e.1 (mkLink snr now (saturating_add 32 (lq_packet_count w) 1)))
          (node_index t))
    | None =>
        let t := if MAX_LIVE_LINKS <=? edge_count t then evict_coldest_edge t else t in
        g ← sg_add_edge (graph t) from_idx to_idx (mkLink snr now 1);
        Some (mkTopology g (node_index t))
    end.

(** ** Expiry: [cutoff] is what [Instant::now().checked_sub(timeout)] gave *)

Definition node_is_stale (t : MeshTopology) (cutoff : Instant) (idx : NodeIndex) : bool :=
  negb (existsb (fun e => negb (is_stale (edge_weight e) cutoff)) (incident (graph t) idx)).

Definition remove_node (t : MeshTopology) (num : NodeNum) : MeshTopology :=
  match node_index t !! num with
  | Some idx => mkTopology (sg_remove_node (graph t) idx) (delete num (node_index t))
  | None => t
  end.

Definition remove_stale_nodes (t : MeshTopology) (cutoff : option Instant) : MeshTopology :=
  match cutoff with
  | None => t
  | Some cutoff =>
      let stale := map fst (List.filter (fun kv => node_is_stale t cutoff kv.2)
                                        (hm_iter (node_index t))) in
      fold_left remove_node stale t
  end.

Definition remove_stale_links (t : MeshTopology) (cutoff : option Instant) : MeshTopology :=
  match cutoff with
  | None => t
  | Some cutoff =>
      let stale_edges := List.filter (fun e => is_stale (edge_weight e) cutoff)
                                     (edge_indices (graph t)) in
      mkTopology (fold_left (fun g e => sg_remove_edge g e.1) stale_edges (graph t)) (node_index t)
  end.

Definition neighbors (t : MeshTopology) (node : NodeNum) : list (NodeNum * LinkQuality) :=
  match node_index t !! node with
  | None => []
  | Some idx =>
      omap (fun e => (fun num => (num, edge_weight e)) <$> node_weights (graph t) !! edge_target e)
           (edges_outgoing (graph t) idx)
  end.

(** ** Partitions *)

(** The [stack] loop of [connected_components], the top of the stack first. *)
Fixpoint visit (fuel : nat) (g : SG) (comp_id : nat) (component : gmap Z nat)
    (group : list NodeNum) (stack : list NodeIndex) : option (gmap Z nat * list NodeNum) :=
  match fuel with
  | O => None
  | S fuel =>
      match stack with
      | [] => Some (component, group)
      | current :: stack =>
          if bool_decide (is_Some (component !! current))
          then visit fuel g comp_id component group stack
          else
            let component := <[current := comp_id]> component in
            let group := match node_weights g !! current with
                         | Some num => group ++ [num] | None => group end in
            let push s idx := if bool_decide (is_Some (component !! idx)) then s else idx :: s in
            let stack := fold_left push (map edge_target (edges_outgoing g current)) stack in
            let stack := fold_left push (map edge_source (edges_incoming g current)) stack in
            visit fuel g comp_id component group stack
      end
  end.

(** Every visit pushes at most the node's incident edges, so the degrees of
    all nodes bound the pops. *)
Definition degree (g : SG) (idx : NodeIndex) : nat :=
  (length (edges_outgoing g idx) + length (edges_incoming g idx))%nat.
Definition visit_fuel (g : SG) : nat :=
  (2 + sum_list (map (fun kv => degree g kv.1) (map_to_list (node_weights g))))%nat.

Fixpoint visit_all (g : SG) (component : gmap Z nat) (components : list (list NodeNum))
    (values : list NodeIndex) : option (gmap Z nat * list (list NodeNum)) :=
  match values with
  | [] => Some (component, components)
  | idx :: values =>
      if bool_decide (is_Some (component !! idx))
      then visit_all g component components values
      else
        '(component, group) ← visit (visit_fuel g) g (length components) component [] [idx];
        let components := match group with [] => components | _ => components ++ [group] end in
        visit_all g component components values
  end.

Fixpoint add_singletons (g : SG) (component : gmap Z nat) (components : list (list NodeNum))
    (values : list NodeIndex) : list (list NodeNum) :=
  match values with
  | [] => components
  | idx :: values =>
      match component !! idx, node_weights g !! idx with
      | None, Some num =>
          add_singletons g (<[idx := length components]> component) (components ++ [[num]]) values
      | _, _ => add_singletons g component components values
      end
  end.

Definition connected_components (t : MeshTopology) : option (list (list NodeNum)) :=
  if bool_decide (node_index t = ∅) then Some []
  else
    let values := map snd (hm_iter (node_index t)) in
    '(component, components) ← visit_all (graph t) ∅ [] values;
    Some (add_singletons (graph t) component components values).

Definition is_partitioned (t : MeshTopology) (node server_node : NodeNum) : option bool :=
  if negb (contains_node t node) || negb (contains_node t server_node) then Some true
  else
    components ← connected_components t;
    Some (negb (existsb (fun group => bool_decide (node ∈ group) && bool_decide (server_node ∈ group))
                        components)).

(** ** Routes

    The searches of the graph library are parameters: [dijkstra g a b] is the
    map of unit-cost distances from [a], [astar g a b cost] the path it found. *)

Definition link_cost (ceiling : f32) (e : EdgeRef) : f32 :=
  let cost := f32_sub ceiling (lq_snr (edge_weight e)) in
  if f32_ltb cost f32_zero then f32_zero else cost.

Definition shortest_path_with_ceiling
    (astar : SG -> NodeIndex -> NodeIndex -> (EdgeRef -> f32) -> option (f32 * list NodeIndex))
    (t : MeshTopology) (from to : NodeNum) (ceiling : f32) : option (list NodeNum) :=
  match node_index t !! from, node_index t !! to with
  | Some from_idx, Some to_idx =>
      match astar (graph t) from_idx to_idx (link_cost ceiling) with
      | Some (_, path) => Some (omap (fun idx => node_weights (graph t) !! idx) path)
      | None => None
      end
  | _, _ => None
  end.

Definition default_snr_ceiling : f32 := f32_of_Z 30.
Definition shortest_path
    (astar : SG -> NodeIndex -> NodeIndex -> (EdgeRef -> f32) -> option (f32 * list NodeIndex))
    (t : MeshTopology) (from to : NodeNum) : option (list NodeNum) :=
  shortest_path_with_ceiling astar t from to default_snr_ceiling.

Definition hop_count (dijkstra : SG -> NodeIndex -> NodeIndex -> gmap Z Z)
    (t : MeshTopology) (from to : NodeNum) : option Z :=
  match node_index t !! from, node_index t !! to with
  | Some from_idx, Some to_idx =>
      match dijkstra (graph t) from_idx to_idx !! to_idx with
      | Some hops => try_uint 8 hops
      | None => None
      end
  | _, _ => None
  end.

(** ** Sequences of operations *)

Inductive TopologyOp : Type :=
| TAddNode (node : NodeNum)
| TUpdateLink (from to : NodeNum) (snr : f32) (now : Instant)
| TStaleNodes (cutoff : option Instant)
| TStaleLinks (cutoff : option Instant).

Definition run_topology_op (t : MeshTopology) (op : TopologyOp) : option MeshTopology :=
  match op with
  | TAddNode node => Some (add_node t node).2
  | TUpdateLink from to snr now => update_link t from to snr now
  | TStaleNodes cutoff => Some (remove_stale_nodes t cutoff)
  | TStaleLinks cutoff => Some (remove_stale_links t cutoff)
  end.

Fixpoint run_topology (t : MeshTopology) (ops : list TopologyOp) : option MeshTopology :=
  match ops with
  | [] => Some t
  | op :: ops => t ← run_topology_op t op; run_topology t ops
  end.

(** The index mirrors the graph, links join tracked nodes, an ordered pair has
    at most one link, link qualities are finite, and both tables are bounded. *)
Record topo_ok (t : MeshTopology) : Prop := {
  ok_index : forall n i, node_index t !! n = Some i <-> node_weights (graph t) !! i = Some n;
  ok_ends : forall e a b w, edge_refs (graph t) !! e = Some (a, b, w) ->
    is_Some (node_weights (graph t) !! a) /\ is_Some (node_weights (graph t) !! b);
  ok_simple : forall e e' a b w w', edge_refs (graph t) !! e = Some (a, b, w) ->
    edge_refs (graph t) !! e' = Some (a, b, w') -> e = e';
  ok_finite : forall e a b w, edge_refs (graph t) !! e = Some (a, b, w) ->
    f32_is_finite (lq_snr w) = true;
  ok_nodes : (size (node_index t) <= MAX_LIVE_NODES)%nat;
  ok_links : edge_count t <= MAX_LIVE_LINKS
}.

(** * Lemmas *)

Lemma topo_new_ok : topo_ok MeshTopology_new.
Proof.
  destruct sg_new_empty as [Hn He]. unfold MeshTopology_new.
  constructor; cbn; unfold edge_count; cbn; rewrite ?Hn, ?He; try (intros *; rewrite ?lookup_empty; done).
  rewrite map_size_empty. apply Nat.le_0_l.
Qed.

(** Dropping links keeps the invariant. *)
Lemma topo_ok_subgraph t g :
  topo_ok t -> node_weights g = node_weights (graph t) -> edge_refs g ⊆ edge_refs (graph t) ->
  topo_ok (mkTopology g (node_index t)).
Proof.
  intros [Hi He Hs Hf Hn Hl] Hnw Hsub. rewrite map_subseteq_spec in Hsub.
  constructor; cbn; rewrite ?Hnw; eauto.
  unfold edge_count in *. cbn. apply map_subseteq_spec, map_subseteq_size in Hsub. lia.
Qed.

(** Dropping a node with its links keeps it too. *)
Lemma topo_ok_remove t num idx :
  topo_ok t -> node_index t !! num = Some idx ->
  topo_ok (mkTopology (sg_remove_node (graph t) idx) (delete num (node_index t))).
Proof.
  intros Hok Hnum. destruct (sg_remove_node_spec (graph t) idx) as [Hn He].
  pose proof Hok as [Hi Hends Hs Hf Hsz Hl].
  assert (Hsub : filter (fun kv => kv.2.1.1 <> idx /\ kv.2.1.2 <> idx) (edge_refs (graph t))
                 ⊆ edge_refs (graph t)) by apply map_filter_subseteq.
  rewrite map_subseteq_spec in Hsub.
  constructor; cbn; unfold edge_count; cbn; rewrite ?Hn, ?He; eauto.
  - intros n i. rewrite !lookup_delete_Some, Hi. apply Hi in Hnum.
    split; intros [Hne Hin]; (split; [|done]); intros <-; [congruence|].
    apply Hi in Hin. apply Hi in Hnum. congruence.
  - intros e a b w. rewrite map_lookup_filter_Some. cbn. intros (Hw & Ha & Hb).
    rewrite !lookup_delete_ne by done. eauto.
  - rewrite map_size_delete, Hnum. lia.
  - apply map_subseteq_spec, map_subseteq_size in Hsub. unfold edge_count in Hl. lia.
Qed.

Lemma remove_node_ok t num : topo_ok t -> topo_ok (remove_node t num).
Proof.
  intros Hok. unfold remove_node. destruct (node_index t !! num) eqn:E; [|done].
  by apply topo_ok_remove.
Qed.

Lemma remove_stale_nodes_ok t cutoff : topo_ok t -> topo_ok (remove_stale_nodes t cutoff).
Proof.
  intros Hok. destruct cutoff as [cutoff|]; [|done]. cbn. generalize (map fst (List.filter
    (fun kv => node_is_stale t cutoff kv.2) (hm_iter (node_index t)))) as l. intros l. revert t Hok.
  induction l as [|n l IH]; intros t Hok; cbn; [done|]. by apply IH, remove_node_ok.
Qed.

Lemma remove_edges_spec l : forall g,
  node_weights (fold_left (fun g e => sg_remove_edge g e.1) l g) = node_weights g /\
  edge_refs (fold_left (fun g (e : EdgeRef) => sg_remove_edge g e.1) l g) ⊆ edge_refs g.
Proof.
  induction l as [|e l IH]; intros g; cbn; [by split|].
  destruct (sg_remove_edge_spec g e.1) as [Hn He]. destruct (IH (sg_remove_edge g e.1)) as [IHn IHe].
  split; [congruence|]. etransitivity; [apply IHe|]. rewrite He. apply delete_subseteq.
Qed.

Lemma remove_stale_links_ok t cutoff : topo_ok t -> topo_ok (remove_stale_links t cutoff).
Proof.
  intros Hok. destruct cutoff as [cutoff|]; [|done]. cbn.
  destruct (remove_edges_spec (List.filter (fun e => is_stale (edge_weight e) cutoff)
              (edge_indices (graph t))) (graph t)). by apply topo_ok_subgraph.
Qed.

(** *** Eviction *)

Lemma size_list_to_set_le (l : list Z) : (size (list_to_set (C := gset Z) l) <= length l)%nat.
Proof.
  induction l as [|x l IH]; cbn; [done|].
  rewrite size_union_alt, size_singleton.
  assert (size (list_to_set (C := gset Z) l ∖ {[x]}) <= size (list_to_set (C := gset Z) l))%nat
    by (apply subseteq_size; intros y; rewrite elem_of_difference; tauto).
  lia.
Qed.

Lemma min_freshness t (l : list (NodeNum * NodeIndex)) m :
  min_by (fun a b => option_gtb (freshness t a.2) (freshness t b.2)) l = Some m ->
  m ∈ l /\ forall y, y ∈ l -> option_gtb (freshness t m.2) (freshness t y.2) = false.
Proof.
  apply min_by_Some; intros *; [apply option_gtb_asym|apply option_gtb_trans].
Qed.

Lemma evict_coldest_node_spec t protect :
  topo_ok t -> (length protect < size (node_index t))%nat ->
  let t' := evict_coldest_node t protect in
  topo_ok t' /\ S (size (node_index t')) = size (node_index t) /\
  (forall n, n ∈ protect -> node_index t' !! n = node_index t !! n) /\
  forall n, is_Some (node_index t !! n) -> node_index t' !! n = None ->
  forall m i i', node_index t !! n = Some i -> node_index t !! m = Some i' -> m ∉ protect ->
    option_gtb (freshness t i) (freshness t i') = false.
Proof.
  intros Hok Hlen. unfold evict_coldest_node.
  set (cands := List.filter _ _).
  assert (Hc : forall n i, (n, i) ∈ cands <-> node_index t !! n = Some i /\ n ∉ protect).
  { intros n i. unfold cands. rewrite list_elem_of_In, filter_In, <- list_elem_of_In, hm_iter_elem.
    cbn. rewrite negb_true_iff, bool_decide_eq_false. done. }
  destruct (min_by _ cands) as [[n i]|] eqn:Em.
  - apply min_freshness in Em as [Hin Hmin]. apply Hc in Hin as [Hn Hp].
    cbn [node_index]. split_and!.
    + by apply topo_ok_remove.
    + rewrite map_size_delete, Hn. cbn.
      assert (size (node_index t) <> 0%nat); [|lia]. intros E. apply map_size_empty_iff in E.
      by rewrite E, lookup_empty in Hn.
    + intros n' Hn'. rewrite lookup_delete_ne; [done|]. congruence.
    + intros n' _ Hnone m j j' Hj Hj' Hm.
      destruct (decide (n' = n)) as [->|Hne]; [|by rewrite lookup_delete_ne, Hj in Hnone].
      rewrite Hn in Hj. injection Hj as <-. apply (Hmin (m, j')), Hc. done.
  - exfalso. apply min_by_None in Em.
    assert (Hsub : dom (node_index t) ⊆ list_to_set (C := gset Z) protect).
    { intros n [i Hi]%elem_of_dom. apply elem_of_list_to_set.
      destruct (decide (n ∈ protect)) as [|Hp]; [done|].
      assert (Hin : (n, i) ∈ cands) by (by apply Hc). rewrite Em in Hin. by apply not_elem_of_nil in Hin. }
    apply subseteq_size in Hsub. rewrite size_dom in Hsub.
    pose proof (size_list_to_set_le protect). lia.
Qed.

(** *** Insertion *)

Lemma topo_ok_insert t node :
  topo_ok t -> node_index t !! node = None -> (size (node_index t) < MAX_LIVE_NODES)%nat ->
  let '(i, g) := sg_add_node (graph t) node in
  topo_ok (mkTopology g (<[node := i]> (node_index t))) /\ edge_refs g = edge_refs (graph t).
Proof.
  intros [Hi He Hs Hf Hn Hl] Hnone Hroom. pose proof (sg_add_node_spec (graph t) node) as Hadd.
  destruct (sg_add_node (graph t) node) as [i g]. destruct Hadd as (Hfresh & Hnw & Hew).
  split; [|done]. constructor; cbn; unfold edge_count in *; cbn; rewrite ?Hnw, ?Hew; eauto.
  - intros n j. rewrite !lookup_insert_Some, Hi. split.
    + intros [[<- <-]|[Hne Hj]]; [by left|right]. split; [congruence|done].
    + intros [[<- <-]|[Hne Hj]]; [by left|right]. split; [|done].
      intros <-. apply Hi in Hj. congruence.
  - intros e a b w Hw. destruct (He e a b w Hw) as [[x Hx] [y Hy]].
    rewrite !lookup_insert_ne by congruence. eauto.
  - rewrite map_size_insert_None by done. lia.
Qed.

Lemma max_live_nodes_large : (1 < MAX_LIVE_NODES)%nat.
Proof. apply Nat.ltb_lt. reflexivity. Qed.

Lemma evict_coldest_node_edges t protect :
  edge_refs (graph (evict_coldest_node t protect)) ⊆ edge_refs (graph t).
Proof.
  unfold evict_coldest_node. destruct (min_by _ _) as [[n i]|]; [|done]. cbn.
  destruct (sg_remove_node_spec (graph t) i) as [_ ->]. apply map_filter_subseteq.
Qed.

Lemma add_node_protecting_spec t node protect :
  topo_ok t -> (length protect <= 1)%nat ->
  let '(i, t') := add_node_protecting t node protect in
  topo_ok t' /\ node_index t' !! node = Some i /\
  (forall n, n ∈ protect -> is_Some (node_index t !! n) -> node_index t' !! n = node_index t !! n) /\
  edge_refs (graph t') ⊆ edge_refs (graph t) /\
  match node_index t !! node with
  | Some _ => t' = t
  | None => forall e a b w, edge_refs (graph t') !! e = Some (a, b, w) -> a <> i /\ b <> i
  end.
Proof.
  intros Hok Hlen. unfold add_node_protecting.
  destruct (node_index t !! node) as [i|] eqn:En; [by split_and!|].
  set (t1 := if (MAX_LIVE_NODES <=? _)%nat then _ else _).
  assert (H1 : topo_ok t1 /\ (size (node_index t1) < MAX_LIVE_NODES)%nat /\
    (forall n, n ∈ protect -> node_index t1 !! n = node_index t !! n) /\
    node_index t1 !! node = None /\ edge_refs (graph t1) ⊆ edge_refs (graph t)).
  { pose proof (ok_nodes _ Hok). pose proof max_live_nodes_large. unfold t1.
    destruct (MAX_LIVE_NODES <=? _)%nat eqn:Ecap; [|split_and!; auto; lia].
    destruct (evict_coldest_node_spec t protect Hok) as (Hok1 & Hs & Hp & _); [lia|].
    split_and!; [done|lia|done| |apply evict_coldest_node_edges].
    unfold evict_coldest_node. destruct (min_by _ _) as [[n i]|]; [|done].
    cbn. rewrite lookup_delete_None. by right. }
  destruct H1 as (Hok1 & Hs1 & Hp1 & Hn1 & He1). clearbody t1.
  pose proof (topo_ok_insert t1 node Hok1 Hn1 Hs1) as Hins.
  pose proof (sg_add_node_spec (graph t1) node) as Hadd.
  destruct (sg_add_node (graph t1) node) as [i g]. destruct Hins as [Hok2 Hew].
  split_and!; [done|cbn; by rewrite lookup_insert_eq| |cbn; by rewrite Hew|].
  - intros n Hn Hsome. cbn. rewrite <- (Hp1 n Hn) in *. rewrite lookup_insert_ne; [done|].
    intros <-. rewrite Hn1 in Hsome. by apply is_Some_None in Hsome.
  - cbn. rewrite Hew. intros e a b w Hw. destruct (ok_ends _ Hok1 _ _ _ _ Hw) as [[x Hx] [y Hy]].
    destruct Hadd as [Hfresh _]. split; congruence.
Qed.

Lemma evict_coldest_edge_spec t :
  topo_ok t -> edge_refs (graph t) <> ∅ ->
  let t' := evict_coldest_edge t in
  topo_ok t' /\ edge_count t' = edge_count t - 1 /\ node_index t' = node_index t /\
  edge_refs (graph t') ⊆ edge_refs (graph t).
Proof.
  intros Hok Hne. unfold evict_coldest_edge. destruct (min_by _ _) as [e|] eqn:E.
  - apply min_by_Some in E as [Hin _]; [|lia..]. rewrite edge_indices_spec in Hin.
    destruct e as [e r]. apply elem_of_map_to_list in Hin.
    destruct (sg_remove_edge_spec (graph t) e) as [Hn He]. cbn.
    assert (Hsub : edge_refs (sg_remove_edge (graph t) e) ⊆ edge_refs (graph t))
      by (rewrite He; apply delete_subseteq).
    split_and!; [by apply topo_ok_subgraph| |done|done].
    unfold edge_count. cbn. rewrite He, map_size_delete, Hin.
    assert (size (edge_refs (graph t)) <> 0%nat) by (by rewrite map_size_empty_iff). lia.
  - exfalso. apply min_by_None in E. pose proof (edge_indices_spec (graph t)) as Hp.
    rewrite E in Hp. apply Permutation_nil_l in Hp. symmetry in Hp.
    by apply map_to_list_empty_iff in Hp.
Qed.

(** *** Links *)

(** The link between two tracked nodes, by their numbers. *)
Definition link (t : MeshTopology) (m n : NodeNum) (w : LinkQuality) : Prop :=
  exists e i j, node_index t !! m = Some i /\ node_index t !! n = Some j /\
    edge_refs (graph t) !! e = Some (i, j, w).

Lemma link_unique t m n w w' : topo_ok t -> link t m n w -> link t m n w' -> w = w'.
Proof.
  intros Hok (e & i & j & Hi & Hj & He) (e' & i' & j' & Hi' & Hj' & He').
  assert (i' = i) as -> by congruence. assert (j' = j) as -> by congruence.
  assert (e' = e) as -> by (by eapply (ok_simple _ Hok)). congruence.
Qed.

Lemma topo_ok_set_weight t e i j w w' :
  topo_ok t -> edge_refs (graph t) !! e = Some (i, j, w) -> f32_is_finite (lq_snr w') = true ->
  topo_ok (mkTopology (sg_set_weight (graph t) e w') (node_index t)).
Proof.
  intros [Hi He Hs Hf Hn Hl] Hw Hfin. destruct (sg_set_weight_spec (graph t) e w') as [Hnw Hew].
  assert (Hback : forall e' a b x, alter (fun r => (r.1, w')) e (edge_refs (graph t)) !! e' = Some (a, b, x) ->
            exists y, edge_refs (graph t) !! e' = Some (a, b, y) /\
                      (x = y \/ x = w')).
  { intros e' a b x. destruct (decide (e' = e)) as [->|Hne].
    - rewrite lookup_alter_eq, Hw. cbn. intros [= <- <- <-]. exists w. auto.
    - rewrite lookup_alter_ne by done. intros Hx. exists x. auto. }
  constructor; cbn; unfold edge_count in *; cbn; rewrite ?Hnw, ?Hew; auto.
  - intros e' a b x Hx. apply Hback in Hx as (y & Hy & _). eauto.
  - intros e1 e2 a b x y H1 H2. apply Hback in H1 as (? & H1 & _), H2 as (? & H2 & _). eauto.
  - intros e' a b x Hx. apply Hback in Hx as (y & Hy & [->| ->]); eauto.
  - by rewrite <- size_dom, dom_alter_L, size_dom.
Qed.

Lemma topo_ok_add_edge t i j m n w :
  topo_ok t -> node_index t !! m = Some i -> node_index t !! n = Some j ->
  (forall e x, edge_refs (graph t) !! e <> Some (i, j, x)) -> edge_count t < MAX_LIVE_LINKS ->
  f32_is_finite (lq_snr w) = true ->
  exists g e, sg_add_edge (graph t) i j w = Some g /\ topo_ok (mkTopology g (node_index t)) /\
    edge_refs (graph t) !! e = None /\ edge_refs g = <[e := (i, j, w)]> (edge_refs (graph t)).
Proof.
  intros [Hi He Hs Hf Hn Hl] Hm Hj Hnone Hroom Hfin.
  pose proof (sg_add_edge_spec (graph t) i j w) as Hadd.
  destruct (sg_add_edge (graph t) i j w) as [g|].
  2:{ apply Hi in Hm, Hj. destruct Hadd; congruence. }
  destruct Hadd as (Hnw & e & Hfresh & Hew). exists g, e. split; [done|]. split; [|done].
  constructor; cbn; unfold edge_count in *; cbn; rewrite ?Hnw, ?Hew; auto.
  - intros e' a b x [[-> [= -> -> ->]]|[_ Hx]]%lookup_insert_Some; [|eauto].
    apply Hi in Hm, Hj. eauto.
  - intros e1 e2 a b x y [[-> [= -> -> ->]]|[_ H1]]%lookup_insert_Some
      [[-> Heq]|[_ H2]]%lookup_insert_Some; [done| | |eauto].
    + by apply Hnone in H2.
    + injection Heq as -> -> ->. by apply Hnone in H1.
  - intros e' a b x [[-> [= -> -> ->]]|[_ Hx]]%lookup_insert_Some; eauto.
  - rewrite map_size_insert_None by done. lia.
Qed.

Lemma connecting_nil g i j :
  edges_connecting g i j = [] -> forall e x, edge_refs g !! e <> Some (i, j, x).
Proof.
  intros Ec e x Hx. assert (Hin : (e, (i, j, x)) ∈ edges_connecting g i j) by (by apply edges_connecting_spec).
  rewrite Ec in Hin. by apply not_elem_of_nil in Hin.
Qed.

Lemma no_connecting_edge g i j :
  (forall e x, edge_refs g !! e <> Some (i, j, x)) -> head (edges_connecting g i j) = None.
Proof.
  intros Hno. destruct (edges_connecting g i j) as [|e l] eqn:E; [done|]. exfalso.
  assert (Hin : e ∈ edges_connecting g i j) by (rewrite E; apply list_elem_of_here).
  apply edges_connecting_spec in Hin as (He & <- & <-).
  destruct e as [e [[a b] w]]. by apply Hno in He.
Qed.

(** A new link between two tracked nodes. *)
Lemma new_link_spec t i j m n w :
  topo_ok t -> node_index t !! m = Some i -> node_index t !! n = Some j ->
  (forall e x, edge_refs (graph t) !! e <> Some (i, j, x)) -> f32_is_finite (lq_snr w) = true ->
  let t1 := if MAX_LIVE_LINKS <=? edge_count t then evict_coldest_edge t else t in
  exists g e, sg_add_edge (graph t1) i j w = Some g /\ topo_ok (mkTopology g (node_index t1)) /\
    node_index t1 = node_index t /\ edge_refs g !! e = Some (i, j, w) /\
    forall e' r, e' <> e -> edge_refs g !! e' = Some r -> edge_refs (graph t) !! e' = Some r.
Proof.
  intros Hok Hm Hn Hno Hfin t1.
  assert (H1 : topo_ok t1 /\ edge_count t1 < MAX_LIVE_LINKS /\ node_index t1 = node_index t /\
               edge_refs (graph t1) ⊆ edge_refs (graph t)).
  { unfold t1. pose proof (ok_links _ Hok). destruct (MAX_LIVE_LINKS <=? edge_count t) eqn:E.
    - destruct (evict_coldest_edge_spec t Hok) as (Hok1 & Hc & Hi & Hsub).
      + intros Hemp. unfold edge_count, MAX_LIVE_LINKS in E. rewrite Hemp, map_size_empty in E. lia.
      + split_and!; auto; lia.
    - split_and!; auto; lia. }
  destruct H1 as (Hok1 & Hc1 & Hi1 & Hsub). clearbody t1. rewrite map_subseteq_spec in Hsub.
  destruct (topo_ok_add_edge t1 i j m n w) as (g & e & Hg & Hok2 & Hfresh & Hew);
    rewrite ?Hi1; auto.
  { intros e x Hx. apply Hsub in Hx. by apply Hno in Hx. }
  exists g, e. split_and!; auto.
  - rewrite Hi1 in Hok2. done.
  - by rewrite Hew, lookup_insert_eq.
  - intros e' r Hne Hr. rewrite Hew, lookup_insert_ne in Hr by done. by apply Hsub.
Qed.

(** [update_link] never panics; the link then has the observed quality, with
    its packet count carried on when it was there before. *)
Lemma update_link_spec t from to snr now :
  topo_ok t -> f32_is_finite snr = true ->
  exists t' c, update_link t from to snr now = Some t' /\ topo_ok t' /\
    link t' from to (mkLink snr now c) /\
    (forall w, link t from to w -> c = saturating_add 32 (lq_packet_count w) 1) /\
    ((forall w, ~ link t from to w) -> c = 1).
Proof.
  intros Hok Hfin. unfold update_link. rewrite Hfin. cbn [negb].
  pose proof (add_node_protecting_spec t from [to] Hok ltac:(cbn; lia)) as H1.
  destruct (add_node_protecting t from [to]) as [i t1].
  destruct H1 as (Hok1 & Hi1 & Hp1 & Hs1 & Hcase1).
  pose proof (add_node_protecting_spec t1 to [from] Hok1 ltac:(cbn; lia)) as H2.
  destruct (add_node_protecting t1 to [from]) as [j t2].
  destruct H2 as (Hok2 & Hj2 & Hp2 & Hs2 & Hcase2).
  assert (Hi2 : node_index t2 !! from = Some i).
  { rewrite Hp2; [done|apply list_elem_of_here|by eexists]. }
  assert (Hold : (exists e w, edge_refs (graph t2) !! e = Some (i, j, w)) -> t1 = t /\ t2 = t1).
  { intros (e & w & Hw). rewrite map_subseteq_spec in Hs2.
    destruct (node_index t1 !! to) eqn:E1; [|by destruct (Hcase2 _ _ _ _ Hw)].
    destruct (node_index t !! from) eqn:E2; [done|]. apply Hs2 in Hw. by destruct (Hcase1 _ _ _ _ Hw). }
  destruct (edges_connecting (graph t2) i j) as [|e l] eqn:Ec; cbn [head].
  - pose proof (connecting_nil _ _ _ Ec) as Hno.
    destruct (new_link_spec t2 i j from to (mkLink snr now 1) Hok2 Hi2 Hj2 Hno Hfin)
      as (g & e & Hg & Hok3 & Hidx & Hlink & _).
    rewrite Hg. cbn. eexists _, 1. split; [done|]. split; [done|]. split_and!; [| |done].
    + exists e, i, j. cbn. rewrite Hidx. done.
    + intros w (e' & i' & j' & Hi' & Hj' & Hw). exfalso. rewrite Hi' in Hcase1. subst t1.
      rewrite Hj' in Hcase2. subst t2. rewrite Hi1 in Hi'. rewrite Hj2 in Hj'.
      injection Hi' as <-. injection Hj' as <-. by apply Hno in Hw.
  - assert (Hin : e ∈ edges_connecting (graph t2) i j) by (rewrite Ec; apply list_elem_of_here).
    destruct e as [e [[a b] w]]. apply edges_connecting_spec in Hin as (He & <- & <-).
    cbn in He, Hold, Hi2, Hj2 |- *. destruct Hold as [-> ->]; [by eexists _, _|].
    eexists _, _. split; [done|]. split; [|split_and!].
    + by eapply topo_ok_set_weight.
    + exists e, a, b. cbn. split_and!; [done|done|].
      destruct (sg_set_weight_spec (graph t) e (mkLink snr now (saturating_add 32 (lq_packet_count w) 1)))
        as [_ ->]. by rewrite lookup_alter_eq, He.
    + intros w' (e' & i' & j' & Hi' & Hj' & Hw'). rewrite Hi2 in Hi'. rewrite Hj2 in Hj'.
      injection Hi' as <-. injection Hj' as <-.
      assert (e' = e) as -> by (by eapply (ok_simple _ Hok)). rewrite He in Hw'. by injection Hw' as ->.
    + intros Hno. exfalso. apply (Hno w). by exists e, a, b.
Qed.

(** ** What an operation leaves alone *)

Lemma add_node_protecting_index t node protect n i :
  node_index (add_node_protecting t node protect).2 !! n = Some i ->
  n = node \/ node_index t !! n = Some i.
Proof.
  unfold add_node_protecting. destruct (node_index t !! node) as [j|]; [by right|].
  set (t1 := if (MAX_LIVE_NODES <=? _)%nat then _ else _).
  assert (H1 : forall i, node_index t1 !! n = Some i -> node_index t !! n = Some i).
  { intros k. unfold t1. destruct (MAX_LIVE_NODES <=? _)%nat; [|done]. unfold evict_coldest_node.
    destruct (min_by _ _) as [[v j]|]; [|done]. cbn [node_index]. by intros [_ ?]%lookup_delete_Some. }
  clearbody t1. destruct (sg_add_node (graph t1) node) as [k g]. cbn [snd node_index].
  intros [[<- _]|[_ Hn]]%lookup_insert_Some; [by left|right; auto].
Qed.

Lemma add_node_protecting_links t node protect a b w :
  topo_ok t -> (length protect <= 1)%nat ->
  link (add_node_protecting t node protect).2 a b w -> link t a b w.
Proof.
  intros Hok Hlen (e & i & j & Ha & Hb & He). apply add_node_protecting_index in Ha as Ha'.
  apply add_node_protecting_index in Hb as Hb'.
  pose proof (add_node_protecting_spec t node protect Hok Hlen) as Hspec.
  destruct (add_node_protecting t node protect) as [k t']. cbn [snd] in *.
  destruct Hspec as (Hok' & Hk & _ & Hsub & Hcase). rewrite map_subseteq_spec in Hsub.
  destruct (node_index t !! node) as [k'|] eqn:En.
  { subst t'. by exists e, i, j. }
  destruct (Hcase _ _ _ _ He) as [Hni Hnj]. exists e, i, j. split_and!; [| |by apply Hsub].
  - destruct Ha' as [->|?]; [|done]. congruence.
  - destruct Hb' as [->|?]; [|done]. congruence.
Qed.

(** Every link after an update was there before, the updated one excepted. *)
Lemma update_link_frame t from to snr now t' a b w :
  topo_ok t -> update_link t from to snr now = Some t' -> link t' a b w ->
  link t a b w \/ (a = from /\ b = to).
Proof.
  intros Hok. unfold update_link. destruct (f32_is_finite snr) eqn:Hfin; cbn [negb]; [|intros [= <-]; by left].
  pose proof (add_node_protecting_spec t from [to] Hok ltac:(cbn; lia)) as H1.
  pose proof (fun w => add_node_protecting_links t from [to] a b w Hok ltac:(cbn; lia)) as L1.
  destruct (add_node_protecting t from [to]) as [i t1]. destruct H1 as (Hok1 & Hi1 & _). cbn [snd] in L1.
  pose proof (add_node_protecting_spec t1 to [from] Hok1 ltac:(cbn; lia)) as H2.
  pose proof (fun w => add_node_protecting_links t1 to [from] a b w Hok1 ltac:(cbn; lia)) as L2.
  destruct (add_node_protecting t1 to [from]) as [j t2]. destruct H2 as (Hok2 & Hj & Hp & _). cbn [snd] in L2.
  assert (Hi : node_index t2 !! from = Some i).
  { rewrite Hp; [done|apply list_elem_of_here|by eexists]. }
  assert (Hnum : forall x y e w', edge_refs (graph t2) !! e = Some (x, y, w') ->
            node_index t2 !! a = Some x -> node_index t2 !! b = Some y -> link t a b w').
  { intros x y e w' He Ha Hb. apply L1, L2. by exists e, x, y. }
  assert (Hends : forall x y, node_index t2 !! a = Some x -> node_index t2 !! b = Some y ->
            x = i -> y = j -> a = from /\ b = to).
  { intros x y Ha Hb -> ->. apply (ok_index _ Hok2) in Ha, Hb, Hi, Hj. split; congruence. }
  destruct (edges_connecting (graph t2) i j) as [|[e [[x y] w0]] l] eqn:Ec; cbn [head].
  - pose proof (connecting_nil _ _ _ Ec) as Hno.
    destruct (new_link_spec t2 i j from to (mkLink snr now 1) Hok2 Hi Hj Hno Hfin)
      as (g & e & Hg & _ & Hidx & Hlink & Hrest).
    rewrite Hg. cbn [mbind option_bind]. intros [= <-] (e' & x & y & Ha & Hb & He'). cbn in Ha, Hb, He'.
    rewrite Hidx in Ha, Hb. destruct (decide (e' = e)) as [->|Hne].
    + right. rewrite Hlink in He'. injection He' as <- <- <-. eauto.
    + left. eauto.
  - assert (Hin : (e, (x, y, w0)) ∈ edges_connecting (graph t2) i j) by (rewrite Ec; apply list_elem_of_here).
    apply edges_connecting_spec in Hin as (He & Hx & Hy). cbn in He, Hx, Hy. subst x y.
    intros [= <-] (e' & x & y & Ha & Hb & He'). cbn in Ha, Hb, He'.
    destruct (sg_set_weight_spec (graph t2) e (mkLink snr now (saturating_add 32 (lq_packet_count w0) 1)))
      as [_ Hset]. rewrite Hset in He'. destruct (decide (e' = e)) as [->|Hne].
    + right. rewrite lookup_alter_eq, He in He'. injection He' as <- <- _. eauto.
    + left. rewrite lookup_alter_ne in He' by done. eauto.
Qed.

Lemma run_topology_op_ok t op :
  topo_ok t -> exists t', run_topology_op t op = Some t' /\ topo_ok t'.
Proof.
  intros Hok. destruct op as [n|from to snr now|c|c]; cbn.
  - eexists. split; [done|]. unfold add_node.
    pose proof (add_node_protecting_spec t n [] Hok ltac:(cbn; lia)) as Hadd.
    destruct (add_node_protecting t n []). by destruct Hadd.
  - destruct (f32_is_finite snr) eqn:E.
    + destruct (update_link_spec t from to snr now Hok E) as (t' & c & Ht & Hok' & _). eauto.
    + unfold update_link. rewrite E. eauto.
  - eexists. split; [done|]. by apply remove_stale_nodes_ok.
  - eexists. split; [done|]. by apply remove_stale_links_ok.
Qed.

Lemma run_topology_ok ops : forall t, topo_ok t -> exists t', run_topology t ops = Some t' /\ topo_ok t'.
Proof.
  induction ops as [|op ops IH]; intros t Hok; cbn; [eauto|].
  destruct (run_topology_op_ok t op Hok) as (t' & -> & Hok'). cbn. by apply IH.
Qed.

(** C28. Whatever sequence of insertions, observed links and expiries a mesh
    produces, no operation panics and the topology stays well formed: the index
    mirrors the graph, every link joins two tracked nodes, an ordered pair has at
    most one link, every stored SNR is finite, and both tables keep their caps. *)
Theorem topology_invariant (ops : list TopologyOp) :
  exists t, run_topology MeshTopology_new ops = Some t /\ topo_ok t.
Proof. apply run_topology_ok, topo_new_ok. Qed.

(** An observed link with a finite SNR is stored: [update_link] does not
    panic, even when the tables are full and inserting its endpoints evicts; the
    pair then has the observed quality, with the packet count of the link it
    already had plus one (saturating), or one. A non-finite SNR changes nothing. *)
Theorem update_link_records (t : MeshTopology) (from to : NodeNum) (snr : f32) (now : Instant) :
  topo_ok t ->
  if f32_is_finite snr then
    exists t' c, update_link t from to snr now = Some t' /\ topo_ok t' /\
      link t' from to (mkLink snr now c) /\
      (forall w, link t' from to w -> w = mkLink snr now c) /\
      (forall w, link t from to w -> c = saturating_add 32 (lq_packet_count w) 1) /\
      ((forall w, ~ link t from to w) -> c = 1)
  else update_link t from to snr now = Some t.
Proof.
  intros Hok. destruct (f32_is_finite snr) eqn:Hfin.
  - destruct (update_link_spec t from to snr now Hok Hfin) as (t' & c & ? & Hok' & Hl & ? & ?).
    exists t', c. split_and!; auto. intros w Hw. by eapply link_unique.
  - unfold update_link. by rewrite Hfin.
Qed.
End Topology.

(** * A graph on finite maps: the interface can be met *)

Module MapGraph.

Record Graph : Type := mkGraph {
  nodes : gmap Z NodeNum; edges : gmap Z (NodeIndex * NodeIndex * LinkQuality) }.

Definition next_index {V} (m : gmap Z V) : Z :=
  fold_right (fun kv acc => Z.max (kv.1 + 1) acc) 0 (map_to_list m).

Lemma next_index_fresh {V} (m : gmap Z V) : m !! next_index m = None.
Proof.
  assert (Hle : forall l : list (Z * V), forall k v, (k, v) ∈ l ->
    k < fold_right (fun kv acc => Z.max (kv.1 + 1) acc) 0 l).
  { induction l as [|[k v] l IH]; intros k' v'; [by intros ?%not_elem_of_nil|].
    cbn. intros [[= -> ->]|Hin]%elem_of_cons; [lia|]. specialize (IH _ _ Hin). lia. }
  destruct (m !! next_index m) as [v|] eqn:E; [|done].
  apply elem_of_map_to_list in E. apply Hle in E. unfold next_index in E. lia.
Qed.

Definition select (P : EdgeRef -> bool) (g : Graph) : list EdgeRef :=
  List.filter P (map_to_list (edges g)).

Lemma select_spec P g e : e ∈ select P g <-> edges g !! e.1 = Some e.2 /\ P e = true.
Proof.
  unfold select. rewrite list_elem_of_In, filter_In, <- list_elem_of_In.
  destruct e as [e r]. rewrite (elem_of_map_to_list (edges g) e r). done.
Qed.

Definition map_graph : StableGraph.
Proof.
  refine {|
    SG := Graph; node_weights := nodes; edge_refs := edges; sg_new := mkGraph ∅ ∅;
    sg_add_node := fun g n =>
      (next_index (nodes g), mkGraph (<[next_index (nodes g) := n]> (nodes g)) (edges g));
    sg_remove_node := fun g i => mkGraph (delete i (nodes g))
      (filter (fun kv => kv.2.1.1 <> i /\ kv.2.1.2 <> i) (edges g));
    sg_add_edge := fun g a b w =>
      match nodes g !! a, nodes g !! b with
      | Some _, Some _ =>
          Some (mkGraph (nodes g) (<[next_index (edges g) := (a, b, w)]> (edges g)))
      | _, _ => None
      end;
    sg_remove_edge := fun g e => mkGraph (nodes g) (delete e (edges g));
    sg_set_weight := fun g e w => mkGraph (nodes g) (alter (fun r => (r.1, w)) e (edges g));
    edges_outgoing := fun g i => select (fun e => edge_source e =? i) g;
    edges_incoming := fun g i => select (fun e => edge_target e =? i) g;
    edges_connecting := fun g a b => select (fun e => (edge_source e =? a) && (edge_target e =? b)) g;
    edge_indices := fun g => map_to_list (edges g) |}; try done.
  - intros g n. cbn. split; [apply next_index_fresh|done].
  - intros g a b w. destruct (nodes g !! a) eqn:Ea, (nodes g !! b) eqn:Eb; cbn; auto.
    split; [done|]. exists (next_index (edges g)). split; [apply next_index_fresh|done].
  - intros g i e. rewrite select_spec, Z.eqb_eq. done.
  - intros g i e. rewrite select_spec, Z.eqb_eq. done.
  - intros g a b e. rewrite select_spec, andb_true_iff, !Z.eqb_eq. done.
Defined.

(** Nodes 10, 20 and 30, the first two in contact. *)
Definition three_nodes : list TopologyOp :=
  [TUpdateLink 10 20 (f32_of_Z 5) 100; TAddNode 30; TUpdateLink 10 20 (f32_of_Z 7) 101].

Definition demo : @MeshTopology map_graph :=
  match @run_topology map_graph canonical_order MeshTopology_new three_nodes with
  | Some t => t | None => MeshTopology_new end.

Lemma demo_ok : @topo_ok map_graph demo.
Proof.
  unfold demo. destruct (@run_topology_ok map_graph canonical_order three_nodes MeshTopology_new
    topo_new_ok) as (t & -> & Hok). exact Hok.
Qed.
End MapGraph.

Lemma update_link_records_witness :
  exists t' c,
    @update_link MapGraph.map_graph canonical_order MapGraph.demo 10 20 (f32_of_Z 9) 102 = Some t' /\
    link t' 10 20 (mkLink (f32_of_Z 9) 102 c).
Proof.
  pose proof (@update_link_records MapGraph.map_graph canonical_order MapGraph.demo 10 20 (f32_of_Z 9) 102
    MapGraph.demo_ok) as Hw.
  destruct Hw as (t' & c & Ht & _ & Hl & _). exists t', c. split; [exact Ht|exact Hl].
Defined.
