(* ===== verification/Partition.v ===== *)
(** * Partitions of the mesh

    [connected_components] of Topology.v, a depth-first search with an explicit
    stack, against its specification: the groups are the classes of the
    reachability relation of the links, read in both directions. *)

From S2P Require Import Prelude Float MeshTypes Topology.

Local Open Scope Z_scope.

Section Partition.
Context `{StableGraph} `{HashOrder}.

(** ** The specification *)

Definition linked (g : SG) (i j : NodeIndex) : Prop :=
  exists e w, edge_refs g !! e = Some (i, j, w) \/ edge_refs g !! e = Some (j, i, w).

Definition reach (g : SG) : NodeIndex -> NodeIndex -> Prop := rtc (linked g).

Lemma linked_sym g i j : linked g i j -> linked g j i.
Proof. intros (e & w & [Hw|Hw]); exists e, w; auto. Qed.

Lemma reach_sym g i j : reach g i j -> reach g j i.
Proof.
  induction 1 as [|i j k Hij Hjk IH]; [done|].
  etransitivity; [exact IH|]. by apply rtc_once, linked_sym.
Qed.

(** Two tracked nodes hear each other, possibly over other nodes. *)
Definition connected (t : MeshTopology) (m n : NodeNum) : Prop :=
  exists i j, node_index t !! m = Some i /\ node_index t !! n = Some j /\ reach (graph t) i j.

(** ** The search *)

Section Search.
Context (g : SG).
Context (Hends : forall e a b w, edge_refs g !! e = Some (a, b, w) ->
           is_Some (node_weights g !! a) /\ is_Some (node_weights g !! b)).
Context (Hinj : forall i j n, node_weights g !! i = Some n -> node_weights g !! j = Some n -> i = j).

Lemma linked_tracked i j : linked g i j -> is_Some (node_weights g !! j).
Proof. intros (e & w & [Hw|Hw]); apply Hends in Hw; tauto. Qed.

Lemma edges_linked i j :
  linked g i j <-> j ∈ map edge_target (edges_outgoing g i) \/ j ∈ map edge_source (edges_incoming g i).
Proof.
  rewrite !list_elem_of_fmap. split.
  - intros (e & w & [Hw|Hw]); [left; exists (e, (i, j, w))|right; exists (e, (j, i, w))];
      (split; [done|]); [apply edges_outgoing_spec|apply edges_incoming_spec]; done.
  - intros [(e & -> & He)|(e & -> & He)];
      [apply edges_outgoing_spec in He as [He <-]|apply edges_incoming_spec in He as [He <-]];
      destruct e as [e [[a b] w]]; exists e, w; auto.
Qed.

(** *** Fuel: the degrees still to be explored *)

Definition potential (C : gmap Z nat) (l : list (NodeIndex * NodeNum)) : nat :=
  sum_list (map (fun kv => if bool_decide (is_Some (C !! kv.1)) then 0%nat else degree g kv.1) l).

Lemma potential_insert_out C i c l :
  i ∉ l.*1 -> potential (<[i := c]> C) l = potential C l.
Proof.
  unfold potential. induction l as [|[k n] l IH]; cbn; [done|]. intros Hi.
  apply not_elem_of_cons in Hi as [Hk Hi]. rewrite IH by done.
  by rewrite lookup_insert_ne by congruence.
Qed.

Lemma potential_insert C i c l :
  C !! i = None -> NoDup l.*1 -> i ∈ l.*1 ->
  (potential (<[i := c]> C) l + degree g i = potential C l)%nat.
Proof.
  intros Hnone. induction l as [|[k n] l IH]; cbn; [by intros _ ?%not_elem_of_nil|].
  intros [Hk Hnd]%NoDup_cons [->|Hi]%elem_of_cons.
  - pose proof (potential_insert_out C k c l Hk) as Hp. unfold potential in *. cbn.
    rewrite lookup_insert_eq, Hnone, Hp.
    rewrite bool_decide_eq_true_2 by eauto. rewrite bool_decide_eq_false_2 by (apply is_Some_None). lia.
  - specialize (IH Hnd Hi). unfold potential in *. cbn.
    assert (i <> k) by (intros ->; done). rewrite lookup_insert_ne by done. lia.
Qed.

Definition push (C : gmap Z nat) (s : list NodeIndex) (idx : NodeIndex) : list NodeIndex :=
  if bool_decide (is_Some (C !! idx)) then s else idx :: s.

Lemma push_all C xs : forall s,
  (length (fold_left (push C) xs s) <= length s + length xs)%nat /\
  forall x, x ∈ fold_left (push C) xs s <-> x ∈ s \/ (x ∈ xs /\ C !! x = None).
Proof.
  induction xs as [|y xs IH]; intros s; cbn.
  - split; [lia|]. intros x. split; [auto|]. by intros [?|[?%not_elem_of_nil _]].
  - destruct (IH (push C s y)) as [Hl He].
    assert (Hp : (length (push C s y) <= S (length s))%nat)
      by (unfold push; destruct (bool_decide _); cbn; lia).
    split; [lia|]. intros x. rewrite He. unfold push.
    case_bool_decide as Hy.
    + rewrite elem_of_cons. split; [tauto|]. intros [Hs|[[->|Hx] Hn]]; auto.
      rewrite Hn in Hy. by apply is_Some_None in Hy.
    + rewrite !elem_of_cons. apply eq_None_not_Some in Hy. split; [|tauto].
      intros [[->|Hs]|[Hx Hn]]; auto.
Qed.

(** *** The loop invariant: visited since [C0], all reachable from the root *)

Record searched (C0 C : gmap Z nat) (r : NodeIndex) (group : list NodeNum) (stack : list NodeIndex)
  : Prop := {
  s_mono : forall i, is_Some (C0 !! i) -> is_Some (C !! i);
  s_stack : forall s, s ∈ stack -> reach g r s /\ is_Some (node_weights g !! s);
  s_reach : forall i, is_Some (C !! i) -> C0 !! i = None -> reach g r i;
  s_next : forall i j, is_Some (C !! i) -> C0 !! i = None -> linked g i j ->
    is_Some (C !! j) \/ j ∈ stack;
  s_group : forall n, n ∈ group <->
    exists i, node_weights g !! i = Some n /\ is_Some (C !! i) /\ C0 !! i = None;
  s_nodup : NoDup group
}.

(** One visit of a node that was not visited before. *)
Lemma searched_step C0 C r group current stack cid n :
  searched C0 C r group (current :: stack) -> C !! current = None ->
  node_weights g !! current = Some n ->
  searched C0 (<[current := cid]> C) r (group ++ [n])
    (fold_left (push (<[current := cid]> C)) (map edge_source (edges_incoming g current))
       (fold_left (push (<[current := cid]> C)) (map edge_target (edges_outgoing g current)) stack)).
Proof.
  intros [Hmono Hstack Hreach Hnext Hgroup Hnd] Hc Hn.
  set (C' := <[current := cid]> C).
  set (stack' := fold_left _ _ _).
  assert (Hel : forall x, x ∈ stack' <-> x ∈ stack \/ (linked g current x /\ C' !! x = None)).
  { intros x. unfold stack'. destruct (push_all C' (map edge_source (edges_incoming g current))
      (fold_left (push C') (map edge_target (edges_outgoing g current)) stack)) as [_ ->].
    destruct (push_all C' (map edge_target (edges_outgoing g current)) stack) as [_ ->].
    rewrite edges_linked. tauto. }
  assert (Hin : forall i, is_Some (C' !! i) <-> i = current \/ is_Some (C !! i)).
  { intros i. unfold C'. rewrite lookup_insert_is_Some. split; [intros [->|[_ ?]]; auto|].
    intros [->|Hi]; [by left|]. destruct (decide (current = i)); auto. }
  assert (Hc0 : C0 !! current = None).
  { destruct (C0 !! current) eqn:E; [|done].
    destruct (Hmono current) as [x Hx]; [by eexists|congruence]. }
  destruct (Hstack current (list_elem_of_here _ _)) as [Hrc _].
  constructor.
  - intros i Hi. apply Hin. auto.
  - intros s [Hs|[Hl _]]%Hel; [by apply Hstack, list_elem_of_further|].
    split; [by eapply rtc_r|by eapply linked_tracked].
  - intros i [->|Hi]%Hin H0i; [done|by apply Hreach].
  - intros i j [->|Hi]%Hin H0i Hl; rewrite Hin, Hel.
    + destruct (C' !! j) eqn:E; [left; apply Hin; eauto|right; right; done].
    + destruct (Hnext i j Hi H0i Hl) as [?|[->|?]%elem_of_cons]; auto.
  - intros m. rewrite elem_of_app, list_elem_of_singleton, Hgroup. split.
    + intros [(i & Hi & HC & HC0)| ->]; [exists i; rewrite Hin; auto|].
      exists current. rewrite Hin. auto.
    + intros (i & Hi & HC & HC0). apply Hin in HC as [->|HC]; [right; congruence|left; eauto].
  - apply NoDup_app. split_and!; [done| |apply NoDup_singleton].
    intros m Hm ->%list_elem_of_singleton. apply Hgroup in Hm as (i & Hi & HC & _).
    assert (i = current) as -> by (by eapply Hinj). rewrite Hc in HC. by apply is_Some_None in HC.
Qed.

Lemma searched_skip C0 C r group current stack :
  searched C0 C r group (current :: stack) -> is_Some (C !! current) ->
  searched C0 C r group stack.
Proof.
  intros [Hmono Hstack Hreach Hnext Hgroup Hnd] Hc. constructor; auto.
  - intros s Hs. by apply Hstack, list_elem_of_further.
  - intros i j Hi Hi0 Hl. destruct (Hnext i j Hi Hi0 Hl) as [?|Hj]; [by left|].
    apply elem_of_cons in Hj as [->|?]; auto.
Qed.

Definition tracked_list : list (NodeIndex * NodeNum) := map_to_list (node_weights g).

Lemma visit_total fuel : forall C0 C r group stack cid,
  searched C0 C r group stack -> (length stack + potential C tracked_list < fuel)%nat ->
  exists C' group', visit fuel g cid C group stack = Some (C', group') /\
    searched C0 C' r group' [] /\ (forall i, is_Some (C !! i) \/ i ∈ stack -> is_Some (C' !! i)).
Proof.
  induction fuel as [|fuel IH]; intros C0 C r group stack cid Hs Hfuel; [lia|].
  destruct stack as [|current stack]; cbn [visit].
  { exists C, group. split_and!; [done|done|]. by intros i [?|?%not_elem_of_nil]. }
  case_bool_decide as Hc.
  - destruct (IH C0 C r group stack cid (searched_skip _ _ _ _ _ _ Hs Hc)) as (C' & g' & Hv & Hs' & Hall).
    { cbn in Hfuel. lia. }
    exists C', g'. split_and!; auto. intros i [Hi|[->|Hi]%elem_of_cons]; auto.
  - apply eq_None_not_Some in Hc.
    destruct (s_stack _ _ _ _ _ Hs current (list_elem_of_here _ _)) as [_ [n Hn]]. rewrite Hn.
    fold (push (<[current := cid]> C)).
    set (C1 := <[current := cid]> C) in *. set (stack1 := fold_left (push C1) _ _).
    assert (Hlen : (length stack1 <= length stack + degree g current)%nat).
    { unfold stack1, degree.
      destruct (push_all C1 (map edge_source (edges_incoming g current))
        (fold_left (push C1) (map edge_target (edges_outgoing g current)) stack)) as [H1 _].
      destruct (push_all C1 (map edge_target (edges_outgoing g current)) stack) as [H2 _].
      rewrite length_map in H1, H2. lia. }
    assert (Hpot : (potential C1 tracked_list + degree g current = potential C tracked_list)%nat).
    { apply potential_insert; [done|apply NoDup_fst_map_to_list|].
      apply list_elem_of_fmap. exists (current, n). split; [done|]. by apply elem_of_map_to_list. }
    destruct (IH C0 C1 r (group ++ [n]) stack1 cid) as (C' & g' & Hv & Hs' & Hall).
    { by apply searched_step. }
    { cbn in Hfuel. lia. }
    exists C', g'. split_and!; [exact Hv|done|].
    assert (HC1 : forall i, is_Some (C !! i) \/ i = current -> is_Some (C' !! i)).
    { intros i Hi. apply Hall. left. unfold C1. rewrite lookup_insert_is_Some.
      destruct (decide (current = i)); [by left|right]. split; [done|]. destruct Hi; [done|congruence]. }
    intros i [Hi|[->|Hi]%elem_of_cons]; auto.
    destruct (C1 !! i) eqn:E; [apply Hall; left; by eexists|]. apply Hall. right. unfold stack1.
    apply push_all. left. apply push_all. by left.
Qed.

(** A search from an unvisited root finds exactly the root's class. *)
Lemma visit_class C0 r cid :
  C0 !! r = None -> is_Some (node_weights g !! r) ->
  (forall i j, is_Some (C0 !! i) -> linked g i j -> is_Some (C0 !! j)) ->
  exists C' group, visit (visit_fuel g) g cid C0 [] [r] = Some (C', group) /\
    (forall i, is_Some (C' !! i) <-> is_Some (C0 !! i) \/ reach g r i) /\
    (forall n, n ∈ group <-> exists i, node_weights g !! i = Some n /\ reach g r i) /\
    NoDup group /\ forall i, reach g r i -> C0 !! i = None.
Proof.
  intros Hr Hw Hclosed.
  assert (Hsep : forall i, reach g r i -> C0 !! i = None).
  { intros i Hri. destruct (C0 !! i) eqn:E; [|done]. exfalso.
    assert (Hback : forall j, reach g i j -> is_Some (C0 !! j)).
    { assert (Hi : is_Some (C0 !! i)) by eauto. clear E Hri. revert Hi.
      intros Hi j Hij. induction Hij as [|a b c Hab Hbc IH]; [done|]. apply IH. by eapply Hclosed. }
    destruct (Hback r (reach_sym _ _ _ Hri)) as [x Hx]. congruence. }
  destruct (visit_total (visit_fuel g) C0 C0 r [] [r] cid) as (C' & group & Hv & Hs & Hall).
  { constructor; auto.
    - intros s ->%list_elem_of_singleton. split; [apply rtc_refl|done].
    - intros i [x Hx] Hn. congruence.
    - intros i j [x Hx] Hn. congruence.
    - intros n. split; [by intros ?%not_elem_of_nil|]. intros (i & _ & [x Hx] & Hn). congruence.
    - constructor. }
  { assert (Hle : (potential C0 tracked_list
                   <= sum_list (map (fun kv => degree g kv.1) tracked_list))%nat).
    { unfold potential. induction tracked_list as [|kv l IH]; cbn; [lia|].
      destruct (bool_decide _); lia. }
    unfold visit_fuel, tracked_list in *. cbn [length]. lia. }
  assert (Hri : forall i, reach g r i -> is_Some (C' !! i)).
  { apply (rtc_ind_r (fun i => is_Some (C' !! i))).
    - apply Hall. right. apply list_elem_of_here.
    - intros y z Hy Hyz Hsome. destruct (s_next _ _ _ _ _ Hs y z Hsome (Hsep y Hy) Hyz) as [?|Hz]; [done|].
      by apply not_elem_of_nil in Hz. }
  exists C', group. split_and!; auto.
  - intros i. split.
    + intros Hi. destruct (C0 !! i) eqn:E; [left; eauto|right]. by apply (s_reach _ _ _ _ _ Hs).
    + intros [Hi|Hi]; [by apply (s_mono _ _ _ _ _ Hs)|by apply Hri].
  - intros n. rewrite (s_group _ _ _ _ _ Hs). split; intros (i & Hi & Hx); exists i; (split; [done|]).
    + destruct Hx. by apply (s_reach _ _ _ _ _ Hs).
    + auto.
  - apply (s_nodup _ _ _ _ _ Hs).
Qed.

(** *** All searches *)

(** The groups found so far are classes, and cover exactly what was visited. *)
Record classes (C : gmap Z nat) (groups : list (list NodeNum)) : Prop := {
  c_closed : forall i j, is_Some (C !! i) -> linked g i j -> is_Some (C !! j);
  c_class : forall group, group ∈ groups ->
    exists r, forall n, n ∈ group <-> exists i, node_weights g !! i = Some n /\ reach g r i;
  c_cover : forall n, n ∈ concat groups <-> exists i, node_weights g !! i = Some n /\ is_Some (C !! i);
  c_nodup : NoDup (concat groups)
}.

Lemma classes_step C groups r :
  classes C groups -> C !! r = None -> is_Some (node_weights g !! r) ->
  exists C' group, visit (visit_fuel g) g (length groups) C [] [r] = Some (C', group) /\
    group <> [] /\ classes C' (groups ++ [group]) /\
    forall i, is_Some (C !! i) \/ i = r -> is_Some (C' !! i).
Proof.
  intros [Hclosed Hclass Hcover Hnd] Hr Hw.
  destruct (visit_class C r (length groups) Hr Hw Hclosed) as (C' & group & Hv & HC & Hg & Hndg & Hsep).
  exists C', group. split_and!; [done| | |].
  - destruct Hw as [n Hn]. intros ->. apply (not_elem_of_nil n), Hg. exists r. split; [done|apply rtc_refl].
  - constructor.
    + intros i j Hi Hl. apply HC in Hi. apply HC. destruct Hi as [Hi|Hi]; [left; eauto|right].
      by eapply rtc_r.
    + intros group' [Hin| ->%list_elem_of_singleton]%elem_of_app; [by apply Hclass|]. by exists r.
    + intros n. rewrite concat_app, elem_of_app, Hcover. cbn. rewrite app_nil_r, Hg.
      split; [intros [(i & ? & ?)|(i & ? & ?)]; exists i; rewrite HC; auto|].
      intros (i & Hi & Hs). apply HC in Hs as [?|?]; eauto.
    + rewrite concat_app. cbn. rewrite app_nil_r. apply NoDup_app. split_and!; auto.
      intros n Hn Hng. apply Hcover in Hn as (i & Hi & [x Hx]). apply Hg in Hng as (j & Hj & Hrj).
      assert (i = j) as -> by (by eapply Hinj). apply Hsep in Hrj. congruence.
  - intros i [Hi| ->]; apply HC; [by left|right; apply rtc_refl].
Qed.

Lemma visit_all_classes values : forall C groups,
  classes C groups -> (forall i, i ∈ values -> is_Some (node_weights g !! i)) ->
  exists C' groups', visit_all g C groups values = Some (C', groups') /\ classes C' groups' /\
    forall i, is_Some (C !! i) \/ i ∈ values -> is_Some (C' !! i).
Proof.
  induction values as [|r values IH]; intros C groups Hc Hv; cbn [visit_all].
  { exists C, groups. split_and!; auto. by intros i [?|?%not_elem_of_nil]. }
  assert (Hv' : forall i, i ∈ values -> is_Some (node_weights g !! i))
    by (intros i Hi; by apply Hv, list_elem_of_further).
  case_bool_decide as Hr.
  - destruct (IH C groups Hc Hv') as (C' & gs & He & Hc' & Hall). exists C', gs. split_and!; auto.
    intros i [Hi|Hi]; [auto|]. apply elem_of_cons in Hi as [->|Hi]; auto.
  - apply eq_None_not_Some in Hr.
    destruct (classes_step C groups r Hc Hr (Hv r (list_elem_of_here _ _)))
      as (C1 & group & -> & Hne & Hc1 & Hall1). cbn.
    destruct group as [|n group]; [done|].
    destruct (IH C1 (groups ++ [n :: group]) Hc1 Hv') as (C' & gs & He & Hc' & Hall).
    exists C', gs. split_and!; auto.
    intros i [Hi|Hi]; [auto|]. apply elem_of_cons in Hi as [->|Hi]; auto.
Qed.

Lemma add_singletons_none values : forall C groups,
  (forall i, i ∈ values -> is_Some (C !! i)) -> add_singletons g C groups values = groups.
Proof.
  induction values as [|i values IH]; intros C groups Hall; cbn; [done|].
  destruct (Hall i (list_elem_of_here _ _)) as [x ->]. apply IH.
  intros j Hj. by apply Hall, list_elem_of_further.
Qed.

End Search.

(** ** The theorem *)

Lemma topo_ok_injective t i j n :
  topo_ok t -> node_weights (graph t) !! i = Some n -> node_weights (graph t) !! j = Some n -> i = j.
Proof. intros Hok Hi Hj. apply (ok_index _ Hok) in Hi, Hj. congruence. Qed.

Lemma connected_components_classes t :
  topo_ok t ->
  exists groups, connected_components t = Some groups /\
    (exists C, classes (graph t) C groups /\
       forall n i, node_index t !! n = Some i -> is_Some (C !! i)).
Proof.
  intros Hok. unfold connected_components.
  assert (Hempty : classes (graph t) ∅ []).
  { constructor; cbn.
    - intros i j [x Hx]. by rewrite lookup_empty in Hx.
    - by intros ? ?%not_elem_of_nil.
    - intros n. split; [by intros ?%not_elem_of_nil|]. intros (i & _ & [x Hx]).
      by rewrite lookup_empty in Hx.
    - constructor. }
  case_bool_decide as He.
  - exists []. split; [done|]. exists ∅. split; [done|]. intros n i. by rewrite He, lookup_empty.
  - set (values := map snd (hm_iter (node_index t))).
    assert (Hvals : forall i, i ∈ values <-> exists n, node_index t !! n = Some i).
    { intros i. unfold values. rewrite list_elem_of_fmap. split.
      - intros ([n j] & -> & Hin). apply hm_iter_elem in Hin. eauto.
      - intros [n Hn]. exists (n, i). split; [done|]. by apply hm_iter_elem. }
    destruct (visit_all_classes (graph t) (ok_ends _ Hok)
                (fun i j n => topo_ok_injective t i j n Hok) values ∅ [] Hempty)
      as (C & groups & -> & Hc & Hall).
    { intros i Hi. apply Hvals in Hi as [n Hn]. apply (ok_index _ Hok) in Hn. eauto. }
    cbn. rewrite add_singletons_none by auto. exists groups. split; [done|]. exists C. split; [done|].
    intros n i Hi. apply Hall. right. apply Hvals. eauto.
Qed.

Lemma connected_components_spec t :
  topo_ok t ->
  exists groups, connected_components t = Some groups /\ NoDup (concat groups) /\
    (forall n, n ∈ concat groups <-> is_Some (node_index t !! n)) /\
    (forall m n, (exists group, group ∈ groups /\ m ∈ group /\ n ∈ group) <-> connected t m n).
Proof.
  intros Hok. destruct (connected_components_classes t Hok) as (groups & Hg & C & Hc & Hall).
  assert (Hcover : forall n, n ∈ concat groups <-> is_Some (node_index t !! n)).
  { intros n. rewrite (c_cover _ _ _ Hc). split.
    - intros (i & Hi & _). apply (ok_index _ Hok) in Hi. eauto.
    - intros [i Hi]. exists i. split; [by apply (ok_index _ Hok)|by eapply Hall]. }
  exists groups. split_and!; [done|by destruct Hc|done|]. intros m n. split.
  - intros (group & Hin & Hm & Hn). destruct (c_class _ _ _ Hc group Hin) as (r & Hr).
    apply Hr in Hm as (i & Hi & Hri), Hn as (j & Hj & Hrj). exists i, j.
    split_and!; [by apply (ok_index _ Hok)..|]. etransitivity; [by apply reach_sym|done].
  - intros (i & j & Hi & Hj & Hij).
    assert (Hm : m ∈ concat groups) by (apply Hcover; eauto).
    apply list_elem_of_In, in_concat in Hm as (group & Hin & Hm).
    apply list_elem_of_In in Hin, Hm. exists group. split_and!; [done|done|].
    destruct (c_class _ _ _ Hc group Hin) as (r & Hr). destruct (proj1 (Hr m) Hm) as (i' & Hi' & Hri).
    apply (ok_index _ Hok) in Hi'. assert (i' = i) as -> by congruence.
    apply Hr. exists j. split; [by apply (ok_index _ Hok)|]. by etransitivity.
Qed.

(** C29. [connected_components] terminates and computes the partition: its groups
    cover exactly the tracked nodes, each once, and two nodes share a group
    exactly when links, taken in either direction, lead from one to the other.
    Its search runs on fuel bounded by the sum of the degrees. *)
Theorem components_partition_nodes (t : MeshTopology) :
  topo_ok t ->
  exists groups, connected_components t = Some groups /\ NoDup (concat groups) /\
    (forall n, n ∈ concat groups <-> is_Some (node_index t !! n)) /\
    (forall m n, (exists group, group ∈ groups /\ m ∈ group /\ n ∈ group) <-> connected t m n).
Proof. apply connected_components_spec. Qed.

(** [is_partitioned] answers whether a node is cut off from the server: it
    says false exactly when both are tracked and links, taken in either
    direction, connect them. *)
Theorem is_partitioned_decides (t : MeshTopology) (node server : NodeNum) :
  topo_ok t ->
  exists b, is_partitioned t node server = Some b /\ (b = false <-> connected t node server).
Proof.
  intros Hok. unfold is_partitioned, contains_node.
  destruct (connected_components_spec t Hok) as (groups & -> & _ & Hcover & Hsame).
  destruct (negb _ || negb _) eqn:Etracked.
  - exists true. split; [done|]. split; [done|]. intros (i & j & Hi & Hj & _).
    rewrite Hi, Hj in Etracked. done.
  - eexists. split; [done|]. rewrite negb_false_iff, existsb_exists, <- Hsame.
    split.
    + intros (group & Hin & [Hm Hn]%andb_true_iff). apply bool_decide_eq_true in Hm, Hn.
      exists group. by rewrite list_elem_of_In.
    + intros (group & Hin & Hm & Hn). exists group. rewrite <- list_elem_of_In.
      split; [done|]. by rewrite !bool_decide_eq_true_2.
Qed.

End Partition.

Lemma components_partition_nodes_witness :
  exists groups, @connected_components MapGraph.map_graph canonical_order MapGraph.demo = Some groups /\
    NoDup (concat groups) /\ length groups = 2%nat.
Proof.
  destruct (@components_partition_nodes MapGraph.map_graph canonical_order MapGraph.demo
    MapGraph.demo_ok) as (groups & Hg & Hnd & _). exists groups. split; [exact Hg|]. split; [exact Hnd|].
  assert (Hl : option_map (@length _)
    (@connected_components MapGraph.map_graph canonical_order MapGraph.demo) = Some 2%nat)
    by (vm_compute; reflexivity).
  rewrite Hg in Hl. by injection Hl.
Defined.

Lemma is_partitioned_decides_witness :
  connected MapGraph.demo 20 10 /\ ~ connected MapGraph.demo 30 10.
Proof.
  split.
  - destruct (@is_partitioned_decides MapGraph.map_graph canonical_order MapGraph.demo 20 10
      MapGraph.demo_ok) as (b & Hb & Hc). apply Hc.
    assert (Hv : @is_partitioned MapGraph.map_graph canonical_order MapGraph.demo 20 10 = Some false)
      by (vm_compute; reflexivity). congruence.
  - destruct (@is_partitioned_decides MapGraph.map_graph canonical_order MapGraph.demo 30 10
      MapGraph.demo_ok) as (b & Hb & Hc). intros Hcon. apply Hc in Hcon.
    assert (Hv : @is_partitioned MapGraph.map_graph canonical_order MapGraph.demo 30 10 = Some true)
      by (vm_compute; reflexivity). congruence.
Defined.
