(* ===== verification/Gateway.v ===== *)
(** * Gateway detection (crates/kerykeion/src/gateway.rs)

    Which nodes are gateways, by configuration or by their reported role, and
    which of them is the best to reach the outside. *)

From Stdlib Require Import SpecFloat.
From S2P Require Import Prelude Float MeshTypes Topology.

Local Open Scope Z_scope.

Definition ROUTER_CLIENT : Z := 3.

Record GatewayState : Type := mkGatewayState {
  gst_last_seen : Instant; gst_snr : f32; gst_auto_detected : bool }.

Record GatewayDetector : Type := mkDetector {
  manual_gateways : list NodeNum; detected_gateways : gmap Z GatewayState }.

(** [new]: the [gateway_nodes] of the topology configuration. *)
Definition GatewayDetector_new (gateway_nodes : list Z) : GatewayDetector := mkDetector gateway_nodes ∅.

Definition evaluate_node (d : GatewayDetector) (node : NodeNum) (role : Z) (wifi_enabled mqtt_enabled : bool)
    (snr : f32) (now : Instant) : GatewayDetector :=
  let is_gateway := (role =? ROUTER_CLIENT) && (wifi_enabled || mqtt_enabled) in
  if is_gateway then
    let state := default (mkGatewayState now snr true) (detected_gateways d !! node) in
    mkDetector (manual_gateways d)
      (<[node := mkGatewayState now snr (gst_auto_detected state)]> (detected_gateways d))
  else match detected_gateways d !! node with
  | Some state =>
      if gst_auto_detected state
      then mkDetector (manual_gateways d) (delete node (detected_gateways d)) else d
  | None => d
  end.

Definition detector_mark_seen (d : GatewayDetector) (node : NodeNum) (snr : f32) (now : Instant)
  : GatewayDetector :=
  match detected_gateways d !! node with
  | Some state =>
      mkDetector (manual_gateways d)
        (<[node := mkGatewayState now snr (gst_auto_detected state)]> (detected_gateways d))
  | None => d
  end.

Definition is_gateway (d : GatewayDetector) (node : NodeNum) : bool :=
  bool_decide (node ∈ manual_gateways d) || bool_decide (is_Some (detected_gateways d !! node)).

Section Gateways.
Context `{StableGraph} `{HashOrder}.

Definition gateway_nodes (d : GatewayDetector) : list NodeNum :=
  fold_left (fun nodes node => if bool_decide (node ∈ nodes) then nodes else nodes ++ [node])
            (map fst (hm_iter (detected_gateways d))) (manual_gateways d).

(** Hop distance weighted by ten, less the SNR; lower is better. *)
Definition gateway_score (d : GatewayDetector) (hops : Z) (gw : NodeNum) : f32 :=
  let snr := match detected_gateways d !! gw with Some s => gst_snr s | None => f32_zero end in
  f32_mul_add (f32_of_Z hops) (f32_of_Z 10) (SFopp snr).

Definition best_gateway (dijkstra : SG -> NodeIndex -> NodeIndex -> gmap Z Z)
    (d : GatewayDetector) (topology : MeshTopology) (server_node : NodeNum) : option NodeNum :=
  fst <$> min_by (fun a b => f32_ltb b.2 a.2)
    (omap (fun gw => hops ← hop_count dijkstra topology server_node gw; Some (gw, gateway_score d hops gw))
          (gateway_nodes d)).

(** * Lemmas *)

Lemma gateway_nodes_fold (l : list NodeNum) : forall nodes n,
  n ∈ fold_left (fun nodes node => if bool_decide (node ∈ nodes) then nodes else nodes ++ [node]) l nodes <->
  n ∈ nodes \/ n ∈ l.
Proof.
  induction l as [|x l IH]; intros nodes n; cbn [fold_left].
  - split; [auto|]. by intros [?|?%not_elem_of_nil].
  - rewrite IH, elem_of_cons. case_bool_decide as Hx.
    + split; [tauto|]. intros [?|[->|?]]; auto.
    + rewrite elem_of_app, list_elem_of_singleton. tauto.
Qed.

Lemma gateway_nodes_spec d n : n ∈ gateway_nodes d <-> is_gateway d n = true.
Proof.
  unfold gateway_nodes, is_gateway. rewrite gateway_nodes_fold, orb_true_iff, !bool_decide_eq_true.
  rewrite list_elem_of_fmap. split; (intros [Hm|Hd]; [by left|right]).
  - destruct Hd as ([k s] & -> & Hin). apply hm_iter_elem in Hin. eauto.
  - destruct Hd as [s Hs]. exists (n, s). split; [done|]. by apply hm_iter_elem.
Qed.

(** [best_gateway] picks a configured or detected gateway that the server can
    reach, and none of the reachable ones has a lower score of ten per hop less
    its SNR; it finds none only when no gateway is reachable. The scores must be
    numbers, as they are unless a radio reports a NaN. *)
Theorem best_gateway_minimal (dijkstra : SG -> NodeIndex -> NodeIndex -> gmap Z Z) (d : GatewayDetector)
    (t : MeshTopology) (server : NodeNum) :
  (forall gw hops, is_gateway d gw = true -> hop_count dijkstra t server gw = Some hops ->
     gateway_score d hops gw <> S754_nan) ->
  match best_gateway dijkstra d t server with
  | Some gw =>
      is_gateway d gw = true /\
      exists hops, hop_count dijkstra t server gw = Some hops /\
        forall gw' hops', is_gateway d gw' = true -> hop_count dijkstra t server gw' = Some hops' ->
          f32_ltb (gateway_score d hops' gw') (gateway_score d hops gw) = false
  | None => forall gw, is_gateway d gw = true -> hop_count dijkstra t server gw = None
  end.
Proof.
  intros Hnum. unfold best_gateway. set (l := omap _ _).
  assert (Hl : forall gw x, (gw, x) ∈ l <-> is_gateway d gw = true /\
    exists hops, hop_count dijkstra t server gw = Some hops /\ x = gateway_score d hops gw).
  { intros gw x. unfold l. rewrite list_elem_of_omap. setoid_rewrite gateway_nodes_spec. split.
    - intros (g & Hg & Hx). destruct (hop_count dijkstra t server g) as [h|] eqn:E; [|done].
      injection Hx as <- <-. eauto.
    - intros (Hg & h & Hh & ->). exists gw. by rewrite Hh. }
  destruct (min_by _ l) as [[gw x]|] eqn:Em; cbn.
  - apply (min_by_Some_on (fun a => a.2 <> S754_nan)) in Em as [Hin Hmin].
    + apply Hl in Hin as (Hg & h & Hh & ->). split; [done|]. exists h. split; [done|].
      intros gw' h' Hg' Hh'. apply (Hmin (gw', gateway_score d h' gw')), Hl. eauto.
    + intros a b. apply SFltb_asym.
    + intros a b c Hb Hab Hbc. by eapply (SFltb_not_trans a.2 b.2 c.2).
    + apply Forall_forall. intros [g y] Hin. apply Hl in Hin as (Hg & h & Hh & ->). by apply Hnum.
  - apply min_by_None in Em. intros gw Hg. destruct (hop_count dijkstra t server gw) as [h|] eqn:E; [|done].
    assert (Hin : (gw, gateway_score d h gw) ∈ l) by (apply Hl; eauto).
    rewrite Em in Hin. by apply not_elem_of_nil in Hin.
Qed.
End Gateways.

(** Distance one along a link, as a search that looks no further would report. *)
Definition direct_links (g : @SG MapGraph.map_graph) (a b : NodeIndex) : gmap Z Z :=
  if bool_decide (@edges_connecting MapGraph.map_graph g a b = []) then ∅ else {[b := 1]}.

Lemma two_gateways gw : is_gateway (GatewayDetector_new [30; 20]) gw = true -> gw = 30 \/ gw = 20.
Proof.
  unfold is_gateway. cbn [manual_gateways detected_gateways GatewayDetector_new].
  rewrite lookup_empty, orb_true_iff, !bool_decide_eq_true, !elem_of_cons.
  intros [[->|[->|Hg]]|[? ?]]; [by left|by right|by apply not_elem_of_nil in Hg|done].
Qed.

Lemma best_gateway_minimal_witness :
  @best_gateway MapGraph.map_graph canonical_order direct_links (GatewayDetector_new [30; 20])
    MapGraph.demo 10 = Some 20 /\
  is_gateway (GatewayDetector_new [30; 20]) 20 = true.
Proof.
  pose proof (@best_gateway_minimal MapGraph.map_graph canonical_order direct_links
    (GatewayDetector_new [30; 20]) MapGraph.demo 10) as Hbest.
  assert (Hv : @best_gateway MapGraph.map_graph canonical_order direct_links (GatewayDetector_new [30; 20])
    MapGraph.demo 10 = Some 20) by (vm_compute; reflexivity).
  rewrite Hv in Hbest. destruct Hbest as [Hg _].
  - intros gw hops Hg Hh. destruct (two_gateways gw Hg) as [-> | ->].
    + vm_compute in Hh. discriminate.
    + vm_compute in Hh. injection Hh as <-. vm_compute. discriminate.
  - split; [exact Hv|exact Hg].
Defined.
