(* ===== verification/Snapshot.v ===== *)
(** * Topology snapshots (crates/kerykeion/src/topology.rs)

    [save_to_bytes] and [load_from_bytes]. The JSON library is a parameter: what
    it writes and reads for a [TopologySnapshot]. *)

From S2P Require Import Prelude Float MeshTypes Topology.

Local Open Scope Z_scope.

Section Snapshot.
Context `{StableGraph} `{HashOrder}.
Context (to_vec : TopologySnapshot -> option bytes)
        (from_slice : bytes -> option TopologySnapshot).

Definition link_snapshot (g : SG) (e : EdgeRef) : option LinkSnapshot :=
  from ← node_weights g !! edge_source e;
  to ← node_weights g !! edge_target e;
  Some (mkLinkSnapshot from to (lq_snr (edge_weight e)) (lq_packet_count (edge_weight e))).

Definition take_snapshot (t : MeshTopology) : TopologySnapshot :=
  mkTopologySnapshot (map fst (hm_iter (node_index t)))
                     (omap (link_snapshot (graph t)) (edge_indices (graph t))).

Definition save_to_bytes (t : MeshTopology) : result bytes TopologyError :=
  match to_vec (take_snapshot t) with
  | Some data => Ok data
  | None => Err TopologySnapshotError
  end.

(** One turn of the restore loop; [None] is the panic of [add_edge]. *)
Definition restore_link (now : Instant) (t : MeshTopology) (l : LinkSnapshot) : option MeshTopology :=
  let (from_idx, t) := add_node_protecting t (ls_from l) [ls_to l] in
  let (to_idx, t) := add_node_protecting t (ls_to l) [ls_from l] in
  match head (edges_connecting (graph t) from_idx to_idx) with
  | Some e =>
      let w := edge_weight e in
      Some (mkTopology
        (sg_set_weight (graph t) e.1
           (mkLink (ls_snr l) (lq_last_observed w)
                   (saturating_add 32 (lq_packet_count w) (ls_packet_count l))))
        (node_index t))
  | None =>
      g ← sg_add_edge (graph t) from_idx to_idx (mkLink (ls_snr l) now (ls_packet_count l));
      Some (mkTopology g (node_index t))
  end.

Fixpoint restore_links (now : Instant) (t : MeshTopology) (links : list LinkSnapshot)
  : option MeshTopology :=
  match links with
  | [] => Some t
  | l :: links => t ← restore_link now t l; restore_links now t links
  end.

Definition restore (now : Instant) (s : TopologySnapshot) : option MeshTopology :=
  let topo := fold_left (fun t n => (add_node t n).2) (take MAX_LIVE_NODES (ts_nodes s))
                        MeshTopology_new in
  restore_links now topo (take (Z.to_nat MAX_LIVE_LINKS) (ts_links s)).

Definition load_from_bytes (now : Instant) (data : bytes)
  : option (result MeshTopology TopologyError) :=
  match from_slice data with
  | Some s => t ← restore now s; Some (Ok t)
  | None => Some (Err TopologySnapshotError)
  end.

(** * Lemmas *)

(** ** Any snapshot restores to a well-formed topology *)

Definition snapshot_finite (s : TopologySnapshot) : bool :=
  forallb (fun l => f32_is_finite (ls_snr l)) (ts_links s).

(** The two endpoint insertions of a link, as [update_link] makes them too. *)
Lemma add_endpoints_spec t from to :
  topo_ok t ->
  let '(i, t1) := add_node_protecting t from [to] in
  let '(j, t2) := add_node_protecting t1 to [from] in
  topo_ok t2 /\ node_index t2 !! from = Some i /\ node_index t2 !! to = Some j /\
  edge_refs (graph t2) ⊆ edge_refs (graph t) /\
  (is_Some (node_index t !! from) -> is_Some (node_index t !! to) -> t2 = t).
Proof.
  intros Hok. pose proof (add_node_protecting_spec t from [to] Hok ltac:(cbn; lia)) as H1.
  destruct (add_node_protecting t from [to]) as [i t1].
  destruct H1 as (Hok1 & Hi1 & Hp1 & Hs1 & Hcase1).
  pose proof (add_node_protecting_spec t1 to [from] Hok1 ltac:(cbn; lia)) as H2.
  destruct (add_node_protecting t1 to [from]) as [j t2].
  destruct H2 as (Hok2 & Hj2 & Hp2 & Hs2 & Hcase2). split_and!; [done| |done| |].
  - rewrite Hp2; [done|apply list_elem_of_here|by eexists].
  - by etransitivity.
  - intros [x Hx] [y Hy]. rewrite Hx in Hcase1. subst t1. by rewrite Hy in Hcase2.
Qed.

Lemma restore_link_ok now t l :
  topo_ok t -> f32_is_finite (ls_snr l) = true -> edge_count t < MAX_LIVE_LINKS ->
  exists t', restore_link now t l = Some t' /\ topo_ok t' /\ edge_count t' <= edge_count t + 1.
Proof.
  intros Hok Hfin Hroom. unfold restore_link.
  pose proof (add_endpoints_spec t (ls_from l) (ls_to l) Hok) as He.
  destruct (add_node_protecting t _ _) as [i t1]. destruct (add_node_protecting t1 _ _) as [j t2].
  destruct He as (Hok2 & Hi & Hj & Hsub & _).
  assert (Hc : edge_count t2 <= edge_count t)
    by (unfold edge_count; apply map_subseteq_size in Hsub; lia).
  destruct (edges_connecting (graph t2) i j) as [|[e [[a b] w]] es] eqn:Ec; cbn [head].
  - pose proof (connecting_nil _ _ _ Ec) as Hno.
    destruct (topo_ok_add_edge t2 i j _ _ (mkLink (ls_snr l) now (ls_packet_count l)) Hok2 Hi Hj Hno)
      as (g & e & -> & Hok3 & Hfresh & Hew); [lia|done|]. cbn.
    eexists. split_and!; [done|done|]. unfold edge_count in *. cbn. rewrite Hew, map_size_insert_None by done. lia.
  - assert (Hin : (e, (a, b, w)) ∈ edges_connecting (graph t2) i j) by (rewrite Ec; apply list_elem_of_here).
    apply edges_connecting_spec in Hin as (Hw & _ & _). eexists. split_and!; [done| |].
    + by eapply topo_ok_set_weight.
    + unfold edge_count in *. cbn.
      destruct (sg_set_weight_spec (graph t2) e (mkLink (ls_snr l) (lq_last_observed w)
        (saturating_add 32 (lq_packet_count w) (ls_packet_count l)))) as [_ ->].
      rewrite <- size_dom, dom_alter_L, size_dom. lia.
Qed.

Lemma restore_links_ok now ls : forall t,
  topo_ok t -> Forall (fun l => f32_is_finite (ls_snr l) = true) ls ->
  edge_count t + Z.of_nat (length ls) <= MAX_LIVE_LINKS ->
  exists t', restore_links now t ls = Some t' /\ topo_ok t'.
Proof.
  induction ls as [|l ls IH]; intros t Hok Hfin Hc; cbn [restore_links]; [eauto|].
  apply Forall_cons in Hfin as [Hl Hfin]. rewrite length_cons in Hc.
  destruct (restore_link_ok now t l Hok Hl) as (t' & -> & Hok' & Hc'); [lia|].
  apply IH; auto. lia.
Qed.

Lemma add_node_spec t n :
  topo_ok t ->
  let t' := (add_node t n).2 in
  topo_ok t' /\ edge_refs (graph t') ⊆ edge_refs (graph t) /\
  ((size (node_index t) < MAX_LIVE_NODES)%nat ->
   (size (node_index t') <= S (size (node_index t)))%nat /\
   forall m, is_Some (node_index t' !! m) <-> m = n \/ is_Some (node_index t !! m)).
Proof.
  intros Hok t'. pose proof (add_node_protecting_spec t n [] Hok ltac:(cbn; lia)) as Hadd.
  assert (Ht : t' = (add_node_protecting t n []).2) by done. clearbody t'. subst t'.
  split; [|split]; [by destruct (add_node_protecting t n []), Hadd|
    by destruct (add_node_protecting t n []), Hadd as (_ & _ & _ & ? & _)|].
  intros Hroom. clear Hadd. unfold add_node_protecting.
  destruct (node_index t !! n) as [i|] eqn:En.
  - cbn [snd]. split; [lia|]. intros m. split; [auto|]. intros [->|?]; eauto.
  - rewrite (proj2 (Nat.leb_gt _ _) Hroom).
    destruct (sg_add_node (graph t) n) as [i g]. cbn [snd node_index]. rewrite map_size_insert_None by done.
    split; [lia|]. intros m. rewrite lookup_insert_is_Some'. split; intros [->|?]; auto.
Qed.

Lemma add_nodes_spec ns : forall t,
  topo_ok t -> edge_refs (graph t) = ∅ ->
  let t' := fold_left (fun t n => (add_node t n).2) ns t in
  topo_ok t' /\ edge_refs (graph t') = ∅ /\
  ((size (node_index t) + length ns <= MAX_LIVE_NODES)%nat ->
   forall m, is_Some (node_index t' !! m) <-> m ∈ ns \/ is_Some (node_index t !! m)).
Proof.
  induction ns as [|n ns IH]; intros t Hok He; cbn [fold_left].
  { split_and!; auto. intros _ m. split; [auto|]. by intros [?%not_elem_of_nil|?]. }
  destruct (add_node_spec t n Hok) as (Hok1 & Hs & Hroom). set (t1 := (add_node t n).2) in *.
  rewrite He in Hs. apply (anti_symm (⊆)) in Hs; [|apply map_empty_subseteq]. symmetry in Hs.
  destruct (IH t1 Hok1 Hs) as (Hok' & He' & Hm). split_and!; auto.
  rewrite length_cons. intros Hlen m. destruct Hroom as [Hsz Hm1]; [lia|].
  rewrite Hm by lia. rewrite Hm1, elem_of_cons. tauto.
Qed.

Lemma restore_ok now s :
  snapshot_finite s = true -> exists t, restore now s = Some t /\ topo_ok t.
Proof.
  intros Hfin. unfold restore.
  destruct (add_nodes_spec (take MAX_LIVE_NODES (ts_nodes s)) MeshTopology_new topo_new_ok
              (proj2 sg_new_empty)) as (Hok & He & _).
  apply restore_links_ok; [done| |].
  - apply Forall_take, Forall_forall. intros l Hl. unfold snapshot_finite in Hfin.
    rewrite forallb_forall in Hfin. apply Hfin. by apply list_elem_of_In.
  - unfold edge_count. rewrite He, map_size_empty, length_take. unfold MAX_LIVE_LINKS. lia.
Qed.

(** ** The snapshot of a topology restores it *)

Definition restored (now : Instant) (l : LinkSnapshot) : LinkQuality :=
  mkLink (ls_snr l) now (ls_packet_count l).

Lemma link_insert t g e i j m n w :
  topo_ok t -> node_index t !! m = Some i -> node_index t !! n = Some j ->
  edge_refs (graph t) !! e = None -> edge_refs g = <[e := (i, j, w)]> (edge_refs (graph t)) ->
  forall a b x, link (mkTopology g (node_index t)) a b x <-> link t a b x \/ (a = m /\ b = n /\ x = w).
Proof.
  intros Hok Hm Hn Hfresh Hg a b x. unfold link. cbn. rewrite Hg. split.
  - intros (e' & i' & j' & Ha & Hb & [[<- [= -> -> ->]]|[Hne Hx]]%lookup_insert_Some).
    + right. apply (ok_index _ Hok) in Hm, Hn, Ha, Hb. split_and!; congruence.
    + left. by exists e', i', j'.
  - intros [(e' & i' & j' & Ha & Hb & Hx)|(-> & -> & ->)].
    + exists e', i', j'. rewrite lookup_insert_ne by congruence. done.
    + exists e, i, j. by rewrite lookup_insert_eq.
Qed.

Lemma restore_link_new now t l :
  topo_ok t -> f32_is_finite (ls_snr l) = true -> edge_count t < MAX_LIVE_LINKS ->
  is_Some (node_index t !! ls_from l) -> is_Some (node_index t !! ls_to l) ->
  (forall w, ~ link t (ls_from l) (ls_to l) w) ->
  exists t', restore_link now t l = Some t' /\ topo_ok t' /\ edge_count t' = edge_count t + 1 /\
    node_index t' = node_index t /\
    forall a b x, link t' a b x <-> link t a b x \/ (a = ls_from l /\ b = ls_to l /\ x = restored now l).
Proof.
  intros Hok Hfin Hroom Hf Ht Hnew. unfold restore_link.
  pose proof (add_endpoints_spec t (ls_from l) (ls_to l) Hok) as He.
  destruct (add_node_protecting t _ _) as [i t1]. destruct (add_node_protecting t1 _ _) as [j t2].
  destruct He as (_ & Hi & Hj & _ & Heq). rewrite (Heq Hf Ht) in *. clear Heq t1 t2.
  assert (Hno : forall e x, edge_refs (graph t) !! e <> Some (i, j, x)).
  { intros e x Hx. apply (Hnew x). by exists e, i, j. }
  rewrite no_connecting_edge by done.
  destruct (topo_ok_add_edge t i j _ _ (restored now l) Hok Hi Hj Hno) as (g & e & Hg & Hok3 & Hfresh & Hew);
    [lia|done|].
  unfold restored in Hg. rewrite Hg. cbn. eexists. split_and!; [done|done| |done|].
  - unfold edge_count. cbn. rewrite Hew, map_size_insert_None by done. lia.
  - by eapply link_insert.
Qed.

Lemma restore_links_new now ls : forall t,
  topo_ok t -> Forall (fun l => f32_is_finite (ls_snr l) = true) ls ->
  edge_count t + Z.of_nat (length ls) <= MAX_LIVE_LINKS ->
  Forall (fun l => is_Some (node_index t !! ls_from l) /\ is_Some (node_index t !! ls_to l)) ls ->
  NoDup (map (fun l => (ls_from l, ls_to l)) ls) ->
  (forall l w, l ∈ ls -> ~ link t (ls_from l) (ls_to l) w) ->
  exists t', restore_links now t ls = Some t' /\ topo_ok t' /\ node_index t' = node_index t /\
    forall a b x, link t' a b x <->
      link t a b x \/ exists l, l ∈ ls /\ a = ls_from l /\ b = ls_to l /\ x = restored now l.
Proof.
  induction ls as [|l ls IH]; intros t Hok Hfin Hc Hends Hnd Hnew; cbn [restore_links].
  { exists t. split_and!; auto. intros a b x. split; [auto|].
    by intros [?|(l & ?%not_elem_of_nil & _)]. }
  apply Forall_cons in Hfin as [Hl Hfin]. apply Forall_cons in Hends as [[Hf Ht] Hends].
  cbn [map] in Hnd. apply NoDup_cons in Hnd as [Hni Hnd]. rewrite length_cons in Hc.
  destruct (restore_link_new now t l Hok Hl) as (t1 & -> & Hok1 & Hc1 & Hidx & Hlink); auto; [lia| |].
  { intros w. apply Hnew, list_elem_of_here. }
  cbn. destruct (IH t1 Hok1 Hfin) as (t' & Ht' & Hok' & Hidx' & Hlink'); rewrite ?Hidx; auto; [lia| |].
  { intros l' w Hl' [Hw|(Ha & Hb & _)]%Hlink; [by apply (Hnew l' w), Hw; apply list_elem_of_further|].
    apply Hni, list_elem_of_fmap. exists l'. split; [congruence|done]. }
  exists t'. split_and!; [done|done|congruence|]. intros a b x. rewrite Hlink', Hlink.
  split; [intros [[?|(?&?&?)]|(l' & ? & ?)]; [auto| |]|].
  - right. exists l. split_and!; auto. apply list_elem_of_here.
  - right. exists l'. split; [by apply list_elem_of_further|done].
  - intros [?|(l' & [->|Hl']%elem_of_cons & ?)]; [auto|auto|]. right. by exists l'.
Qed.

Lemma take_snapshot_links t l :
  topo_ok t -> l ∈ ts_links (take_snapshot t) <->
  exists w, link t (ls_from l) (ls_to l) w /\ ls_snr l = lq_snr w /\ ls_packet_count l = lq_packet_count w.
Proof.
  intros Hok. cbn. rewrite list_elem_of_omap. split.
  - intros ([e [[i j] w]] & He & Hl). rewrite edge_indices_spec in He. apply elem_of_map_to_list in He.
    unfold link_snapshot in Hl. cbn in Hl.
    destruct (node_weights (graph t) !! i) as [m|] eqn:Em; [|done].
    destruct (node_weights (graph t) !! j) as [n|] eqn:En; [|done]. injection Hl as <-. cbn.
    exists w. split_and!; [|done|done]. apply (ok_index _ Hok) in Em, En. by exists e, i, j.
  - intros (w & (e & i & j & Hi & Hj & Hw) & Hs & Hc). exists (e, (i, j, w)).
    rewrite edge_indices_spec. split; [by apply elem_of_map_to_list|]. unfold link_snapshot. cbn.
    apply (ok_index _ Hok) in Hi, Hj. rewrite Hi, Hj. cbn. destruct l. cbn in *. congruence.
Qed.

Lemma NoDup_omap_key {A B K} (f : A -> option B) (key : B -> K) (l : list A) :
  NoDup l ->
  (forall a a' b b', a ∈ l -> a' ∈ l -> f a = Some b -> f a' = Some b' -> key b = key b' -> a = a') ->
  NoDup (map key (omap f l)).
Proof.
  induction 1 as [|a l Ha Hnd IH]; intros Hinj; [constructor|]. cbn.
  assert (Hrest : NoDup (map key (omap f l))).
  { apply IH. intros x x' b b' Hx Hx'. apply Hinj; by apply list_elem_of_further. }
  destruct (f a) as [b|] eqn:Ef; [|done]. cbn. constructor; [|done].
  intros (b' & Hk & Hb')%list_elem_of_fmap. apply list_elem_of_omap in Hb' as (a' & Ha' & Ef').
  assert (a = a') as -> by
    (eapply Hinj; eauto using list_elem_of_here, list_elem_of_further). done.
Qed.

Lemma take_snapshot_pairs t :
  topo_ok t -> NoDup (map (fun l => (ls_from l, ls_to l)) (ts_links (take_snapshot t))).
Proof.
  intros Hok. cbn. apply NoDup_omap_key.
  - rewrite edge_indices_spec. apply NoDup_map_to_list.
  - intros [e [[i j] w]] [e' [[i' j'] w']] b b' He He' Hb Hb' Hk.
    rewrite edge_indices_spec in He, He'. apply elem_of_map_to_list in He, He'.
    unfold link_snapshot in Hb, Hb'. cbn in Hb, Hb'.
    destruct (node_weights (graph t) !! i) eqn:Ei; [|done].
    destruct (node_weights (graph t) !! j) eqn:Ej; [|done].
    destruct (node_weights (graph t) !! i') eqn:Ei'; [|done].
    destruct (node_weights (graph t) !! j') eqn:Ej'; [|done].
    injection Hb as <-. injection Hb' as <-. injection Hk as <- <-.
    apply (ok_index _ Hok) in Ei, Ej, Ei', Ej'.
    assert (i' = i) as -> by congruence. assert (j' = j) as -> by congruence.
    assert (e' = e) as -> by (by eapply (ok_simple _ Hok)). congruence.
Qed.

Lemma length_omap_le {A B} (f : A -> option B) (l : list A) : (length (omap f l) <= length l)%nat.
Proof. induction l as [|a l IH]; cbn; [lia|]. destruct (f a); cbn; lia. Qed.

Lemma take_snapshot_bounds t :
  topo_ok t ->
  (length (ts_nodes (take_snapshot t)) <= MAX_LIVE_NODES)%nat /\
  Z.of_nat (length (ts_links (take_snapshot t))) <= MAX_LIVE_LINKS.
Proof.
  intros Hok. pose proof (ok_nodes _ Hok). pose proof (ok_links _ Hok) as Hl. split.
  - cbn [ts_nodes take_snapshot]. by rewrite length_map, hm_iter_length.
  - cbn [ts_links take_snapshot].
    pose proof (length_omap_le (link_snapshot (graph t)) (edge_indices (graph t))) as Hle.
    assert (Hp : length (edge_indices (graph t)) = size (edge_refs (graph t)))
      by (rewrite edge_indices_spec; apply length_map_to_list).
    unfold edge_count in Hl. lia.
Qed.

Lemma take_snapshot_finite t : topo_ok t -> snapshot_finite (take_snapshot t) = true.
Proof.
  intros Hok. apply forallb_forall. intros l Hl. apply list_elem_of_In in Hl.
  apply take_snapshot_links in Hl as (w & (e & i & j & _ & _ & Hw) & -> & _); [|done].
  by apply (ok_finite _ Hok) in Hw.
Qed.

Lemma restore_take_snapshot now t :
  topo_ok t ->
  exists t', restore now (take_snapshot t) = Some t' /\ topo_ok t' /\
    (forall n, is_Some (node_index t' !! n) <-> is_Some (node_index t !! n)) /\
    forall m n w, link t' m n w <->
      exists w0, link t m n w0 /\ w = mkLink (lq_snr w0) now (lq_packet_count w0).
Proof.
  intros Hok. destruct (take_snapshot_bounds t Hok) as [Hn Hl]. unfold restore.
  rewrite !take_ge by (unfold MAX_LIVE_LINKS in *; lia).
  destruct (add_nodes_spec (ts_nodes (take_snapshot t)) MeshTopology_new topo_new_ok
              (proj2 sg_new_empty)) as (Hok0 & He0 & Hm0).
  set (t0 := fold_left _ _ _) in *.
  assert (Hm : forall m, is_Some (node_index t0 !! m) <-> is_Some (node_index t !! m)).
  { intros m. rewrite Hm0 by (cbn [node_index MeshTopology_new]; rewrite map_size_empty; lia).
    cbn [node_index MeshTopology_new ts_nodes take_snapshot]. rewrite lookup_empty, list_elem_of_fmap.
    split; [intros [([k i] & -> & Hin%hm_iter_elem)|[? ?]]; [eauto|done]|].
    intros [i Hi]. left. exists (m, i). split; [done|by apply hm_iter_elem]. }
  assert (Hno : forall a b w, ~ link t0 a b w).
  { intros a b w (e & i & j & _ & _ & Hw). by rewrite He0, lookup_empty in Hw. }
  destruct (restore_links_new now (ts_links (take_snapshot t)) t0) as (t' & Ht & Hok' & Hidx & Hlink); auto.
  - apply Forall_forall. intros l Hin. pose proof (take_snapshot_finite t Hok) as Hf.
    unfold snapshot_finite in Hf. rewrite forallb_forall in Hf. by apply Hf, list_elem_of_In.
  - unfold edge_count. rewrite He0, map_size_empty. lia.
  - apply Forall_forall. intros l Hin. apply take_snapshot_links in Hin as (w & (e & i & j & Hi & Hj & _) & _);
      [|done]. rewrite !Hm. eauto.
  - by apply take_snapshot_pairs.
  - exists t'. split_and!; auto; [by rewrite Hidx|]. intros m n w. rewrite Hlink. split.
    + intros [Hw|(l & Hin & -> & -> & ->)]; [by apply Hno in Hw|].
      apply take_snapshot_links in Hin as (w0 & Hw0 & Hs & Hc); [|done].
      exists w0. split; [done|]. unfold restored. congruence.
    + intros (w0 & Hw0 & ->). right. exists (mkLinkSnapshot m n (lq_snr w0) (lq_packet_count w0)).
      split; [|done]. apply take_snapshot_links; [done|]. by exists w0.
Qed.

(** C30. Saving a topology and loading it back restores it: the same nodes are
    tracked and the same ordered pairs have links, with their SNR and packet
    count and the load time as the last observation. Needs only that the JSON
    library reads back a snapshot it wrote when the numbers in it are finite. *)
Theorem snapshot_roundtrip (t : MeshTopology) (now : Instant) :
  (forall s, snapshot_finite s = true -> exists data, to_vec s = Some data /\ from_slice data = Some s) ->
  topo_ok t ->
  exists data t', save_to_bytes t = Ok data /\ load_from_bytes now data = Some (Ok t') /\ topo_ok t' /\
    (forall n, is_Some (node_index t' !! n) <-> is_Some (node_index t !! n)) /\
    forall m n w, link t' m n w <->
      exists w0, link t m n w0 /\ w = mkLink (lq_snr w0) now (lq_packet_count w0).
Proof.
  intros Hjson Hok. destruct (Hjson _ (take_snapshot_finite t Hok)) as (data & Hto & Hfrom).
  destruct (restore_take_snapshot now t Hok) as (t' & Ht & Hrest).
  exists data, t'. unfold save_to_bytes, load_from_bytes. rewrite Hto, Hfrom, Ht. done.
Qed.

(** Any snapshot with finite SNRs, however many nodes and links it names and
    however often it repeats a pair, loads without a panic into a topology within
    the live caps, with one link per ordered pair. *)
Theorem load_snapshot_bounded (now : Instant) (data : bytes) (s : TopologySnapshot) :
  from_slice data = Some s -> snapshot_finite s = true ->
  exists t, load_from_bytes now data = Some (Ok t) /\ topo_ok t.
Proof.
  intros Hs Hfin. destruct (restore_ok now s Hfin) as (t & Ht & Hok).
  exists t. unfold load_from_bytes. rewrite Hs, Ht. done.
Qed.
End Snapshot.

(** * A concrete reader and writer: the assumption on the JSON library can hold *)

Module Numbers.

Definition write_snr (x : f32) : Z * Z * Z :=
  match x with
  | SpecFloat.S754_finite s m e => ((if s then -1 else 1), Z.pos m, e)
  | SpecFloat.S754_zero s => ((if s then -1 else 1), 0, 0)
  | _ => (0, 0, 0)
  end.

Definition read_snr (s m e : Z) : f32 :=
  match m with
  | Z.pos m => SpecFloat.S754_finite (s =? -1) m e
  | _ => SpecFloat.S754_zero (s =? -1)
  end.

Lemma read_write_snr x :
  f32_is_finite x = true -> let '(s, m, e) := write_snr x in read_snr s m e = x.
Proof. by destruct x as [[]|[]| |[]]. Qed.

Definition write_link (l : LinkSnapshot) : list Z :=
  let '(s, m, e) := write_snr (ls_snr l) in [ls_from l; ls_to l; s; m; e; ls_packet_count l].

Definition write (s : TopologySnapshot) : option bytes :=
  Some (Z.of_nat (length (ts_nodes s)) :: ts_nodes s ++ concat (map write_link (ts_links s))).

Fixpoint read_links (data : list Z) : list LinkSnapshot :=
  match data with
  | from :: to :: s :: m :: e :: c :: rest => mkLinkSnapshot from to (read_snr s m e) c :: read_links rest
  | _ => []
  end.

Definition read (data : bytes) : option TopologySnapshot :=
  match data with
  | n :: rest => Some (mkTopologySnapshot (take (Z.to_nat n) rest) (read_links (drop (Z.to_nat n) rest)))
  | [] => None
  end.

Lemma read_write_links ls :
  forallb (fun l => f32_is_finite (ls_snr l)) ls = true -> read_links (concat (map write_link ls)) = ls.
Proof.
  induction ls as [|[a b x c] ls IH]; [done|]. intros [Hx Hls]%andb_true_iff.
  pose proof (read_write_snr x Hx) as Hr. cbn [map concat]. unfold write_link at 1. cbn [ls_snr].
  destruct (write_snr x) as [[s m] e]. cbn. by rewrite Hr, IH.
Qed.

Lemma read_write s : snapshot_finite s = true -> exists data, write s = Some data /\ read data = Some s.
Proof.
  intros Hfin. eexists. split; [done|]. destruct s as [ns ls]. unfold read. cbn [ts_nodes ts_links].
  rewrite Nat2Z.id, take_app_length, drop_app_length. by rewrite read_write_links.
Qed.
End Numbers.

Lemma snapshot_roundtrip_witness :
  exists data t',
    @save_to_bytes MapGraph.map_graph canonical_order Numbers.write MapGraph.demo = Ok data /\
    @load_from_bytes MapGraph.map_graph canonical_order Numbers.read 500 data = Some (Ok t') /\
    is_Some (node_index t' !! 30).
Proof.
  destruct (@snapshot_roundtrip MapGraph.map_graph canonical_order Numbers.write Numbers.read
    MapGraph.demo 500 Numbers.read_write MapGraph.demo_ok) as (data & t' & Hs & Hl & _ & Hn & _).
  exists data, t'. split; [exact Hs|]. split; [exact Hl|]. apply Hn. vm_compute. eexists. reflexivity.
Defined.

Lemma load_snapshot_bounded_witness :
  exists t, @load_from_bytes MapGraph.map_graph canonical_order Numbers.read 500
              [2; 10; 20; 10; 20; 1; 3; 0; 7; 10; 20; 1; 4; 0; 1] = Some (Ok t) /\ topo_ok t.
Proof.
  eapply (@load_snapshot_bounded MapGraph.map_graph canonical_order Numbers.read 500); reflexivity.
Defined.
