(* ===== verification/Signal.v ===== *)
(** * Core signal types (crates/stoicheion/src: coordinates.rs, signal.rs,
      frequency.rs, power.rs, timestamp.rs, entity.rs)

    The values every collector produces: validated coordinates, clamped
    confidence, saturating frequencies, and the [GeoSignal] envelope with its
    domain payloads. Identifiers are fresh ULIDs and take the generated value as
    an argument; a timestamp is its millisecond count. *)

From Stdlib Require Import SpecFloat.
From S2P Require Import Prelude Float.

Local Open Scope Z_scope.

Abbreviation Ulid := Z (only parsing).

(** ** Coordinates *)

Inductive Datum : Type := Wgs84.

Record Coordinates : Type := mkCoordinates {
  co_latitude : f64; co_longitude : f64; co_altitude : option f64; co_datum : Datum }.

Inductive CoordinatesError : Type :=
| LatitudeOutOfRange (value : f64)
| LongitudeOutOfRange (value : f64)
| AltitudeNotFinite (value : f64).

(** [(lo..=hi).contains(&x)]. *)
Definition range_contains (lo hi x : f64) : bool := f64_leb lo x && f64_leb x hi.

Definition Coordinates_new (latitude longitude : f64) (altitude : option f64)
  : result Coordinates CoordinatesError :=
  if negb (range_contains (f64_of_Z (-90)) (f64_of_Z 90) latitude)
  then Err (LatitudeOutOfRange latitude)
  else if negb (range_contains (f64_of_Z (-180)) (f64_of_Z 180) longitude)
  then Err (LongitudeOutOfRange longitude)
  else match altitude with
  | Some alt =>
      if negb (f64_is_finite alt) then Err (AltitudeNotFinite alt)
      else Ok (mkCoordinates latitude longitude altitude Wgs84)
  | None => Ok (mkCoordinates latitude longitude altitude Wgs84)
  end.

(** The wire form and its validation on deserialization. *)
Record CoordinatesRepr : Type := mkRepr {
  cr_latitude : f64; cr_longitude : f64; cr_altitude : option f64; cr_datum : Datum }.

Definition Coordinates_try_from (repr : CoordinatesRepr) : result Coordinates CoordinatesError :=
  let? coords := Coordinates_new (cr_latitude repr) (cr_longitude repr) (cr_altitude repr) in
  Ok (mkCoordinates (co_latitude coords) (co_longitude coords) (co_altitude coords) (cr_datum repr)).

(** ** Frequency and power *)


Record Frequency : Type := Hz { as_hz : Z }.
Definition hz (value : Z) : Frequency := Hz value.
Definition khz (value : Z) : Frequency := Hz (saturating_mul 64 value 1000).
Definition mhz (value : Z) : Frequency := Hz (saturating_mul 64 value 1000000).
Definition ghz (value : Z) : Frequency := Hz (saturating_mul 64 value 1000000000).
Definition Frequency_checked_add (a b : Frequency) : option Frequency :=
  Hz <$> checked_add 64 (as_hz a) (as_hz b).
Definition Frequency_checked_sub (a b : Frequency) : option Frequency :=
  Hz <$> (if as_hz a <? as_hz b then None else Some (as_hz a - as_hz b)).
Definition Frequency_add (a b : Frequency) : Frequency := Hz (saturating_add 64 (as_hz a) (as_hz b)).
Definition Frequency_sub (a b : Frequency) : Frequency := Hz (saturating_sub (as_hz a) (as_hz b)).
Definition as_khz_f64 (f : Frequency) : f64 := f64_div (f64_of_Z (as_hz f)) (f64_of_Z 1000).
Definition as_mhz_f64 (f : Frequency) : f64 := f64_div (f64_of_Z (as_hz f)) (f64_of_Z 1000000).
Definition as_ghz_f64 (f : Frequency) : f64 := f64_div (f64_of_Z (as_hz f)) (f64_of_Z 1000000000).

Record Power : Type := Dbm { as_dbm : f64 }.
Definition Power_add (a b : Power) : Power := Dbm (f64_add (as_dbm a) (as_dbm b)).
Definition Power_sub (a b : Power) : Power := Dbm (f64_sub (as_dbm a) (as_dbm b)).

(** ** Signal payloads *)

Inductive AlertSeverity : Type := Low | Medium | High | Critical.
Inductive TrackerKind : Type := AirTag | SmartTag | Tile | UnknownTracker.
Inductive IpAddr : Type := V4 (octets : bytes) | V6 (octets : bytes).

Inductive RfDetail : Type :=
| Transmission (frequency : Frequency) (power : Power) (modulation : string) (bandwidth : Frequency)
| Jamming (affected_band : string) (estimated_power : Power)
| Beacon (frequency : Frequency) (interval_ms : Z).

Inductive MeshDetail : Type :=
| NodeSeen (node_id : Z) (snr : f32) (hop_count : Z)
| MeshMessage (from_node : Z) (to_node : option Z) (channel : Z)
| MeshPosition (node_id : Z) (coordinates : Coordinates).

Inductive NetworkDetail : Type :=
| Flow (src_ip dst_ip : IpAddr) (src_port dst_port protocol : Z)
| DnsQuery (domain : string)
| NetworkAlert (rule_id : Z) (severity : AlertSeverity).

Inductive ProximityDetail : Type :=
| Wifi (ssid : option string) (bssid : bytes) (rssi channel : Z)
| Ble (mac : bytes) (rssi : Z) (name : option string)
| Tracker (kind : TrackerKind) (mac : bytes).

Inductive GpsDetail : Type :=
| Fix (satellites : Z) (hdop : f32) (speed_mps : option f32)
| SpoofingSuspected (reason : string).

Inductive EnvironmentalDetail : Type :=
| Temperature (celsius : f32) | Humidity (percent : f32) | Barometric (hpa : f32).

Inductive OsintDetail : Type :=
| FeedItem (source title : string)
| ThreatIndicator (indicator_type value : string).

Inductive SignalKind : Type :=
| Rf (d : RfDetail)
| Mesh (d : MeshDetail)
| Network (d : NetworkDetail)
| Proximity (d : ProximityDetail)
| Gps (d : GpsDetail)
| Environmental (d : EnvironmentalDetail)
| Osint (d : OsintDetail).

(** ** Confidence *)

Record Confidence : Type := mkConfidence { as_f32 : f32 }.
Definition f32_one : f32 := f32_of_Z 1.

Definition Confidence_new (value : f32) : Confidence :=
  mkConfidence
    (if f64_is_nan value || f32_ltb value f32_zero then f32_zero
     else if f32_ltb f32_one value then f32_one else value).
Definition Confidence_default : Confidence := mkConfidence f32_one.

(** ** The envelope *)

(** [serde_json::Value], and [json!] of the values the code puts in it. *)
#[warnings="-register-all"]
Inductive Json : Type :=
| JNull | JBool (b : bool) | JInt (n : Z) | JFloat (x : f64) | JString (s : string)
| JArray (l : list Json).
Definition json_f32 (x : f32) : Json := if f32_is_finite x then JFloat (f64_of_f32 x) else JNull.

Record GeoSignal : Type := mkGeoSignal {
  gs_signal_id : Ulid;
  gs_kind : SignalKind;
  gs_timestamp : Z;
  gs_location : option Coordinates;
  gs_source_device : option Ulid;
  gs_confidence : Confidence;
  gs_metadata : gmap string Json
}.

Definition GeoSignal_new (id : Ulid) (kind : SignalKind) (timestamp : Z)
    (location : option Coordinates) : GeoSignal :=
  mkGeoSignal id kind timestamp location None Confidence_default ∅.

Definition with_device (device : Ulid) (s : GeoSignal) : GeoSignal :=
  mkGeoSignal (gs_signal_id s) (gs_kind s) (gs_timestamp s) (gs_location s) (Some device)
              (gs_confidence s) (gs_metadata s).
Definition with_confidence (confidence : Confidence) (s : GeoSignal) : GeoSignal :=
  mkGeoSignal (gs_signal_id s) (gs_kind s) (gs_timestamp s) (gs_location s) (gs_source_device s)
              confidence (gs_metadata s).
Definition with_metadata (key : string) (value : Json) (s : GeoSignal) : GeoSignal :=
  mkGeoSignal (gs_signal_id s) (gs_kind s) (gs_timestamp s) (gs_location s) (gs_source_device s)
              (gs_confidence s) (<[key := value]> (gs_metadata s)).

(** ** Tracked entities *)

Inductive EntityKind : Type :=
| EDevice | EPerson | EVehicle | ENetwork | ELocation | EOrganization.

Record Entity : Type := mkEntity {
  en_entity_id : Ulid; en_kind : EntityKind; en_name : option string;
  en_first_seen : Z; en_last_seen : Z; en_attributes : gmap string Json }.

Definition Entity_new (id : Ulid) (kind : EntityKind) (now : Z) : Entity :=
  mkEntity id kind None now now ∅.
Definition update_seen (e : Entity) (now : Z) : Entity :=
  mkEntity (en_entity_id e) (en_kind e) (en_name e) (en_first_seen e) now (en_attributes e).
Definition set_attribute (e : Entity) (key : string) (value : Json) : Entity :=
  mkEntity (en_entity_id e) (en_kind e) (en_name e) (en_first_seen e) (en_last_seen e)
           (<[key := value]> (en_attributes e)).

(** * Lemmas *)

(** What a [Coordinates] value satisfies: both angles are numbers in range and
    a present altitude is finite. *)
Definition coordinates_ok (c : Coordinates) : bool :=
  range_contains (f64_of_Z (-90)) (f64_of_Z 90) (co_latitude c)
  && range_contains (f64_of_Z (-180)) (f64_of_Z 180) (co_longitude c)
  && match co_altitude c with Some alt => f64_is_finite alt | None => true end.

Lemma Coordinates_new_spec lat lon alt :
  match Coordinates_new lat lon alt with
  | Ok c => c = mkCoordinates lat lon alt Wgs84 /\ coordinates_ok c = true
  | Err _ => coordinates_ok (mkCoordinates lat lon alt Wgs84) = false
  end.
Proof.
  unfold Coordinates_new, coordinates_ok. cbn [co_latitude co_longitude co_altitude].
  destruct (range_contains _ _ lat) eqn:E1; cbn [negb andb]; [|done].
  destruct (range_contains _ _ lon) eqn:E2; cbn [negb andb]; [|done].
  destruct alt as [alt|]; cbn [co_latitude co_longitude co_altitude]; [|by rewrite E1, E2].
  destruct (f64_is_finite alt) eqn:E3; cbn [negb co_latitude co_longitude co_altitude];
    rewrite ?E1, ?E2, ?E3; done.
Qed.

Lemma range_contains_nan lo hi : range_contains lo hi S754_nan = false.
Proof. unfold range_contains. by destruct lo as [?|[]| |[]]. Qed.

Lemma range_contains_finite lo hi x :
  f64_is_finite lo = true -> f64_is_finite hi = true -> range_contains lo hi x = true -> f64_is_finite x = true.
Proof.
  unfold range_contains, f64_leb, SFleb.
  destruct x as [s|[]| |s m e]; destruct lo as [?|[]| |[] ? ?], hi as [?|[]| |[] ? ?]; cbn; done.
Qed.

Definition confidence_ok (c : Confidence) : bool := range_contains f64_zero f32_one (as_f32 c).

Lemma Confidence_new_ok v : confidence_ok (Confidence_new v) = true.
Proof.
  unfold confidence_ok, Confidence_new. cbn [as_f32].
  destruct (f64_is_nan v || f32_ltb v f32_zero) eqn:E; [reflexivity|].
  destruct (f32_ltb f32_one v) eqn:E'; [reflexivity|]. apply orb_false_iff in E as [En Ez].
  assert (Hv : v <> S754_nan) by (by intros ->). unfold range_contains, f64_leb, f64_zero.
  rewrite !SFleb_ltb by done. unfold f32_ltb, f32_zero in *. by rewrite Ez, E'.
Qed.

Lemma coordinates_ok_finite c :
  coordinates_ok c = true -> f64_is_finite (co_latitude c) = true /\ f64_is_finite (co_longitude c) = true.
Proof.
  unfold coordinates_ok. intros [[Hlat Hlon]%andb_true_iff _]%andb_true_iff.
  split; (eapply range_contains_finite; [| |eassumption]; reflexivity).
Qed.

(** Every way to build coordinates validates them: deserialization accepts a
    wire value exactly when latitude and longitude are numbers in range and a
    present altitude is finite, keeps all its fields, and otherwise reports the
    first offending one; NaN and infinities never enter. *)
Theorem coordinates_validated (r : CoordinatesRepr) :
  let lat_ok := range_contains (f64_of_Z (-90)) (f64_of_Z 90) (cr_latitude r) in
  let lon_ok := range_contains (f64_of_Z (-180)) (f64_of_Z 180) (cr_longitude r) in
  match Coordinates_try_from r with
  | Ok c => c = mkCoordinates (cr_latitude r) (cr_longitude r) (cr_altitude r) (cr_datum r) /\
      coordinates_ok c = true /\
      f64_is_finite (co_latitude c) = true /\ f64_is_finite (co_longitude c) = true
  | Err (LatitudeOutOfRange v) => v = cr_latitude r /\ lat_ok = false
  | Err (LongitudeOutOfRange v) => v = cr_longitude r /\ lat_ok = true /\ lon_ok = false
  | Err (AltitudeNotFinite v) => cr_altitude r = Some v /\ lat_ok = true /\ lon_ok = true /\
      f64_is_finite v = false
  end.
Proof.
  destruct r as [lat lon alt d]. intros lat_ok lon_ok. unfold Coordinates_try_from.
  cbn [cr_latitude cr_longitude cr_altitude cr_datum] in lat_ok, lon_ok |- *.
  pose proof (Coordinates_new_spec lat lon alt) as Hs. unfold Coordinates_new in *.
  fold lat_ok lon_ok in Hs |- *. destruct lat_ok; cbn [negb result_bind] in *; [|done].
  destruct lon_ok; cbn [negb result_bind] in *; [|done].
  destruct alt as [alt|]; [destruct (f64_is_finite alt) eqn:Ea; cbn [negb result_bind] in *; [|done]|];
    cbn [result_bind] in *; destruct Hs as [_ Hs]; (split; [done|]); (split; [exact Hs|]);
    apply coordinates_ok_finite in Hs; exact Hs.
Qed.

(** ** Frequencies: the operators are total, in range and monotonic *)

Lemma Frequency_add_range a b :
  is_uint 64 (as_hz a) -> is_uint 64 (as_hz b) -> is_uint 64 (as_hz (Frequency_add a b)) /\
  as_hz a <= as_hz (Frequency_add a b).
Proof. unfold is_uint, Frequency_add, saturating_add, uint_max. cbn. lia. Qed.

(** The saturating operators agree with the checked ones whenever those succeed. *)
Lemma Frequency_checked_agree a b :
  (forall f, Frequency_checked_add a b = Some f -> f = Frequency_add a b) /\
  (forall f, Frequency_checked_sub a b = Some f -> f = Frequency_sub a b).
Proof.
  unfold Frequency_checked_add, Frequency_checked_sub, Frequency_add, Frequency_sub.
  unfold checked_add, saturating_add, saturating_sub, uint_max. destruct a as [a], b as [b]. cbn [as_hz].
  split; intros f; split_ifs; cbn; try done; intros [= <-]; f_equal; lia.
Qed.
