(* ===== verification/MeshSignal.v ===== *)
(** * Mesh events as signals (crates/kerykeion/src/signals.rs)

    What the packet processor reports about the mesh, and the [GeoSignal] each
    event becomes, located at the position of the node the event is about. *)

From S2P Require Import Prelude Float MeshTypes Proto NodeDb Signal.

Local Open Scope string_scope.
Local Open Scope Z_scope.

Inductive MeshEvent : Type :=
| NodeDiscovered (node : NodeNum) (short_name : option string) (snr : f32) (hop_count : Z)
| NodeOffline (node : NodeNum)
| PositionUpdate (node : NodeNum) (lat lon : f64) (alt : option f32)
| TopologyChange (from to : NodeNum) (snr : f32)
| LinkDegraded (from to : NodeNum) (old_snr new_snr : f32)
| PartitionDetected (components : list (list NodeNum))
| PartitionHealed (reunited_nodes : list NodeNum)
| GatewayStatusChange (node : NodeNum) (is_gateway : bool)
| TelemetryUpdate (node : NodeNum) (battery_pct : option Z) (voltage : option f32).

Definition subject (e : MeshEvent) : option NodeNum :=
  match e with
  | NodeDiscovered node _ _ _ | NodeOffline node | PositionUpdate node _ _ _
  | GatewayStatusChange node _ | TelemetryUpdate node _ _ => Some node
  | TopologyChange from _ _ | LinkDegraded from _ _ _ => Some from
  | PartitionDetected _ | PartitionHealed _ => None
  end.

Section Convert.
(** The fresh identifier and the clock read of the conversion. *)
Context (id : Ulid) (ts : Z).

Definition node_seen (node : NodeNum) (snr : f32) (hop_count : Z) (location : option Coordinates)
    (event : string) : GeoSignal :=
  with_metadata "event" (JString event)
    (GeoSignal_new id (Mesh (NodeSeen node snr hop_count)) ts location).

Definition convert_node_discovered (node : NodeNum) (snr : f32) (hop_count : Z)
    (location : option Coordinates) : GeoSignal :=
  node_seen node snr hop_count location "discovered".

Definition convert_node_offline (node : NodeNum) (location : option Coordinates) : GeoSignal :=
  with_metadata "event" (JString "offline")
    (with_confidence (Confidence_new (f32_div (f32_of_Z 1) (f32_of_Z 2)))
      (GeoSignal_new id (Mesh (NodeSeen node f32_zero 0)) ts location)).

Definition convert_position_update (node : NodeNum) (lat lon : f64) (alt : option f32)
    (location : option Coordinates) : GeoSignal :=
  match Coordinates_new lat lon (f64_of_f32 <$> alt) with
  | Ok coords => GeoSignal_new id (Mesh (MeshPosition node coords)) ts (Some coords)
  | Err _ => node_seen node f32_zero 0 location "invalid_position"
  end.

Definition convert_topology_change (from to : NodeNum) (snr : f32) (location : option Coordinates)
  : GeoSignal :=
  with_metadata "to_node" (JInt to) (node_seen from snr 0 location "topology_change").

Definition convert_link_degraded (from to : NodeNum) (old_snr new_snr : f32)
    (location : option Coordinates) : GeoSignal :=
  with_metadata "old_snr" (json_f32 old_snr)
    (with_metadata "to_node" (JInt to) (node_seen from new_snr 0 location "link_degraded")).

Definition convert_partition_detected (components : list (list NodeNum)) : GeoSignal :=
  with_metadata "components" (JArray (map (fun c => JArray (map JInt c)) components))
    (with_metadata "event" (JString "partition_detected")
      (with_confidence (Confidence_new (f32_tenths 8))
        (GeoSignal_new id (Mesh (NodeSeen 0 f32_zero 0)) ts None))).

Definition convert_partition_healed (reunited_nodes : list NodeNum) : GeoSignal :=
  with_metadata "reunited_nodes" (JArray (map JInt reunited_nodes))
    (node_seen 0 f32_zero 0 None "partition_healed").

Definition convert_gateway_status (node : NodeNum) (is_gateway : bool) (location : option Coordinates)
  : GeoSignal :=
  with_metadata "is_gateway" (JBool is_gateway) (node_seen node f32_zero 0 location "gateway_status").

Definition convert_telemetry (node : NodeNum) (battery_pct : option Z) (voltage : option f32)
    (location : option Coordinates) : GeoSignal :=
  let signal := node_seen node f32_zero 0 location "telemetry" in
  let signal := match battery_pct with
                | Some pct => with_metadata "battery_pct" (JInt pct) signal
                | None => signal
                end in
  match voltage with
  | Some v => with_metadata "voltage" (json_f32 v) signal
  | None => signal
  end.

Definition mesh_event_to_signal (event : MeshEvent) (position : option NodePosition) : GeoSignal :=
  let location := match position with
    | Some p => match Coordinates_new (np_latitude p) (np_longitude p) (f64_of_Z <$> np_altitude p) with
                | Ok c => Some c
                | Err _ => None
                end
    | None => None
    end in
  match event with
  | NodeDiscovered node _ snr hop_count => convert_node_discovered node snr hop_count location
  | NodeOffline node => convert_node_offline node location
  | PositionUpdate node lat lon alt => convert_position_update node lat lon alt location
  | TopologyChange from to snr => convert_topology_change from to snr location
  | LinkDegraded from to old_snr new_snr => convert_link_degraded from to old_snr new_snr location
  | PartitionDetected components => convert_partition_detected components
  | PartitionHealed reunited_nodes => convert_partition_healed reunited_nodes
  | GatewayStatusChange node is_gateway => convert_gateway_status node is_gateway location
  | TelemetryUpdate node battery_pct voltage => convert_telemetry node battery_pct voltage location
  end.

(** * Lemmas *)

(** The node a mesh payload names. *)
Definition detail_node (d : MeshDetail) : Z :=
  match d with
  | NodeSeen node _ _ | MeshPosition node _ => node
  | MeshMessage from _ _ => from
  end.

Lemma mesh_event_to_signal_spec event position :
  let s := mesh_event_to_signal event position in
  (exists d, gs_kind s = Mesh d /\ detail_node d = default 0 (subject event)) /\
  (forall c, gs_location s = Some c -> coordinates_ok c = true) /\
  confidence_ok (gs_confidence s) = true /\ gs_timestamp s = ts.
Proof.
  cbv zeta. unfold mesh_event_to_signal.
  set (location := match position with Some _ => _ | None => None end).
  assert (Hloc : forall c, location = Some c -> coordinates_ok c = true).
  { intros c. unfold location. destruct position as [p|]; [|done].
    pose proof (Coordinates_new_spec (np_latitude p) (np_longitude p) (f64_of_Z <$> np_altitude p)) as Hs.
    destruct (Coordinates_new _ _ _) as [c'|]; [|done]. intros [= <-]. by destruct Hs. }
  destruct event as [n nm snr hc|n|n lat lon alt|a b snr|a b o n|cs|ns|n g|n pct v]; cbn [subject default].
  3:{ unfold convert_position_update. pose proof (Coordinates_new_spec lat lon (f64_of_f32 <$> alt)) as Hs.
      destruct (Coordinates_new _ _ _) as [c|].
      - split_and!; [by eexists| |reflexivity|done]. cbn. intros ? [= <-]. by destruct Hs.
      - split_and!; [by eexists|done|reflexivity|done]. }
  all: split_and!; try (eexists; split; [reflexivity|reflexivity]); try done; try reflexivity.
  all: unfold convert_telemetry; destruct pct, v; split_and?; try (eexists; split; reflexivity); done.
Qed.
End Convert.
