(* ===== verification/Baseline.v ===== *)
(** * Statistical baselines (crates/stoicheion/src/baseline.rs)

    Welford's running mean and variance on binary64, its merge, the anomaly
    score of a value, and the 168 hour-of-week buckets. *)

From Stdlib Require Import SpecFloat.
From S2P Require Import Prelude Float.

Local Open Scope Z_scope.

(** [u64 as f64]: rounded to nearest. *)
Definition f64_of_u64 (n : Z) : f64 := f64_of_Z n.

Record Baseline : Type := mkBaseline {
  bl_count : Z; bl_mean : f64; bl_m2 : f64; bl_min : f64; bl_max : f64 }.

Definition Baseline_new : Baseline := mkBaseline 0 f64_zero f64_zero f64_infinity f64_neg_infinity.

Definition observe (b : Baseline) (value : f64) : Baseline :=
  if negb (f64_is_finite value) then b
  else
    let count := bl_count b + 1 in
    let delta := f64_sub value (bl_mean b) in
    let mean := f64_add (bl_mean b) (f64_div delta (f64_of_u64 count)) in
    let delta2 := f64_sub value mean in
    let m2 := f64_mul_add delta delta2 (bl_m2 b) in
    let min := if f64_ltb value (bl_min b) then value else bl_min b in
    let max := if f64_ltb (bl_max b) value then value else bl_max b in
    mkBaseline count mean m2 min max.

Definition mean (b : Baseline) : option f64 := if bl_count b =? 0 then None else Some (bl_mean b).

Definition variance (b : Baseline) : option f64 :=
  if bl_count b <? 2 then None else Some (f64_div (bl_m2 b) (f64_of_u64 (bl_count b - 1))).

Definition population_variance (b : Baseline) : option f64 :=
  if bl_count b =? 0 then None else Some (f64_div (bl_m2 b) (f64_of_u64 (bl_count b))).

Definition stddev (b : Baseline) : option f64 := f64_sqrt <$> variance b.
Definition baseline_min (b : Baseline) : option f64 := if bl_count b =? 0 then None else Some (bl_min b).
Definition baseline_max (b : Baseline) : option f64 := if bl_count b =? 0 then None else Some (bl_max b).

Definition z_score (b : Baseline) (value : f64) : option f64 :=
  mean ← mean b;
  stddev ← stddev b;
  if f64_ltb f64_zero stddev then Some (f64_div (f64_sub value mean) stddev) else None.

Definition merge (b other : Baseline) : Baseline :=
  if bl_count other =? 0 then b
  else if bl_count b =? 0 then other
  else
    let combined_count := bl_count b + bl_count other in
    let delta := f64_sub (bl_mean other) (bl_mean b) in
    let self_weight := f64_of_u64 (bl_count b) in
    let other_weight := f64_of_u64 (bl_count other) in
    let combined_weight := f64_of_u64 combined_count in
    mkBaseline combined_count
      (f64_mul_add delta (f64_div other_weight combined_weight) (bl_mean b))
      (f64_add (bl_m2 b)
         (f64_mul_add (f64_mul delta delta)
            (f64_div (f64_mul self_weight other_weight) combined_weight) (bl_m2 other)))
      (if f64_ltb (bl_min other) (bl_min b) then bl_min other else bl_min b)
      (if f64_ltb (bl_max b) (bl_max other) then bl_max other else bl_max b).

(** ** Scoring *)

Inductive AnomalyScore : Type :=
| Normal | Elevated (z : f64) | Anomalous (z : f64) | InsufficientData.

Definition is_anomalous (s : AnomalyScore) : bool :=
  match s with Anomalous _ => true | _ => false end.
Definition score_z (s : AnomalyScore) : option f64 :=
  match s with Elevated z | Anomalous z => Some z | _ => None end.

Record ScoringConfig : Type := mkScoring {
  elevated_threshold : f64; anomalous_threshold : f64; min_observations : Z }.
Definition ScoringConfig_default : ScoringConfig := mkScoring (f64_of_Z 2) (f64_of_Z 3) 10.

Definition score (b : Baseline) (value : f64) : AnomalyScore :=
  let config := ScoringConfig_default in
  if bl_count b <? min_observations config then InsufficientData
  else match z_score b value with
  | None =>
      let mean := default value (mean b) in
      if f64_eqb value mean then Normal
      else Anomalous (f64_copysign f64_infinity (f64_sub value mean))
  | Some z =>
      let abs_z := f64_abs z in
      if f64_leb (anomalous_threshold config) abs_z then Anomalous z
      else if f64_leb (elevated_threshold config) abs_z then Elevated z
      else Normal
  end.

(** ** Hour-of-week buckets *)

Record TemporalBucketedBaseline : Type := mkBuckets { buckets : list (list Baseline) }.
Definition TemporalBucketedBaseline_new : TemporalBucketedBaseline :=
  mkBuckets (replicate 7 (replicate 24 Baseline_new)).

Definition bucket (t : TemporalBucketedBaseline) (day_of_week hour : Z) : option Baseline :=
  day ← buckets t !! Z.to_nat day_of_week; day !! Z.to_nat hour.

Definition bucketed_observe (t : TemporalBucketedBaseline) (day_of_week hour : Z) (value : f64)
  : TemporalBucketedBaseline :=
  match buckets t !! Z.to_nat day_of_week with
  | Some day =>
      match day !! Z.to_nat hour with
      | Some b => mkBuckets (<[Z.to_nat day_of_week := <[Z.to_nat hour := observe b value]> day]> (buckets t))
      | None => t
      end
  | None => t
  end.

Definition bucketed_score (t : TemporalBucketedBaseline) (day_of_week hour : Z) (value : f64)
  : AnomalyScore :=
  match bucket t day_of_week hour with
  | Some b => score b value
  | None => InsufficientData
  end.

Definition global_baseline (t : TemporalBucketedBaseline) : Baseline :=
  fold_left (fun merged day => fold_left merge day merged) (buckets t) Baseline_new.

(** * Lemmas *)

(** ** Observations *)

Definition observe_all (values : list f64) : Baseline := fold_left observe values Baseline_new.

(** [m] is the least of the finite values, or the empty value without any. *)
Record extremes (values : list f64) (b : Baseline) : Prop := {
  ex_count : bl_count b = Z.of_nat (length (List.filter f64_is_finite values));
  ex_min : forall v, v ∈ values -> f64_is_finite v = true -> f64_ltb v (bl_min b) = false;
  ex_max : forall v, v ∈ values -> f64_is_finite v = true -> f64_ltb (bl_max b) v = false;
  ex_min_in : List.filter f64_is_finite values <> [] -> bl_min b ∈ values /\ f64_is_finite (bl_min b) = true;
  ex_max_in : List.filter f64_is_finite values <> [] -> bl_max b ∈ values /\ f64_is_finite (bl_max b) = true;
  ex_none : List.filter f64_is_finite values = [] -> b = Baseline_new
}.

Lemma finite_number x : f64_is_finite x = true -> x <> S754_nan.
Proof. by destruct x. Qed.

Lemma filter_snoc {A} (P : A -> bool) l x :
  List.filter P (l ++ [x]) = List.filter P l ++ if P x then [x] else [].
Proof. rewrite List.filter_app. cbn. by destruct (P x). Qed.

Lemma observe_all_snoc values v : observe_all (values ++ [v]) = observe (observe_all values) v.
Proof. unfold observe_all. by rewrite fold_left_app. Qed.

Lemma observe_rejected b v : f64_is_finite v = false -> observe b v = b.
Proof. intros Hv. unfold observe. by rewrite Hv. Qed.

(** A running extreme under [below]: the new value replaces it when it is below. *)
Lemma extreme_step (below : f64 -> f64 -> bool) values v m start :
  (forall x, below x x = false) ->
  (forall x y, below x y = true -> below y x = false) ->
  (forall x y z, f64_is_finite y = true -> below x y = false -> below y z = false -> below x z = false) ->
  (forall x, f64_is_finite x = true -> below x start = true) ->
  f64_is_finite v = true ->
  (forall x, x ∈ values -> f64_is_finite x = true -> below x m = false) ->
  (List.filter f64_is_finite values <> [] -> m ∈ values /\ f64_is_finite m = true) ->
  (List.filter f64_is_finite values = [] -> m = start) ->
  let m' := if below v m then v else m in
  (forall x, x ∈ values ++ [v] -> f64_is_finite x = true -> below x m' = false) /\
  m' ∈ values ++ [v] /\ f64_is_finite m' = true.
Proof.
  intros Hirr Hasym Htrans Hstart Hv Hall Hin Hnone m'.
  assert (Hm : below v m = false -> m ∈ values /\ f64_is_finite m = true).
  { intros E. apply Hin. intros He. rewrite (Hnone He), Hstart in E; done. }
  unfold m'. destruct (below v m) eqn:E; split_and!.
  - intros x [Hx| ->%list_elem_of_singleton]%elem_of_app Hfx; [|done].
    destruct (below x v) eqn:Ex; [|done]. pose proof (Hall x Hx Hfx) as Hxm.
    destruct (decide (List.filter f64_is_finite values = [])) as [Hn|Hn].
    + exfalso. apply (not_elem_of_nil x). rewrite <- Hn. apply list_elem_of_In, filter_In.
      by rewrite <- list_elem_of_In.
    + destruct (Hin Hn) as [_ Hfm]. pose proof (Hasym _ _ E) as Emv.
      rewrite (Htrans x m v Hfm Hxm Emv) in Ex. done.
  - apply elem_of_app. right. by apply list_elem_of_singleton.
  - done.
  - intros x [Hx| ->%list_elem_of_singleton]%elem_of_app Hfx; auto.
  - apply elem_of_app. left. by apply Hm.
  - by apply Hm.
Qed.

Lemma SFltb_irrefl x : SFltb x x = false.
Proof. destruct (SFltb x x) eqn:E; [|done]. pose proof (SFltb_asym _ _ E). congruence. Qed.

Lemma extremes_observe values b v : extremes values b -> extremes (values ++ [v]) (observe b v).
Proof.
  intros [Hc Hmin Hmax Hmini Hmaxi Hnone]. destruct (f64_is_finite v) eqn:Hv.
  - assert (Hmin0 : List.filter f64_is_finite values = [] -> bl_min b = f64_infinity)
      by (intros He; by rewrite (Hnone He)).
    assert (Hmax0 : List.filter f64_is_finite values = [] -> bl_max b = f64_neg_infinity)
      by (intros He; by rewrite (Hnone He)).
    destruct (extreme_step f64_ltb values v (bl_min b) f64_infinity) as (Hl & Hin & Hfin); auto.
    { apply SFltb_irrefl. } { apply SFltb_asym. }
    { intros x y z Hy Hxy Hyz. eapply SFltb_not_trans; [by apply finite_number|done|done]. }
    { intros x. by destruct x as [| | |[]]. }
    destruct (extreme_step (fun x y => f64_ltb y x) values v (bl_max b) f64_neg_infinity)
      as (Hl' & Hin' & Hfin'); auto.
    { apply SFltb_irrefl. } { intros x y. apply SFltb_asym. }
    { intros x y z Hy Hxy Hyz. eapply SFltb_not_trans; [by apply finite_number|done|done]. }
    { intros x. by destruct x as [| | |[]]. }
    unfold observe. rewrite Hv. cbn [negb]. constructor; cbn [bl_count bl_min bl_max]; auto.
    + rewrite filter_snoc, Hv, length_app, Hc. cbn. lia.
    + rewrite filter_snoc, Hv. by destruct (List.filter _ _).
  - rewrite observe_rejected by done.
    assert (Hf : List.filter f64_is_finite (values ++ [v]) = List.filter f64_is_finite values)
      by (by rewrite filter_snoc, Hv, app_nil_r).
    assert (Hsub : forall x, x ∈ values -> x ∈ values ++ [v]) by (intros x Hx; apply elem_of_app; auto).
    constructor; rewrite ?Hf; auto.
    + intros x [Hx| ->%list_elem_of_singleton]%elem_of_app Hfx; [auto|congruence].
    + intros x [Hx| ->%list_elem_of_singleton]%elem_of_app Hfx; [auto|congruence].
    + intros Hne. destruct (Hmini Hne); auto.
    + intros Hne. destruct (Hmaxi Hne); auto.
Qed.

(** Whatever is observed, the count is the number of finite observations, the
    minimum and maximum are the least and greatest of them, and NaN or infinite
    values leave no trace. *)
Theorem baseline_tracks_extremes (values : list f64) : extremes values (observe_all values).
Proof.
  induction values as [|v values IH] using rev_ind.
  - constructor; try done; by intros ? ?%not_elem_of_nil.
  - rewrite observe_all_snoc. by apply extremes_observe.
Qed.

(** ** Poisoning

    The guard of [observe] keeps non-finite values out, but the difference of two
    finite observations can overflow. *)

Lemma mul_add_nan prec emax x y : mul_add prec emax x y S754_nan = S754_nan.
Proof.
  unfold mul_add. destruct (dyadic x) as [[]|], (dyadic y) as [[]|]; cbn; try done;
    by destruct (SFmul _ _ _ _).
Qed.

Definition poisoned (b : Baseline) : Prop := bl_mean b = S754_nan /\ bl_m2 b = S754_nan.

Lemma observe_poisoned b v : poisoned b -> poisoned (observe b v).
Proof.
  intros [Hm H2]. unfold observe. destruct (f64_is_finite v); [|done].
  split; cbn [negb bl_mean bl_m2]; rewrite ?Hm, ?H2.
  - by destruct (f64_sub v S754_nan), (f64_of_u64 (bl_count b + 1)).
  - apply mul_add_nan.
Qed.

Lemma observe_all_poisoned vs : forall b, poisoned b -> poisoned (fold_left observe vs b).
Proof. induction vs as [|v vs IH]; intros b Hb; [done|]. by apply IH, observe_poisoned. Qed.

Lemma score_poisoned b v : poisoned b -> 10 <= bl_count b -> is_anomalous (score b v) = true.
Proof.
  intros [Hm H2] Hc. unfold score. cbn [min_observations ScoringConfig_default].
  destruct (bl_count b <? 10) eqn:E; [lia|].
  assert (Hmean : mean b = Some S754_nan) by (unfold mean; destruct (_ =? 0) eqn:?; [lia|by rewrite Hm]).
  assert (Hz : z_score b v = None).
  { unfold z_score, stddev, variance. rewrite Hmean. cbn. destruct (bl_count b <? 2); [done|]. cbn.
    rewrite H2. by destruct (f64_of_u64 _). }
  rewrite Hz, Hmean. cbn [from_option].
  assert (Hv : f64_eqb v S754_nan = false) by (by destruct v as [?|[]| |[]]).
  unfold id. by rewrite Hv.
Qed.

Definition f64_max : f64 := S754_finite false 9007199254740991 971.
Definition f64_lowest : f64 := S754_finite true 9007199254740991 971.

Lemma observe_after_overflow v :
  f64_is_finite v = true -> poisoned (observe (observe (observe Baseline_new f64_max) f64_lowest) v).
Proof.
  intros Hv.
  assert (Hb2 : observe (observe Baseline_new f64_max) f64_lowest =
    mkBaseline 2 f64_neg_infinity f64_neg_infinity f64_lowest f64_max) by (vm_compute; reflexivity).
  rewrite Hb2. clear Hb2. unfold observe, poisoned. rewrite Hv.
  assert (Hd : f64_sub v f64_neg_infinity = f64_infinity) by (destruct v; [reflexivity|discriminate..|reflexivity]).
  assert (Hn : f64_sub v S754_nan = S754_nan) by (destruct v; reflexivity).
  cbn [negb bl_mean bl_m2 bl_count]. rewrite Hd.
  assert (Hmean : f64_add f64_neg_infinity (f64_div f64_infinity (f64_of_u64 (2 + 1))) = S754_nan)
    by (vm_compute; reflexivity).
  rewrite Hmean, Hn. split; [reflexivity|vm_compute; reflexivity].
Qed.

(** Finite observations can disable a baseline for good: after the largest
    and the smallest finite value, every later run of observations leaves mean
    and variance undefined, and once ten were recorded every value whatsoever
    scores as anomalous. *)
Theorem finite_observations_poison (v : f64) (rest : list f64) (probe : f64) :
  f64_is_finite v = true ->
  let b := observe_all (f64_max :: f64_lowest :: v :: rest) in
  poisoned b /\ (10 <= bl_count b -> is_anomalous (score b probe) = true).
Proof.
  intros Hv b. assert (Hb : poisoned b).
  { unfold b, observe_all. cbn [fold_left]. apply observe_all_poisoned.
    by apply observe_after_overflow. }
  split; [done|]. by apply score_poisoned.
Qed.

Lemma finite_observations_poison_witness :
  is_anomalous (score (observe_all (f64_max :: f64_lowest :: f64_of_Z 1 :: replicate 7 (f64_of_Z 1)))
                      (f64_of_Z 1)) = true.
Proof.
  apply (finite_observations_poison (f64_of_Z 1) (replicate 7 (f64_of_Z 1)) (f64_of_Z 1));
    vm_compute; congruence.
Defined.

(** A zero variance does not mean that all observations were equal: squares of
    tiny differences underflow, and a value that was observed scores as anomalous. *)
Example zero_variance_from_distinct_values :
  let tiny := f64_div (f64_of_Z 1) (f64_of_Z (10 ^ 200)) in
  let b := observe_all (f64_zero :: tiny :: replicate 8 f64_zero) in
  tiny <> f64_zero /\ variance b = Some f64_zero /\ is_anomalous (score b f64_zero) = true.
Proof. vm_compute. split; [discriminate|split; reflexivity]. Qed.

(** Merging rounds, so its order shows in the last place. *)
Example merge_order_changes_the_mean :
  let a := observe_all [f64_of_Z 1] in
  let b := observe_all [f64_of_Z 7; f64_of_Z 9] in
  bl_mean (merge a b) <> bl_mean (merge b a).
Proof. vm_compute. discriminate. Qed.

(** ** Buckets *)

Definition buckets_ok (t : TemporalBucketedBaseline) : Prop :=
  length (buckets t) = 7%nat /\ Forall (fun day => length day = 24%nat) (buckets t).

Lemma buckets_new_ok : buckets_ok TemporalBucketedBaseline_new.
Proof. split; [done|]. by repeat constructor. Qed.

Lemma bucket_in_range t d h :
  buckets_ok t -> 0 <= d < 7 -> 0 <= h < 24 -> is_Some (bucket t d h).
Proof.
  intros [Hlen Hday] Hd Hh. unfold bucket.
  destruct (buckets t !! Z.to_nat d) as [day|] eqn:E.
  - cbn. apply lookup_lt_is_Some. rewrite Forall_lookup in Hday. rewrite (Hday _ _ E). lia.
  - apply lookup_ge_None in E. lia.
Qed.

Lemma bucketed_observe_ok t d h v : buckets_ok t -> buckets_ok (bucketed_observe t d h v).
Proof.
  intros [Hlen Hday]. unfold bucketed_observe.
  destruct (buckets t !! Z.to_nat d) as [day|] eqn:E; [|done].
  destruct (day !! Z.to_nat h) as [b|]; [|done]. split; cbn [buckets].
  - by rewrite length_insert.
  - apply Forall_insert; [done|]. rewrite length_insert. rewrite Forall_lookup in Hday. by eapply Hday.
Qed.

(** An observation reaches its own bucket and no other. *)
Lemma bucketed_observe_spec t d h v d' h' :
  0 <= d -> 0 <= h -> 0 <= d' -> 0 <= h' ->
  bucket (bucketed_observe t d h v) d' h' =
  if (d =? d') && (h =? h') then (fun b => observe b v) <$> bucket t d' h' else bucket t d' h'.
Proof.
  intros Hd Hh Hd' Hh'. unfold bucketed_observe, bucket.
  destruct (buckets t !! Z.to_nat d) as [day|] eqn:E.
  2:{ destruct (Z.eqb_spec d d') as [<-|]; [|done]. rewrite E. by destruct (h =? h'). }
  destruct (day !! Z.to_nat h) as [b|] eqn:Eb.
  2:{ destruct (Z.eqb_spec d d') as [<-|]; [|done]. rewrite E. cbn.
      destruct (Z.eqb_spec h h') as [<-|]; [|done]. by rewrite Eb. }
  cbn [buckets]. destruct (Z.eqb_spec d d') as [<-|Hne]; cbn [andb].
  - rewrite list_lookup_insert_eq by (by eapply lookup_lt_Some). rewrite E. cbn.
    destruct (Z.eqb_spec h h') as [<-|Hne].
    + rewrite Eb. by rewrite list_lookup_insert_eq by (by eapply lookup_lt_Some).
    + rewrite list_lookup_insert_ne by lia. done.
  - rewrite list_lookup_insert_ne by lia. done.
Qed.
