(* ===== verification/Convergence.v ===== *)
(** * Spatial convergence (crates/semaino/src/convergence.rs)

    Signals are placed in a quantized grid; each cell keeps the last hit of every
    signal domain, and a cell with enough distinct domains inside the time window
    is a convergence. *)

From Stdlib Require Import SpecFloat.
From stdpp Require Import sorting.
From S2P Require Import Prelude Float Signal.

Local Open Scope Z_scope.

Abbreviation GridCell := (Z * Z)%type (only parsing).

Definition quantize (coords : Coordinates) (resolution : Z) : GridCell :=
  let res := f64_of_Z resolution in
  (f64_as_i32 (f64_floor (f64_mul (co_latitude coords) res)),
   f64_as_i32 (f64_floor (f64_mul (co_longitude coords) res))).

Record DomainHit : Type := mkHit { dh_kind : SignalKind; dh_timestamp : Z }.
Record Convergence : Type := mkConvergence { cv_center : Coordinates; cv_domain_count : nat }.

Definition kind_discriminant (kind : SignalKind) : Z :=
  match kind with
  | Rf _ => 0 | Mesh _ => 1 | Network _ => 2 | Proximity _ => 3
  | Gps _ => 4 | Environmental _ => 5 | Osint _ => 6
  end.

Definition DOMAIN_SLOTS : nat := 8.
Definition slot_index (discriminant : Z) : nat :=
  if discriminant =? 255 then (DOMAIN_SLOTS - 1)%nat else Z.to_nat discriminant.

(** ** The slots of a cell *)

Abbreviation DomainSlots := (list (option DomainHit)) (only parsing).
Definition DomainSlots_default : DomainSlots := replicate DOMAIN_SLOTS None.

Definition record (slots : DomainSlots) (hit : DomainHit) : DomainSlots :=
  let idx := slot_index (kind_discriminant (dh_kind hit)) in
  match slots !! idx with
  | Some _ => <[idx := Some hit]> slots
  | None => slots
  end.

Definition within_window (slots : DomainSlots) (cutoff_ms : Z) : list DomainHit :=
  List.filter (fun h => cutoff_ms <=? dh_timestamp h) (omap id slots).

Definition distinct_domains (slots : DomainSlots) (cutoff_ms : Z) : nat :=
  length (within_window slots cutoff_ms).

Definition slots_evict (slots : DomainSlots) (cutoff_ms : Z) : bool * DomainSlots :=
  let slots := map (fun slot => match slot with
                                | Some h => if dh_timestamp h <? cutoff_ms then None else Some h
                                | None => None
                                end) slots in
  (existsb (fun slot => match slot with Some _ => true | None => false end) slots, slots).

(** ** The grid *)

Record ConvergenceGrid : Type := mkGrid { cells : gmap GridCell DomainSlots; resolution : Z }.
Definition ConvergenceGrid_new (resolution : Z) : ConvergenceGrid := mkGrid ∅ resolution.

Definition ingest (g : ConvergenceGrid) (signal : GeoSignal) : ConvergenceGrid :=
  match gs_location signal with
  | None => g
  | Some coords =>
      let cell := quantize coords (resolution g) in
      let slots := default DomainSlots_default (cells g !! cell) in
      mkGrid (<[cell := record slots (mkHit (gs_kind signal) (gs_timestamp signal))]> (cells g))
             (resolution g)
  end.

Definition cell_center (cell : GridCell) (resolution : Z) : Coordinates :=
  let res := f64_of_Z resolution in
  let half := f64_div (f64_div (f64_of_Z 1) (f64_of_Z 2)) res in
  let lat := f64_add (f64_div (f64_of_Z cell.1) res) half in
  let lon := f64_add (f64_div (f64_of_Z cell.2) res) half in
  let lat := f64_clamp lat (f64_of_Z (-90)) (f64_of_Z 90) in
  let lon := f64_clamp lon (f64_of_Z (-180)) (f64_of_Z 180) in
  match Coordinates_new lat lon None with
  | Ok c => c
  | Err _ => mkCoordinates f64_zero f64_zero None Wgs84
  end.

Definition converged_cell (g : ConvergenceGrid) (cell : GridCell) (min_domains : nat) (cutoff_ms : Z)
  : option Convergence :=
  slots ← cells g !! cell;
  let distinct := distinct_domains slots cutoff_ms in
  if (min_domains <=? distinct)%nat
  then Some (mkConvergence (cell_center cell (resolution g)) distinct) else None.

(** [now - window.as_millis() as i64]. *)
Definition window_cutoff (window : Duration) (now : Z) : Z :=
  as_i64 (now - as_i64 (window / NANOS_PER_MILLI)).

Definition detect `{!KeyOrder GridCell} (g : ConvergenceGrid) (min_domains : nat) (window : Duration)
    (now : Z) : list Convergence :=
  omap (fun kv => converged_cell g kv.1 min_domains (window_cutoff window now)) (key_iter (cells g)).

Definition detect_at (g : ConvergenceGrid) (coords : Coordinates) (min_domains : nat)
    (window : Duration) (now : Z) : option Convergence :=
  converged_cell g (quantize coords (resolution g)) min_domains (window_cutoff window now).

Definition evict (g : ConvergenceGrid) (older_than : Z) : ConvergenceGrid :=
  mkGrid (omap (fun slots => let '(keep, slots) := slots_evict slots older_than in
                             if keep : bool then Some slots else None) (cells g))
         (resolution g).

(** ** Sequences of operations *)

Inductive GridOp : Type := GIngest (signal : GeoSignal) | GEvict (older_than : Z).

Definition run_grid_op (g : ConvergenceGrid) (op : GridOp) : ConvergenceGrid :=
  match op with GIngest s => ingest g s | GEvict c => evict g c end.
Definition run_grid (g : ConvergenceGrid) (ops : list GridOp) : ConvergenceGrid :=
  fold_left run_grid_op ops g.

(** * The reference: every hit is kept *)

Definition hits (res : Z) (ops : list GridOp) : list (GridCell * Z * Z) :=
  omap (fun op => match op with
    | GIngest s => (fun coords => (quantize coords res, kind_discriminant (gs_kind s), gs_timestamp s))
                     <$> gs_location s
    | GEvict _ => None end) ops.

Definition matches (cell : GridCell) (d : Z) (h : GridCell * Z * Z) : bool :=
  bool_decide (h.1.1 = cell) && (h.1.2 =? d).

(** A hit of domain [d] in the cell lies in the window; the last such hit does. *)
Definition domain_in_window (l : list (GridCell * Z * Z)) (cell : GridCell) (cutoff d : Z) : bool :=
  existsb (fun h => matches cell d h && (cutoff <=? h.2)) l.
Definition last_hit_in_window (l : list (GridCell * Z * Z)) (cell : GridCell) (cutoff d : Z) : bool :=
  match last (List.filter (matches cell d) l) with
  | Some h => cutoff <=? h.2
  | None => false
  end.

Definition domains : list Z := [0; 1; 2; 3; 4; 5; 6].
Definition count_domains (f : Z -> bool) : nat := length (List.filter f domains).

(** * Lemmas *)

(** The domain has a live slot in the cell. *)
Definition slot_live (slots : DomainSlots) (cutoff d : Z) : bool :=
  match slots !! slot_index d with
  | Some (Some h) => cutoff <=? dh_timestamp h
  | _ => false
  end.
Definition live (g : ConvergenceGrid) (cell : GridCell) (cutoff d : Z) : bool :=
  match cells g !! cell with Some slots => slot_live slots cutoff d | None => false end.

(** A cell has eight slots, the hit in slot [i] being of domain [i]. *)
Definition slots_ok (slots : DomainSlots) : Prop :=
  length slots = DOMAIN_SLOTS /\
  forall i h, slots !! i = Some (Some h) -> slot_index (kind_discriminant (dh_kind h)) = i.
Definition grid_ok (g : ConvergenceGrid) : Prop :=
  forall cell slots, cells g !! cell = Some slots -> slots_ok slots.

Lemma kind_discriminant_domain k : kind_discriminant k ∈ domains.
Proof. apply list_elem_of_In. destruct k; cbn; tauto. Qed.

Lemma slot_index_domain d : d ∈ domains -> slot_index d = Z.to_nat d /\ 0 <= d < 7.
Proof. intros Hd%list_elem_of_In. cbn in Hd. unfold slot_index. split_ifs; lia. Qed.

Lemma default_slots_ok : slots_ok DomainSlots_default.
Proof. split; [done|]. intros i h Hi. by apply lookup_replicate in Hi as [[=] _]. Qed.

Lemma record_lookup slots h i :
  slots_ok slots ->
  record slots h !! i = if decide (i = slot_index (kind_discriminant (dh_kind h)))
                        then Some (Some h) else slots !! i.
Proof.
  intros [Hlen _]. unfold record.
  destruct (slot_index_domain _ (kind_discriminant_domain (dh_kind h))) as [Hidx Hr].
  set (idx := slot_index _) in *.
  assert (Hlt : (idx < length slots)%nat) by (rewrite Hlen; unfold DOMAIN_SLOTS; lia).
  destruct (slots !! idx) eqn:E; [|apply lookup_ge_None in E; lia].
  destruct (decide (i = idx)) as [->|Hne].
  - by apply list_lookup_insert_eq.
  - by apply list_lookup_insert_ne.
Qed.

Lemma record_ok slots h : slots_ok slots -> slots_ok (record slots h).
Proof.
  intros Hok. split.
  - unfold record. destruct (slots !! _); [rewrite length_insert|]; apply Hok.
  - intros i h'. rewrite record_lookup by done. destruct (decide _) as [->|]; [by intros [= <-]|apply Hok].
Qed.

Lemma record_live slots h cutoff d :
  slots_ok slots -> d ∈ domains ->
  slot_live (record slots h) cutoff d =
  if kind_discriminant (dh_kind h) =? d then cutoff <=? dh_timestamp h else slot_live slots cutoff d.
Proof.
  intros Hok Hd. unfold slot_live. rewrite record_lookup by done.
  destruct (slot_index_domain _ Hd) as [-> Hr].
  destruct (slot_index_domain _ (kind_discriminant_domain (dh_kind h))) as [-> Hr'].
  destruct (decide _) as [He|Hne], (Z.eqb_spec (kind_discriminant (dh_kind h)) d); try done; lia.
Qed.

Lemma slots_evict_ok slots c : slots_ok slots -> slots_ok (slots_evict slots c).2.
Proof.
  intros [Hlen Hk]. split; cbn [slots_evict snd].
  - by rewrite length_map.
  - intros i h. rewrite list_lookup_fmap. destruct (slots !! i) as [[h'|]|] eqn:E; cbn; try done.
    destruct (_ <? _); [done|]. intros [= <-]. by apply Hk.
Qed.

Lemma slots_evict_live slots c cutoff d :
  c <= cutoff -> slot_live (slots_evict slots c).2 cutoff d = slot_live slots cutoff d.
Proof.
  intros Hc. unfold slot_live, slots_evict. cbn [snd]. rewrite list_lookup_fmap.
  destruct (slots !! slot_index d) as [[h|]|]; cbn; try done. split_ifs; lia.
Qed.

Lemma slots_evict_dropped slots c cutoff d :
  (slots_evict slots c).1 = false -> slot_live (slots_evict slots c).2 cutoff d = false.
Proof.
  unfold slots_evict, slot_live. cbn [fst snd]. set (slots' := map _ slots). intros He.
  destruct (slots' !! slot_index d) as [[h|]|] eqn:E; try done. exfalso.
  assert (Ht : existsb (fun slot => match slot with Some _ => true | None => false end) slots' = true);
    [|by rewrite Ht in He].
  apply existsb_exists. exists (Some h). split; [|done]. by apply list_elem_of_In, list_elem_of_lookup; eexists.
Qed.

(** ** Each operation, seen through [live] *)

Lemma ingest_ok g s : grid_ok g -> grid_ok (ingest g s).
Proof.
  intros Hok. unfold ingest. destruct (gs_location s) as [coords|]; [|done]. intros cell slots. cbn [cells].
  rewrite lookup_insert_Some. intros [[<- <-]|[_ Hs]]; [|by eapply Hok]. apply record_ok.
  destruct (cells g !! _) eqn:E; [by eapply Hok|apply default_slots_ok].
Qed.

Lemma ingest_live g s cell cutoff d :
  grid_ok g -> d ∈ domains ->
  live (ingest g s) cell cutoff d =
  match gs_location s with
  | Some coords =>
      if matches cell d (quantize coords (resolution g), kind_discriminant (gs_kind s), gs_timestamp s)
      then cutoff <=? gs_timestamp s else live g cell cutoff d
  | None => live g cell cutoff d
  end.
Proof.
  intros Hok Hd. unfold live, ingest, matches. destruct (gs_location s) as [coords|]; [|done].
  cbn [cells fst snd]. set (cell' := quantize coords (resolution g)).
  destruct (decide (cell' = cell)) as [->|Hne].
  - rewrite lookup_insert_eq, bool_decide_eq_true_2 by done. cbn [andb].
    destruct (cells g !! cell) as [slots|] eqn:E; cbn [default].
    + rewrite record_live by (done || by eapply Hok). done.
    + rewrite record_live by (done || apply default_slots_ok). cbn [dh_kind dh_timestamp].
      destruct (_ =? d); [done|]. unfold slot_live, DomainSlots_default.
      destruct (replicate _ _ !! _) as [[h|]|] eqn:El; try done. by apply lookup_replicate in El as [[=] _].
  - rewrite lookup_insert_ne by done. by rewrite bool_decide_eq_false_2 by done.
Qed.

#[local] Arguments slots_evict : simpl never.

Lemma evict_ok g c : grid_ok g -> grid_ok (evict g c).
Proof.
  intros Hok cell slots. unfold evict. cbn [cells]. rewrite lookup_omap_Some. intros (slots0 & Hs & H0).
  pose proof (slots_evict_ok slots0 c (Hok _ _ H0)) as He.
  destruct (slots_evict slots0 c) as [[] slots']; [|done]. by injection Hs as <-.
Qed.

Lemma evict_live g c cell cutoff d : c <= cutoff -> live (evict g c) cell cutoff d = live g cell cutoff d.
Proof.
  intros Hc. unfold live, evict. cbn [cells]. rewrite lookup_omap.
  destruct (cells g !! cell) as [slots|]; cbn; [|done].
  rewrite <- (slots_evict_live slots c cutoff d Hc).
  pose proof (slots_evict_dropped slots c cutoff d) as Hdrop.
  destruct (slots_evict slots c) as [[] slots']; cbn in *; [done|]. by rewrite Hdrop.
Qed.

Lemma length_filter_sum {A} (f : A -> bool) l :
  length (List.filter f l) = sum_list (map (fun x => Nat.b2n (f x)) l).
Proof. induction l as [|x l IH]; cbn; [done|]. destruct (f x); cbn; lia. Qed.

Lemma filter_omap_id {A} (P : A -> bool) (l : list (option A)) :
  length (List.filter P (omap id l)) =
  length (List.filter (fun o => match o with Some x => P x | None => false end) l).
Proof. induction l as [|[x|] l IH]; cbn; [done| |done]. destruct (P x); cbn; lia. Qed.

Lemma distinct_domains_live slots cutoff :
  slots_ok slots -> distinct_domains slots cutoff = count_domains (slot_live slots cutoff).
Proof.
  intros [Hlen Hk]. unfold distinct_domains, within_window, count_domains.
  rewrite filter_omap_id, !length_filter_sum.
  do 8 (destruct slots as [|? slots]; [discriminate|]). destruct slots; [|discriminate].
  destruct o6 as [h|].
  - exfalso. specialize (Hk 7%nat h eq_refl). destruct (dh_kind h); discriminate.
  - unfold slot_live. cbn. unfold slot_index. cbn.
    repeat match goal with |- context [match ?o with Some _ => _ | None => _ end] => is_var o; destruct o end;
      reflexivity.
Qed.

Lemma count_domains_ext f f' : (forall d, d ∈ domains -> f d = f' d) -> count_domains f = count_domains f'.
Proof.
  intros Hf. unfold count_domains. f_equal. apply filter_ext_in. intros d Hd. by apply Hf, list_elem_of_In.
Qed.

(** ** The whole history *)

Definition evictions_before (cutoff : Z) (ops : list GridOp) : Prop :=
  Forall (fun op => match op with GEvict c => c <= cutoff | GIngest _ => True end) ops.

Lemma hits_snoc res ops op : hits res (ops ++ [op]) = hits res ops ++ hits res [op].
Proof. unfold hits. by rewrite omap_app. Qed.

Lemma last_hit_snoc l h cell cutoff d :
  last_hit_in_window (l ++ [h]) cell cutoff d =
  if matches cell d h then cutoff <=? h.2 else last_hit_in_window l cell cutoff d.
Proof.
  unfold last_hit_in_window. rewrite List.filter_app. cbn [List.filter].
  destruct (matches cell d h); [by rewrite last_snoc|by rewrite app_nil_r].
Qed.

Lemma run_grid_resolution ops g : resolution (run_grid g ops) = resolution g.
Proof.
  revert g. induction ops as [|op ops IH]; intros g; cbn; [done|]. unfold run_grid in IH. rewrite IH.
  destruct op; cbn; [|done]. unfold ingest. by destruct (gs_location signal).
Qed.

Lemma grid_new_ok res : grid_ok (ConvergenceGrid_new res).
Proof. intros cell slots. cbn. by rewrite lookup_empty. Qed.

Lemma run_grid_live res ops cell cutoff d :
  evictions_before cutoff ops -> d ∈ domains ->
  let g := run_grid (ConvergenceGrid_new res) ops in
  grid_ok g /\ live g cell cutoff d = last_hit_in_window (hits res ops) cell cutoff d.
Proof.
  intros Hev Hd. induction ops as [|op ops IH] using rev_ind.
  { split; [apply grid_new_ok|]. unfold live. cbn. by rewrite lookup_empty. }
  apply Forall_app in Hev as [Hev Hop]. rewrite Forall_singleton in Hop.
  destruct (IH Hev) as [Hok Hlive]. set (g := run_grid _ ops) in *.
  assert (Hres : resolution g = res) by apply run_grid_resolution.
  unfold run_grid. rewrite fold_left_app. fold (run_grid (ConvergenceGrid_new res) ops). fold g.
  cbn [fold_left run_grid_op]. rewrite hits_snoc. destruct op as [s|c]; cbn [run_grid_op].
  - split; [by apply ingest_ok|]. rewrite ingest_live by done. rewrite Hres. unfold hits at 2. cbn.
    destruct (gs_location s) as [coords|]; cbn; [|by rewrite app_nil_r].
    rewrite last_hit_snoc, Hlive. done.
  - split; [by apply evict_ok|]. rewrite evict_live by exact Hop.
    change (hits res [GEvict c]) with (@nil (GridCell * Z * Z)). by rewrite app_nil_r.
Qed.

Lemma run_grid_ok res ops : grid_ok (run_grid (ConvergenceGrid_new res) ops).
Proof.
  assert (Hg : forall g, grid_ok g -> grid_ok (run_grid g ops)).
  { induction ops as [|op ops IH]; intros g Hok; cbn; [done|].
    apply IH. destruct op; [by apply ingest_ok|by apply evict_ok]. }
  apply Hg, grid_new_ok.
Qed.

Lemma converged_cell_count g cell min_domains cutoff :
  grid_ok g -> (1 <= min_domains)%nat ->
  converged_cell g cell min_domains cutoff =
  let n := count_domains (live g cell cutoff) in
  if (min_domains <=? n)%nat then Some (mkConvergence (cell_center cell (resolution g)) n) else None.
Proof.
  intros Hok Hmin. unfold converged_cell. destruct (cells g !! cell) as [slots|] eqn:E; cbn [mbind option_bind].
  - rewrite distinct_domains_live by (by eapply Hok).
    rewrite (count_domains_ext (live g cell cutoff) (slot_live slots cutoff)); [done|].
    intros d _. unfold live. by rewrite E.
  - rewrite (count_domains_ext _ (fun _ => false)) by (intros d _; unfold live; by rewrite E).
    cbn. destruct min_domains; [lia|done].
Qed.

(** The bounded grid detects what its history says: after any sequence of
    ingested signals and evictions no later than the window's start, the cell of
    a signal converges exactly when at least [min_domains] domains have their last
    hit in the cell inside the window, and it reports that number. *)
Theorem detect_at_history (res : Z) (ops : list GridOp) (coords : Coordinates) (min_domains : nat)
    (window : Duration) (now : Z) :
  let cutoff := window_cutoff window now in
  (1 <= min_domains)%nat -> evictions_before cutoff ops ->
  let cell := quantize coords res in
  let n := count_domains (last_hit_in_window (hits res ops) cell cutoff) in
  detect_at (run_grid (ConvergenceGrid_new res) ops) coords min_domains window now =
  if (min_domains <=? n)%nat then Some (mkConvergence (cell_center cell res) n) else None.
Proof.
  intros cutoff Hmin Hev cell n. unfold detect_at. rewrite converged_cell_count by (apply run_grid_ok || done).
  rewrite run_grid_resolution. cbn [resolution ConvergenceGrid_new]. fold cutoff cell.
  rewrite (count_domains_ext _ (last_hit_in_window (hits res ops) cell cutoff)); [done|].
  intros d Hd. by apply run_grid_live.
Qed.

(** ** Hits in time order *)

Lemma last_in_window l cell cutoff d :
  StronglySorted Z.le (map snd l) ->
  last_hit_in_window l cell cutoff d = domain_in_window l cell cutoff d.
Proof.
  induction l as [|h l IH] using rev_ind; [done|]. intros Hs.
  rewrite last_hit_snoc. unfold domain_in_window. rewrite existsb_app. cbn [existsb]. rewrite orb_false_r.
  rewrite map_app in Hs. cbn in Hs. pose proof (StronglySorted_app_1_l _ _ _ Hs) as Hl. specialize (IH Hl).
  destruct (matches cell d h); cbn [andb]; [|rewrite orb_false_r; exact IH].
  destruct (cutoff <=? h.2) eqn:Eh; [by rewrite orb_true_r|]. rewrite orb_false_r. symmetry.
  apply not_true_is_false. intros (h' & Hin & [_ Hc]%andb_true_iff)%existsb_exists.
  assert (Hle : h'.2 <= h.2).
  { eapply (StronglySorted_app_1_elem_of Z.le); [exact Hs| |by apply list_elem_of_singleton].
    apply list_elem_of_fmap. exists h'. by rewrite list_elem_of_In. }
  lia.
Qed.

(** C33. When signals arrive in time order and nothing was evicted that is inside the
    window, keeping one hit per domain loses nothing: for a [min_domains] of at least
    one, the cell converges exactly when at least [min_domains] domains have some hit
    in the cell inside the window, as if every hit had been kept. The pipeline's
    evictions end no later than its windows start while its clock does not go back. *)
Theorem detect_at_matches_reference (res : Z) (ops : list GridOp) (coords : Coordinates)
    (min_domains : nat) (window : Duration) (now : Z) :
  let cutoff := window_cutoff window now in
  (1 <= min_domains)%nat -> evictions_before cutoff ops ->
  StronglySorted Z.le (map snd (hits res ops)) ->
  let cell := quantize coords res in
  let n := count_domains (domain_in_window (hits res ops) cell cutoff) in
  detect_at (run_grid (ConvergenceGrid_new res) ops) coords min_domains window now =
  if (min_domains <=? n)%nat then Some (mkConvergence (cell_center cell res) n) else None.
Proof.
  intros cutoff Hmin Hev Hs cell n. unfold detect_at.
  rewrite converged_cell_count by (apply run_grid_ok || done).
  rewrite run_grid_resolution. cbn [resolution ConvergenceGrid_new]. fold cutoff cell.
  rewrite (count_domains_ext _ (domain_in_window (hits res ops) cell cutoff)); [done|].
  intros d Hd. rewrite <- last_in_window by done. by apply run_grid_live.
Qed.

(** A full scan reports exactly the cells a lookup would. *)
Lemma detect_spec `{!KeyOrder GridCell} g min_domains window now c :
  c ∈ detect g min_domains window now <->
  exists cell, is_Some (cells g !! cell) /\
    converged_cell g cell min_domains (window_cutoff window now) = Some c.
Proof.
  unfold detect. rewrite list_elem_of_omap. split.
  - intros ([cell slots] & Hin & Hc). rewrite key_iter_perm in Hin. apply elem_of_map_to_list in Hin.
    exists cell. split; [eauto|done].
  - intros (cell & [slots Hs] & Hc). exists (cell, slots). rewrite key_iter_perm.
    split; [by apply elem_of_map_to_list|done].
Qed.

(** The centre of a cell is always a valid coordinate, also at resolution zero. *)
Lemma cell_center_ok cell res : coordinates_ok (cell_center cell res) = true.
Proof.
  unfold cell_center. set (lat := f64_clamp _ _ _). set (lon := f64_clamp _ _ _).
  pose proof (Coordinates_new_spec lat lon None) as Hs.
  destruct (Coordinates_new lat lon None); [by destruct Hs as [_ ?]|reflexivity].
Qed.

(** ** A late arrival

    The slot keeps the hit that arrived last, not the most recent one: a signal
    with an older timestamp, or the same signal ingested again, takes a domain
    out of the window. *)

Definition origin : Coordinates := mkCoordinates f64_zero f64_zero None Wgs84.
Definition at_origin (kind : SignalKind) (ts : Z) : GeoSignal := GeoSignal_new 0 kind ts (Some origin).
Definition rf_beacon : SignalKind := Rf (Beacon (hz 1) 1).
Definition dns_query : SignalKind := Network (DnsQuery EmptyString).

Definition late_arrival : list GridOp :=
  [GIngest (at_origin rf_beacon 10); GIngest (at_origin rf_beacon 100);
   GIngest (at_origin dns_query 100); GIngest (at_origin rf_beacon 10)].

Example late_arrival_hides_domain :
  let cutoff := window_cutoff (50 * NANOS_PER_MILLI) 110 in
  let l := hits 10000 late_arrival in
  count_domains (domain_in_window l (0, 0) cutoff) = 2%nat /\
  count_domains (last_hit_in_window l (0, 0) cutoff) = 1%nat /\
  detect_at (run_grid (ConvergenceGrid_new 10000) late_arrival) origin 2 (50 * NANOS_PER_MILLI) 110 = None.
Proof. vm_compute. split_and!; reflexivity. Qed.

Lemma detect_at_history_witness :
  detect_at (run_grid (ConvergenceGrid_new 10000) late_arrival) origin 2 (50 * NANOS_PER_MILLI) 110 = None.
Proof.
  rewrite detect_at_history; [vm_compute; reflexivity|lia|].
  repeat constructor.
Defined.

Lemma detect_at_matches_reference_witness :
  exists c, detect_at (run_grid (ConvergenceGrid_new 10000)
              [GIngest (at_origin rf_beacon 100); GEvict 50; GIngest (at_origin dns_query 101)])
              origin 2 (50 * NANOS_PER_MILLI) 110 = Some c /\ cv_domain_count c = 2%nat.
Proof.
  rewrite detect_at_matches_reference.
  - eexists. split; vm_compute; reflexivity.
  - lia.
  - repeat constructor; vm_compute; congruence.
  - repeat constructor; vm_compute; congruence.
Defined.
