(* ===== verification/Aggregator.v ===== *)
(** * Signal aggregation (crates/semaino/src/aggregator.rs)

    Every signal with a numeric feature is scored against the baseline of its
    kind and hour of the week, then learnt; notable scores are passed on. The
    calendar of a timestamp is a parameter. *)

From S2P Require Import Prelude Float Signal Baseline.

Local Open Scope Z_scope.

Record AggregatedSignal : Type := mkAggregated {
  ag_signal : GeoSignal; ag_score : AnomalyScore;
  ag_baseline_mean : option f64; ag_baseline_stddev : option f64 }.

Inductive KindKey : Type := KRf | KMesh | KNetwork | KProximity | KGps | KEnvironmental | KOsint.

#[export] Instance KindKey_eq_dec : EqDecision KindKey.
Proof. solve_decision. Defined.

Definition kind_key_code (k : KindKey) : Z :=
  match k with
  | KRf => 0 | KMesh => 1 | KNetwork => 2 | KProximity => 3 | KGps => 4 | KEnvironmental => 5 | KOsint => 6
  end.
Definition kind_key_decode (z : Z) : option KindKey :=
  [KRf; KMesh; KNetwork; KProximity; KGps; KEnvironmental; KOsint] !! Z.to_nat z.

#[export] Instance KindKey_countable : Countable KindKey.
Proof. apply (inj_countable kind_key_code kind_key_decode). by intros []. Defined.

Definition from_signal (kind : SignalKind) : KindKey :=
  match kind with
  | Rf _ => KRf | Mesh _ => KMesh | Network _ => KNetwork | Proximity _ => KProximity
  | Gps _ => KGps | Environmental _ => KEnvironmental | Osint _ => KOsint
  end.

Definition extract_feature (signal : GeoSignal) : option f64 :=
  match gs_kind signal with
  | Rf (Transmission _ power _ _) => Some (as_dbm power)
  | Rf (Jamming _ estimated_power) => Some (as_dbm estimated_power)
  | Mesh (NodeSeen _ _ hop_count) => Some (f64_of_Z hop_count)
  | Proximity (Wifi _ _ rssi _) | Proximity (Ble _ rssi _) => Some (f64_of_Z rssi)
  | Gps (Fix _ _ _) => c ← gs_location signal; co_altitude c
  | Environmental (Temperature x) | Environmental (Humidity x) | Environmental (Barometric x) =>
      Some (f64_of_f32 x)
  | _ => None
  end.

Inductive Weekday : Type := Monday | Tuesday | Wednesday | Thursday | Friday | Saturday | Sunday.

Record SignalAggregator : Type := mkAggregator { baselines : gmap KindKey TemporalBucketedBaseline }.
Definition SignalAggregator_new : SignalAggregator := mkAggregator ∅.

Section Aggregator.
(** The UTC weekday and hour of a millisecond timestamp, when it converts. *)
Context (utc : Z -> option (Weekday * Z)).

Definition day_hour_from_timestamp (ts : Z) : Z * Z :=
  match utc ts with
  | None => (0, 0)
  | Some (weekday, hour) =>
      let day := match weekday with
                 | Monday => 0 | Tuesday => 1 | Wednesday => 2 | Thursday => 3
                 | Friday => 4 | Saturday => 5 | Sunday => 6
                 end in
      (day, default 0 (try_uint 8 hour))
  end.

Definition is_notable (score : AnomalyScore) : bool :=
  match score with Elevated _ | Anomalous _ => true | _ => false end.

(** One turn of [run]: the signal that was received, what is sent. *)
Definition aggregate (a : SignalAggregator) (signal : GeoSignal)
  : SignalAggregator * option AggregatedSignal :=
  match extract_feature signal with
  | None => (a, None)
  | Some feature =>
      let '(day_of_week, hour) := day_hour_from_timestamp (gs_timestamp signal) in
      let key := from_signal (gs_kind signal) in
      let baseline := default TemporalBucketedBaseline_new (baselines a !! key) in
      let score := bucketed_score baseline day_of_week hour feature in
      let '(baseline_mean, baseline_stddev) :=
        match bucket baseline day_of_week hour with
        | Some b => (mean b, stddev b)
        | None => (None, None)
        end in
      let baseline := bucketed_observe baseline day_of_week hour feature in
      (mkAggregator (<[key := baseline]> (baselines a)),
       if is_notable score then Some (mkAggregated signal score baseline_mean baseline_stddev) else None)
  end.

(** The loop over the signals of a channel that stays open. *)
Fixpoint aggregate_all (a : SignalAggregator) (signals : list GeoSignal)
  : SignalAggregator * list AggregatedSignal :=
  match signals with
  | [] => (a, [])
  | s :: signals =>
      let '(a, out) := aggregate a s in
      let '(a, outs) := aggregate_all a signals in
      (a, match out with Some x => x :: outs | None => outs end)
  end.

(** * The specification: a score against the past of the same bucket *)

Definition slot_of (s : GeoSignal) : KindKey * (Z * Z) :=
  (from_signal (gs_kind s), day_hour_from_timestamp (gs_timestamp s)).

Definition past_features (slot : KindKey * (Z * Z)) (past : list GeoSignal) : list f64 :=
  omap (fun s => if bool_decide (slot_of s = slot) then extract_feature s else None) past.

Definition scored (past : list GeoSignal) (s : GeoSignal) : option AggregatedSignal :=
  feature ← extract_feature s;
  let b := observe_all (past_features (slot_of s) past) in
  if is_notable (score b feature)
  then Some (mkAggregated s (score b feature) (mean b) (stddev b)) else None.

Fixpoint scored_all (past signals : list GeoSignal) : list AggregatedSignal :=
  match signals with
  | [] => []
  | s :: signals =>
      match scored past s with
      | Some x => x :: scored_all (past ++ [s]) signals
      | None => scored_all (past ++ [s]) signals
      end
  end.

(** * Lemmas *)

Definition hour_in_range : Prop := forall ts w h, utc ts = Some (w, h) -> 0 <= h < 24.

Lemma day_hour_range ts :
  hour_in_range ->
  0 <= (day_hour_from_timestamp ts).1 < 7 /\ 0 <= (day_hour_from_timestamp ts).2 < 24.
Proof.
  intros Hr. unfold day_hour_from_timestamp. destruct (utc ts) as [[w h]|] eqn:E; [|cbn; lia].
  specialize (Hr _ _ _ E). unfold try_uint. cbn [fst snd].
  replace ((0 <=? h) && (h <? 2 ^ 8)) with true by lia. cbn. destruct w; cbn; lia.
Qed.

(** Each bucket holds the observations of the past that fall in it. *)
Definition learnt (a : SignalAggregator) (past : list GeoSignal) : Prop :=
  forall key d h, 0 <= d < 7 -> 0 <= h < 24 ->
    bucket (default TemporalBucketedBaseline_new (baselines a !! key)) d h =
    Some (observe_all (past_features (key, (d, h)) past)).

Lemma learnt_new : learnt SignalAggregator_new [].
Proof.
  intros key d h Hd Hh. cbn. rewrite lookup_empty. cbn [default].
  unfold bucket, TemporalBucketedBaseline_new. cbn [buckets].
  rewrite lookup_replicate_2 by lia. cbn [mbind option_bind]. rewrite lookup_replicate_2 by lia. done.
Qed.

Lemma past_features_snoc slot past s :
  past_features slot (past ++ [s]) =
  past_features slot past ++
  match extract_feature s with
  | Some f => if bool_decide (slot_of s = slot) then [f] else []
  | None => []
  end.
Proof.
  unfold past_features. rewrite omap_app. f_equal. cbn.
  case_bool_decide; destruct (extract_feature s); done.
Qed.

Lemma aggregate_spec a past s :
  hour_in_range -> learnt a past ->
  let '(a', out) := aggregate a s in learnt a' (past ++ [s]) /\ out = scored past s.
Proof.
  intros Hr Ha. unfold aggregate, scored.
  destruct (extract_feature s) as [f|] eqn:Ef.
  2:{ split; [|done]. intros key d h Hd Hh. rewrite Ha by done.
      by rewrite past_features_snoc, Ef, app_nil_r. }
  pose proof (day_hour_range (gs_timestamp s) Hr) as [Hd Hh].
  set (key := from_signal (gs_kind s)).
  destruct (day_hour_from_timestamp (gs_timestamp s)) as [d h] eqn:Edh. cbn [fst snd] in Hd, Hh.
  assert (Hslot : slot_of s = (key, (d, h))) by (unfold slot_of; by rewrite Edh).
  pose proof (Ha key d h Hd Hh) as Hb. unfold bucketed_score. rewrite Hb, Hslot. split.
  - intros key' d' h' Hd' Hh'. cbn [baselines]. rewrite past_features_snoc, Ef, Hslot.
    destruct (decide (key = key')) as [->|Hne].
    + rewrite lookup_insert_eq. cbn [default]. change (id ?x) with x.
      rewrite bucketed_observe_spec by lia. rewrite (Ha key' d' h' Hd' Hh').
      destruct ((d =? d') && (h =? h')) eqn:E.
      * assert (d = d') as <- by lia. assert (h = h') as <- by lia.
        rewrite bool_decide_eq_true_2 by done. cbn. by rewrite observe_all_snoc.
      * rewrite bool_decide_eq_false_2; [by rewrite app_nil_r|]. intros [= -> ->]. lia.
    + rewrite lookup_insert_ne by done. rewrite Ha by done.
      rewrite bool_decide_eq_false_2 by congruence. by rewrite app_nil_r.
  - done.
Qed.

(** The aggregator scores every signal against exactly the earlier signals of
    the same kind in the same hour of the week: whatever it receives, it passes on
    the notable ones, in order, each with the score, mean and deviation of that
    past, which the signal itself does not touch. Needs only that the calendar
    gives hours below 24. *)
Theorem aggregator_scores_the_past (signals : list GeoSignal) :
  hour_in_range -> (aggregate_all SignalAggregator_new signals).2 = scored_all [] signals.
Proof.
  intros Hr.
  assert (Hgen : forall signals a past, learnt a past -> (aggregate_all a signals).2 = scored_all past signals).
  { clear signals. induction signals as [|s signals IH]; intros a past Ha; cbn; [done|].
    pose proof (aggregate_spec a past s Hr Ha) as Hs. destruct (aggregate a s) as [a1 out].
    destruct Hs as [Ha1 ->]. specialize (IH a1 (past ++ [s]) Ha1).
    destruct (aggregate_all a1 signals) as [a2 outs]. cbn in IH |- *. rewrite IH.
    by destruct (scored past s). }
  apply Hgen, learnt_new.
Qed.

End Aggregator.

Definition hop_signal (hops : Z) : GeoSignal :=
  GeoSignal_new 0 (Mesh (NodeSeen 7 f32_zero hops)) 1000 None.

Lemma aggregator_scores_the_past_witness :
  let utc := fun _ : Z => Some (Monday, 3) in
  let signals := replicate 10 (hop_signal 1) ++ [hop_signal 4] in
  (aggregate_all utc SignalAggregator_new signals).2 =
  [mkAggregated (hop_signal 4) (Anomalous f64_infinity) (Some (f64_of_Z 1)) (Some f64_zero)].
Proof.
  cbv zeta. rewrite aggregator_scores_the_past; [vm_compute; reflexivity|].
  intros ts w h [= <- <-]. lia.
Defined.
