(* ===== verification/Alert.v ===== *)
(** * Alert deduplication (crates/semaino/src/alert.rs)

    Severity classification, fingerprints and the suppression map with its
    amortized sweep. The clock reads and the fresh identifier are arguments; the
    registered sinks are names, and a call also returns what was emitted to whom. *)

From stdpp Require Import pretty.
From S2P Require Import Prelude Float Signal Baseline Convergence Aggregator.

Local Open Scope string_scope.
Local Open Scope Z_scope.

(** Kind, cell and severity discriminants. *)
Abbreviation AlertFingerprint := (Z * option (Z * Z) * Z)%type (only parsing).

Record Alert : Type := mkAlert {
  al_id : Ulid; al_severity : AlertSeverity; al_source_signals : list Ulid; al_timestamp : Z;
  al_cell : option (Z * Z); al_summary : string; al_fingerprint : AlertFingerprint }.

Definition MIN_PRUNE_THRESHOLD : nat := 64.

Record AlertPipeline : Type := mkAlertPipeline {
  suppression : gmap AlertFingerprint Z;
  prune_threshold : nat;
  suppression_window_ms : Z;
  grid_resolution : Z;
  sinks : list Z
}.

(** [(suppression_window_secs * 1_000) as i64], the product wrapping. *)
Definition AlertPipeline_new (suppression_window_secs grid_resolution : Z) : AlertPipeline :=
  mkAlertPipeline ∅ MIN_PRUNE_THRESHOLD (as_i64 (as_uint 64 (suppression_window_secs * 1000)))
                  grid_resolution [].

Definition add_sink (p : AlertPipeline) (sink : Z) : AlertPipeline :=
  mkAlertPipeline (suppression p) (prune_threshold p) (suppression_window_ms p) (grid_resolution p)
                  (sinks p ++ [sink]).

Definition prune_expired (p : AlertPipeline) (now_ms : Z) : AlertPipeline :=
  if (size (suppression p) <? prune_threshold p)%nat then p
  else
    let suppression :=
      filter (fun kv => i64_saturating_sub now_ms kv.2 < suppression_window_ms p) (suppression p) in
    mkAlertPipeline suppression (Nat.max (size suppression * 2) MIN_PRUNE_THRESHOLD)
                    (suppression_window_ms p) (grid_resolution p) (sinks p).

Definition classify (score : AnomalyScore) (convergence : option Convergence) : option AlertSeverity :=
  match score with
  | Anomalous _ =>
      if match convergence with Some c => (3 <=? cv_domain_count c)%nat | None => false end
      then Some Critical else Some High
  | Elevated _ => match convergence with Some _ => Some Medium | None => Some Low end
  | _ => None
  end.

Definition severity_discriminant (sev : AlertSeverity) : Z :=
  match sev with Low => 0 | Medium => 1 | High => 2 | Critical => 3 end.
Definition severity_debug (sev : AlertSeverity) : string :=
  match sev with Low => "Low" | Medium => "Medium" | High => "High" | Critical => "Critical" end.

Definition build_summary (kind : SignalKind) (severity : AlertSeverity) (convergence : option Convergence)
  : string :=
  let domain := match kind with
                | Rf _ => "RF" | Mesh _ => "Mesh" | Network _ => "Network" | Proximity _ => "Proximity"
                | Gps _ => "GPS" | Environmental _ => "Environmental" | Osint _ => "OSINT"
                end in
  match convergence with
  | None => severity_debug severity +:+ " " +:+ domain +:+ " anomaly detected"
  | Some conv => severity_debug severity +:+ " " +:+ domain +:+ " alert with "
                 +:+ pretty (cv_domain_count conv) +:+ "-domain convergence"
  end.

Definition fingerprint (resolution : Z) (aggregated : AggregatedSignal) (severity : AlertSeverity)
  : AlertFingerprint :=
  (kind_discriminant (gs_kind (ag_signal aggregated)),
   (fun c => quantize c resolution) <$> gs_location (ag_signal aggregated),
   severity_discriminant severity).

(** What [process] reads from its environment: the fresh identifier and the two
    clock reads, in milliseconds. *)
Record Env : Type := mkEnv { env_id : Ulid; env_now : Z; env_stamp : Z }.

Definition process (p : AlertPipeline) (aggregated : AggregatedSignal) (convergence : option Convergence)
    (env : Env) : AlertPipeline * option Alert * list (Z * Alert) :=
  match classify (ag_score aggregated) convergence with
  | None => (p, None, [])
  | Some severity =>
      let fp := fingerprint (grid_resolution p) aggregated severity in
      let now_ms := env_now env in
      if match suppression p !! fp with
         | Some last => now_ms - last <? suppression_window_ms p
         | None => false
         end
      then (p, None, [])
      else
        let p := prune_expired p now_ms in
        let p := mkAlertPipeline (<[fp := now_ms]> (suppression p)) (prune_threshold p)
                   (suppression_window_ms p) (grid_resolution p) (sinks p) in
        let alert := mkAlert (env_id env) severity [gs_signal_id (ag_signal aggregated)] (env_stamp env)
                       (fp.1.2) (build_summary (gs_kind (ag_signal aggregated)) severity convergence) fp in
        (p, Some alert, map (fun sink => (sink, alert)) (sinks p))
  end.

Definition Input : Type := (AggregatedSignal * option Convergence * Env)%type.

(** The results of a run, one per input. *)
Fixpoint process_all (p : AlertPipeline) (inputs : list Input) : AlertPipeline * list (option Alert) :=
  match inputs with
  | [] => (p, [])
  | (aggregated, convergence, env) :: inputs =>
      let '(p, alert, _) := process p aggregated convergence env in
      let '(p, alerts) := process_all p inputs in
      (p, alert :: alerts)
  end.

(** * The specification: every emission is remembered

    [process] without the sweep, on the history of emissions. *)

Record Emission : Type := mkEmission { em_fingerprint : AlertFingerprint; em_time : Z }.

Definition suppressed (window : Z) (log : list Emission) (fp : AlertFingerprint) (now : Z) : bool :=
  existsb (fun e => bool_decide (em_fingerprint e = fp) && (now - em_time e <? window)) log.

Definition spec_alert (p : AlertPipeline) (log : list Emission) (input : Input) : option Alert :=
  let '(aggregated, convergence, env) := input in
  severity ← classify (ag_score aggregated) convergence;
  let fp := fingerprint (grid_resolution p) aggregated severity in
  if suppressed (suppression_window_ms p) log fp (env_now env) then None
  else Some (mkAlert (env_id env) severity [gs_signal_id (ag_signal aggregated)] (env_stamp env)
              (fp.1.2) (build_summary (gs_kind (ag_signal aggregated)) severity convergence) fp).

Definition log_alert (log : list Emission) (now : Z) (alert : option Alert) : list Emission :=
  match alert with
  | Some a => log ++ [mkEmission (al_fingerprint a) now]
  | None => log
  end.

Fixpoint spec_all (p : AlertPipeline) (log : list Emission) (inputs : list Input) : list (option Alert) :=
  match inputs with
  | [] => []
  | input :: inputs =>
      let alert := spec_alert p log input in
      alert :: spec_all p (log_alert log (env_now input.2) alert) inputs
  end.

Definition timestamp_ms (t : Z) : Prop := - 2 ^ 62 <= t < 2 ^ 62.

(** A clock that does not run backwards, within the range of timestamps. *)
Definition clock_ok (inputs : list Input) : Prop :=
  StronglySorted Z.le (map (fun i => env_now i.2) inputs) /\
  Forall (fun i => timestamp_ms (env_now i.2)) inputs.

(** * Lemmas *)

Definition recently (p : AlertPipeline) (fp : AlertFingerprint) (now : Z) : bool :=
  match suppression p !! fp with
  | Some last => now - last <? suppression_window_ms p
  | None => false
  end.

(** The map answers as the log does, from [now] on. *)
Record tracks (p : AlertPipeline) (log : list Emission) (now : Z) : Prop := {
  tr_answers : forall fp t, now <= t -> recently p fp t = suppressed (suppression_window_ms p) log fp t;
  tr_log : forall e, e ∈ log -> em_time e <= now;
  tr_range : forall fp last, suppression p !! fp = Some last -> timestamp_ms last /\ last <= now;
  tr_source : forall fp last, suppression p !! fp = Some last -> mkEmission fp last ∈ log
}.

Lemma tracks_later p log now now' : now <= now' -> tracks p log now -> tracks p log now'.
Proof.
  intros Hle [Ha Hl Hr Hs]. constructor; [| | |done].
  - intros fp t Ht. apply Ha. lia.
  - intros e He. specialize (Hl e He). lia.
  - intros fp last Hlast. destruct (Hr _ _ Hlast). split; [done|lia].
Qed.

Lemma suppressed_snoc w log e fp t :
  suppressed w (log ++ [e]) fp t =
  suppressed w log fp t || (bool_decide (em_fingerprint e = fp) && (t - em_time e <? w)).
Proof. unfold suppressed. rewrite existsb_app. cbn. by rewrite orb_false_r. Qed.

(** The sweep forgets only what could not suppress any more. *)
Lemma prune_expired_recently p log now t fp :
  tracks p log now -> timestamp_ms now -> now <= t ->
  recently (prune_expired p now) fp t = recently p fp t.
Proof.
  intros [_ _ Hr _] Hnow Ht. unfold prune_expired. destruct (_ <? _)%nat; [done|].
  unfold recently. cbn [suppression suppression_window_ms].
  destruct (suppression p !! fp) as [last|] eqn:E.
  - destruct (Hr _ _ E) as [Hlast Hle].
    assert (Hs : i64_saturating_sub now last = now - last)
      by (unfold i64_saturating_sub, timestamp_ms in *; lia).
    destruct (decide (now - last < suppression_window_ms p)) as [Hin|Hout].
    + erewrite map_lookup_filter_Some_2; [done|done|cbn; lia].
    + rewrite map_lookup_filter_None_2; [lia|]. right. intros last' Hl. cbn. rewrite E in Hl.
      injection Hl as <-. lia.
  - by rewrite map_lookup_filter_None_2 by auto.
Qed.

Lemma prune_expired_fields p now :
  suppression_window_ms (prune_expired p now) = suppression_window_ms p /\
  grid_resolution (prune_expired p now) = grid_resolution p /\ sinks (prune_expired p now) = sinks p /\
  suppression (prune_expired p now) ⊆ suppression p.
Proof. unfold prune_expired. destruct (_ <? _)%nat; split_and!; try done. cbn. apply map_filter_subseteq. Qed.

Lemma tracks_emit p log now fp :
  tracks p log now -> timestamp_ms now ->
  let q := prune_expired p now in
  tracks (mkAlertPipeline (<[fp := now]> (suppression q)) (prune_threshold q) (suppression_window_ms q)
            (grid_resolution q) (sinks q)) (log ++ [mkEmission fp now]) now.
Proof.
  intros Htr Hnow q. pose proof (prune_expired_fields p now) as (Hw & _ & _ & Hsub).
  pose proof (fun t fp => prune_expired_recently p log now t fp Htr Hnow) as Hq. fold q in Hw, Hsub, Hq.
  destruct Htr as [Ha Hl Hr Hsrc]. constructor; cbn [suppression suppression_window_ms].
  - intros fp' t Ht. rewrite Hw, suppressed_snoc. cbn [em_fingerprint em_time].
    unfold recently. cbn [suppression suppression_window_ms]. rewrite ?Hw.
    destruct (decide (fp = fp')) as [->|Hne].
    + rewrite lookup_insert_eq, bool_decide_eq_true_2 by done. cbn [andb].
      destruct (suppressed (suppression_window_ms p) log fp' t) eqn:Es; [|done]. cbn.
      unfold suppressed in Es. apply existsb_exists in Es as (e & He & [_ Hlt]%andb_true_iff).
      apply list_elem_of_In in He. specialize (Hl e He). lia.
    + rewrite lookup_insert_ne, bool_decide_eq_false_2 by done. cbn [andb]. rewrite orb_false_r.
      rewrite <- Ha by done. rewrite <- Hq by done. unfold recently. by rewrite Hw.
  - intros e [He| ->%list_elem_of_singleton]%elem_of_app; [by apply Hl|cbn; lia].
  - intros fp' last [[<- <-]|[_ Hlast]]%lookup_insert_Some; [split; [done|lia]|].
    rewrite map_subseteq_spec in Hsub. by eapply Hr, Hsub.
  - intros fp' last [[<- <-]|[_ Hlast]]%lookup_insert_Some; apply elem_of_app.
    + right. by apply list_elem_of_singleton.
    + left. rewrite map_subseteq_spec in Hsub. by apply Hsrc, Hsub.
Qed.

(** One call of [process]. *)
Lemma process_refines p log now input :
  tracks p log now -> now <= env_now input.2 -> timestamp_ms (env_now input.2) ->
  let '(p', alert, _) := process p input.1.1 input.1.2 input.2 in
  alert = spec_alert p log input /\
  tracks p' (log_alert log (env_now input.2) alert) (env_now input.2) /\
  suppression_window_ms p' = suppression_window_ms p /\ grid_resolution p' = grid_resolution p.
Proof.
  intros Htr Hle Hts. destruct input as [[agg conv] env]. cbn [fst snd] in *.
  apply (tracks_later _ _ _ _ Hle) in Htr. unfold process, spec_alert.
  destruct (classify (ag_score agg) conv) as [sev|]; [|by split_and!]. cbn [mbind option_bind].
  set (fp := fingerprint (grid_resolution p) agg sev).
  pose proof (tr_answers _ _ _ Htr fp (env_now env) ltac:(lia)) as Hans. unfold recently in Hans.
  rewrite Hans. destruct (suppressed _ _ _ _); [by split_and!|].
  pose proof (prune_expired_fields p (env_now env)) as (Hw & Hg & _ & _).
  split_and!; [done|by apply tracks_emit|done|done].
Qed.

Lemma spec_all_fields p p' log inputs :
  suppression_window_ms p' = suppression_window_ms p -> grid_resolution p' = grid_resolution p ->
  spec_all p' log inputs = spec_all p log inputs.
Proof.
  intros Hw Hg. revert log. induction inputs as [|[[agg conv] env] inputs IH]; intros log; [done|].
  cbn [spec_all snd]. unfold spec_alert at 1 2 3. rewrite Hw, Hg. f_equal. apply IH.
Qed.

Lemma process_all_refines inputs : forall p log now,
  tracks p log now -> clock_ok inputs -> Forall (fun i => now <= env_now i.2) inputs ->
  (process_all p inputs).2 = spec_all p log inputs.
Proof.
  induction inputs as [|input inputs IH]; intros p log now Htr [Hs Hts] Hnow; [done|].
  cbn [map] in Hs. apply StronglySorted_inv in Hs as [Hs Hall].
  apply Forall_cons in Hts as [Ht Hts]. apply Forall_cons in Hnow as [Hn _].
  pose proof (process_refines p log now input Htr Hn Ht) as Hp. cbn [process_all].
  destruct input as [[agg conv] env]. cbn [fst snd] in *.
  destruct (process p agg conv env) as [[p' alert] out]. destruct Hp as (-> & Htr' & Hw & Hg).
  specialize (IH p' _ _ Htr' (conj Hs Hts)). destruct (process_all p' inputs) as [p'' alerts].
  cbn [spec_all snd] in *. f_equal. rewrite IH; [by apply spec_all_fields|]. by rewrite Forall_map in Hall.
Qed.

Lemma new_tracks secs res now : tracks (AlertPipeline_new secs res) [] now.
Proof.
  constructor.
  - intros fp t _. unfold recently. cbn. by rewrite lookup_empty.
  - by intros e ?%not_elem_of_nil.
  - intros fp last. cbn. by rewrite lookup_empty.
  - intros fp last. cbn. by rewrite lookup_empty.
Qed.

Lemma process_new_refines secs res inputs :
  clock_ok inputs ->
  (process_all (AlertPipeline_new secs res) inputs).2 = spec_all (AlertPipeline_new secs res) [] inputs.
Proof.
  intros Hc. destruct inputs as [|i inputs]; [done|]. pose proof Hc as [Hs _].
  apply (process_all_refines _ _ _ (env_now i.2)); [apply new_tracks|done|].
  cbn [map] in Hs. apply StronglySorted_inv in Hs as [_ Hall]. constructor; [lia|].
  by rewrite Forall_map in Hall.
Qed.

(** C32. Sweeping the suppression map is invisible: on any run whose clock does
    not go backwards, the pipeline returns exactly the alerts of the specification
    that remembers every emission and drops a notable signal precisely when an
    alert with its fingerprint was emitted less than the window before. *)
Theorem alert_pipeline_refines (secs res : Z) (inputs : list Input) :
  clock_ok inputs ->
  (process_all (AlertPipeline_new secs res) inputs).2 = spec_all (AlertPipeline_new secs res) [] inputs.
Proof. apply process_new_refines. Qed.

Lemma alert_pipeline_refines_witness :
  let agg t := (mkAggregated (at_origin rf_beacon t) (Anomalous f64_infinity) None None, None, mkEnv t t t) in
  map (fun a => is_Some (a : option Alert))
    (process_all (AlertPipeline_new 60 10000) [agg 1000; agg 30000; agg 61000]).2 =
  [is_Some (spec_alert (AlertPipeline_new 60 10000) [] (agg 1000)); is_Some (@None Alert);
   is_Some (spec_alert (AlertPipeline_new 60 10000) [] (agg 61000))].
Proof.
  cbv zeta. rewrite alert_pipeline_refines; [vm_compute; reflexivity|].
  split; repeat constructor; vm_compute; congruence.
Defined.

(** ** Rate limit *)

Lemma spec_all_after inputs : forall p log j input a,
  inputs !! j = Some input -> spec_all p log inputs !! j = Some (Some a) ->
  forall e, e ∈ log -> em_fingerprint e = al_fingerprint a ->
  suppression_window_ms p <= env_now input.2 - em_time e.
Proof.
  induction inputs as [|i inputs IH]; intros p log j input a Hi Ha e He Hfp; [done|].
  destruct j as [|j]; cbn [spec_all lookup list_lookup] in Hi, Ha.
  - injection Hi as ->. injection Ha as Ha. destruct input as [[agg conv] env]. unfold spec_alert in Ha.
    destruct (classify _ _) as [sev|]; [|done]. cbn [mbind option_bind] in Ha.
    destruct (suppressed _ _ _ _) eqn:Es; [done|]. injection Ha as <-. cbn [al_fingerprint snd] in *.
    unfold suppressed in Es. apply not_true_iff_false in Es.
    destruct (decide (suppression_window_ms p <= env_now env - em_time e)); [done|]. exfalso. apply Es.
    apply existsb_exists. exists e. rewrite <- list_elem_of_In. split; [done|].
    rewrite Hfp, bool_decide_eq_true_2 by done. cbn [andb]. lia.
  - eapply IH; [exact Hi|exact Ha| |done]. unfold log_alert. destruct (spec_alert p log i); [|done].
    apply elem_of_app. by left.
Qed.

Lemma spec_all_spaced inputs : forall p log i j input_i input_j a b,
  (i < j)%nat -> inputs !! i = Some input_i -> inputs !! j = Some input_j ->
  spec_all p log inputs !! i = Some (Some a) -> spec_all p log inputs !! j = Some (Some b) ->
  al_fingerprint a = al_fingerprint b ->
  suppression_window_ms p <= env_now input_j.2 - env_now input_i.2.
Proof.
  induction inputs as [|x inputs IH]; intros p log i j input_i input_j a b Hij Hi Hj Ha Hb Hfp; [done|].
  destruct j as [|j]; [lia|]. destruct i as [|i]; cbn [spec_all lookup list_lookup] in *.
  - injection Hi as ->. injection Ha as Ha. rewrite Ha in Hb. cbn [log_alert] in Hb.
    apply (spec_all_after inputs p _ j input_j b Hj Hb (mkEmission (al_fingerprint a) (env_now input_i.2)));
      [|done]. apply elem_of_app. right. by apply list_elem_of_singleton.
  - eapply (IH p _ i j); eauto. lia.
Qed.

(** Two alerts with the same fingerprint are at least the suppression window
    apart, however the signals between them vary and whenever the map is swept. *)
Theorem alerts_spaced (secs res : Z) (inputs : list Input) (i j : nat) (input_i input_j : Input)
    (a b : Alert) :
  clock_ok inputs -> (i < j)%nat ->
  inputs !! i = Some input_i -> inputs !! j = Some input_j ->
  let alerts := (process_all (AlertPipeline_new secs res) inputs).2 in
  alerts !! i = Some (Some a) -> alerts !! j = Some (Some b) ->
  al_fingerprint a = al_fingerprint b ->
  suppression_window_ms (AlertPipeline_new secs res) <= env_now input_j.2 - env_now input_i.2.
Proof.
  intros Hc Hij Hi Hj alerts Ha Hb Hfp. unfold alerts in *. rewrite process_new_refines in Ha, Hb by done.
  by eapply spec_all_spaced.
Qed.

Definition sample_input (t : Z) : Input :=
  (mkAggregated (at_origin rf_beacon t) (Anomalous f64_infinity) None None, None, mkEnv t t t).

Lemma alerts_spaced_witness : suppression_window_ms (AlertPipeline_new 60 10000) <= 61000 - 1000.
Proof.
  eapply (alerts_spaced 60 10000 [sample_input 1000; sample_input 30000; sample_input 61000] 0 2
            (sample_input 1000) (sample_input 61000)).
  - split; repeat constructor; vm_compute; congruence.
  - lia.
  - reflexivity.
  - reflexivity.
  - vm_compute. reflexivity.
  - vm_compute. reflexivity.
  - reflexivity.
Defined.

(** ** Memory *)

(** The emissions of a run after [log]. *)
Fixpoint emissions (p : AlertPipeline) (log : list Emission) (inputs : list Input) : list Emission :=
  match inputs with
  | [] => log
  | input :: inputs => emissions p (log_alert log (env_now input.2) (spec_alert p log input)) inputs
  end.

(** The fingerprints alerted less than the window before [t]. *)
Definition active (window : Z) (log : list Emission) (t : Z) : gset AlertFingerprint :=
  list_to_set (map em_fingerprint
    (List.filter (fun e => (em_time e <=? t) && (t - em_time e <? window)) log)).

Lemma emissions_extend inputs : forall p log e, e ∈ log -> e ∈ emissions p log inputs.
Proof.
  induction inputs as [|i inputs IH]; intros p log e He; [done|]. apply IH.
  unfold log_alert. destruct (spec_alert p log i); [|done]. apply elem_of_app. by left.
Qed.

Lemma emissions_fields p p' log inputs :
  suppression_window_ms p' = suppression_window_ms p -> grid_resolution p' = grid_resolution p ->
  emissions p' log inputs = emissions p log inputs.
Proof.
  intros Hw Hg. revert log. induction inputs as [|[[agg conv] env] inputs IH]; intros log; [done|].
  cbn [emissions snd]. unfold spec_alert at 1 2. rewrite Hw, Hg. apply IH.
Qed.

Definition within_budget (K : nat) (p : AlertPipeline) : Prop :=
  (size (suppression p) <= prune_threshold p)%nat /\
  (prune_threshold p <= Nat.max MIN_PRUNE_THRESHOLD (2 * K))%nat /\
  (MIN_PRUNE_THRESHOLD <= prune_threshold p)%nat.

Definition survivors (p : AlertPipeline) (now : Z) : gmap AlertFingerprint Z :=
  filter (fun kv => i64_saturating_sub now kv.2 < suppression_window_ms p) (suppression p).

Lemma survivors_active p log now full :
  tracks p log now -> timestamp_ms now -> (forall e, e ∈ log -> e ∈ full) ->
  (size (survivors p now) <= size (active (suppression_window_ms p) full now))%nat.
Proof.
  intros Htr Hnow Hfull. rewrite <- size_dom. apply subseteq_size. intros fp [last Hl]%elem_of_dom.
  apply map_lookup_filter_Some in Hl as [Hl Hlt]. cbn in Hlt.
  destruct (tr_range _ _ _ Htr _ _ Hl) as [Hts Hle].
  apply elem_of_list_to_set, list_elem_of_fmap. exists (mkEmission fp last). split; [done|].
  rewrite list_elem_of_In, filter_In, <- list_elem_of_In. split; [by apply Hfull, (tr_source _ _ _ Htr)|].
  cbn [em_time]. unfold i64_saturating_sub, timestamp_ms in *. lia.
Qed.

Lemma insert_budget K p fp now q :
  within_budget K p -> q = prune_expired p now ->
  (size (survivors p now) <= K)%nat ->
  within_budget K (mkAlertPipeline (<[fp := now]> (suppression q)) (prune_threshold q)
                     (suppression_window_ms q) (grid_resolution q) (sinks q)).
Proof.
  intros (Hs & Ht & Hm) -> Hk. unfold within_budget, prune_expired. cbn [suppression prune_threshold].
  assert (Hins : forall m : gmap AlertFingerprint Z, (size (<[fp := now]> m) <= S (size m))%nat).
  { intros m. rewrite map_size_insert. destruct (m !! fp); cbn; lia. }
  destruct (size (suppression p) <? prune_threshold p)%nat eqn:E; cbn [suppression prune_threshold].
  - specialize (Hins (suppression p)). apply Nat.ltb_lt in E. split_and!; [lia|done|done].
  - fold (survivors p now). set (kept := survivors p now) in *. specialize (Hins kept).
    assert (1 <= MIN_PRUNE_THRESHOLD)%nat by (unfold MIN_PRUNE_THRESHOLD; lia).
    split_and!; lia.
Qed.

Lemma process_all_budget K inputs : forall p log now,
  tracks p log now -> within_budget K p ->
  clock_ok inputs -> Forall (fun i => now <= env_now i.2) inputs ->
  (forall t, t ∈ map (fun i => env_now i.2) inputs ->
     size (active (suppression_window_ms p) (emissions p log inputs) t) <= K)%nat ->
  within_budget K (process_all p inputs).1.
Proof.
  induction inputs as [|input inputs IH]; intros p log now Htr Hb [Hs Hts] Hnow HK; [done|].
  cbn [map] in Hs. apply StronglySorted_inv in Hs as [Hs Hall].
  apply Forall_cons in Hts as [Ht Hts]. apply Forall_cons in Hnow as [Hn _].
  pose proof (process_refines p log now input Htr Hn Ht) as Hp.
  destruct input as [[agg conv] env]. cbn [fst snd process_all emissions map] in *.
  assert (Hb' : within_budget K (process p agg conv env).1.1).
  { unfold process. destruct (classify _ _) as [sev|]; [|done]. destruct (match _ with Some _ => _ | None => _ end);
      [done|]. cbn [fst]. eapply insert_budget; [done|done|].
    etransitivity; [|apply (HK (env_now env)), list_elem_of_here].
    apply (survivors_active p log); [by eapply tracks_later|done|]. intros e He. apply emissions_extend.
    unfold log_alert. destruct (spec_alert _ _ _); [|done]. apply elem_of_app. by left. }
  destruct (process p agg conv env) as [[p' alert] out]. cbn [fst] in Hb'. destruct Hp as (-> & Htr' & Hw & Hg).
  specialize (IH p' _ _ Htr' Hb' (conj Hs Hts)). destruct (process_all p' inputs) as [p'' alerts].
  cbn [fst] in *. apply IH; [by rewrite Forall_map in Hall|].
  intros t Hin. rewrite Hw, (emissions_fields p) by done. by apply HK, list_elem_of_further.
Qed.

(** The suppression map cannot be grown by varying the fingerprint: when no
    more than [K] fingerprints are alerted within any window, it never holds more
    than twice as many entries, or the minimum sweep size of 64. *)
Theorem suppression_map_bounded (K : nat) (secs res : Z) (inputs : list Input) :
  let p := AlertPipeline_new secs res in
  clock_ok inputs ->
  (forall t, t ∈ map (fun i => env_now i.2) inputs ->
     size (active (suppression_window_ms p) (emissions p [] inputs) t) <= K)%nat ->
  (size (suppression (process_all p inputs).1) <= Nat.max 64 (2 * K))%nat.
Proof.
  intros p Hc HK. destruct inputs as [|i inputs]; [cbn; rewrite map_size_empty; lia|].
  assert (Hb : within_budget K (process_all p (i :: inputs)).1).
  { apply (process_all_budget K _ p [] (env_now i.2)); [apply new_tracks| |done| |done].
    - unfold within_budget, p, AlertPipeline_new, MIN_PRUNE_THRESHOLD. cbn [suppression prune_threshold].
      rewrite map_size_empty. lia.
    - destruct Hc as [Hs _]. cbn [map] in Hs. apply StronglySorted_inv in Hs as [_ Hall].
      constructor; [lia|]. by rewrite Forall_map in Hall. }
  destruct Hb as (Hs & Ht & _). unfold MIN_PRUNE_THRESHOLD in Ht. lia.
Qed.

Lemma suppression_map_bounded_witness :
  (size (suppression (process_all (AlertPipeline_new 60 10000)
          [sample_input 1000; sample_input 30000; sample_input 61000]).1) <= 64)%nat.
Proof.
  apply (suppression_map_bounded 1 60 10000 [sample_input 1000; sample_input 30000; sample_input 61000]).
  - split; repeat constructor; vm_compute; congruence.
  - cbn [map sample_input snd env_now]. intros t Ht. repeat (apply elem_of_cons in Ht as [->|Ht]);
      [apply Nat.leb_le; vm_compute; reflexivity..|]. by apply not_elem_of_nil in Ht.
Defined.
