(* ===== verification/Pipeline.v ===== *)
(** * The signal pipeline (crates/semaino/src/pipeline.rs)

    [SemainoPipeline::run]: the caller's broadcast is drained by one task, scored
    by another, and the main loop ingests, forwards and alerts. The three tasks
    and the queues between them are a transition system; every scheduling of the
    tasks is a sequence of its steps. A clock read is whatever the step gets. *)

From S2P Require Import Prelude Float Signal Baseline Convergence Aggregator Alert.

Local Open Scope Z_scope.

Record SemainoConfig : Type := mkSemainoConfig {
  sc_grid_resolution : Z; sc_time_window_secs : Z; sc_suppression_window_secs : Z;
  sc_min_convergence_domains : nat }.
Definition SemainoConfig_default : SemainoConfig := mkSemainoConfig 10000 30 60 2.

Record SemainoPipeline : Type := mkPipeline {
  sp_grid : ConvergenceGrid; sp_alerts : AlertPipeline; sp_time_window : Duration;
  sp_min_convergence_domains : nat }.

Definition SemainoPipeline_new (config : SemainoConfig) : SemainoPipeline :=
  mkPipeline (ConvergenceGrid_new (sc_grid_resolution config))
    (AlertPipeline_new (sc_suppression_window_secs config) (sc_grid_resolution config))
    (duration_from_secs (sc_time_window_secs config)) (sc_min_convergence_domains config).

Definition pipeline_add_sink (p : SemainoPipeline) (sink : Z) : SemainoPipeline :=
  mkPipeline (sp_grid p) (add_sink (sp_alerts p) sink) (sp_time_window p) (sp_min_convergence_domains p).

(** [handle_aggregated]: its clock read and those of [process]. *)
Definition handle_aggregated (p : SemainoPipeline) (aggregated : AggregatedSignal) (now : Z) (env : Env)
  : SemainoPipeline * option Alert :=
  let grid := ingest (sp_grid p) (ag_signal aggregated) in
  let matching_convergence :=
    coords ← gs_location (ag_signal aggregated);
    detect_at grid coords (sp_min_convergence_domains p) (sp_time_window p) now in
  let '(alerts, alert, _) := process (sp_alerts p) aggregated matching_convergence env in
  (mkPipeline grid alerts (sp_time_window p) (sp_min_convergence_domains p), alert).

Section Pipeline.
(** The calendar, and the milliseconds [Timestamp::from_unix_millis] accepts. *)
Context (utc : Z -> option (Weekday * Z)) (from_unix_millis_ok : Z -> bool).

(** The main loop's part for a raw signal: ingestion and the periodic eviction. *)
Definition ingest_signal (p : SemainoPipeline) (s : GeoSignal) (now : Z) : SemainoPipeline :=
  let grid := ingest (sp_grid p) s in
  let evict_before_ms := window_cutoff (sp_time_window p) now in
  let grid := if from_unix_millis_ok evict_before_ms then evict grid evict_before_ms else grid in
  mkPipeline grid (sp_alerts p) (sp_time_window p) (sp_min_convergence_domains p).

(** ** The tasks *)

(** What the broadcast receiver yields before it is closed. *)
Inductive Received : Type := RSignal (s : GeoSignal) | RLagged (n : Z).

Inductive FanPhase : Type := FanRecv | FanSend (s : GeoSignal) | FanDone.
Inductive MainPhase : Type := Running | Sending (s : GeoSignal) | Draining | Finished.

Definition CHANNEL_CAPACITY : nat := 256.

Record RunState : Type := mkRun {
  broadcast : list Received;             (* not yet received by the drain task *)
  fan : FanPhase;
  signal_queue : list GeoSignal;
  main : MainPhase;
  pipeline : SemainoPipeline;
  inner_queue : list GeoSignal;
  aggregator : SignalAggregator;
  aggregator_alive : bool;
  agg_queue : list AggregatedSignal;
  ingested : list GeoSignal;             (* history of the main loop *)
  handled : list AggregatedSignal
}.

Definition run_start (config : SemainoConfig) (rx : list Received) : RunState :=
  mkRun rx FanRecv [] Running (SemainoPipeline_new config) [] SignalAggregator_new true [] [] [].

(** The sender of the aggregator's input is dropped when the main loop ends. *)
Definition inner_open (m : MainPhase) : bool :=
  match m with Running | Sending _ => true | Draining | Finished => false end.

Inductive step : RunState -> RunState -> Prop :=
| step_fan_recv s rx sq m p iq a al aq ig h :
    step (mkRun (RSignal s :: rx) FanRecv sq m p iq a al aq ig h)
         (mkRun rx (FanSend s) sq m p iq a al aq ig h)
| step_fan_lagged n rx sq m p iq a al aq ig h :
    step (mkRun (RLagged n :: rx) FanRecv sq m p iq a al aq ig h)
         (mkRun rx FanRecv sq m p iq a al aq ig h)
| step_fan_closed sq m p iq a al aq ig h :
    step (mkRun [] FanRecv sq m p iq a al aq ig h) (mkRun [] FanDone sq m p iq a al aq ig h)
| step_fan_send s rx sq m p iq a al aq ig h :
    (length sq < CHANNEL_CAPACITY)%nat ->
    step (mkRun rx (FanSend s) sq m p iq a al aq ig h)
         (mkRun rx FanRecv (sq ++ [s]) m p iq a al aq ig h)
| step_main_handle x aq now env rx f sq p iq a al ig h :
    step (mkRun rx f sq Running p iq a al (x :: aq) ig h)
         (mkRun rx f sq Running (handle_aggregated p x now env).1 iq a al aq ig (h ++ [x]))
| step_main_ingest s sq now rx f p iq a al aq ig h :
    step (mkRun rx f (s :: sq) Running p iq a al aq ig h)
         (mkRun rx f sq (Sending s) (ingest_signal p s now) iq a al aq (ig ++ [s]) h)
| step_main_send s rx f sq p iq a aq ig h :
    (length iq < CHANNEL_CAPACITY)%nat ->
    step (mkRun rx f sq (Sending s) p iq a true aq ig h)
         (mkRun rx f sq Running p (iq ++ [s]) a true aq ig h)
| step_main_break rx p iq a al aq ig h :
    step (mkRun rx FanDone [] Running p iq a al aq ig h)
         (mkRun rx FanDone [] Draining p iq a al aq ig h)
| step_drain_handle x aq now env rx f sq p iq a al ig h :
    step (mkRun rx f sq Draining p iq a al (x :: aq) ig h)
         (mkRun rx f sq Draining (handle_aggregated p x now env).1 iq a al aq ig (h ++ [x]))
| step_drain_done rx f sq p iq a ig h :
    step (mkRun rx f sq Draining p iq a false [] ig h) (mkRun rx f sq Finished p iq a false [] ig h)
| step_aggregate s iq rx f sq m p a aq ig h :
    step (mkRun rx f sq m p (s :: iq) a true aq ig h)
         (mkRun rx f sq m p iq (aggregate utc a s).1 true
                (aq ++ match (aggregate utc a s).2 with Some x => [x] | None => [] end) ig h)
| step_aggregator_exit rx f sq m p a aq ig h :
    inner_open m = false ->
    step (mkRun rx f sq m p [] a true aq ig h) (mkRun rx f sq m p [] a false aq ig h).

(** * Lemmas *)

Definition signals_of (rx : list Received) : list GeoSignal :=
  omap (fun r => match r with RSignal s => Some s | RLagged _ => None end) rx.
Definition fan_holds (f : FanPhase) : list GeoSignal := match f with FanSend s => [s] | _ => [] end.
Definition main_holds (m : MainPhase) : list GeoSignal := match m with Sending s => [s] | _ => [] end.

(** Where every signal is: nothing is lost, duplicated or reordered. *)
Record accounted (input : list GeoSignal) (st : RunState) : Prop := {
  ac_received : input = ingested st ++ signal_queue st ++ fan_holds (fan st) ++ signals_of (broadcast st);
  ac_scored : exists past,
    ingested st = past ++ inner_queue st ++ main_holds (main st) /\
    aggregate_all utc SignalAggregator_new past = (aggregator st, handled st ++ agg_queue st);
  ac_signal_queue : (length (signal_queue st) <= CHANNEL_CAPACITY)%nat;
  ac_inner_queue : (length (inner_queue st) <= CHANNEL_CAPACITY)%nat;
  ac_drained : inner_open (main st) = false -> fan st = FanDone /\ signal_queue st = [];
  ac_fan_done : fan st = FanDone -> broadcast st = [];
  ac_alive : aggregator_alive st = false -> inner_open (main st) = false /\ inner_queue st = [];
  ac_finished : main st = Finished -> aggregator_alive st = false /\ agg_queue st = []
}.

Lemma aggregate_all_snoc signals : forall a s,
  aggregate_all utc a (signals ++ [s]) =
  let '(a', outs) := aggregate_all utc a signals in
  ((aggregate utc a' s).1, outs ++ match (aggregate utc a' s).2 with Some x => [x] | None => [] end).
Proof.
  induction signals as [|x signals IH]; intros a s; cbn [aggregate_all app].
  - destruct (aggregate utc a s) as [a' [x|]]; done.
  - destruct (aggregate utc a x) as [a1 out]. rewrite IH.
    destruct (aggregate_all utc a1 signals) as [a2 outs]. by destruct out.
Qed.

Lemma accounted_start config rx : accounted (signals_of rx) (run_start config rx).
Proof. constructor; cbn; try done; try lia. by exists []. Qed.

Lemma accounted_step input st st' : accounted input st -> step st st' -> accounted input st'.
Proof.
  intros [Hr (past & Hp & Ha) Hsq Hiq Hd Hf Hal Hfin] Hs.
  inversion Hs; subst; clear Hs;
    cbn [broadcast fan signal_queue main inner_queue aggregator aggregator_alive agg_queue ingested handled
         fan_holds main_holds inner_open signals_of omap app] in *;
    constructor;
    cbn [broadcast fan signal_queue main inner_queue aggregator aggregator_alive agg_queue ingested handled
         fan_holds main_holds inner_open app] in *;
    try done; try (rewrite length_app; cbn; lia); try (cbn in *; lia); try (by eauto).
  all: try (by intros [? ?]%Hd); try (rewrite <- ?app_assoc; done).
  - exists past. by rewrite <- app_assoc.
  - exists past. rewrite Hp, app_nil_r, <- app_assoc. done.
  - exists past. rewrite Hp, app_nil_r. done.
  - exists past. by rewrite <- app_assoc.
  - exists (past ++ [s]). rewrite aggregate_all_snoc, Ha, <- !app_assoc. done.
  - intros Hm. by destruct (Hfin Hm).
  - intros Hm. by destruct (Hfin Hm).
Qed.

Lemma accounted_reachable config rx st :
  rtc step (run_start config rx) st -> accounted (signals_of rx) st.
Proof.
  intros Hst. pose proof (accounted_start config rx) as Hacc. revert Hacc.
  induction Hst as [|st1 st2 st3 Hs _ IH]; [done|]. intros Hacc. apply IH. by eapply accounted_step.
Qed.

(** ** Ordering *)

(** Every output belongs to a signal, with exactly the earlier ones scored. *)
Lemma aggregate_all_output signals : forall a x,
  x ∈ (aggregate_all utc a signals).2 ->
  exists before after, signals = before ++ ag_signal x :: after /\
    (aggregate utc (aggregate_all utc a before).1 (ag_signal x)).2 = Some x.
Proof.
  induction signals as [|s signals IH] using rev_ind; intros a x; [by intros ?%not_elem_of_nil|].
  rewrite aggregate_all_snoc. destruct (aggregate_all utc a signals) as [a' outs] eqn:E. cbn [fst snd].
  intros [Hx|Hx]%elem_of_app.
  - destruct (IH a x) as (before & after & -> & Hs); [by rewrite E|].
    exists before, (after ++ [s]). by rewrite <- app_assoc.
  - destruct (aggregate utc a' s).2 as [y|] eqn:Ey; [|by apply not_elem_of_nil in Hx].
    apply list_elem_of_singleton in Hx as ->.
    assert (Hy : ag_signal y = s).
    { unfold aggregate in Ey. destruct (extract_feature s); [|done].
      destruct (day_hour_from_timestamp _ _). destruct (match bucket _ _ _ with Some _ => _ | None => _ end).
      cbn [snd] in Ey. destruct (is_notable _); [|done]. by injection Ey as <-. }
    exists signals, []. rewrite Hy, E. done.
Qed.

(** Detection never runs on a grid that is behind: in every reachable state,
    under any interleaving of the tasks, an aggregate that waits for the main loop
    was scored for a signal which the loop has already ingested together with
    everything the pipeline received before it, in the order received. *)
Theorem aggregates_follow_ingestion (config : SemainoConfig) (rx : list Received) (st : RunState)
    (x : AggregatedSignal) :
  rtc step (run_start config rx) st -> x ∈ handled st ++ agg_queue st ->
  exists before after rest,
    ingested st = before ++ ag_signal x :: after /\ signals_of rx = ingested st ++ rest /\
    (aggregate utc (aggregate_all utc SignalAggregator_new before).1 (ag_signal x)).2 = Some x.
Proof.
  intros Hst Hx. destruct (accounted_reachable _ _ _ Hst) as [Hr (past & Hp & Ha) _ _ _ _ _ _].
  destruct (aggregate_all_output past SignalAggregator_new x) as (before & after & -> & Hs).
  { by rewrite Ha. }
  exists before, (after ++ inner_queue st ++ main_holds (main st)).
  eexists. split; [rewrite Hp, <- app_assoc; done|]. split; [exact Hr|done].
Qed.

(** ** Progress and termination *)

Lemma progress input st : accounted input st -> main st <> Finished -> exists st', step st st'.
Proof.
  intros [_ _ Hsq Hiq Hd Hf Hal _] Hm. destruct st as [rx f sq m p iq a al aq ig h].
  cbn [broadcast fan signal_queue main inner_queue aggregator_alive] in *.
  destruct al.
  - destruct iq as [|s iq]; [|eexists; apply step_aggregate].
    destruct m as [|s| |]; [| | |done].
    + destruct aq as [|x aq]; [|eexists; by apply (step_main_handle x aq 0 (mkEnv 0 0 0))].
      destruct sq as [|s sq]; [|eexists; by apply (step_main_ingest s sq 0)].
      destruct f as [|s|]; [|eexists; apply step_fan_send; unfold CHANNEL_CAPACITY; cbn; lia
                             |eexists; apply step_main_break].
      destruct rx as [|[s|n] rx]; eexists; constructor.
    + eexists. apply step_main_send. unfold CHANNEL_CAPACITY. cbn. lia.
    + eexists. by apply step_aggregator_exit.
  - destruct (Hal eq_refl) as [Hopen ->]. destruct m as [|s| |]; [done|done| |done].
    destruct aq as [|x aq]; [eexists; apply step_drain_done|].
    eexists. by apply (step_drain_handle x aq 0 (mkEnv 0 0 0)).
Qed.

(** Work left: each signal has to pass the stages in front of it. *)
Definition work (st : RunState) : nat :=
  (sum_list (map (fun r => match r with RSignal _ => 7 | RLagged _ => 1 end) (broadcast st))
   + 6 * length (fan_holds (fan st)) + 5 * length (signal_queue st) + 4 * length (main_holds (main st))
   + 3 * length (inner_queue st) + length (agg_queue st)
   + match fan st with FanDone => 0 | _ => 1 end
   + match main st with Running | Sending _ => 2 | Draining => 1 | Finished => 0 end
   + if aggregator_alive st then 1 else 0)%nat.

Lemma step_work st st' : step st st' -> (work st' < work st)%nat.
Proof.
  intros Hs. inversion Hs; subst; unfold work;
    cbn [broadcast fan signal_queue main inner_queue aggregator_alive agg_queue fan_holds main_holds
         map sum_list id length];
    rewrite ?length_app; cbn [length]; try lia.
  destruct (aggregate utc a s).2; cbn [length]; lia.
Qed.

(** C31. [run] terminates and loses nothing: once the broadcast is closed, no
    schedule of the three tasks can deadlock or go on forever, and when the main
    task ends every received signal was ingested in order and every aggregate of
    the scored sequence was handled, in order and exactly once. *)
Theorem pipeline_terminates_lossless (config : SemainoConfig) (rx : list Received) (st : RunState) :
  rtc step (run_start config rx) st ->
  (main st <> Finished -> exists st', step st st') /\
  (forall st', step st st' -> (work st' < work st)%nat) /\
  (main st = Finished ->
     ingested st = signals_of rx /\
     handled st = (aggregate_all utc SignalAggregator_new (signals_of rx)).2).
Proof.
  intros Hst. pose proof (accounted_reachable _ _ _ Hst) as Hacc.
  split; [by eapply progress|]. split; [apply step_work|]. intros Hm.
  destruct Hacc as [Hr (past & Hp & Ha) _ _ Hd Hf Hal Hfin].
  destruct (Hfin Hm) as [Halive Haq]. destruct (Hal Halive) as [Hopen Hiq].
  destruct (Hd Hopen) as [Hfan Hsq]. rewrite Hfan, Hsq, (Hf Hfan) in Hr. cbn in Hr. rewrite app_nil_r in Hr.
  rewrite Hiq, Hm in Hp. cbn in Hp. rewrite app_nil_r in Hp.
  split; [done|]. rewrite Hr, Hp, Ha, Haq. cbn [snd]. by rewrite app_nil_r.
Qed.

(** The queues between the tasks stay within their capacity of 256 signals,
    whatever the rate at which signals arrive. *)
Theorem channels_bounded (config : SemainoConfig) (rx : list Received) (st : RunState) :
  rtc step (run_start config rx) st ->
  (length (signal_queue st) <= CHANNEL_CAPACITY)%nat /\ (length (inner_queue st) <= CHANNEL_CAPACITY)%nat.
Proof. intros Hst. by destruct (accounted_reachable _ _ _ Hst). Qed.

(** ** A scheduler

    One executable schedule, with every clock read at [now]: the first enabled
    step in the order aggregator, main loop, drain task. *)

Definition schedule (now : Z) (st : RunState) : option RunState :=
  let '(mkRun rx f sq m p iq a al aq ig h) := st in
  let env := mkEnv 0 now now in
  match al, iq, m, aq, sq, f, rx with
  | true, s :: iq, _, _, _, _, _ =>
      Some (mkRun rx f sq m p iq (aggregate utc a s).1 true
              (aq ++ match (aggregate utc a s).2 with Some x => [x] | None => [] end) ig h)
  | true, [], Sending s, _, _, _, _ => Some (mkRun rx f sq Running p ([] ++ [s]) a true aq ig h)
  | true, [], Draining, _, _, _, _ | true, [], Finished, _, _, _, _ =>
      Some (mkRun rx f sq m p [] a false aq ig h)
  | true, [], Running, x :: aq, _, _, _ =>
      Some (mkRun rx f sq Running (handle_aggregated p x now env).1 [] a true aq ig (h ++ [x]))
  | true, [], Running, [], s :: sq, _, _ =>
      Some (mkRun rx f sq (Sending s) (ingest_signal p s now) [] a true [] (ig ++ [s]) h)
  | true, [], Running, [], [], FanSend s, _ => Some (mkRun rx FanRecv ([] ++ [s]) Running p [] a true [] ig h)
  | true, [], Running, [], [], FanDone, _ => Some (mkRun rx FanDone [] Draining p [] a true [] ig h)
  | true, [], Running, [], [], FanRecv, RSignal s :: rx => Some (mkRun rx (FanSend s) [] Running p [] a true [] ig h)
  | true, [], Running, [], [], FanRecv, RLagged n :: rx => Some (mkRun rx FanRecv [] Running p [] a true [] ig h)
  | true, [], Running, [], [], FanRecv, [] => Some (mkRun [] FanDone [] Running p [] a true [] ig h)
  | false, _, Draining, x :: aq, _, _, _ =>
      Some (mkRun rx f sq Draining (handle_aggregated p x now env).1 iq a false aq ig (h ++ [x]))
  | false, _, Draining, [], _, _, _ => Some (mkRun rx f sq Finished p iq a false [] ig h)
  | _, _, _, _, _, _, _ => None
  end.

Lemma schedule_step now st st' : schedule now st = Some st' -> step st st'.
Proof.
  destruct st as [rx f sq m p iq a al aq ig h]. unfold schedule.
  destruct al, iq as [|s iq], m as [|s'| |], aq as [|x aq], sq as [|s'' sq], f as [|s3|], rx as [|[]];
    intros [= <-]; constructor; unfold CHANNEL_CAPACITY; cbn; (done || lia).
Qed.

Fixpoint run_schedule (fuel : nat) (now : Z) (st : RunState) : RunState :=
  match fuel with
  | O => st
  | S fuel => match schedule now st with Some st' => run_schedule fuel now st' | None => st end
  end.

Lemma run_schedule_reachable fuel now : forall st, rtc step st (run_schedule fuel now st).
Proof.
  induction fuel as [|fuel IH]; intros st; cbn; [apply rtc_refl|].
  destruct (schedule now st) as [st'|] eqn:E; [|apply rtc_refl].
  eapply rtc_l; [by eapply schedule_step|apply IH].
Qed.
End Pipeline.

(** Ten quiet signals and an outlier. *)
Definition demo_utc : Z -> option (Weekday * Z) := fun _ => Some (Monday, 3).
Definition demo_rx : list Received :=
  map RSignal (replicate 10 (hop_signal 1)) ++ [RLagged 5; RSignal (hop_signal 4)].
Definition demo_end : RunState :=
  run_schedule demo_utc (fun _ => true) 100 2000 (run_start SemainoConfig_default demo_rx).

Lemma aggregates_follow_ingestion_witness :
  exists x before after, handled demo_end = [x] /\ ingested demo_end = before ++ ag_signal x :: after.
Proof.
  assert (Hx : exists x, handled demo_end = [x]) by (vm_compute; eexists; reflexivity).
  destruct Hx as [x Hx]. exists x.
  destruct (aggregates_follow_ingestion demo_utc (fun _ => true) SemainoConfig_default demo_rx demo_end x)
    as (before & after & rest & Hi & _).
  - apply run_schedule_reachable.
  - rewrite Hx. apply list_elem_of_here.
  - exists before, after. split; [exact Hx|exact Hi].
Defined.

Lemma pipeline_terminates_lossless_witness :
  ingested demo_end = replicate 10 (hop_signal 1) ++ [hop_signal 4] /\ length (handled demo_end) = 1%nat.
Proof.
  destruct (pipeline_terminates_lossless demo_utc (fun _ => true) SemainoConfig_default demo_rx demo_end)
    as (_ & _ & Hfin).
  - apply run_schedule_reachable.
  - destruct Hfin as [Hi Hh]; [vm_compute; reflexivity|].
    split; [exact Hi|]. rewrite Hh. vm_compute. reflexivity.
Defined.

Lemma queues_bounded_witness : (length (signal_queue demo_end) <= CHANNEL_CAPACITY)%nat.
Proof.
  apply (channels_bounded demo_utc (fun _ => true) SemainoConfig_default demo_rx demo_end).
  apply run_schedule_reachable.
Defined.
