(* ===== verification/Handshake.v ===== *)
(** * The configuration handshake (crates/kerykeion/src/handshake.rs)

    What the host reads from the radio after [want_config_id] is a list of
    receive events; the handshake timeout firing is the end of the list. *)

From S2P Require Import Prelude Float MeshTypes Proto NodeDb.

Local Open Scope Z_scope.

Inductive HandshakeError : Type :=
| HConnection
| HTimedOut
| HRebooted
| HNoMyNodeInfo.

Record HandshakeResult : Type := mkHandshakeResult {
  my_node_num : NodeNum;
  channels : list Z;
  known_nodes : list MeshNode
}.

(** The literal [1e-7]. *)
Definition f64_1e_7 : f64 := f64_div (f64_of_Z 1) (f64_of_Z 10000000).

(** [jiff::Timestamp::from_second] of a [u32], in range for every value. *)
Definition timestamp_from_second (s : Z) : option Timestamp := Some (s * 1000).

Definition node_info_to_mesh_node (ni : NodeInfo) : MeshNode :=
  let user := (fun u => mkUserInfo (u_id u) (u_long_name u) (u_short_name u)
                          (default 0 (try_uint 32 (u_hw_model u))) (u_is_licensed u)) <$> ni_user ni in
  let position := (fun p => mkNodePosition
      (f64_mul (f64_of_Z (latitude_i p)) f64_1e_7)
      (f64_mul (f64_of_Z (longitude_i p)) f64_1e_7)
      (if negb (altitude p =? 0) then Some (altitude p) else None)
      (timestamp_from_second (pos_time p))) <$> ni_position ni in
  {| mn_num := ni_num ni; mn_user := user; mn_position := position; mn_metrics := None;
     mn_last_heard := if negb (ni_last_heard ni =? 0)
                      then timestamp_from_second (ni_last_heard ni) else None;
     mn_snr := if f32_eqb (ni_snr ni) f32_zero then None else Some (ni_snr ni);
     mn_hop_count := Some (as_uint 8 (ni_hops_away ni)) |}.

(** One [conn.recv().await]. *)
Inductive RecvEvent : Type :=
| Received (v : option FromRadioVariant)
| RecvFailed.

Record HandshakeState : Type := mkHS {
  hs_db : NodeDb; hs_my : option NodeNum; hs_channels : list Z; hs_nodes : list MeshNode }.

Section Handshake.
Context `{HashOrder} (want_config_id : Z).

(** The loop of [handshake_fut]. *)
Fixpoint handshake_loop (s : HandshakeState) (events : list RecvEvent)
  : result unit HandshakeError * HandshakeState :=
  match events with
  | [] => (Err HTimedOut, s)
  | RecvFailed :: _ => (Err HConnection, s)
  | Received v :: more =>
      match v with
      | Some (FRMyInfo num) =>
          handshake_loop (mkHS (set_my_node (hs_db s) num) (Some num) (hs_channels s) (hs_nodes s)) more
      | Some (FRNodeInfo ni) =>
          let node := node_info_to_mesh_node ni in
          let known :=
            if (length (hs_nodes s) <? MAX_LIVE_NODES)%nat then hs_nodes s ++ [node] else hs_nodes s in
          handshake_loop (mkHS (db_insert (hs_db s) node) (hs_my s) (hs_channels s) known) more
      | Some (FRChannel ch) =>
          let chans :=
            if (length (hs_channels s) <? Z.to_nat MAX_CHANNELS)%nat
            then hs_channels s ++ [ch] else hs_channels s in
          handshake_loop (mkHS (hs_db s) (hs_my s) chans (hs_nodes s)) more
      | Some (FRConfigCompleteId id) =>
          if id =? want_config_id then (Ok tt, s) else handshake_loop s more
      | Some (FRPacket _) => handshake_loop s more
      | Some (FRRebooted _) => (Err HRebooted, s)
      | None => handshake_loop s more
      end
  end.

(** [send_ok] is the outcome of sending [want_config_id]. *)
Definition handshake_with_config (node_db : NodeDb) (send_ok : bool) (events : list RecvEvent)
  : result HandshakeResult HandshakeError * NodeDb :=
  if negb send_ok then (Err HConnection, node_db)
  else
    let (r, s) := handshake_loop (mkHS node_db None [] []) events in
    (let? _ := r in
     match hs_my s with
     | Some num => Ok (mkHandshakeResult num (hs_channels s) (hs_nodes s))
     | None => Err HNoMyNodeInfo
     end, hs_db s).

(** An event that neither completes nor aborts the handshake. *)
Definition benign (e : RecvEvent) : bool :=
  match e with
  | RecvFailed | Received (Some (FRRebooted _)) => false
  | Received (Some (FRConfigCompleteId id)) => negb (id =? want_config_id)
  | _ => true
  end.
End Handshake.

(** ** What the dump contains *)

Definition dump_my_info (events : list RecvEvent) : option NodeNum :=
  last (omap (fun e => match e with Received (Some (FRMyInfo n)) => Some n | _ => None end) events).
Definition dump_channels (events : list RecvEvent) : list Z :=
  omap (fun e => match e with Received (Some (FRChannel c)) => Some c | _ => None end) events.
Definition dump_nodes (events : list RecvEvent) : list MeshNode :=
  omap (fun e => match e with
                 | Received (Some (FRNodeInfo ni)) => Some (node_info_to_mesh_node ni)
                 | _ => None end) events.

(** * Lemmas *)

(** Pushing while below a limit keeps the first [limit] elements. *)
Lemma take_push {A} (limit : nat) (l : list A) x :
  (if (length (take limit l) <? limit)%nat then take limit l ++ [x] else take limit l)
  = take limit (l ++ [x]).
Proof.
  rewrite length_take. destruct (Nat.min limit (length l) <? limit)%nat eqn:E.
  - rewrite (take_ge l), take_ge by (rewrite ?length_app; simpl; lia). done.
  - by rewrite take_app_le by lia.
Qed.

Section HandshakeLemmas.
Context `{HashOrder} (want : Z).

Definition loop_state (db : NodeDb) (seen : list RecvEvent) (s : HandshakeState) : Prop :=
  hs_my s = dump_my_info seen /\
  hs_channels s = take (Z.to_nat MAX_CHANNELS) (dump_channels seen) /\
  hs_nodes s = take MAX_LIVE_NODES (dump_nodes seen) /\
  exists ops, hs_db s = run_db db ops.

Lemma run_db_snoc db ops op : run_db db (ops ++ [op]) = run_db_op (run_db db ops) op.
Proof. unfold run_db. by rewrite fold_left_app. Qed.

(** A benign prefix is consumed, and the state is what it contains. *)
Lemma handshake_loop_prefix db pre seen s rest :
  Forall (fun e => benign want e = true) pre -> loop_state db seen s ->
  exists s', loop_state db (seen ++ pre) s' /\
    handshake_loop want s (pre ++ rest) = handshake_loop want s' rest.
Proof.
  intros Hpre. revert seen s. induction Hpre as [|e pre He Hpre IH]; intros seen s Hs.
  { exists s. by rewrite app_nil_r. }
  enough (exists s1, loop_state db (seen ++ [e]) s1 /\
            handshake_loop want s ((e :: pre) ++ rest) = handshake_loop want s1 (pre ++ rest))
    as (s1 & Hs1 & Eq).
  { destruct (IH _ _ Hs1) as (s' & Hs' & Eq'). exists s'. rewrite <- app_assoc in Hs'.
    split; [done|]. by rewrite Eq. }
  destruct Hs as (Hmy & Hch & Hno & ops & Hdb).
  unfold loop_state, dump_my_info, dump_channels, dump_nodes.
  rewrite !omap_app.
  destruct e as [[[p|n|ni|id|b|ch]|]|]; try done; simpl in He; cbn [app handshake_loop omap list_omap];
    rewrite ?app_nil_r.
  - exists s. eauto 10.
  - eexists. split; [|done]. cbn. rewrite last_snoc. split; [done|]. split; [done|]. split; [done|].
    exists (ops ++ [DSetMyNode n]). by rewrite run_db_snoc, <- Hdb.
  - eexists. split; [|done]. cbn -[take MAX_LIVE_NODES node_info_to_mesh_node].
    split; [done|]. split; [done|]. split.
    + rewrite Hno. unfold dump_nodes. apply take_push.
    + exists (ops ++ [DInsert (node_info_to_mesh_node ni)]). by rewrite run_db_snoc, <- Hdb.
  - exists s. split; [eauto 10|]. destruct (id =? want) eqn:E; [done|done].
  - eexists. split; [|done]. cbn -[take MAX_CHANNELS Z.to_nat]. split; [done|]. split; [|eauto].
    rewrite Hch. unfold dump_channels. apply take_push.
  - exists s. eauto 10.
Qed.
End HandshakeLemmas.

(** The hop distance a radio reports in [NodeInfo] is truncated, not
    checked: [hops_away] is cast to [u8], so every multiple of 256 becomes 0,
    a direct neighbour, while the gate used for packet headers refuses any
    distance above [MAX_HOP_LIMIT]. *)
Lemma node_info_hops_truncated (ni : NodeInfo) :
  is_uint 32 (ni_hops_away ni) ->
  exists h, mn_hop_count (node_info_to_mesh_node ni) = Some h /\ h = ni_hops_away ni mod 256 /\
    (h = 0 <-> exists k, ni_hops_away ni = 256 * k).
Proof.
  intros Hu. exists (ni_hops_away ni mod 256). split; [done|]. split; [done|]. split.
  - intros Hz. exists (ni_hops_away ni / 256). pose proof (Z.div_mod (ni_hops_away ni) 256). lia.
  - intros [k ->]. rewrite Z.mul_comm. apply Z_mod_mult.
Qed.

(** * Properties *)

(** The handshake accepts exactly a completed dump: after any events that
    neither complete nor abort it, a matching [config_complete_id] ends it
    with the last reported node number, the first [MAX_CHANNELS] channels and
    the first [MAX_LIVE_NODES] nodes of the dump (or an error when no node
    number was reported); a reboot, a connection failure or the timeout make
    it fail; and in every case the node table stays within its bound, however
    much the radio sends. *)
Theorem handshake_outcome `{HashOrder} (want : Z) (db : NodeDb) (pre rest : list RecvEvent) :
  db_ok db -> Forall (fun e => benign want e = true) pre ->
  let (r, db') := handshake_with_config want db true (pre ++ rest) in
  match rest with
  | [] => r = Err HTimedOut /\ db_ok db'
  | RecvFailed :: _ => r = Err HConnection /\ db_ok db'
  | Received (Some (FRRebooted _)) :: _ => r = Err HRebooted /\ db_ok db'
  | Received (Some (FRConfigCompleteId id)) :: _ =>
      id = want ->
      r = match dump_my_info pre with
          | Some num => Ok (mkHandshakeResult num (take (Z.to_nat MAX_CHANNELS) (dump_channels pre))
                                              (take MAX_LIVE_NODES (dump_nodes pre)))
          | None => Err HNoMyNodeInfo
          end /\ db_ok db'
  | _ => True
  end.
Proof.
  intros Hdb Hpre. unfold handshake_with_config. cbn [negb].
  destruct (handshake_loop_prefix want db pre [] (mkHS db None [] []) rest Hpre) as (s' & Hs' & ->).
  { repeat split; [by rewrite take_nil..|]. by exists []. }
  destruct Hs' as (Hmy & Hch & Hno & ops & Hops). simpl in Hmy, Hch, Hno.
  assert (db_ok (hs_db s')) as Hok by (rewrite Hops; by apply run_db_ok).
  destruct (handshake_loop want s' rest) as [r s2] eqn:E.
  destruct rest as [|[[[p|n|ni|id|b|ch]|]|] rest]; simpl in E; try done.
  - by injection E as <- <-.
  - intros ->. rewrite Z.eqb_refl in E. injection E as <- <-. simpl.
    by rewrite Hmy, Hch, Hno.
  - by injection E as <- <-.
  - by injection E as <- <-.
Qed.

Lemma handshake_outcome_witness :
  let pre := [Received (Some (FRMyInfo 5)); Received (Some (FRChannel 0)); Received None;
              Received (Some (FRConfigCompleteId 8))] in
  let rest := [Received (Some (FRConfigCompleteId 9)); RecvFailed] in
  fst (@handshake_with_config canonical_order 9 NodeDb_new true (pre ++ rest))
  = Ok (mkHandshakeResult 5 [0] []).
Proof.
  intros pre rest.
  assert (db_ok NodeDb_new) as Hdb.
  { split; [vm_compute; lia|apply map_Forall_empty]. }
  assert (Forall (fun e => benign 9 e = true) pre) as Hpre by (repeat constructor).
  pose proof (@handshake_outcome canonical_order 9 NodeDb_new pre rest Hdb Hpre) as T.
  destruct (@handshake_with_config canonical_order 9 NodeDb_new true (pre ++ rest)) as [r db'].
  exact (proj1 (T eq_refl)).
Defined.
