(* ===== verification/PacketProc.v ===== *)
(** * Packet dispatch (crates/kerykeion/src/processor.rs)

    [PacketProcessor]: what one received mesh packet does to the node database
    and the topology, and the events and signals it produces. The protobuf
    decoders are parameters, [None] being their error; the clock reads and fresh
    identifiers of a packet come from its [PacketEnv]. *)

From S2P Require Import Prelude Float MeshTypes Proto NodeDb Topology Signal MeshSignal Handshake.

Local Open Scope Z_scope.

(** ** Payloads decoded here *)

Record Neighbor : Type := mkNeighbor { nb_node_id : Z; nb_snr : f32 }.
Record NeighborInfo : Type := mkNeighborInfo {
  nbi_node_id : Z; nbi_last_sent_by_id : Z; nbi_node_broadcast_interval_secs : Z;
  nbi_neighbors : list Neighbor }.

Definition POSITION_APP : Z := 3.
Definition NODEINFO_APP : Z := 4.
Definition TELEMETRY_APP : Z := 67.
Definition TRACEROUTE_APP : Z := 70.
Definition NEIGHBORINFO_APP : Z := 71.

Record Decoders : Type := mkDecoders {
  user_decode : bytes -> option User;
  position_decode : bytes -> option Position;
  telemetry_decode : bytes -> option Telemetry;
  neighborinfo_decode : bytes -> option NeighborInfo;
  route_decode : bytes -> option RouteDiscovery
}.

(** The reads made while one packet is processed: [pe_learn] by passive learning
    and [pe_handle] by the handler for the database, [pe_instant k] by the [k]-th
    link update, [pe_id k] and [pe_stamp k] by the conversion of the [k]-th event. *)
Record PacketEnv : Type := mkPacketEnv {
  pe_learn : Timestamp; pe_handle : Timestamp; pe_instant : nat -> Instant;
  pe_id : nat -> Ulid; pe_stamp : nat -> Z }.

Section Processor.
Context `{StableGraph} `{HashOrder} (dec : Decoders).

Record PacketProcessor : Type := mkProcessor { node_db : NodeDb; topology : MeshTopology }.

Definition bare_node (num : NodeNum) : MeshNode := mkMeshNode num None None None None None None.

(** [node_db.get(from).cloned().unwrap_or(..)]. *)
Definition known_node (db : NodeDb) (from : NodeNum) : MeshNode := default (bare_node from) (db_get db from).

Definition apply_passive_learning (p : PacketProcessor) (packet : MeshPacket) (from : NodeNum)
    (env : PacketEnv) : option PacketProcessor :=
  let snr := if f32_eqb (mp_rx_snr packet) f32_zero then None else Some (mp_rx_snr packet) in
  let hop_count := hop_count_from_wire (mp_hop_start packet) (mp_hop_limit packet) in
  let node := known_node (node_db p) from in
  let node := mkMeshNode (mn_num node) (mn_user node) (mn_position node) (mn_metrics node)
                (Some (pe_learn env))
                (match snr with Some s => Some s | None => mn_snr node end)
                (match hop_count with Some h => Some h | None => mn_hop_count node end) in
  let db := db_insert (node_db p) node in
  match hop_count, my_node db, snr with
  | Some 0, Some my_node, Some s =>
      match update_link (topology p) from my_node s (pe_instant env 0%nat) with
      | Some t => Some (mkProcessor db t)
      | None => None
      end
  | _, _, _ => Some (mkProcessor db (topology p))
  end.

Definition handle_nodeinfo (p : PacketProcessor) (from : NodeNum) (payload : bytes) (env : PacketEnv)
  : PacketProcessor * list MeshEvent :=
  match user_decode dec payload with
  | None => (p, [])
  | Some u =>
      let user := mkUserInfo (u_id u) (u_long_name u) (u_short_name u)
                    (default 0 (try_uint 32 (u_hw_model u))) (u_is_licensed u) in
      let is_new := match db_get (node_db p) from with
                    | Some n => match mn_user n with Some _ => false | None => true end
                    | None => true
                    end in
      let node := known_node (node_db p) from in
      let db := db_insert (node_db p)
                  (mkMeshNode (mn_num node) (Some user) (mn_position node) (mn_metrics node)
                     (Some (pe_handle env)) (mn_snr node) (mn_hop_count node)) in
      let t := (add_node (topology p) from).2 in
      (mkProcessor db t,
       if is_new then
         [NodeDiscovered from (Some (ui_short_name user))
            (default f32_zero (n ← db_get db from; mn_snr n))
            (default 0 (n ← db_get db from; mn_hop_count n))]
       else [])
  end.

Definition handle_position (p : PacketProcessor) (from : NodeNum) (payload : bytes) (env : PacketEnv)
  : PacketProcessor * list MeshEvent :=
  match position_decode dec payload with
  | None => (p, [])
  | Some pos =>
      let lat := f64_mul (f64_of_Z (latitude_i pos)) f64_1e_7 in
      let lon := f64_mul (f64_of_Z (longitude_i pos)) f64_1e_7 in
      match Coordinates_new lat lon None with
      | Err _ => (p, [])
      | Ok _ =>
          let alt := if negb (altitude pos =? 0) then Some (altitude pos) else None in
          let position := mkNodePosition lat lon alt (timestamp_from_second (pos_time pos)) in
          let node := known_node (node_db p) from in
          let db := db_insert (node_db p)
                      (mkMeshNode (mn_num node) (mn_user node) (Some position) (mn_metrics node)
                         (Some (pe_handle env)) (mn_snr node) (mn_hop_count node)) in
          (mkProcessor db (topology p), [PositionUpdate from lat lon (f32_of_Z <$> alt)])
      end
  end.

Definition positive (x : f32) : option f32 := if f32_ltb f32_zero x then Some x else None.

Definition handle_telemetry (p : PacketProcessor) (from : NodeNum) (payload : bytes) (env : PacketEnv)
  : PacketProcessor * list MeshEvent :=
  match telemetry_decode dec payload with
  | None => (p, [])
  | Some telem =>
      match tel_variant telem with
      | None => (p, [])
      | Some (TVDeviceMetrics dm) =>
          let metrics := mkMetrics
            (if 0 <? dmm_battery_level dm then Some (dmm_battery_level dm) else None)
            (positive (dmm_voltage dm)) (positive (dmm_channel_utilization dm))
            (positive (dmm_air_util_tx dm)) in
          let db := match db_get (node_db p) from with
            | Some existing =>
                db_insert (node_db p)
                  (mkMeshNode (mn_num existing) (mn_user existing) (mn_position existing) (Some metrics)
                     (Some (pe_handle env)) (mn_snr existing) (mn_hop_count existing))
            | None => node_db p
            end in
          (mkProcessor db (topology p), [TelemetryUpdate from (dm_battery_level metrics) (dm_voltage metrics)])
      end
  end.

(** The link updates of a report, the [k]-th one reading [pe_instant k]. *)
Fixpoint update_links (env : PacketEnv) (k : nat) (t : MeshTopology) (links : list (NodeNum * NodeNum * f32))
  : option MeshTopology :=
  match links with
  | [] => Some t
  | (from, to, snr) :: links =>
      t ← update_link t from to snr (pe_instant env k); update_links env (S k) t links
  end.

Definition link_events (links : list (NodeNum * NodeNum * f32)) : list MeshEvent :=
  map (fun l => TopologyChange l.1.1 l.1.2 l.2) links.

Definition handle_neighborinfo (p : PacketProcessor) (from : NodeNum) (payload : bytes) (env : PacketEnv)
  : option (PacketProcessor * list MeshEvent) :=
  match neighborinfo_decode dec payload with
  | None => Some (p, [])
  | Some ni =>
      if negb (nbi_node_id ni =? from) then Some (p, [])
      else
        let t := (add_node (topology p) from).2 in
        let links := map (fun n => (from, nb_node_id n, nb_snr n)) (nbi_neighbors ni) in
        t ← update_links env 1 t links;
        Some (mkProcessor (node_db p) t, link_events links)
  end.

(** [path.windows(2).enumerate()] with the SNR reported for each hop. *)
Fixpoint hop_links (path : list NodeNum) (snrs : list Z) : list (NodeNum * NodeNum * f32) :=
  match path with
  | a :: (b :: _) as rest =>
      (a, b, match snrs with s :: _ => f32_of_Z s | [] => f32_zero end) :: hop_links rest (tail snrs)
  | _ => []
  end.

Definition handle_traceroute (p : PacketProcessor) (from : NodeNum) (packet : MeshPacket) (payload : bytes)
    (env : PacketEnv) : option (PacketProcessor * list MeshEvent) :=
  match route_decode dec payload with
  | None => Some (p, [])
  | Some route =>
      let dest := mp_to packet in
      let path := from :: rd_route route ++ [dest] in
      let t := fold_left (fun t n => (add_node t n).2) path (topology p) in
      let links := hop_links path (rd_snr_towards route) in
      t ← update_links env 1 t links;
      t ← (match rd_back route with
           | [] => Some t
           | back => update_links env (S (length links)) t
                       (hop_links (dest :: back ++ [from]) (rd_snr_back route))
           end);
      Some (mkProcessor (node_db p) t, link_events links)
  end.

Definition dispatch (p : PacketProcessor) (from : NodeNum) (packet : MeshPacket) (decoded : Data)
    (env : PacketEnv) : option (PacketProcessor * list MeshEvent) :=
  let payload := d_payload decoded in
  if d_portnum decoded =? NODEINFO_APP then Some (handle_nodeinfo p from payload env)
  else if d_portnum decoded =? POSITION_APP then Some (handle_position p from payload env)
  else if d_portnum decoded =? TELEMETRY_APP then Some (handle_telemetry p from payload env)
  else if d_portnum decoded =? NEIGHBORINFO_APP then handle_neighborinfo p from payload env
  else if d_portnum decoded =? TRACEROUTE_APP then handle_traceroute p from packet payload env
  else Some (p, []).

Definition event_position (db : NodeDb) (event : MeshEvent) : option NodePosition :=
  match subject event with
  | Some n => match db_get db n with Some node => mn_position node | None => None end
  | None => None
  end.

Definition event_signals (db : NodeDb) (env : PacketEnv) (events : list MeshEvent) : list GeoSignal :=
  imap (fun k event => mesh_event_to_signal (pe_id env k) (pe_stamp env k) event (event_position db event))
       events.

(** The new state, the events returned and the signals broadcast; [None] is a panic. *)
Definition process_mesh_packet (p : PacketProcessor) (packet : MeshPacket) (env : PacketEnv)
  : option (PacketProcessor * list MeshEvent * list GeoSignal) :=
  match from_wire (mp_from packet) with
  | None => Some (p, [], [])
  | Some from =>
      p ← apply_passive_learning p packet from env;
      match mp_payload_variant packet with
      | Some (Decoded decoded) =>
          '(p, events) ← dispatch p from packet decoded env;
          Some (p, events, event_signals (node_db p) env events)
      | _ => Some (p, [], [])
      end
  end.

(** * Lemmas *)

Definition position_ok (n : MeshNode) : Prop :=
  match mn_position n with
  | Some pos => is_ok (Coordinates_new (np_latitude pos) (np_longitude pos) None) = true
  | None => True
  end.

(** The database and topology invariants. *)
Record processor_wf (p : PacketProcessor) : Prop := {
  pw_db : db_ok (node_db p);
  pw_topology : topo_ok (topology p)
}.

(** Every stored position is on the planet. *)
Definition positions_ok (p : PacketProcessor) : Prop := map_Forall (fun _ n => position_ok n) (nodes (node_db p)).

(** Both. *)
Record processor_ok (p : PacketProcessor) : Prop := {
  pr_db : db_ok (node_db p);
  pr_topology : topo_ok (topology p);
  pr_positions : map_Forall (fun _ n => position_ok n) (nodes (node_db p))
}.

Lemma processor_ok_wf p : processor_ok p <-> processor_wf p /\ positions_ok p.
Proof. split; [intros []; split; [by constructor|done]|intros [[] ?]; by constructor]. Qed.

(** A state after a change of [from]'s record only: other records stay, unless
    one was evicted to make room for a new node. *)
Record only_from (from : NodeNum) (db db' : NodeDb) : Prop := {
  of_my_node : my_node db' = my_node db;
  of_others : forall n, n <> from -> db_get db' n = db_get db n \/
    (db_get db' n = None /\ db_get db from = None /\ (db_len db = MAX_LIVE_NODES)%nat)
}.

Lemma db_insert_my_node db node : my_node (db_insert db node) = my_node db.
Proof. unfold db_insert, evict_stalest. destruct (_ && _); [|done]. by destruct (victim db). Qed.

Lemma db_insert_self db node : db_get (db_insert db node) (mn_num node) = Some node.
Proof. unfold db_get, db_insert. cbn [nodes]. by rewrite lookup_insert_eq. Qed.

Lemma db_insert_only_from db node :
  db_ok db -> only_from (mn_num node) db (db_insert db node).
Proof.
  intros [Hsz _]. constructor; [apply db_insert_my_node|]. intros n Hn.
  unfold db_get, db_insert, db_len. cbn [nodes]. rewrite lookup_insert_ne by done.
  destruct (_ && _) eqn:E; [|by left]. apply andb_true_iff in E as [E1 E2].
  apply negb_true_iff, bool_decide_eq_false, eq_None_not_Some in E1.
  unfold evict_stalest. destruct (victim db) as [v|]; [|by left]. cbn [nodes].
  destruct (decide (n = v)) as [->|Hne]; [right|left; by rewrite lookup_delete_ne].
  split; [apply lookup_delete_eq|]. split; [done|]. apply Nat.leb_le in E2. lia.
Qed.

Lemma db_insert_positions db node :
  map_Forall (fun _ n => position_ok n) (nodes db) -> position_ok node ->
  map_Forall (fun _ n => position_ok n) (nodes (db_insert db node)).
Proof.
  intros Hdb Hn. unfold db_insert. cbn [nodes]. apply map_Forall_insert_2; [done|].
  destruct (_ && _); [|done]. unfold evict_stalest. destruct (victim db); [|done].
  cbn [nodes]. by apply map_Forall_delete.
Qed.

Lemma only_from_refl from db : only_from from db db.
Proof. constructor; auto. Qed.

(** A second change of a record that is there evicts nothing. *)
Lemma only_from_trans from db1 db2 db3 :
  only_from from db1 db2 -> only_from from db2 db3 -> is_Some (db_get db2 from) -> only_from from db1 db3.
Proof.
  intros [Hm1 Ho1] [Hm2 Ho2] [x Hx]. constructor; [congruence|]. intros n Hn.
  destruct (Ho2 n Hn) as [->|(_ & Hnone & _)]; [by apply Ho1|]. congruence.
Qed.

Lemma known_node_num db from : db_ok db -> mn_num (known_node db from) = from.
Proof.
  intros [_ Hnum]. unfold known_node, db_get. destruct (nodes db !! from) as [n|] eqn:E; [|done].
  cbn. by apply Hnum in E.
Qed.

Lemma known_node_position db from :
  map_Forall (fun _ n => position_ok n) (nodes db) -> position_ok (known_node db from).
Proof.
  intros Hdb. unfold known_node, db_get. destruct (nodes db !! from) as [n|] eqn:E; [|done].
  cbn. by apply Hdb in E.
Qed.

(** Replacing [from]'s record by one with its number. *)
Lemma insert_record_spec p from node :
  processor_wf p -> mn_num node = from ->
  let p' := mkProcessor (db_insert (node_db p) node) (topology p) in
  processor_wf p' /\ (positions_ok p -> position_ok node -> positions_ok p') /\
  only_from from (node_db p) (db_insert (node_db p) node) /\
  is_Some (db_get (db_insert (node_db p) node) from).
Proof.
  intros [Hdb Ht] <- p'. split_and!.
  - constructor; cbn; [by apply db_insert_ok|done].
  - by apply db_insert_positions.
  - by apply db_insert_only_from.
  - rewrite db_insert_self. by eexists.
Qed.

(** Links whose source is not [from] come from the old topology. *)
Definition links_from (from : NodeNum) (t t' : MeshTopology) : Prop :=
  forall a b w, link t' a b w -> link t a b w \/ a = from.

Lemma links_from_refl from t : links_from from t t.
Proof. intros a b w Hw. by left. Qed.

Lemma links_from_trans from t1 t2 t3 :
  links_from from t1 t2 -> links_from from t2 t3 -> links_from from t1 t3.
Proof. intros H12 H23 a b w [Hw|Ha]%H23; auto. Qed.

Lemma update_link_total t from to snr now :
  topo_ok t -> exists t', update_link t from to snr now = Some t' /\ topo_ok t' /\ links_from from t t'.
Proof.
  intros Hok. destruct (run_topology_op_ok t (TUpdateLink from to snr now) Hok) as (t' & Ht & Hok').
  exists t'. split_and!; [done|done|]. intros a b w Hw.
  destruct (update_link_frame t from to snr now t' a b w Hok Ht Hw) as [?|[? _]]; auto.
Qed.

Lemma add_node_total t n :
  topo_ok t -> topo_ok (add_node t n).2 /\ forall from, links_from from t (add_node t n).2.
Proof.
  intros Hok. destruct (run_topology_op_ok t (TAddNode n) Hok) as (t' & [= <-] & Hok'). split; [done|].
  intros from a b w Hw. left. eapply add_node_protecting_links; [done| |exact Hw]. cbn. lia.
Qed.

Lemma update_links_total env links : forall k t,
  topo_ok t -> exists t', update_links env k t links = Some t' /\ topo_ok t' /\
    forall from, Forall (fun l => l.1.1 = from) links -> links_from from t t'.
Proof.
  induction links as [|[[a b] snr] links IH]; intros k t Hok; cbn [update_links].
  { exists t. split_and!; [done|done|]. intros from _. apply links_from_refl. }
  destruct (update_link_total t a b snr (pe_instant env k) Hok) as (t1 & -> & Hok1 & Hl1).
  cbn [mbind option_bind]. destruct (IH (S k) t1 Hok1) as (t' & Ht & Hok' & Hl). exists t'.
  split_and!; [done|done|]. intros from [Ha Hrest]%Forall_cons. cbn in Ha. subst a.
  eapply links_from_trans; [exact Hl1|by apply Hl].
Qed.

(** ** Each step of a packet *)

Record effect (from : NodeNum) (route : bool) (p p' : PacketProcessor) : Prop := {
  ef_wf : processor_wf p';
  ef_positions : positions_ok p -> positions_ok p';
  ef_db : only_from from (node_db p) (node_db p');
  ef_links : route = false -> links_from from (topology p) (topology p')
}.

Lemma effect_refl from route p : processor_wf p -> effect from route p p.
Proof. intros Hp. constructor; [done|done|apply only_from_refl|intros _; apply links_from_refl]. Qed.

Lemma effect_trans from route p1 p2 p3 :
  effect from false p1 p2 -> effect from route p2 p3 -> is_Some (db_get (node_db p2) from) ->
  effect from route p1 p3.
Proof.
  intros [_ Hp1 Hd1 Hl1] [Hp Hp2 Hd2 Hl2] Hx. constructor; [done|auto|by eapply only_from_trans|].
  intros Hr. eapply links_from_trans; [by apply Hl1|by apply Hl2].
Qed.

Lemma passive_learning_effect p packet from env :
  processor_wf p ->
  exists p', apply_passive_learning p packet from env = Some p' /\ effect from false p p' /\
    is_Some (db_get (node_db p') from).
Proof.
  intros Hp. unfold apply_passive_learning. set (snr := if f32_eqb _ _ then _ else _).
  set (hc := hop_count_from_wire _ _). set (node := mkMeshNode _ _ _ _ _ _ _).
  assert (Hnum : mn_num node = from) by (apply known_node_num, Hp).
  assert (Hpos : positions_ok p -> position_ok node) by (apply (known_node_position (node_db p) from)).
  destruct (insert_record_spec p from node Hp Hnum) as (Hp1 & Hps & Hof & Hsome).
  assert (Hskip : exists p', Some (mkProcessor (db_insert (node_db p) node) (topology p)) = Some p' /\
    effect from false p p' /\ is_Some (db_get (node_db p') from)).
  { eexists. split_and!; [done| |done]. constructor; [done|auto|done|]. intros _. apply links_from_refl. }
  destruct hc as [[|h|h]|]; [|exact Hskip..].
  destruct (my_node (db_insert (node_db p) node)) as [me|]; [|exact Hskip].
  destruct snr as [s|]; [|exact Hskip].
  destruct (update_link_total (topology p) from me s (pe_instant env 0) (pw_topology _ Hp))
    as (t & -> & Hok & Hl).
  eexists. split_and!; [done| |done]. destruct Hp1. constructor; [by constructor|intros Hq; by apply Hps; [|apply Hpos]|done|done].
Qed.

Lemma handle_nodeinfo_effect p from payload env :
  processor_wf p -> effect from false p (handle_nodeinfo p from payload env).1.
Proof.
  intros Hp. unfold handle_nodeinfo. destruct (user_decode dec payload) as [u|]; [|by apply effect_refl].
  cbn [fst]. set (node := mkMeshNode _ _ _ _ _ _ _).
  assert (Hnum : mn_num node = from) by (apply known_node_num, Hp).
  assert (Hpos : positions_ok p -> position_ok node) by (apply (known_node_position (node_db p) from)).
  destruct (insert_record_spec p from node Hp Hnum) as ([? _] & Hps & Hof & _).
  destruct (add_node_total (topology p) from (pw_topology _ Hp)) as [Hok Hl].
  constructor; [by constructor|intros Hq; by apply Hps; [|apply Hpos]|done|]. intros _. apply Hl.
Qed.

Lemma handle_position_effect p from payload env :
  processor_wf p -> effect from false p (handle_position p from payload env).1.
Proof.
  intros Hp. unfold handle_position. destruct (position_decode dec payload) as [pos|]; [|by apply effect_refl].
  set (lat := f64_mul _ _). set (lon := f64_mul _ _).
  destruct (Coordinates_new lat lon None) as [c|] eqn:Ec; [|by apply effect_refl]. cbn [fst].
  set (node := mkMeshNode _ _ _ _ _ _ _).
  assert (Hnum : mn_num node = from) by (apply known_node_num, Hp).
  assert (Hpos : position_ok node) by (unfold position_ok; cbn [mn_position np_latitude np_longitude node]; by rewrite Ec).
  destruct (insert_record_spec p from node Hp Hnum) as (Hp1 & Hps & Hof & _).
  constructor; [done|auto|done|]. intros _. apply links_from_refl.
Qed.

Lemma handle_telemetry_effect p from payload env :
  processor_wf p -> effect from false p (handle_telemetry p from payload env).1.
Proof.
  intros Hp. unfold handle_telemetry. destruct (telemetry_decode dec payload) as [tel|]; [|by apply effect_refl].
  destruct (tel_variant tel) as [[dm]|]; [|by apply effect_refl]. cbn [fst].
  destruct (db_get (node_db p) from) as [n|] eqn:En; [|destruct p; by apply effect_refl].
  set (node := mkMeshNode _ _ _ _ _ _ _).
  assert (Hn : mn_num n = from) by (by apply (proj2 (pw_db _ Hp)) in En).
  assert (Hpos : positions_ok p -> position_ok node) by (intros Hq; by apply Hq in En).
  destruct (insert_record_spec p from node Hp Hn) as (Hp1 & Hps & Hof & _).
  constructor; [done|auto|done|]. intros _. apply links_from_refl.
Qed.

Lemma with_topology_effect p from route t :
  processor_wf p -> topo_ok t -> (route = false -> links_from from (topology p) t) ->
  effect from route p (mkProcessor (node_db p) t).
Proof. intros [? ?] Ht Hl. constructor; [by constructor|done|apply only_from_refl|done]. Qed.

Lemma handle_neighborinfo_effect p from payload env :
  processor_wf p ->
  exists p' events, handle_neighborinfo p from payload env = Some (p', events) /\ effect from false p p'.
Proof.
  intros Hp. unfold handle_neighborinfo.
  destruct (neighborinfo_decode dec payload) as [ni|]; [|eexists _, _; split; [done|by apply effect_refl]].
  destruct (negb _); [eexists _, _; split; [done|by apply effect_refl]|].
  set (links := map _ _).
  destruct (add_node_total (topology p) from (pw_topology _ Hp)) as [Hok Hl].
  destruct (update_links_total env links 1 _ Hok) as (t & -> & Hok' & Hl'). cbn [mbind option_bind].
  eexists _, _. split; [done|]. apply with_topology_effect; [done|done|]. intros _.
  eapply links_from_trans; [apply Hl|apply Hl']. unfold links.
  apply Forall_forall. intros x (n & -> & _)%list_elem_of_fmap. done.
Qed.

Lemma add_nodes_total ns : forall t, topo_ok t -> topo_ok (fold_left (fun t n => (add_node t n).2) ns t).
Proof.
  induction ns as [|n ns IH]; intros t Hok; cbn [fold_left]; [done|]. by apply IH, add_node_total.
Qed.

Lemma handle_traceroute_effect p from packet payload env :
  processor_wf p ->
  exists p' events, handle_traceroute p from packet payload env = Some (p', events) /\ effect from true p p'.
Proof.
  intros Hp. unfold handle_traceroute.
  destruct (route_decode dec payload) as [r|]; [|eexists _, _; split; [done|by apply effect_refl]].
  set (path := from :: _). set (links := hop_links path _).
  pose proof (add_nodes_total path _ (pw_topology _ Hp)) as Hok. set (t0 := fold_left _ _ _) in *.
  destruct (update_links_total env links 1 t0 Hok) as (t & -> & Hok' & _). cbn [mbind option_bind].
  assert (Hback : exists t', match rd_back r with
      | [] => Some t
      | back => update_links env (S (length links)) t (hop_links (mp_to packet :: back ++ [from]) (rd_snr_back r))
      end = Some t' /\ topo_ok t').
  { destruct (rd_back r) as [|b back]; [by exists t|].
    destruct (update_links_total env (hop_links (mp_to packet :: (b :: back) ++ [from]) (rd_snr_back r))
      (S (length links)) t Hok') as (t' & Ht' & Hok'' & _). eauto. }
  destruct Hback as (t' & Ht' & Hok''). rewrite Ht'. cbn [mbind option_bind].
  eexists _, _. split; [done|]. by apply with_topology_effect.
Qed.

Lemma dispatch_effect p from packet decoded env :
  processor_wf p ->
  exists p' events, dispatch p from packet decoded env = Some (p', events) /\
    effect from (d_portnum decoded =? TRACEROUTE_APP) p p'.
Proof.
  intros Hp. unfold dispatch. set (port := d_portnum decoded).
  assert (Hweak : forall r q, effect from false p q -> effect from r p q) by (intros r q [? ? ? ?]; constructor; auto).
  destruct (Z.eqb_spec port NODEINFO_APP) as [->|_].
  { pose proof (handle_nodeinfo_effect p from (d_payload decoded) env Hp) as He.
    destruct (handle_nodeinfo _ _ _ _). eexists _, _. split; [done|by apply Hweak]. }
  destruct (Z.eqb_spec port POSITION_APP) as [->|_].
  { pose proof (handle_position_effect p from (d_payload decoded) env Hp) as He.
    destruct (handle_position _ _ _ _). eexists _, _. split; [done|by apply Hweak]. }
  destruct (Z.eqb_spec port TELEMETRY_APP) as [->|_].
  { pose proof (handle_telemetry_effect p from (d_payload decoded) env Hp) as He.
    destruct (handle_telemetry _ _ _ _). eexists _, _. split; [done|by apply Hweak]. }
  destruct (Z.eqb_spec port NEIGHBORINFO_APP) as [->|_].
  { destruct (handle_neighborinfo_effect p from (d_payload decoded) env Hp) as (p' & ev & Hd & He).
    eexists _, _. split; [done|by apply Hweak]. }
  destruct (Z.eqb_spec port TRACEROUTE_APP) as [->|_]; [by apply handle_traceroute_effect|].
  eexists _, _. split; [done|by apply effect_refl].
Qed.

Definition is_traceroute (packet : MeshPacket) : bool :=
  match mp_payload_variant packet with
  | Some (Decoded d) => d_portnum d =? TRACEROUTE_APP
  | _ => false
  end.

Lemma process_mesh_packet_effect p packet env :
  processor_wf p ->
  exists p' events signals, process_mesh_packet p packet env = Some (p', events, signals) /\
    signals = event_signals (node_db p') env events /\
    match from_wire (mp_from packet) with
    | None => p' = p /\ events = []
    | Some from => effect from (is_traceroute packet) p p' /\ from = mp_from packet
    end.
Proof.
  intros Hp. unfold process_mesh_packet, is_traceroute.
  destruct (from_wire (mp_from packet)) as [from|] eqn:Ef; [|by eexists _, _, _].
  apply from_wire_Some in Ef as [Ef _].
  destruct (passive_learning_effect p packet from env Hp) as (p1 & -> & He1 & Hs1). cbn [mbind option_bind].
  destruct (mp_payload_variant packet) as [[decoded|b]|]; [|by eexists _, _, _..].
  destruct (dispatch_effect p1 from packet decoded env (ef_wf _ _ _ _ He1)) as (p2 & ev & -> & He2).
  cbn [mbind option_bind]. eexists _, _, _. split; [done|]. split; [done|]. split; [|done].
  by eapply effect_trans.
Qed.

(** Every packet is processed, and the state stays well formed. *)
Lemma process_mesh_packet_keeps p packet env :
  processor_wf p ->
  exists p' events signals, process_mesh_packet p packet env = Some (p', events, signals) /\
    processor_wf p' /\ (positions_ok p -> positions_ok p').
Proof.
  intros Hp. destruct (process_mesh_packet_effect p packet env Hp) as (p' & ev & sig & Hrun & _ & He).
  exists p', ev, sig. split; [done|].
  destruct (from_wire (mp_from packet)); [by destruct He as [[? ? _ _] _]|by destruct He as [-> _]].
Qed.

Fixpoint run_packets (p : PacketProcessor) (packets : list (MeshPacket * PacketEnv)) : option PacketProcessor :=
  match packets with
  | [] => Some p
  | (packet, env) :: packets =>
      '(p, _, _) ← process_mesh_packet p packet env; run_packets p packets
  end.

(** No packet, however malformed, panics the processor or breaks its state:
    after any sequence of packets the node table is within its bound with every
    node under its own number, the topology is well formed and within its caps,
    and every stored position is a valid coordinate. *)
Theorem packets_preserve_state (p : PacketProcessor) (packets : list (MeshPacket * PacketEnv)) :
  processor_ok p -> exists p', run_packets p packets = Some p' /\ processor_ok p'.
Proof.
  revert p. induction packets as [|[packet env] packets IH]; intros p Hp; cbn [run_packets]; [eauto|].
  apply processor_ok_wf in Hp as [Hp Hq].
  destruct (process_mesh_packet_keeps p packet env Hp) as (p' & ev & sig & -> & Hp' & Hq').
  cbn [mbind option_bind]. apply IH, processor_ok_wf. auto.
Qed.

(** C27. A packet speaks only for its sender: one from the sentinels (0 or
    broadcast) changes nothing and reports nothing; any other leaves every record
    but the sender's as it was, except that a full table may evict one to admit a
    new sender, and apart from a traceroute it adds or changes only links out of
    the sender, so a neighbour report cannot speak for another node. *)
Theorem packet_speaks_for_sender (p : PacketProcessor) (packet : MeshPacket) (env : PacketEnv) :
  processor_ok p ->
  exists p' events signals, process_mesh_packet p packet env = Some (p', events, signals) /\
    if (mp_from packet =? 0) || (mp_from packet =? BROADCAST_ADDR)
    then p' = p /\ events = [] /\ signals = []
    else my_node (node_db p') = my_node (node_db p) /\
      (forall n, n <> mp_from packet -> db_get (node_db p') n = db_get (node_db p) n \/
         (db_get (node_db p') n = None /\ db_get (node_db p) (mp_from packet) = None /\
          (db_len (node_db p) = MAX_LIVE_NODES)%nat)) /\
      (is_traceroute packet = false ->
       forall a b w, link (topology p') a b w -> link (topology p) a b w \/ a = mp_from packet).
Proof.
  intros [Hp _]%processor_ok_wf. destruct (process_mesh_packet_effect p packet env Hp) as (p' & ev & sig & Hproc & Hsig & He).
  exists p', ev, sig. split; [done|]. unfold from_wire, is_broadcast in He.
  destruct (mp_from packet =? 0) eqn:E0; cbn [negb andb orb] in *.
  { destruct He as [-> ->]. by rewrite Hsig. }
  destruct (mp_from packet =? BROADCAST_ADDR) eqn:Eb; cbn [negb] in *.
  { destruct He as [-> ->]. by rewrite Hsig. }
  destruct He as [[_ _ [Hm Ho] Hl] _]. split_and!; [done|done|]. apply Hl.
Qed.

(** Every event of a packet becomes one signal, in order, which names the
    node the event is about rather than the packet's sender, has a valid location
    (that node's stored position or the reported one) or none, and a confidence
    between 0 and 1. *)
Theorem signals_describe_events (p : PacketProcessor) (packet : MeshPacket) (env : PacketEnv) :
  match process_mesh_packet p packet env with
  | Some (p', events, signals) =>
      length signals = length events /\
      forall k e, events !! k = Some e -> exists s d, signals !! k = Some s /\
        gs_kind s = Mesh d /\ detail_node d = default 0 (subject e) /\
        (forall c, gs_location s = Some c -> coordinates_ok c = true) /\
        confidence_ok (gs_confidence s) = true
  | None => True
  end.
Proof.
  destruct (process_mesh_packet p packet env) as [[[p' ev] sig]|] eqn:E; [|done].
  assert (Hsig : sig = event_signals (node_db p') env ev).
  { unfold process_mesh_packet in E. destruct (from_wire _); [|by simplify_eq].
    destruct (apply_passive_learning _ _ _ _) as [p1|]; [|done]. cbn in E.
    destruct (mp_payload_variant packet) as [[d|]|]; [|by simplify_eq..].
    destruct (dispatch _ _ _ _ _) as [[p2 ev']|]; [|done]. cbn in E. by simplify_eq. }
  subst sig. unfold event_signals. split; [by rewrite length_imap|]. intros k e Hk.
  rewrite list_lookup_imap, Hk. cbn. eexists.
  destruct (mesh_event_to_signal_spec (pe_id env k) (pe_stamp env k) e (event_position (node_db p') e))
    as ((d & Hd & Hn) & Hloc & Hc & _). exists d. split_and!; done.
Qed.
End Processor.

(** ** An empty processor and a packet *)

Definition empty_processor : @PacketProcessor MapGraph.map_graph :=
  mkProcessor NodeDb_new (@MeshTopology_new MapGraph.map_graph).

Lemma empty_processor_ok : processor_ok empty_processor.
Proof.
  constructor.
  - split; cbn; [rewrite map_size_empty; apply Nat.le_0_l|apply map_Forall_empty].
  - apply topo_new_ok.
  - apply map_Forall_empty.
Qed.

(** Decoders that read every payload as a neighbour report of node 7 or a
    traceroute over the hop 0. *)
Definition demo_decoders : Decoders :=
  mkDecoders (fun _ => None) (fun _ => None) (fun _ => None)
    (fun _ => Some (mkNeighborInfo 7 0 0 [mkNeighbor 8 (f32_of_Z 5)]))
    (fun _ => Some (mkRouteDiscovery [0] [3; 4] [] [])).
Definition demo_env : PacketEnv :=
  mkPacketEnv 1000 1001 (fun _ => 5) (fun k => Z.of_nat k) (fun _ => 1002).
Definition demo_packet (from to port : Z) : MeshPacket :=
  mkMeshPacket from to 0 (Some (Decoded (mkData port [] false 0 0 0 0 []))) 1 0 (f32_of_Z 6) 3 false 0 0 false 3.

Lemma packets_preserve_state_witness :
  exists p', run_packets (H0 := canonical_order) demo_decoders empty_processor
               [(demo_packet 7 9 NEIGHBORINFO_APP, demo_env); (demo_packet 9 7 TRACEROUTE_APP, demo_env)] = Some p'
    /\ processor_ok p'.
Proof.
  apply (@packets_preserve_state MapGraph.map_graph canonical_order demo_decoders), empty_processor_ok.
Defined.

Lemma packet_speaks_for_sender_witness :
  exists p' events signals,
    process_mesh_packet (H0 := canonical_order) demo_decoders empty_processor
      (demo_packet 9 7 NEIGHBORINFO_APP) demo_env = Some (p', events, signals) /\
    forall a b w, link (topology p') a b w -> link (topology empty_processor) a b w \/ a = 9.
Proof.
  destruct (@packet_speaks_for_sender MapGraph.map_graph canonical_order demo_decoders empty_processor
    (demo_packet 9 7 NEIGHBORINFO_APP) demo_env empty_processor_ok) as (p' & ev & sig & Hp & Hc).
  exists p', ev, sig. split; [exact Hp|]. cbn [mp_from demo_packet] in Hc. apply Hc. reflexivity.
Defined.

(** A traceroute tracks every hop it names, the unset node 0 included. *)
Example traceroute_tracks_sentinel_hop :
  (fun r => contains_node (topology r.1.1) 0) <$>
    process_mesh_packet (H0 := canonical_order) demo_decoders empty_processor
      (demo_packet 9 7 TRACEROUTE_APP) demo_env = Some true.
Proof. vm_compute. reflexivity. Qed.
