(* ===== verification/Bridge.v ===== *)
(** * Gateway bridge (crates/kerykeion/src/bridge.rs)

    The registered gateways, their health, and the choice of the active one.
    The text of a degradation is kept as the values it is formatted from; the
    [watch] channel of the configuration as its current value. *)

From S2P Require Import Prelude Float MeshTypes.

Local Open Scope Z_scope.

(** [BridgeConfig] (config.rs). *)
Record BridgeConfig : Type := mkBridgeConfig {
  health_check_interval_secs : Z;
  degraded_response_threshold_ms : Z;
  degraded_loss_threshold : f32;
  offline_check_threshold : Z;
  failover_cooldown_secs : Z
}.
Definition BridgeConfig_default : BridgeConfig := mkBridgeConfig 60 5000 (f32_tenths 2) 3 30.

Inductive DegradedReason : Type :=
| SlowOrLossy (response_ms : f64) (loss : f32)
| CheckFailures (consecutive : Z).

Inductive GatewayHealth : Type :=
| Healthy
| Degraded (reason : DegradedReason)
| GwOffline (since : option Instant).

Record GatewayState : Type := mkGateway {
  gw_node : NodeNum;
  gw_priority : Z;
  gw_last_seen : Instant;
  gw_health : GatewayHealth;
  gw_consecutive_failures : Z;
  gw_avg_response_ms : option f64;
  gw_packet_loss : f32
}.

Definition GatewayState_new (node : NodeNum) (priority : Z) (now : Instant) : GatewayState :=
  mkGateway node priority now Healthy 0 None f32_zero.

Definition is_available (g : GatewayState) : bool :=
  match gw_health g with GwOffline _ => false | _ => true end.

Inductive GatewayEvent : Type :=
| Failover (from : option NodeNum) (to_ : NodeNum)
| StatusChange (node : NodeNum) (health : GatewayHealth).

Record GatewayBridge : Type := mkBridge {
  gateways : list GatewayState;
  active_gateway : option NodeNum;
  last_failover : option Instant;
  events : list GatewayEvent;
  bridge_config : BridgeConfig;
  config_watch : BridgeConfig
}.

Definition bridge_with_config (c : BridgeConfig) : GatewayBridge := mkBridge [] None None [] c c.

Definition update_config (b : GatewayBridge) (c : BridgeConfig) : GatewayBridge :=
  mkBridge (gateways b) (active_gateway b) (last_failover b) (events b) c c.

Definition set_gateways (b : GatewayBridge) (gs : list GatewayState) : GatewayBridge :=
  mkBridge gs (active_gateway b) (last_failover b) (events b) (bridge_config b) (config_watch b).
Definition push_event (b : GatewayBridge) (e : GatewayEvent) : GatewayBridge :=
  mkBridge (gateways b) (active_gateway b) (last_failover b) (events b ++ [e])
    (bridge_config b) (config_watch b).

Definition add_gateway (b : GatewayBridge) (node : NodeNum) (priority : Z) (now : Instant) : GatewayBridge :=
  if negb (existsb (fun g => gw_node g =? node) (gateways b))
  then set_gateways b (gateways b ++ [GatewayState_new node priority now]) else b.

Definition remove_gateway (b : GatewayBridge) (node : NodeNum) : GatewayBridge :=
  let b := set_gateways b (List.filter (fun g => negb (gw_node g =? node)) (gateways b)) in
  if bool_decide (active_gateway b = Some node)
  then mkBridge (gateways b) None (last_failover b) (events b) (bridge_config b) (config_watch b)
  else b.

Definition drain_events (b : GatewayBridge) : list GatewayEvent * GatewayBridge :=
  (events b, mkBridge (gateways b) (active_gateway b) (last_failover b) []
               (bridge_config b) (config_watch b)).

Definition health_rank (h : GatewayHealth) : Z :=
  match h with Healthy => 0 | Degraded _ => 1 | GwOffline _ => 2 end.

(** The pair [(health_rank, priority)] in lexicographic order, the priority
    being a [u8]. *)
Definition selection_key (g : GatewayState) : Z := health_rank (gw_health g) * 256 + gw_priority g.

Definition select_gateway (b : GatewayBridge) : option NodeNum :=
  gw_node <$> min_by_key selection_key (List.filter is_available (gateways b)).

Definition failover (b : GatewayBridge) (now : Instant) : GatewayBridge :=
  let previous := active_gateway b in
  let next := select_gateway b in
  if negb (bool_decide (next = previous)) then
    let b := mkBridge (gateways b) next (Some now) (events b) (bridge_config b) (config_watch b) in
    match next with
    | Some to_ => push_event b (Failover previous to_)
    | None => b
    end
  else b.

Definition ensure_active (b : GatewayBridge) (now : Instant) : GatewayBridge :=
  let needs_selection :=
    match active_gateway b with
    | None => true
    | Some active => negb (existsb (fun g => (gw_node g =? active) && is_available g) (gateways b))
    end in
  if needs_selection then
    match last_failover b with
    | Some cooldown =>
        if duration_since now cooldown <? duration_from_secs (failover_cooldown_secs (bridge_config b))
        then b else failover b now
    | None => failover b now
    end
  else b.

(** [iter_mut().find(..)] and an update in place of the gateway found. *)
Fixpoint update_first (node : NodeNum) (f : GatewayState -> GatewayState) (l : list GatewayState)
  : list GatewayState :=
  match l with
  | [] => []
  | g :: r => if gw_node g =? node then f g :: r else g :: update_first node f r
  end.

Definition find_gateway (b : GatewayBridge) (node : NodeNum) : option GatewayState :=
  find (fun g => gw_node g =? node) (gateways b).

Definition set_health (g : GatewayState) (h : GatewayHealth) : GatewayState :=
  mkGateway (gw_node g) (gw_priority g) (gw_last_seen g) h (gw_consecutive_failures g)
    (gw_avg_response_ms g) (gw_packet_loss g).

(** [as_millis() as f64]; [0.5] is exact. *)
Definition f32_half : f32 := f32_div (f32_of_Z 1) (f32_of_Z 2).

Definition record_health_success (b : GatewayBridge) (node : NodeNum) (response_ms : f64) (now : Instant)
  : GatewayBridge :=
  match find_gateway b node with
  | None => b
  | Some gw =>
      let loss := f32_mul (gw_packet_loss gw) f32_half in
      let threshold_ms := f64_of_Z (degraded_response_threshold_ms (bridge_config b)) in
      let new_health :=
        if f64_ltb threshold_ms response_ms
           || f32_ltb (degraded_loss_threshold (bridge_config b)) loss
        then Degraded (SlowOrLossy response_ms loss) else Healthy in
      let b' := set_gateways b (update_first node (fun g =>
                  mkGateway (gw_node g) (gw_priority g) now new_health 0 (Some response_ms) loss)
                  (gateways b)) in
      if negb (health_rank (gw_health gw) =? health_rank new_health)
      then push_event b' (StatusChange node new_health) else b'
  end.

Definition record_health_failure (b : GatewayBridge) (node : NodeNum) (now now' : Instant)
  : GatewayBridge :=
  let offline_threshold := offline_check_threshold (bridge_config b) in
  match find_gateway b node with
  | None => b
  | Some gw =>
      let failures := wrapping_add 32 (gw_consecutive_failures gw) 1 in
      let loss := f32_mul_add (gw_packet_loss gw) (f32_tenths 7) (f32_tenths 3) in
      let was_available := is_available gw in
      let '(health, event) :=
        if offline_threshold <=? failures then
          let new_health := GwOffline (Some now) in
          (new_health,
           if negb (health_rank (gw_health gw) =? health_rank new_health)
           then [StatusChange node new_health] else [])
        else
          match gw_health gw with
          | Degraded _ => (gw_health gw, [])
          | _ =>
              let new_health := Degraded (CheckFailures failures) in
              (new_health, [StatusChange node new_health])
          end in
      let b := set_gateways b (update_first node (fun g =>
                 mkGateway (gw_node g) (gw_priority g) (gw_last_seen g) health failures
                   (gw_avg_response_ms g) loss) (gateways b)) in
      let b := fold_left push_event event b in
      let now_available := match health with GwOffline _ => false | _ => true end in
      if was_available && negb now_available && bool_decide (active_gateway b = Some node)
      then failover b now' else b
  end.

Definition update_packet_loss (b : GatewayBridge) (node : NodeNum) (loss_ratio : f32) : GatewayBridge :=
  set_gateways b (update_first node (fun g =>
    mkGateway (gw_node g) (gw_priority g) (gw_last_seen g) (gw_health g) (gw_consecutive_failures g)
      (gw_avg_response_ms g) (f32_clamp loss_ratio f32_zero (f32_of_Z 1))) (gateways b)).

(** One tick of [run_health_monitor]: the active gateway is re-evaluated once
    per registered gateway. *)
Definition health_tick (b : GatewayBridge) (nows : list Instant) : GatewayBridge :=
  fold_left ensure_active (take (length (gateways b)) nows) b.

(** ** Sequences of operations *)

Inductive BridgeOp : Type :=
| BAdd (node priority : Z) (now : Instant)
| BRemove (node : NodeNum)
| BUpdateConfig (c : BridgeConfig)
| BDrainEvents
| BEnsureActive (now : Instant)
| BFailover (now : Instant)
| BSuccess (node : NodeNum) (response_ms : f64) (now : Instant)
| BFailure (node : NodeNum) (now now' : Instant)
| BPacketLoss (node : NodeNum) (loss : f32).

Definition run_bridge_op (b : GatewayBridge) (op : BridgeOp) : GatewayBridge :=
  match op with
  | BAdd node priority now => add_gateway b node priority now
  | BRemove node => remove_gateway b node
  | BUpdateConfig c => update_config b c
  | BDrainEvents => (drain_events b).2
  | BEnsureActive now => ensure_active b now
  | BFailover now => failover b now
  | BSuccess node ms now => record_health_success b node ms now
  | BFailure node now now' => record_health_failure b node now now'
  | BPacketLoss node loss => update_packet_loss b node loss
  end.

Definition run_bridge (b : GatewayBridge) (ops : list BridgeOp) : GatewayBridge :=
  fold_left run_bridge_op ops b.

Record bridge_ok (b : GatewayBridge) : Prop := {
  bok_nodup : NoDup (map gw_node (gateways b));
  bok_active : forall n, active_gateway b = Some n ->
    exists g, g ∈ gateways b /\ gw_node g = n /\ is_available g = true
}.

(** * Lemmas *)

Lemma update_first_nodes node f l :
  (forall g, gw_node (f g) = gw_node g) -> map gw_node (update_first node f l) = map gw_node l.
Proof.
  intros Hf. induction l as [|g l IH]; simpl; [done|].
  destruct (gw_node g =? node); simpl; [by rewrite Hf|by rewrite IH].
Qed.

(** In a registry without duplicates the update touches that node only. *)
Lemma elem_of_update_first node f l g :
  NoDup (map gw_node l) ->
  g ∈ update_first node f l <->
  (g ∈ l /\ gw_node g <> node) \/ exists g0, g0 ∈ l /\ gw_node g0 = node /\ g = f g0.
Proof.
  induction l as [|a l IH]; simpl; intros Hnd.
  { split; [by intros []%elem_of_nil|]. intros [[[]%elem_of_nil _]|(g0 & []%elem_of_nil & _)]. }
  apply NoDup_cons in Hnd as [Ha Hnd]. specialize (IH Hnd).
  assert (gw_node a = node -> forall x, x ∈ l -> gw_node x <> node) as Hother.
  { intros <- x Hx Heq. apply Ha. rewrite <- Heq. by apply (list_elem_of_fmap_2 gw_node). }
  destruct (gw_node a =? node) eqn:E; rewrite elem_of_cons; setoid_rewrite elem_of_cons.
  - apply Z.eqb_eq in E. specialize (Hother E). split.
    + intros [->|Hg]; [right; exists a; auto|left; auto].
    + intros [[[->|Hg] Hn]|(g0 & [->|Hg0] & Hn & ->)]; [done|auto|auto|by apply Hother in Hg0].
  - apply Z.eqb_neq in E. rewrite IH. split.
    + intros [->|[[Hg Hn]|(g0 & Hg0 & Hn & ->)]]; [left; auto|left; auto|right; exists g0; auto].
    + intros [[[->|Hg] Hn]|(g0 & [->|Hg0] & Hn & ->)]; [auto|auto|done|right; right; by exists g0].
Qed.

Lemma find_gateway_spec b node g :
  find_gateway b node = Some g -> g ∈ gateways b /\ gw_node g = node.
Proof.
  unfold find_gateway. intros Hf. apply find_some in Hf as [Hin Hn].
  split; [by apply list_elem_of_In|lia].
Qed.

Lemma select_gateway_spec b n :
  select_gateway b = Some n ->
  exists g, g ∈ gateways b /\ gw_node g = n /\ is_available g = true /\
    forall g', g' ∈ gateways b -> is_available g' = true -> selection_key g <= selection_key g'.
Proof.
  unfold select_gateway. intros (g & Hg & ->)%fmap_Some. apply min_by_key_Some in Hg as [Hin Hmin].
  apply list_elem_of_In, filter_In in Hin as [Hin Ha]. exists g.
  split; [by apply list_elem_of_In|]. split; [done|]. split; [done|].
  intros g' Hg' Ha'. apply Hmin, list_elem_of_In, filter_In. split; [by apply list_elem_of_In|done].
Qed.

Lemma failover_active b now :
  active_gateway (failover b now) = select_gateway b /\ gateways (failover b now) = gateways b.
Proof.
  unfold failover. destruct (bool_decide _) eqn:E; simpl.
  - apply bool_decide_eq_true in E. by rewrite E.
  - by destruct (select_gateway b).
Qed.

Lemma failover_ok b now : NoDup (map gw_node (gateways b)) -> bridge_ok (failover b now).
Proof.
  intros Hnd. destruct (failover_active b now) as [Ha Hg]. constructor; rewrite Hg; [done|].
  intros n Hn. rewrite Ha in Hn. apply select_gateway_spec in Hn as (g & H1 & H2 & H3 & _). by exists g.
Qed.

(** Updating one gateway keeps the invariant unless it takes the active one
    offline. *)
Lemma update_first_ok b node f :
  bridge_ok b -> (forall g, gw_node (f g) = gw_node g) ->
  (active_gateway b = Some node ->
   forall g, g ∈ gateways b -> gw_node g = node -> is_available g = true -> is_available (f g) = true) ->
  bridge_ok (set_gateways b (update_first node f (gateways b))).
Proof.
  intros [Hnd Hact] Hf Hav. constructor; simpl; [by rewrite update_first_nodes|].
  intros n Hn. destruct (Hact n Hn) as (g & Hg & Hgn & Ha).
  destruct (decide (n = node)) as [->|Hne].
  - exists (f g). rewrite elem_of_update_first by done. split; [right; eauto|]. rewrite Hf.
    split; [done|]. by apply Hav.
  - exists g. rewrite elem_of_update_first by done. split; [left; by rewrite Hgn|done].
Qed.

Lemma push_event_ok b e : bridge_ok b -> bridge_ok (push_event b e).
Proof. by intros [? ?]. Qed.

Lemma push_events_ok es b :
  bridge_ok b -> bridge_ok (fold_left push_event es b).
Proof. revert b. induction es as [|e es IH]; intros b Hb; [done|]. by apply IH, push_event_ok. Qed.

Lemma push_events_same es b :
  gateways (fold_left push_event es b) = gateways b /\
  active_gateway (fold_left push_event es b) = active_gateway b.
Proof. revert b. induction es as [|e es IH]; intros b; [done|]. apply (IH (push_event b e)). Qed.

Lemma record_health_failure_ok b node now now' :
  bridge_ok b -> bridge_ok (record_health_failure b node now now').
Proof.
  intros Hb. unfold record_health_failure. destruct (find_gateway b node) as [gw|] eqn:Hf; [|done].
  apply find_gateway_spec in Hf as [Hin Hnode]. cbv zeta.
  set (failures := wrapping_add 32 _ 1). set (loss := f32_mul_add _ _ _).
  match goal with |- context [let '(h, e) := ?p in _] => destruct p as [health event] eqn:Hp end.
  set (f := fun g => mkGateway _ _ _ _ _ _ _). set (b1 := fold_left _ _ _).
  destruct (push_events_same event (set_gateways b (update_first node f (gateways b)))) as [Hg Ha].
  fold b1 in Hg, Ha. simpl in Hg, Ha.
  assert (NoDup (map gw_node (gateways b1))) as Hnd.
  { rewrite Hg, update_first_nodes by done. apply Hb. }
  destruct (is_available gw && negb _ && bool_decide _) eqn:Hcond; [by apply failover_ok|].
  apply push_events_ok, update_first_ok; [done..|].
  intros Hact g Hgin Hgn Hgav. rewrite Ha, bool_decide_true, andb_true_r in Hcond by done.
  assert (g = gw) as ->.
  { assert (NoDup (map gw_node (gateways b))) as Hnd0 by apply Hb.
    apply list_elem_of_lookup in Hgin as (i & Hi), Hin as (j & Hj).
    assert (i = j) as -> by (eapply (NoDup_lookup (map gw_node (gateways b))); [done| |];
      rewrite list_lookup_fmap, ?Hi, ?Hj; simpl; by rewrite ?Hgn, ?Hnode).
    congruence. }
  rewrite Hgav in Hcond. unfold f, is_available. simpl. by destruct health.
Qed.

Lemma run_bridge_op_ok b op : bridge_ok b -> bridge_ok (run_bridge_op b op).
Proof.
  intros Hb. destruct op as [node pr now|node|c| |now|now|node ms now|node now now'|node loss]; simpl.
  - unfold add_gateway. destruct (existsb _ _) eqn:E; [done|]. destruct Hb as [Hnd Hact].
    constructor; simpl.
    + rewrite map_app. apply NoDup_app. split; [done|]. split; [|apply NoDup_singleton].
      intros n Hn ->%list_elem_of_singleton. apply list_elem_of_fmap in Hn as (g & Hgn & Hg).
      assert (existsb (fun g => gw_node g =? node) (gateways b) = true) as Hex.
      { apply existsb_exists. exists g. split; [by apply list_elem_of_In|]. simpl in Hgn. lia. }
      congruence.
    + intros n Hn. destruct (Hact n Hn) as (g & Hg & ?). exists g. split; [|done].
      apply elem_of_app. by left.
  - unfold remove_gateway. simpl. destruct Hb as [Hnd Hact].
    assert (NoDup (map gw_node (List.filter (fun g => negb (gw_node g =? node)) (gateways b)))) as Hnd'.
    { eapply sublist_NoDup; [done|]. apply (fmap_sublist gw_node), filter_sublist. }
    destruct (bool_decide _) eqn:E; constructor; simpl; try done.
    intros n Hn. destruct (Hact n Hn) as (g & Hg & Hgn & Hav). exists g. split; [|done].
    apply list_elem_of_In, filter_In. split; [by apply list_elem_of_In|].
    apply bool_decide_eq_false in E. apply negb_true_iff, Z.eqb_neq. congruence.
  - by destruct Hb.
  - by destruct Hb.
  - unfold ensure_active. repeat case_match; try done; apply failover_ok, Hb.
  - apply failover_ok, Hb.
  - unfold record_health_success. destruct (find_gateway b node) as [gw|] eqn:Hf; [|done].
    set (h := if _ || _ then Degraded _ else Healthy).
    assert (bridge_ok (set_gateways b (update_first node (fun g =>
      mkGateway (gw_node g) (gw_priority g) now h 0 (Some ms) (f32_mul (gw_packet_loss gw) f32_half))
      (gateways b)))) as Hb'.
    { apply update_first_ok; [done..|]. intros _ g _ _ _. unfold is_available, h. simpl.
      by destruct (_ || _). }
    destruct (negb _); [by apply push_event_ok|done].
  - by apply record_health_failure_ok.
  - by apply update_first_ok.
Qed.

Lemma run_bridge_ok b ops : bridge_ok b -> bridge_ok (run_bridge b ops).
Proof.
  unfold run_bridge. revert b. induction ops as [|op ops IH]; intros b Hb; [done|].
  by apply IH, run_bridge_op_ok.
Qed.

(** * Properties *)

(** The active gateway is always usable: after any sequence of bridge
    operations no node is registered twice, and the active gateway, if there
    is one, is registered and not offline. *)
Theorem active_gateway_available (c : BridgeConfig) (ops : list BridgeOp) (n : NodeNum) :
  let b := run_bridge (bridge_with_config c) ops in
  NoDup (map gw_node (gateways b)) /\
  (active_gateway b = Some n ->
   exists g, g ∈ gateways b /\ gw_node g = n /\ is_available g = true).
Proof.
  intros b. assert (bridge_ok b) as [H1 H2].
  { apply run_bridge_ok. constructor; [constructor|done]. }
  split; [done|]. apply H2.
Qed.

(** Failover picks the best gateway there is: if any is available, the
    active one afterwards is available and none has a better health or, with
    the same health, a lower priority value; a change is recorded as a
    [Failover] event from the previous one; if none is available no gateway is
    active. *)
Theorem failover_selects_best (b : GatewayBridge) (now : Instant) :
  Forall (fun g => is_uint 8 (gw_priority g)) (gateways b) ->
  match active_gateway (failover b now) with
  | Some n => exists g, g ∈ gateways b /\ gw_node g = n /\ is_available g = true /\
      (forall g', g' ∈ gateways b -> is_available g' = true ->
         health_rank (gw_health g) < health_rank (gw_health g') \/
         (health_rank (gw_health g) = health_rank (gw_health g') /\ gw_priority g <= gw_priority g')) /\
      (active_gateway b <> Some n ->
         events (failover b now) = events b ++ [Failover (active_gateway b) n])
  | None => Forall (fun g => is_available g = false) (gateways b)
  end.
Proof.
  intros Hp. rewrite (proj1 (failover_active b now)).
  destruct (select_gateway b) as [n|] eqn:E.
  - pose proof E as (g & Hg & Hn & Ha & Hmin)%select_gateway_spec.
    exists g. split; [done|]. split; [done|]. split; [done|]. split.
    + intros g' Hg' Ha'. specialize (Hmin g' Hg' Ha'). unfold selection_key in Hmin.
      rewrite Forall_forall in Hp. pose proof (Hp g Hg). pose proof (Hp g' Hg').
      unfold is_uint in *. lia.
    + intros Hne. unfold failover. rewrite E. rewrite bool_decide_false by congruence. done.
  - unfold select_gateway in E. rewrite fmap_None, min_by_key_None in E.
    apply Forall_forall. intros g Hg. destruct (is_available g) eqn:Ha; [|done].
    assert (In g (List.filter is_available (gateways b))) as Hin.
    { apply filter_In. split; [by apply list_elem_of_In|done]. }
    by rewrite E in Hin.
Qed.

Lemma failover_selects_best_witness :
  let b := run_bridge (bridge_with_config BridgeConfig_default)
             [BAdd 1 10 0; BAdd 2 20 0; BEnsureActive 0; BFailure 1 5 5] in
  active_gateway b = Some 1 /\ active_gateway (failover b 6) = Some 2 /\
  events (failover b 6) = events b ++ [Failover (Some 1) 2].
Proof.
  intros b. split; [vm_compute; reflexivity|]. split; [vm_compute; reflexivity|].
  assert (Forall (fun g => is_uint 8 (gw_priority g)) (gateways b)) as Hp.
  { repeat constructor; unfold is_uint; simpl; lia. }
  pose proof (failover_selects_best b 6 Hp) as T.
  change (active_gateway (failover b 6)) with (Some 2) in T.
  destruct T as (g & _ & _ & _ & _ & T). apply T. vm_compute. discriminate.
Defined.
