(* ===== verification/Mqtt.v ===== *)
(** * MQTT envelopes (crates/kerykeion/src/mqtt.rs) and node identifiers as text
      (crates/kerykeion/src/types.rs)

    What the mesh stack reads from the MQTT messages of Meshtastic: the gateway that
    published a packet and the map report of a node. The protobuf decoders are
    parameters. *)

From S2P Require Import Prelude Float MeshTypes Proto Handshake.

Local Open Scope Z_scope.

Abbreviation text := (list Z) (only parsing).

(** ** Hexadecimal numbers *)

(** [char::to_digit(16)] on ASCII. *)
Definition hex_value (c : Z) : option Z :=
  if (48 <=? c) && (c <=? 57) then Some (c - 48)
  else if (97 <=? c) && (c <=? 102) then Some (c - 87)
  else if (65 <=? c) && (c <=? 70) then Some (c - 55)
  else None.

Fixpoint hex_digits (acc : Z) (l : text) : option Z :=
  match l with
  | [] => Some acc
  | c :: l =>
      d ← hex_value c;
      acc ← try_uint 32 (acc * 16 + d);
      hex_digits acc l
  end.

(** [u32::from_str_radix(s, 16)]: an optional plus sign and at least one digit. *)
Definition u32_from_hex (s : text) : option Z :=
  match s with
  | [] => None
  | [43] => None
  | 43 :: l => hex_digits 0 l
  | l => hex_digits 0 l
  end.

(** [{:08x}]. *)
Definition lower_hex_digit (d : Z) : Z := if d <? 10 then 48 + d else 87 + d.
Definition hex8 (n : Z) : text := map (fun k => lower_hex_digit (n / 16 ^ k mod 16)) [7; 6; 5; 4; 3; 2; 1; 0].

(** [Display] of [NodeNum] and [PacketId]: [{:#010x}]. *)
Definition NodeNum_display (n : NodeNum) : text := byte_str "0x" ++ hex8 n.
Definition PacketId_display (n : PacketId) : text := byte_str "0x" ++ hex8 n.

(** ** Envelopes *)

Record ServiceEnvelope : Type := mkEnvelope { se_packet : option MeshPacket; se_channel_id : text; se_gateway_id : text }.
Record MapReport : Type := mkMapReport {
  mr_long_name : text; mr_short_name : text; mr_hw_model : Z; mr_firmware_version : text;
  mr_latitude_i : Z; mr_longitude_i : Z; mr_altitude : Z; mr_num_online_local_nodes : Z }.
Record MqttClientProxyMessage : Type := mkProxyMessage { px_topic : text; px_data : option bytes }.

Record GatewayInfo : Type := mkGatewayInfo { gi_node_num : option NodeNum; gi_raw_id : text; gi_channel_id : text }.

Record ParsedMapReport : Type := mkParsedMapReport {
  pm_long_name : text; pm_short_name : text; pm_hw_model : Z; pm_firmware_version : text;
  pm_latitude : option f64; pm_longitude : option f64; pm_altitude : option Z; pm_num_online_local_nodes : Z }.

Definition parse_gateway_id (gateway_id : text) : option NodeNum :=
  match gateway_id with
  | 33 :: hex => u32_from_hex hex
  | _ => None
  end.

Definition extract_gateway_info (envelope : ServiceEnvelope) : GatewayInfo :=
  mkGatewayInfo (parse_gateway_id (se_gateway_id envelope)) (se_gateway_id envelope) (se_channel_id envelope).

Inductive MqttError : Type := MqttDecode.

Section Decode.
Context (envelope_decode : bytes -> option ServiceEnvelope) (map_report_decode : bytes -> option MapReport)
        (proxy_decode : bytes -> option MqttClientProxyMessage).

Definition decode_or {A} (r : option A) : result A MqttError := match r with Some a => Ok a | None => Err MqttDecode end.

Definition decode_service_envelope (b : bytes) : result ServiceEnvelope MqttError := decode_or (envelope_decode b).
Definition decode_proxy_message (b : bytes) : result MqttClientProxyMessage MqttError := decode_or (proxy_decode b).

Definition nonzero {A} (raw : Z) (a : A) : option A := if negb (raw =? 0) then Some a else None.

Definition decode_map_report (b : bytes) : result ParsedMapReport MqttError :=
  let? report := decode_or (map_report_decode b) in
  Ok (mkParsedMapReport (mr_long_name report) (mr_short_name report) (mr_hw_model report) (mr_firmware_version report)
        (nonzero (mr_latitude_i report) (f64_mul (f64_of_Z (mr_latitude_i report)) f64_1e_7))
        (nonzero (mr_longitude_i report) (f64_mul (f64_of_Z (mr_longitude_i report)) f64_1e_7))
        (nonzero (mr_altitude report) (mr_altitude report)) (mr_num_online_local_nodes report)).
End Decode.

(** * Lemmas *)

Lemma hex_value_lower d : 0 <= d < 16 -> hex_value (lower_hex_digit d) = Some d.
Proof. intros Hd. unfold lower_hex_digit, hex_value. split_ifs; f_equal; lia. Qed.

(** Digit by digit, the parser rebuilds the number it was printed from. *)
Lemma hex_digits_print ks : forall acc n,
  0 <= acc -> 0 <= n ->
  (acc + 1) * 16 ^ Z.of_nat (length ks) <= 2 ^ 32 ->
  ks = map (fun k => Z.of_nat (length ks) - 1 - Z.of_nat k) (seq 0 (length ks)) ->
  hex_digits acc (map (fun k => lower_hex_digit (n / 16 ^ k mod 16)) ks)
  = Some (acc * 16 ^ Z.of_nat (length ks) + n mod 16 ^ Z.of_nat (length ks)).
Proof.
  induction ks as [|k ks IH]; intros acc n Hacc Hn Hb Hks.
  - cbn. f_equal. rewrite Z.mod_1_r. lia.
  - cbn [length map seq] in Hks. injection Hks as Hk Hks. cbn [map hex_digits].
    set (m := Z.of_nat (length ks)) in *. cbn [length] in *. rewrite Nat2Z.inj_succ in *. fold m in Hb |- *.
    assert (k = m) as -> by lia. rewrite Z.pow_succ_r in * by lia.
    pose proof (Z.mod_pos_bound (n / 16 ^ m) 16 ltac:(lia)) as Hd. rewrite hex_value_lower by lia.
    pose proof (Z.pow_pos_nonneg 16 m ltac:(lia) ltac:(lia)) as Hp.
    cbn [mbind option_bind]. unfold try_uint.
    assert (acc * 16 + n / 16 ^ m mod 16 < 2 ^ 32) as Hlt by nia.
    replace ((0 <=? acc * 16 + n / 16 ^ m mod 16) && (acc * 16 + n / 16 ^ m mod 16 <? 2 ^ 32)) with true by lia.
    cbn [mbind option_bind]. rewrite IH; [|nia|done|nia|].
    + f_equal. fold m. rewrite (Z.mul_comm 16 (16 ^ m)), (Z.rem_mul_r n (16 ^ m) 16) by lia. nia.
    + rewrite Hks at 1. rewrite <- seq_shift, map_map. apply map_ext. intros x. fold m. lia.
Qed.

(** A gateway identifier in the form Meshtastic prints it, an exclamation mark and
    eight hexadecimal digits, parses to the node it names, for every node number. *)
Theorem gateway_id_roundtrip n : is_uint 32 n -> parse_gateway_id (33 :: hex8 n) = Some n.
Proof.
  intros Hn. unfold is_uint in Hn. cbn [parse_gateway_id].
  assert (u32_from_hex (hex8 n) = hex_digits 0 (hex8 n)) as ->.
  { unfold u32_from_hex, hex8. cbn [map]. unfold lower_hex_digit at 1.
    pose proof (Z.mod_pos_bound (n / 16 ^ 7) 16 ltac:(lia)).
    remember (if n / 16 ^ 7 mod 16 <? 10 then 48 + n / 16 ^ 7 mod 16 else 87 + n / 16 ^ 7 mod 16) as c.
    assert (c <> 43) by (subst c; split_ifs; lia). destruct c as [|p|p]; [done| |done]. repeat (destruct p as [p|p|]; try done). }
  unfold hex8. rewrite (hex_digits_print [7; 6; 5; 4; 3; 2; 1; 0] 0 n); [|lia|lia|vm_compute; discriminate|reflexivity].
  f_equal. change (16 ^ Z.of_nat _) with (2 ^ 32). rewrite Z.mod_small by lia. lia.
Qed.

(** What else is taken for an identifier: a sign, and any number of digits. *)
Example signed_gateway_id : parse_gateway_id (byte_str "!+ff") = Some 255.
Proof. reflexivity. Qed.
Example short_gateway_id : parse_gateway_id (byte_str "!1") = Some 1.
Proof. reflexivity. Qed.
Example long_gateway_id : parse_gateway_id (byte_str "!000000000001") = Some 1.
Proof. reflexivity. Qed.
