(* ===== verification/MeshConfig.v ===== *)
(** * Mesh configuration (crates/kerykeion/src/config.rs)

    The tuning records of the mesh stack with their defaults, and the two checks that
    run while a configuration is deserialized. What serde itself does (field names,
    missing fields) is not modelled: a field's raw value, or the error of reading
    it, is an argument of its check. *)

From S2P Require Import Prelude Float MeshTypes Proto MeshCrypto Message Outbound StoreForward Topology Bridge.

Local Open Scope Z_scope.

Inductive ConnectionConfig : Type :=
| ConnSerial (port : bytes) (baud : Z)
| ConnTcp (addr : bytes) (port : Z)
| ConnBle (device_name : bytes).

(** [serde::de::Error]. *)
Inductive DeError : Type := Malformed | InvalidLength (len : nat) | NotFinite (value : f32).

Record ChannelPsk : Type := mkChannelPsk { cp_index : ChannelIndex; cp_name : bytes; cp_psk : bytes }.

Definition deserialize_psk (raw : result bytes DeError) : result bytes DeError :=
  let? b := raw in
  if (length b =? 0)%nat || (length b =? AES128_KEY_LEN)%nat || (length b =? AES256_KEY_LEN)%nat then Ok b
  else Err (InvalidLength (length b)).

Record TopologyConfig : Type := mkTopologyConfig {
  traceroute_interval_secs : Z; stale_node_timeout_secs : Z; neighbor_info_enabled : bool;
  gateway_nodes : list Z; snr_ceiling : f32 }.

Definition deserialize_finite_snr_ceiling (raw : result f32 DeError) : result f32 DeError :=
  let? value := raw in
  if f32_is_finite value then Ok value else Err (NotFinite value).

Definition TopologyConfig_default : TopologyConfig := mkTopologyConfig 3600 7200 true [] default_snr_ceiling.

Record TransportConfig : Type := mkTransportConfig {
  tcp_connect_timeout_secs : Z; reconnect_max_backoff_secs : Z; reconnect_initial_delay_secs : Z }.
Definition TransportConfig_default : TransportConfig := mkTransportConfig 3 30 1.
Definition tcp_connect_timeout (c : TransportConfig) : Duration := duration_from_secs (tcp_connect_timeout_secs c).
Definition reconnect_max_backoff (c : TransportConfig) : Duration := duration_from_secs (reconnect_max_backoff_secs c).
Definition reconnect_initial_delay (c : TransportConfig) : Duration := duration_from_secs (reconnect_initial_delay_secs c).

Record HandshakeConfig : Type := mkHandshakeConfig { timeout_secs : Z }.
Definition HandshakeConfig_default : HandshakeConfig := mkHandshakeConfig 10.

Record HeartbeatConfig : Type := mkHeartbeatConfig { interval_secs : Z }.
Definition HeartbeatConfig_default : HeartbeatConfig := mkHeartbeatConfig 30.
Definition heartbeat_interval (c : HeartbeatConfig) : Duration := duration_from_secs (interval_secs c).

(** The intervals of the other records. *)
Definition handshake_timeout (c : HandshakeConfig) : Duration := duration_from_secs (timeout_secs c).
Definition ack_timeout (c : OutboundConfig) : Duration := duration_from_secs (oc_ack_timeout_secs c).
Definition store_forward_ttl (c : OutboundConfig) : Duration := duration_from_secs (oc_store_forward_ttl_secs c).
Definition delivery_record_max_age (c : OutboundConfig) : Duration :=
  duration_from_secs (oc_delivery_record_max_age_secs c).
Definition degraded_response_threshold (c : BridgeConfig) : Duration :=
  duration_from_millis (degraded_response_threshold_ms c).
Definition failover_cooldown (c : BridgeConfig) : Duration := duration_from_secs (failover_cooldown_secs c).

(** [config::CollectorConfig]. *)
Record FlushConfig : Type := mkFlushConfig { router_flush_interval_secs : Z }.
Definition FlushConfig_default : FlushConfig := mkFlushConfig 1.

Record MeshConfig : Type := mkMeshConfig {
  connections : list ConnectionConfig; channel_psk : list ChannelPsk; cfg_store_forward : StoreForwardConfig;
  cfg_topology : TopologyConfig; cfg_bridge : BridgeConfig; cfg_outbound : OutboundConfig;
  cfg_transport : TransportConfig; cfg_handshake : HandshakeConfig; cfg_heartbeat : HeartbeatConfig;
  cfg_collector : FlushConfig; cfg_message : MessageConfig }.
Definition MeshConfig_default : MeshConfig :=
  mkMeshConfig [] [] StoreForwardConfig_default TopologyConfig_default BridgeConfig_default OutboundConfig_default
    TransportConfig_default HandshakeConfig_default HeartbeatConfig_default FlushConfig_default MessageConfig_default.

(** * Lemmas *)

(** A configured PSK is a key or the absence of one; the one-byte shorthand that
    [resolve_psk] takes off the wire is not accepted here. *)
Lemma deserialize_psk_resolves raw psk :
  deserialize_psk raw = Ok psk ->
  raw = Ok psk /\ resolve_psk psk = if decide (psk = []) then Unencrypted else Key psk.
Proof.
  destruct raw as [b|e]; [|discriminate]. unfold deserialize_psk, result_bind, AES128_KEY_LEN, AES256_KEY_LEN.
  destruct (_ || _) eqn:E; [|discriminate]. intros [= <-]. split; [done|].
  destruct b as [|n rest]; [done|]. destruct (decide (n :: rest = [])); [done|].
  unfold resolve_psk, AES128_KEY_LEN, AES256_KEY_LEN. cbn [length] in E.
  destruct (length rest =? 0)%nat eqn:E0; [exfalso; lia|]. cbn [andb length].
  destruct (_ || _) eqn:E1; [done|]. exfalso. lia.
Qed.

(** * Properties *)

(** C7. A configured channel key works: a PSK that passes deserialization never makes
    encryption fail; an empty one sends clear text, and any other is used as the AES
    key itself. *)
Theorem configured_psk_encrypts `{Ctr128LE} raw psk plaintext packet_id from_node :
  deserialize_psk raw = Ok psk ->
  encrypt plaintext packet_id from_node psk =
    Ok (if decide (psk = []) then plaintext
        else xor_bytes plaintext (keystream (aes_block psk) (from_le_bytes (build_nonce packet_id from_node)) (length plaintext))).
Proof.
  intros [_ Hr]%deserialize_psk_resolves. destruct (decide (psk = [])) as [->|Hne]; [done|].
  by rewrite (encrypt_key _ _ _ _ psk).
Qed.

Lemma configured_psk_encrypts_witness :
  deserialize_psk (Ok DEFAULT_PSK) = Ok DEFAULT_PSK /\
  @encrypt counter_cipher [1; 2; 3] 5 7 DEFAULT_PSK =
    Ok (xor_bytes [1; 2; 3] (keystream (@aes_block counter_cipher DEFAULT_PSK) (from_le_bytes (build_nonce 5 7)) 3)).
Proof.
  split; [reflexivity|].
  exact (@configured_psk_encrypts counter_cipher (Ok DEFAULT_PSK) DEFAULT_PSK [1; 2; 3] 5 7 eq_refl).
Defined.
