(* ===== verification/Transport.v ===== *)
(** * Connections to a radio
      (crates/kerykeion/src/connection.rs, transport/{mod,tcp,serial,ble}.rs, heartbeat.rs)

    A transport wraps a framed byte stream (TCP, serial) or a message-oriented
    peripheral (BLE) and remembers whether its link is up. The stream with the
    codec on it, the operating system and the BLE adapter are classes; a loop that
    the source runs until it succeeds has fuel, and what it did when the fuel ends
    is an outcome of its own. An awaited call is taken to return. *)

From S2P Require Import Prelude Float Decimal MeshTypes Proto FrameCodec MeshConfig.

Local Open Scope Z_scope.

Abbreviation text := (list Z) (only parsing).
(** [ToRadio] and [FromRadio] by their payload variants. *)
Abbreviation ToRadio := (option ToRadioVariant) (only parsing).
Abbreviation FromRadio := (option FromRadioVariant) (only parsing).

Inductive ConnectSource : Type := TimedOutAfter (secs : Z) | OsError.

Inductive TransportError : Type :=
| TcpConnect (addr : text) (source : ConnectSource)
| SerialConnect (port : text)
| ConnectionLost (detail : text)
| BleConnect (device : text)
| ProtobufDecode
| StreamFailed.

(** The outcome of a loop: it returned, panicked, or is still running. *)
Inductive loop_result (A : Type) : Type := Returned (a : A) | Panicked | Running.
Arguments Returned {A} a.
Arguments Panicked {A}.
Arguments Running {A}.

(** ** Durations *)

(** [Duration::MAX], and multiplication, which panics beyond it. *)
Definition DURATION_MAX : Duration := (2 ^ 64 - 1) * NANOS_PER_SEC + (NANOS_PER_SEC - 1).
Definition duration_mul (d : Duration) (k : Z) : option Duration :=
  if d * k <=? DURATION_MAX then Some (d * k) else None.
Definition duration_as_secs (d : Duration) : Z := d / NANOS_PER_SEC.

(** ** The interface: [MeshConnection] *)

Class MeshConnection (C : Type) : Type := {
  conn_send : ToRadio -> C -> result unit TransportError * C;
  conn_recv : nat -> C -> loop_result (result FromRadio TransportError) * C;
  conn_is_connected : C -> bool;
  conn_reconnect : nat -> C -> loop_result (result unit TransportError) * C
}.

(** What its clients rely on: an operation the link fails takes the connection down,
    and a reconnection that returns brings it up. An undecodable message is the one
    error a working link yields. *)
Class LinkAware (C : Type) `{MeshConnection C} : Prop := {
  send_err_down : forall p c e c', conn_send p c = (Err e, c') -> conn_is_connected c' = false;
  recv_err_down : forall n c e c', conn_recv n c = (Returned (Err e), c') ->
    e = ProtobufDecode \/ conn_is_connected c' = false;
  reconnect_up : forall n c r c', conn_reconnect n c = (Returned r, c') -> r = Ok tt /\ conn_is_connected c' = true
}.

(** ** The outside world *)

(** [tokio_util::codec::Framed] over a stream of type [St] with the mesh codec. *)
Class Framed (St F : Type) : Type := {
  framed_new : St -> F;
  framed_send : ToRadio -> F -> result unit TransportError * F;
  framed_next : F -> option (result FromRadio TransportError) * F
}.

(** Timers and sockets; [connect_within] is [timeout(.., TcpStream::connect(..))],
    [None] when the time elapsed, and [open_native] opens a serial port with the
    control lines cleared. *)
Class Network (W St : Type) : Type := {
  sleep : Duration -> W -> W;
  connect_within : Duration -> text -> W -> option (result St unit) * W;
  open_native : text -> Z -> W -> result St unit * W
}.

(** Reconnection: the loop the three transports share. *)
Fixpoint reconnect_loop {W A} (pause : Duration -> W -> W) (attempt : W -> result A TransportError * W)
    (max_backoff : Duration) (fuel : nat) (delay : Duration) (w : W) : loop_result A * W :=
  match fuel with
  | O => (Running, w)
  | S fuel =>
      match attempt (pause delay w) with
      | (Ok a, w) => (Returned a, w)
      | (Err _, w) =>
          match duration_mul delay 2 with
          | None => (Panicked, w)
          | Some doubled => reconnect_loop pause attempt max_backoff fuel (Z.min doubled max_backoff) w
          end
      end
  end.

Section Streams.
Context {W St F : Type} `{Framed St F} `{Network W St}.

(** [Framed::send] and [next] as both stream transports use them. *)
Definition stream_recv (closed : text) (f : F) : result FromRadio TransportError * F * bool :=
  match framed_next f with
  | (Some (Ok msg), f) => (Ok msg, f, true)
  | (Some (Err e), f) => (Err e, f, false)
  | (None, f) => (Err (ConnectionLost closed), f, false)
  end.

(** ** TCP (tcp.rs) *)

Record TcpTransport : Type := mkTcp {
  tcp_addr : text; tcp_port : Z; tcp_framed : F; tcp_connected : bool; tcp_config : TransportConfig }.

Definition tcp_target (addr : text) (port : Z) : text := addr ++ byte_str ":" ++ show_uint port.

Definition tcp_connect (addr : text) (port : Z) (timeout : Duration) (w : W) : result St TransportError * W :=
  match connect_within timeout (tcp_target addr port) w with
  | (None, w) => (Err (TcpConnect (tcp_target addr port) (TimedOutAfter (duration_as_secs timeout))), w)
  | (Some r, w) => (map_err (fun _ => TcpConnect (tcp_target addr port) OsError) r, w)
  end.

Definition tcp_connect_with_config (addr : text) (port : Z) (config : TransportConfig) (w : W)
  : result TcpTransport TransportError * W :=
  match tcp_connect addr port (tcp_connect_timeout config) w with
  | (Ok stream, w) => (Ok (mkTcp addr port (framed_new stream) true config), w)
  | (Err e, w) => (Err e, w)
  end.

Definition tcp_send (packet : ToRadio) (t : TcpTransport) : result unit TransportError * TcpTransport :=
  let (r, f) := framed_send packet (tcp_framed t) in
  (r, mkTcp (tcp_addr t) (tcp_port t) f (if is_ok r then tcp_connected t else false) (tcp_config t)).

Definition tcp_recv (t : TcpTransport) : result FromRadio TransportError * TcpTransport :=
  let '(r, f, up) := stream_recv (byte_str "TCP connection to " ++ tcp_target (tcp_addr t) (tcp_port t)
                                  ++ byte_str " closed (EOF)") (tcp_framed t) in
  (r, mkTcp (tcp_addr t) (tcp_port t) f (if up then tcp_connected t else false) (tcp_config t)).

Definition tcp_reconnect (fuel : nat) (t : TcpTransport) (w : W)
  : loop_result (result unit TransportError) * TcpTransport * W :=
  let down := mkTcp (tcp_addr t) (tcp_port t) (tcp_framed t) false (tcp_config t) in
  match reconnect_loop sleep (tcp_connect (tcp_addr t) (tcp_port t) (tcp_connect_timeout (tcp_config t)))
          (reconnect_max_backoff (tcp_config t)) fuel (reconnect_initial_delay (tcp_config t)) w with
  | (Returned stream, w) =>
      (Returned (Ok tt), mkTcp (tcp_addr t) (tcp_port t) (framed_new stream) true (tcp_config t), w)
  | (Panicked, w) => (Panicked, down, w)
  | (Running, w) => (Running, down, w)
  end.

(** ** Serial (serial.rs) *)

Record SerialTransport : Type := mkSerial {
  ser_port_path : text; ser_baud : Z; ser_framed : F; ser_connected : bool; ser_config : TransportConfig }.

Definition open_serial_stream (port : text) (baud : Z) (w : W) : result St TransportError * W :=
  let (r, w) := open_native port baud w in (map_err (fun _ => SerialConnect port) r, w).

Definition open_with_config (port : text) (baud : Z) (config : TransportConfig) (w : W)
  : result SerialTransport TransportError * W :=
  match open_serial_stream port baud w with
  | (Ok stream, w) => (Ok (mkSerial port baud (framed_new stream) true config), w)
  | (Err e, w) => (Err e, w)
  end.

Definition serial_send (packet : ToRadio) (t : SerialTransport) : result unit TransportError * SerialTransport :=
  let (r, f) := framed_send packet (ser_framed t) in
  (r, mkSerial (ser_port_path t) (ser_baud t) f (if is_ok r then ser_connected t else false) (ser_config t)).

Definition serial_recv (t : SerialTransport) : result FromRadio TransportError * SerialTransport :=
  let '(r, f, up) := stream_recv (byte_str "serial port " ++ ser_port_path t ++ byte_str " closed (EOF)")
                       (ser_framed t) in
  (r, mkSerial (ser_port_path t) (ser_baud t) f (if up then ser_connected t else false) (ser_config t)).

Definition serial_reconnect (fuel : nat) (t : SerialTransport) (w : W)
  : loop_result (result unit TransportError) * SerialTransport * W :=
  let down := mkSerial (ser_port_path t) (ser_baud t) (ser_framed t) false (ser_config t) in
  match reconnect_loop sleep (open_serial_stream (ser_port_path t) (ser_baud t))
          (reconnect_max_backoff (ser_config t)) fuel (reconnect_initial_delay (ser_config t)) w with
  | (Returned stream, w) =>
      (Returned (Ok tt), mkSerial (ser_port_path t) (ser_baud t) (framed_new stream) true (ser_config t), w)
  | (Panicked, w) => (Panicked, down, w)
  | (Running, w) => (Running, down, w)
  end.

(** ** Dispatch (mod.rs) *)

Inductive ConnectionHandle : Type := HSerial (c : SerialTransport) | HTcp (c : TcpTransport).

Definition connect_with_config (config : ConnectionConfig) (tc : TransportConfig) (w : W)
  : result ConnectionHandle TransportError * W :=
  match config with
  | ConnSerial port baud =>
      match open_with_config port baud tc w with
      | (Ok conn, w) => (Ok (HSerial conn), w)
      | (Err e, w) => (Err e, w)
      end
  | ConnTcp addr port =>
      match tcp_connect_with_config addr port tc w with
      | (Ok conn, w) => (Ok (HTcp conn), w)
      | (Err e, w) => (Err e, w)
      end
  | ConnBle device_name => (Err (BleConnect device_name), w)
  end.

Definition handle_send (p : ToRadio) '((h, w) : ConnectionHandle * W) : result unit TransportError * (ConnectionHandle * W) :=
  match h with
  | HSerial c => let (r, c) := serial_send p c in (r, (HSerial c, w))
  | HTcp c => let (r, c) := tcp_send p c in (r, (HTcp c, w))
  end.
Definition handle_recv '((h, w) : ConnectionHandle * W) : result FromRadio TransportError * (ConnectionHandle * W) :=
  match h with
  | HSerial c => let (r, c) := serial_recv c in (r, (HSerial c, w))
  | HTcp c => let (r, c) := tcp_recv c in (r, (HTcp c, w))
  end.
Definition handle_is_connected (h : ConnectionHandle) : bool :=
  match h with HSerial c => ser_connected c | HTcp c => tcp_connected c end.
Definition handle_reconnect (fuel : nat) '((h, w) : ConnectionHandle * W)
  : loop_result (result unit TransportError) * (ConnectionHandle * W) :=
  match h with
  | HSerial c => let '(r, c, w) := serial_reconnect fuel c w in (r, (HSerial c, w))
  | HTcp c => let '(r, c, w) := tcp_reconnect fuel c w in (r, (HTcp c, w))
  end.

#[export] Instance handle_connection : MeshConnection (ConnectionHandle * W) := {
  conn_send := handle_send;
  conn_recv _ c := let (r, c) := handle_recv c in (Returned r, c);
  conn_is_connected c := handle_is_connected c.1;
  conn_reconnect := handle_reconnect }.
(** The collector's probe (collector.rs): whether a connection could be opened; the
    TCP stream that shows it is dropped, and a BLE device is never probed.
    [port_exists] is whether a path exists. *)
Definition probe_one (port_exists : text -> bool) (tc : TransportConfig) (config : ConnectionConfig) (w : W) : bool * W :=
  match config with
  | ConnTcp addr port =>
      match connect_within (tcp_connect_timeout tc) (tcp_target addr port) w with
      | (Some (Ok _), w) => (true, w)
      | (_, w) => (false, w)
      end
  | ConnSerial port _ => (port_exists port, w)
  | ConnBle _ => (false, w)
  end.
Fixpoint probe (port_exists : text -> bool) (tc : TransportConfig) (configs : list ConnectionConfig) (w : W) : bool * W :=
  match configs with
  | [] => (false, w)
  | config :: configs =>
      match probe_one port_exists tc config w with
      | (true, w) => (true, w)
      | (false, w) => probe port_exists tc configs w
      end
  end.

(** A TCP link the probe finds is one that connecting in its place opens. *)
Lemma probe_tcp_connects port_exists tc addr port w w' :
  probe_one port_exists tc (ConnTcp addr port) w = (true, w') <->
  exists conn, tcp_connect_with_config addr port tc w = (Ok conn, w').
Proof.
  unfold probe_one, tcp_connect_with_config, tcp_connect. destruct (connect_within _ _ w) as [[[stream|e]|] w1]; cbn [map_err];
    (split; [intros E|intros [conn E]]); simplify_eq; by eexists.
Qed.

End Streams.
Arguments TcpTransport F : clear implicits.
Arguments SerialTransport F : clear implicits.
Arguments ConnectionHandle F : clear implicits.

(** ** BLE (ble.rs) *)

(** The trait [BlePeripheral]; [read_from_radio] returns [None] for an empty queue,
    and a link that [connect] established is established. *)
Class BlePeripheral (P : Type) : Type := {
  ble_connect : text -> P -> result unit TransportError * P;
  write_to_radio : bytes -> P -> result unit TransportError * P;
  read_from_radio : P -> result (option bytes) TransportError * P;
  wait_for_data : P -> result unit TransportError * P;
  peripheral_is_connected : P -> bool;
  ble_connect_up : forall name p p', ble_connect name p = (Ok tt, p') -> peripheral_is_connected p' = true
}.

Section Ble.
Context {P : Type} `{BlePeripheral P}.
(** Sleeping is done by the peripheral's clock; prost's codecs are parameters. *)
Context (pause : Duration -> P -> P) (encode_to_vec : ToRadio -> bytes) (decode : bytes -> option FromRadio).

Record BleTransport : Type := mkBle {
  ble_device_name : text; ble_peripheral : P; ble_connected : bool; ble_config : TransportConfig }.

Definition set_link (t : BleTransport) (p : P) (up : bool) : BleTransport :=
  mkBle (ble_device_name t) p up (ble_config t).

Definition ble_connect_with_config (device_name : text) (p : P) (config : TransportConfig)
  : result BleTransport TransportError :=
  match ble_connect device_name p with
  | (Ok _, p) => Ok (mkBle device_name p true config)
  | (Err e, _) => Err e
  end.

Definition ble_send (packet : ToRadio) (t : BleTransport) : result unit TransportError * BleTransport :=
  let (r, p) := write_to_radio (encode_to_vec packet) (ble_peripheral t) in
  (r, set_link t p (if is_ok r then ble_connected t else false)).

Fixpoint ble_recv (fuel : nat) (t : BleTransport) : loop_result (result FromRadio TransportError) * BleTransport :=
  match fuel with
  | O => (Running, t)
  | S fuel =>
      match read_from_radio (ble_peripheral t) with
      | (Ok (Some payload), p) =>
          (Returned (match decode payload with Some m => Ok m | None => Err ProtobufDecode end),
           set_link t p (ble_connected t))
      | (Ok None, p) =>
          match wait_for_data p with
          | (Ok _, p) => ble_recv fuel (set_link t p (ble_connected t))
          | (Err e, p) => (Returned (Err e), set_link t p false)
          end
      | (Err e, p) => (Returned (Err e), set_link t p false)
      end
  end.

Definition ble_is_connected (t : BleTransport) : bool :=
  ble_connected t && peripheral_is_connected (ble_peripheral t).

Definition ble_reconnect (fuel : nat) (t : BleTransport) : loop_result (result unit TransportError) * BleTransport :=
  match reconnect_loop pause (ble_connect (ble_device_name t)) (reconnect_max_backoff (ble_config t)) fuel
          (reconnect_initial_delay (ble_config t)) (ble_peripheral t) with
  | (Returned _, p) => (Returned (Ok tt), set_link t p true)
  | (Panicked, p) => (Panicked, set_link t p false)
  | (Running, p) => (Running, set_link t p false)
  end.

#[export] Instance ble_connection : MeshConnection BleTransport := {
  conn_send := ble_send; conn_recv := ble_recv; conn_is_connected := ble_is_connected; conn_reconnect := ble_reconnect }.
End Ble.
Arguments BleTransport P : clear implicits.

Definition no_matching_device {T} (device : text) : result T TransportError := Err (BleConnect device).
Definition link_dropped {T} (detail : text) : result T TransportError := Err (ConnectionLost detail).

(** ** Keepalive (heartbeat.rs) *)

(** How the [select!] of the loop resolves, turn by turn. *)
Inductive HeartbeatEvent : Type := Cancelled | Tick.

Section Heartbeat.
Context {C : Type} `{MeshConnection C}.

Fixpoint heartbeat_loop (events : list HeartbeatEvent) (c : C) : loop_result (result unit TransportError) * C :=
  match events with
  | [] => (Running, c)
  | Cancelled :: _ => (Returned (Ok tt), c)
  | Tick :: events =>
      match conn_send None c with
      | (Ok _, c) => heartbeat_loop events c
      | (Err e, c) => (Returned (Err e), c)
      end
  end.

(** [tokio::time::interval] panics on a zero period. *)
Definition run_heartbeat_with_config (config : HeartbeatConfig) (events : list HeartbeatEvent) (c : C)
  : loop_result (result unit TransportError) * C :=
  if heartbeat_interval config =? 0 then (Panicked, c) else heartbeat_loop events c.

Definition run_heartbeat : list HeartbeatEvent -> C -> loop_result (result unit TransportError) * C :=
  run_heartbeat_with_config HeartbeatConfig_default.
End Heartbeat.

(** * Lemmas *)

(** ** The interface's promises *)

#[export] Instance handle_link_aware {W St F} `{Framed St F} `{Network W St} : LinkAware (ConnectionHandle F * W).
Proof.
  constructor.
  - intros p [h w] e c'. cbn. unfold handle_send, serial_send, tcp_send. destruct h as [c|c].
    + destruct (framed_send p (ser_framed c)) as [r f]. by intros [= -> <-].
    + destruct (framed_send p (tcp_framed c)) as [r f]. by intros [= -> <-].
  - intros n [h w] e c' E. right. revert E. cbn. unfold handle_recv, serial_recv, tcp_recv, stream_recv. destruct h as [c|c].
    + destruct (framed_next (ser_framed c)) as [[[m|e']|] f]; by intros [= <- <-].
    + destruct (framed_next (tcp_framed c)) as [[[m|e']|] f]; by intros [= <- <-].
  - intros n [h w] r c'. cbn. unfold handle_reconnect, serial_reconnect, tcp_reconnect. destruct h as [c|c].
    + destruct (reconnect_loop _ _ _ _ _ _) as [[s| |] w']; by intros [= <- <-].
    + destruct (reconnect_loop _ _ _ _ _ _) as [[s| |] w']; by intros [= <- <-].
Qed.

Section BleLemmas.
Context {P : Type} `{BlePeripheral P}.
Context (pause : Duration -> P -> P) (encode_to_vec : ToRadio -> bytes) (decode : bytes -> option FromRadio).

Lemma ble_reconnect_established max_backoff name fuel : forall delay (p p' : P) a,
  reconnect_loop pause (ble_connect name) max_backoff fuel delay p = (Returned a, p') -> peripheral_is_connected p' = true.
Proof.
  induction fuel as [|fuel IH]; intros delay p p' a; [done|]. cbn.
  destruct (ble_connect name (pause delay p)) as [[[]|e] p1] eqn:E.
  - intros [= <- <-]. by eapply ble_connect_up.
  - destruct (duration_mul delay 2); [|done]. apply IH.
Qed.

Lemma ble_recv_err fuel : forall (t t' : BleTransport P) e,
  ble_recv decode fuel t = (Returned (Err e), t') -> e = ProtobufDecode \/ ble_connected t' = false.
Proof.
  induction fuel as [|fuel IH]; intros t t' e; [done|]. cbn.
  destruct (read_from_radio _) as [[[payload|]|e'] p].
  - destruct (decode payload); intros [= <- <-]. by left.
  - destruct (wait_for_data p) as [[u|e'] p']; [apply IH|]. intros [= <- <-]. by right.
  - intros [= <- <-]. by right.
Qed.

#[export] Instance ble_link_aware : @LinkAware (BleTransport P) (ble_connection pause encode_to_vec decode).
Proof.
  constructor.
  - intros p t e t'. cbn. unfold ble_send. destruct (write_to_radio _ _) as [r q]. by intros [= -> <-].
  - intros n t e t' E. destruct (ble_recv_err _ _ _ _ E) as [?|Hd]; [by left|right].
    cbn. unfold ble_is_connected. by rewrite Hd.
  - intros n t r t'. cbn. unfold ble_reconnect. destruct (reconnect_loop _ _ _ _ _ _) as [[u| |] p'] eqn:E; [|done|done].
    intros [= <- <-]. split; [done|]. unfold ble_is_connected. cbn. by eapply ble_reconnect_established.
Qed.
End BleLemmas.

(** ** Backing off *)

(** The delay before attempt [i]. *)
Definition backoff (initial max_backoff : Duration) (i : nat) : Duration :=
  match i with O => initial | S _ => Z.min (initial * 2 ^ Z.of_nat i) max_backoff end.

(** Attempts that all fail, each after its delay, and the world they leave. *)
Fixpoint failed_attempts {W A} (pause : Duration -> W -> W) (attempt : W -> result A TransportError * W)
    (delays : list Duration) (w : W) : option W :=
  match delays with
  | [] => Some w
  | d :: delays =>
      match attempt (pause d w) with
      | (Err _, w) => failed_attempts pause attempt delays w
      | (Ok _, _) => None
      end
  end.

Lemma backoff_step initial max_backoff i :
  0 <= initial -> 0 <= max_backoff ->
  backoff initial max_backoff (S i) = Z.min (backoff initial max_backoff i * 2) max_backoff.
Proof.
  intros Hi Hm. unfold backoff. destruct i as [|i]; [f_equal; lia|].
  rewrite (Nat2Z.inj_succ (S i)), Z.pow_succ_r by lia. remember (2 ^ Z.of_nat (S i)) as x. nia.
Qed.

Lemma backoff_bounds initial max_backoff i :
  0 <= initial -> 0 <= max_backoff -> 0 <= backoff initial max_backoff i <= Z.max initial max_backoff.
Proof.
  intros Hi Hm. destruct i as [|i]; cbn [backoff]; [lia|].
  pose proof (Z.pow_pos_nonneg 2 (Z.of_nat (S i)) ltac:(lia) ltac:(lia)). nia.
Qed.

Section Backoff.
Context {W A : Type} (pause : Duration -> W -> W) (attempt : W -> result A TransportError * W).
Context (initial max_backoff : Duration).
Context (Hi : 0 <= initial /\ initial * 2 <= DURATION_MAX) (Hm : 0 <= max_backoff /\ max_backoff * 2 <= DURATION_MAX).

Let delay := backoff initial max_backoff.

Lemma reconnect_loop_skip k : forall i w w1,
  failed_attempts pause attempt (map delay (seq i k)) w = Some w1 ->
  forall fuel, reconnect_loop pause attempt max_backoff (k + fuel) (delay i) w
             = reconnect_loop pause attempt max_backoff fuel (delay (i + k)) w1.
Proof.
  induction k as [|k IH]; intros i w w1; cbn [seq map failed_attempts].
  - intros [= <-] fuel. by rewrite Nat.add_0_r.
  - intros E fuel. cbn [Nat.add reconnect_loop].
    destruct (attempt (pause (delay i) w)) as [[a|e] w2]; [done|].
    unfold duration_mul. replace (delay i * 2 <=? DURATION_MAX) with true.
    2: { symmetry. apply Z.leb_le. pose proof (backoff_bounds initial max_backoff i ltac:(lia) ltac:(lia)).
         subst delay. cbn beta in *. lia. }
    replace (Z.min (delay i * 2) max_backoff) with (delay (S i)) by (subst delay; by rewrite backoff_step by lia).
    rewrite (IH (S i) w2 w1 E fuel). by rewrite <- plus_n_Sm.
Qed.

Lemma reconnect_loop_returns k w w1 a w2 fuel :
  failed_attempts pause attempt (map delay (seq 0 k)) w = Some w1 -> attempt (pause (delay k) w1) = (Ok a, w2) ->
  (k < fuel)%nat -> reconnect_loop pause attempt max_backoff fuel initial w = (Returned a, w2).
Proof.
  intros Hf Ha Hlt. replace fuel with (k + S (fuel - S k))%nat by lia. change initial with (delay 0) at 1.
  rewrite (reconnect_loop_skip k 0 w w1 Hf). cbn [Nat.add reconnect_loop]. by rewrite Ha.
Qed.
End Backoff.

(** With a zero initial delay, which a configuration may have, there is no backing off. *)
Lemma zero_delay_never_backs_off max_backoff i : 0 <= max_backoff -> backoff 0 max_backoff i = 0.
Proof. intros Hm. destruct i as [|i]; cbn; [done|]. lia. Qed.

(** The schedule connection.rs documents: 1 s, 2 s, 4 s, 8 s, capped at 30 s. *)
Example default_schedule :
  map (fun i => duration_as_secs (backoff (reconnect_initial_delay TransportConfig_default)
                                    (reconnect_max_backoff TransportConfig_default) i)) (seq 0 7)
  = [1; 2; 4; 8; 16; 30; 30].
Proof. reflexivity. Qed.

(** ** Keepalive *)

(** A configured interval of zero seconds is accepted and makes the task panic. *)
Lemma zero_interval_panics {C} `{MeshConnection C} events (c : C) :
  run_heartbeat_with_config (mkHeartbeatConfig 0) events c = (Panicked, c).
Proof. reflexivity. Qed.

(** The error a heartbeat ends with means the link is down. *)
Lemma heartbeat_err_down {C} `{LinkAware C} config events : forall (c c' : C) e,
  run_heartbeat_with_config config events c = (Returned (Err e), c') -> conn_is_connected c' = false.
Proof.
  unfold run_heartbeat_with_config. destruct (_ =? 0); [done|].
  induction events as [|[|] events IH]; intros c c' e; cbn; [done|done|].
  destruct (conn_send None c) as [[u|e'] c1] eqn:E; [apply IH|]. intros [= <- <-]. by eapply send_err_down.
Qed.

(** ** A framed stream over the codec

    [Framed] as tokio-util documents it for a decoder without an end-of-file case of
    its own: decode what is buffered, else read; at the end of the file what is
    left in the buffer is an error. *)

Section CodecStream.
Context (enc : ToRadio -> bytes) (dec : bytes -> option FromRadio).

(** A stream of reads still to come, and what was written to it. *)
Record ByteStream : Type := mkStream { unread : list bytes; written : bytes }.
Record FramedStream : Type := mkFramed { fs_buffer : bytes; fs_stream : ByteStream }.

Fixpoint next_frame (buf : bytes) (chunks : list bytes) : option (result FromRadio TransportError) * bytes * list bytes :=
  match decode dec buf with
  | Some (Ok (Some msg), rest) => (Some (Ok msg), rest, chunks)
  | Some (Ok None, rest) =>
      match chunks with
      | [] => match rest with [] => (None, [], []) | _ => (Some (Err StreamFailed), rest, []) end
      | c :: chunks => next_frame (rest ++ c) chunks
      end
  | _ => (Some (Err StreamFailed), buf, chunks)
  end.

#[export] Instance codec_framed : Framed ByteStream FramedStream := {
  framed_new s := mkFramed [] s;
  framed_send p f :=
    match encode enc p [] with
    | Ok out => (Ok tt, mkFramed (fs_buffer f) (mkStream (unread (fs_stream f)) (written (fs_stream f) ++ out)))
    | Err _ => (Err StreamFailed, f)
    end;
  framed_next f :=
    let '(r, buf, chunks) := next_frame (fs_buffer f) (unread (fs_stream f)) in
    (r, mkFramed buf (mkStream chunks (written (fs_stream f)))) }.

(** What the reader still owes: the messages in the buffer and the unread chunks. *)
Lemma next_frame_drain chunks : forall buf ms rest,
  drain dec (buf ++ concat chunks) = Some (ms, rest) ->
  match ms with
  | m :: ms => exists buf' chunks', next_frame buf chunks = (Some (Ok m), buf', chunks') /\
                 drain dec (buf' ++ concat chunks') = Some (ms, rest)
  | [] => next_frame buf chunks = (if decide (rest = []) then None else Some (Err StreamFailed), rest, [])
  end.
Proof.
  induction chunks as [|c chunks IH]; intros buf ms rest E.
  all: destruct (decode_total dec buf) as (item & r & Hd); cbn [next_frame]; rewrite Hd.
  all: destruct item as [m|].
  - cbn [concat] in E. rewrite app_nil_r, drain_unfold, Hd in E. apply bind_Some in E as ([ms' r'] & E & [= <- <-]).
    exists r, []. cbn [concat]. by rewrite app_nil_r.
  - cbn [concat] in E. rewrite app_nil_r, drain_unfold, Hd in E. injection E as <- <-. by destruct r.
  - rewrite drain_unfold, (decode_app_Some dec _ _ _ _ Hd) in E. apply bind_Some in E as ([ms' r'] & E & [= <- <-]).
    by exists r, (c :: chunks).
  - assert (drain dec ((r ++ c) ++ concat chunks) = Some (ms, rest)) as E'.
    { rewrite <- E, <- app_assoc. apply drain_decode. symmetry. apply decode_app_None. exact Hd. }
    apply IH in E'. exact E'.
Qed.

(** Receiving until an error. *)
Fixpoint recv_all (fuel : nat) (t : TcpTransport FramedStream)
  : list FromRadio * option TransportError * TcpTransport FramedStream :=
  match fuel with
  | O => ([], None, t)
  | S fuel =>
      match tcp_recv (St := ByteStream) t with
      | (Ok m, t) => let '(ms, e, t) := recv_all fuel t in (m :: ms, e, t)
      | (Err e, t) => ([], Some e, t)
      end
  end.

Lemma recv_all_drain addr port config w rest msgs : forall fuel chunks buf,
  drain dec (buf ++ concat chunks) = Some (msgs, rest) -> (length msgs < fuel)%nat ->
  exists t, recv_all fuel (mkTcp addr port (mkFramed buf (mkStream chunks w)) true config)
    = (msgs, Some (if decide (rest = [])
                   then ConnectionLost (byte_str "TCP connection to " ++ tcp_target addr port ++ byte_str " closed (EOF)")
                   else StreamFailed), t) /\
    tcp_connected t = false /\ fs_buffer (tcp_framed t) = rest.
Proof.
  induction msgs as [|m msgs IH]; intros [|fuel] chunks buf E Hl; cbn [length] in Hl; try lia.
  all: apply next_frame_drain in E; cbn [recv_all]; unfold tcp_recv, stream_recv; cbn [framed_next codec_framed tcp_framed fs_buffer fs_stream unread written].
  - rewrite E. destruct (decide (rest = [])) as [->|Hne]; eexists; by split.
  - destruct E as (buf' & chunks' & E & Hd). rewrite E. cbn [tcp_addr tcp_port tcp_connected tcp_config].
    destruct (IH fuel chunks' buf' Hd ltac:(lia)) as (t & Ht & Hdown). rewrite Ht. by exists t.
Qed.
End CodecStream.

(** * Properties *)

(** A TCP receiver delivers exactly the frames of the stream: however the reads cut
    it, receiving until an error yields the messages decoding the whole stream
    yields, in order; the error is the loss of the connection, or a stream error
    when the stream ended inside a frame, and the transport then knows it is
    down. *)
Theorem tcp_receives_stream (enc : ToRadio -> bytes) (dec : bytes -> option FromRadio) addr port config chunks w msgs rest fuel :
  receive dec [] [concat chunks] = Some (msgs, rest) -> (length msgs < fuel)%nat ->
  exists t, recv_all enc dec fuel (mkTcp addr port (mkFramed [] (mkStream chunks w)) true config)
    = (msgs, Some (if decide (rest = [])
                   then ConnectionLost (byte_str "TCP connection to " ++ tcp_target addr port ++ byte_str " closed (EOF)")
                   else StreamFailed), t) /\
    tcp_connected t = false /\ fs_buffer (tcp_framed t) = rest.
Proof.
  rewrite receive_concat by done. cbn [concat app]. rewrite app_nil_r. intros E Hl.
  exact (recv_all_drain enc dec addr port config w rest msgs fuel chunks [] E Hl).
Qed.

Lemma tcp_receives_stream_witness :
  let dec (b : bytes) := Some (Some (FRConfigCompleteId (hd 0 b))) in
  receive dec [] [concat [[1; 0x94; 0xC3; 0]; [1; 7; 0x94]]] = Some ([Some (FRConfigCompleteId 7)], [0x94]) /\
  exists t, recv_all (fun _ => []) dec 2 (mkTcp [] 4403 (mkFramed [] (mkStream [[1; 0x94; 0xC3; 0]; [1; 7; 0x94]] [])) true TransportConfig_default)
    = ([Some (FRConfigCompleteId 7)], Some StreamFailed, t) /\ tcp_connected t = false /\ fs_buffer (tcp_framed t) = [0x94].
Proof.
  intros dec. split; [reflexivity|].
  exact (tcp_receives_stream (fun _ => []) dec [] 4403 TransportConfig_default [[1; 0x94; 0xC3; 0]; [1; 7; 0x94]] []
    [Some (FRConfigCompleteId 7)] [0x94] 2 eq_refl ltac:(cbn; lia)).
Defined.

(** C4. Reconnection returns: if the first [k] attempts fail and the next succeeds, a TCP
    transport is up after it, on a new stream with an empty buffer, having slept
    before every attempt the initial delay doubled each time and capped by the
    configured ceiling; for any delays below 2^63 seconds nothing overflows. *)
Theorem tcp_reconnect_backs_off {W St F} `{Framed St F} `{Network W St} (t : TcpTransport F) (w w1 w2 : W) k stream fuel :
  let initial := reconnect_initial_delay (tcp_config t) in
  let max_backoff := reconnect_max_backoff (tcp_config t) in
  let attempt := tcp_connect (tcp_addr t) (tcp_port t) (tcp_connect_timeout (tcp_config t)) in
  0 <= reconnect_initial_delay_secs (tcp_config t) < 2 ^ 63 -> 0 <= reconnect_max_backoff_secs (tcp_config t) < 2 ^ 63 ->
  failed_attempts sleep attempt (map (backoff initial max_backoff) (seq 0 k)) w = Some w1 ->
  attempt (sleep (backoff initial max_backoff k) w1) = (Ok stream, w2) -> (k < fuel)%nat ->
  tcp_reconnect fuel t w
  = (Returned (Ok tt), mkTcp (tcp_addr t) (tcp_port t) (framed_new stream) true (tcp_config t), w2) /\
  forall i, 0 <= backoff initial max_backoff i <= Z.max initial max_backoff.
Proof.
  intros initial max_backoff attempt Hi Hm Hf Ha Hl.
  assert (forall s, 0 <= s < 2 ^ 63 -> 0 <= duration_from_secs s /\ duration_from_secs s * 2 <= DURATION_MAX) as Hd.
  { intros s Hs. unfold duration_from_secs, DURATION_MAX, NANOS_PER_SEC. lia. }
  split.
  - pose proof (reconnect_loop_returns sleep attempt initial max_backoff (Hd _ Hi) (Hd _ Hm) k w w1 stream w2 fuel Hf Ha Hl) as E.
    unfold tcp_reconnect. subst initial max_backoff attempt. by rewrite E.
  - intros i. apply backoff_bounds; [apply (Hd _ Hi)|apply (Hd _ Hm)].
Qed.

(** A network in which connecting fails a number of times and then succeeds, with a
    clock that adds up the time slept. *)
Module FlakyNetwork.
Record Net : Type := mkNet { failures : nat; slept : Duration }.
#[local] Instance flaky : Network Net ByteStream := {
  sleep d n := mkNet (failures n) (slept n + d);
  connect_within _ _ n :=
    match failures n with
    | O => (Some (Ok (mkStream [] [])), n)
    | S k => (if Nat.even k then None else Some (Err tt), mkNet k (slept n))
    end;
  open_native _ _ n := (Err tt, n) }.
#[local] Instance framed : Framed ByteStream FramedStream := codec_framed (fun _ => []) (fun _ => None).

Definition dropped : TcpTransport FramedStream :=
  mkTcp (byte_str "mesh") 4403 (mkFramed [0x94] (mkStream [] [])) false TransportConfig_default.

Lemma tcp_reconnect_backs_off_witness :
  let attempt := tcp_connect (tcp_addr dropped) (tcp_port dropped) (tcp_connect_timeout (tcp_config dropped)) in
  tcp_reconnect 7 dropped (mkNet 6 0)
  = (Returned (Ok tt), mkTcp (byte_str "mesh") 4403 (mkFramed [] (mkStream [] [])) true TransportConfig_default,
     mkNet 0 (duration_from_secs (1 + 2 + 4 + 8 + 16 + 30 + 30))) /\
  forall i, 0 <= backoff (duration_from_secs 1) (duration_from_secs 30) i <= duration_from_secs 30.
Proof.
  intros attempt.
  refine (tcp_reconnect_backs_off dropped (mkNet 6 0) (mkNet 0 (duration_from_secs 61)) _ 6 (mkStream [] []) 7 _ _ _ _ _);
    [cbn; lia|cbn; lia|reflexivity|reflexivity|lia].
Defined.
End FlakyNetwork.
