(* ===== verification/Receiver.v ===== *)
(** * Sharing a connection with its senders (crates/kerykeion/src/collector.rs: recv_yielding)

    The receive loop holds the connection's lock only for a window at a time, so that
    the tasks that send (heartbeat, discovery, router flush) get their turn. What may
    happen while it waits is a sequence of turns; a window that ends drops the
    pending receive, and whatever the framed stream had buffered must survive that. *)

From S2P Require Import Prelude Float MeshTypes Proto FrameCodec MeshConfig Transport.

Local Open Scope Z_scope.

Abbreviation ToRadio := (option ToRadioVariant) (only parsing).
Abbreviation FromRadio := (option FromRadioVariant) (only parsing).

(** The read that the poll waits for completes; the guard is dropped, because the
    window elapsed or the caller's [select!] took another branch; a task asks for
    the lock, to send. *)
Inductive RecvTurn : Type := Readable | Released | Queued (packet : ToRadio).

Section Receiver.
Context (enc : ToRadio -> bytes) (dec : bytes -> option FromRadio).

Abbreviation transport := (TcpTransport FramedStream).

Definition with_stream (t : transport) (buf : bytes) (chunks : list bytes) (up : bool) : transport :=
  mkTcp (tcp_addr t) (tcp_port t) (mkFramed buf (mkStream chunks (written (fs_stream (tcp_framed t))))) up (tcp_config t).

(** The lock is fair: once it is free, the tasks that wait for it get it in the
    order they asked, before the loop that takes it again. *)
Definition serve (waiting : list ToRadio) (t : transport) : transport :=
  fold_left (fun t p => (@tcp_send ByteStream FramedStream (codec_framed enc dec) p t).2) waiting t.

(** One call: the result, the transport, who still waits for the lock, and the turns
    left. A poll decodes what is buffered before it reads. *)
Fixpoint recv_yielding (turns : list RecvTurn) (waiting : list ToRadio) (t : transport)
  : loop_result (result FromRadio TransportError) * transport * list ToRadio * list RecvTurn :=
  let up := tcp_connected t in
  let chunks := unread (fs_stream (tcp_framed t)) in
  match decode dec (fs_buffer (tcp_framed t)) with
  | Some (Ok (Some msg), rest) => (Returned (Ok msg), serve waiting (with_stream t rest chunks up), [], turns)
  | Some (Ok None, rest) =>
      match turns with
      | [] => (Running, with_stream t rest chunks up, waiting, [])
      | Queued p :: turns => recv_yielding turns (waiting ++ [p]) (with_stream t rest chunks up)
      | Released :: turns => recv_yielding turns [] (serve waiting (with_stream t rest chunks up))
      | Readable :: turns =>
          match chunks with
          | c :: chunks => recv_yielding turns waiting (with_stream t (rest ++ c) chunks up)
          | [] => (Returned (Err (if decide (rest = [])
                                  then ConnectionLost (byte_str "TCP connection to " ++ tcp_target (tcp_addr t) (tcp_port t)
                                                       ++ byte_str " closed (EOF)")
                                  else StreamFailed)),
                   serve waiting (with_stream t rest [] false), [], turns)
          end
      end
  | _ => (Returned (Err StreamFailed), serve waiting (with_stream t (fs_buffer (tcp_framed t)) chunks false), [], turns)
  end.

(** The calls of the main loop, until an error. *)
Fixpoint receive_yielding (fuel : nat) (turns : list RecvTurn) (t : transport)
  : list FromRadio * option TransportError * transport * list ToRadio * list RecvTurn :=
  match fuel with
  | O => ([], None, t, [], turns)
  | S fuel =>
      match recv_yielding turns [] t with
      | (Returned (Ok m), t, _, turns) =>
          let '(ms, e, t, waiting, turns) := receive_yielding fuel turns t in (m :: ms, e, t, waiting, turns)
      | (Returned (Err e), t, waiting, turns) => ([], Some e, t, waiting, turns)
      | (_, t, waiting, turns) => ([], None, t, waiting, turns)
      end
  end.

(** ** What the turns ask for *)

Definition queued (turns : list RecvTurn) : list ToRadio :=
  omap (fun turn => match turn with Queued p => Some p | _ => None end) turns.
Definition reads (turns : list RecvTurn) : nat :=
  length (omap (fun turn => match turn with Readable => Some tt | _ => None end) turns).
(** The requests since the lock was last released. *)
Definition open_window (waiting : list ToRadio) (turns : list RecvTurn) : list ToRadio :=
  fold_left (fun ps turn => match turn with Queued p => ps ++ [p] | Released => [] | Readable => ps end) turns waiting.
(** The bytes that sending writes; a packet too long for a frame writes none. *)
Definition sent (ps : list ToRadio) : bytes :=
  concat (map (fun p => match encode enc p [] with Ok out => out | Err _ => [] end) ps).

(** * Lemmas *)

Abbreviation stream t := (fs_stream (tcp_framed t)) (only parsing).
Abbreviation buffered t := (fs_buffer (tcp_framed t)) (only parsing).

Lemma sent_app ps qs : sent (ps ++ qs) = sent ps ++ sent qs.
Proof. unfold sent. by rewrite map_app, concat_app. Qed.
Lemma queued_app us vs : queued (us ++ vs) = queued us ++ queued vs.
Proof. apply omap_app. Qed.
Lemma reads_app us vs : reads (us ++ vs) = (reads us + reads vs)%nat.
Proof. unfold reads. by rewrite omap_app, length_app. Qed.

(** A packet too long for a frame is refused before anything is written, and the
    transport takes its link for lost all the same. *)
Lemma oversized_packet_drops_link p t e :
  encode enc p [] = Err e ->
  @tcp_send ByteStream FramedStream (codec_framed enc dec) p t
  = (Err StreamFailed, mkTcp (tcp_addr t) (tcp_port t) (tcp_framed t) false (tcp_config t)).
Proof. intros E. unfold tcp_send. cbn [framed_send codec_framed]. by rewrite E. Qed.

(** Serving the senders writes what they send and leaves what is to be read. *)
Lemma serve_spec ps : forall t,
  tcp_addr (serve ps t) = tcp_addr t /\ tcp_port (serve ps t) = tcp_port t /\ buffered (serve ps t) = buffered t /\
  unread (stream (serve ps t)) = unread (stream t) /\ written (stream (serve ps t)) = written (stream t) ++ sent ps /\
  (tcp_connected t = false -> tcp_connected (serve ps t) = false).
Proof.
  induction ps as [|p ps IH]; intros t; [by rewrite app_nil_r|].
  destruct (IH (@tcp_send ByteStream FramedStream (codec_framed enc dec) p t).2) as (Ha & Hp & Hb & Hu & Hw & Hd).
  change (serve (p :: ps) t) with (serve ps (@tcp_send ByteStream FramedStream (codec_framed enc dec) p t).2).
  change (sent (p :: ps)) with ((match encode enc p [] with Ok out => out | Err _ => [] end) ++ sent ps).
  rewrite Ha, Hp, Hb, Hu, Hw. unfold tcp_send in Hd |- *. cbn [framed_send codec_framed] in Hd |- *.
  destruct (encode enc p []) as [out|e]; cbn [snd is_ok tcp_addr tcp_port tcp_framed fs_buffer fs_stream unread written tcp_connected] in *.
  - rewrite <- app_assoc. by repeat split.
  - repeat split. intros _. by apply Hd.
Qed.

(** The stream a transport still has to deliver. *)
Definition pending (t : transport) : bytes := buffered t ++ concat (unread (stream t)).

(** What one call guarantees, whatever the turns: used turns, the transport before
    and after, the messages the stream still owed. *)
Definition call_spec (t t' : transport) (waiting waiting' : list ToRadio) (used : list RecvTurn)
    (r : loop_result (result FromRadio TransportError)) (ms : list FromRadio) (rest : bytes) : Prop :=
  tcp_addr t' = tcp_addr t /\ tcp_port t' = tcp_port t /\
  written (stream t') ++ sent waiting' = written (stream t) ++ sent (waiting ++ queued used) /\
  match r with
  | Returned (Ok m) => waiting' = [] /\ (exists ms', ms = m :: ms' /\ drain dec (pending t') = Some (ms', rest)) /\
      (reads used + length (unread (stream t')) = length (unread (stream t)))%nat
  | Returned (Err e) => waiting' = [] /\ ms = [] /\ tcp_connected t' = false /\ buffered t' = rest /\
      reads used = S (length (unread (stream t))) /\
      e = (if decide (rest = []) then ConnectionLost (byte_str "TCP connection to " ++ tcp_target (tcp_addr t) (tcp_port t)
                                                      ++ byte_str " closed (EOF)") else StreamFailed)
  | Panicked => False
  | Running => waiting' = open_window waiting used /\ drain dec (pending t') = Some (ms, rest) /\
      (reads used + length (unread (stream t')) = length (unread (stream t)))%nat
  end.

Lemma drain_cases buf rest item ms rest' chunks :
  decode dec buf = Some (Ok item, rest) -> drain dec (buf ++ concat chunks) = Some (ms, rest') ->
  match item with
  | Some m => exists ms', ms = m :: ms' /\ drain dec (rest ++ concat chunks) = Some (ms', rest')
  | None => drain dec (rest ++ concat chunks) = Some (ms, rest') /\ (chunks = [] -> ms = [] /\ rest = rest')
  end.
Proof.
  intros Hd E. destruct item as [m|].
  - rewrite drain_unfold, (decode_app_Some dec _ _ _ _ Hd) in E. apply bind_Some in E as ([ms' r'] & E & [= <- <-]).
    by exists ms'.
  - split.
    + rewrite <- E. apply drain_decode. symmetry. by apply decode_app_None.
    + intros ->. cbn [concat] in E. rewrite app_nil_r, drain_unfold, Hd in E. by injection E as <- <-.
Qed.

(** A call that neither read, nor released, nor was asked for the lock yet. *)
Lemma call_spec_step t1 t t' ws ws' turn used r ms rest :
  tcp_addr t1 = tcp_addr t -> tcp_port t1 = tcp_port t ->
  written (stream t1) ++ sent (open_window ws [turn]) = written (stream t) ++ sent (ws ++ queued [turn]) ->
  (reads [turn] + length (unread (stream t1)) = length (unread (stream t)))%nat ->
  call_spec t1 t' (open_window ws [turn]) ws' used r ms rest -> call_spec t t' ws ws' (turn :: used) r ms rest.
Proof.
  intros Ha Hp Hw Hr (Ha' & Hp' & Hw' & Hc). change (turn :: used) with ([turn] ++ used).
  repeat split; [congruence|congruence|..].
  - rewrite Hw', queued_app, !sent_app, app_assoc, Hw, !sent_app. by rewrite !app_assoc.
  - destruct r as [[m|e]| |]; [|..|done|]; rewrite reads_app, <- ?Hr, <- ?Ha, <- ?Hp.
    + destruct Hc as (-> & Hm & Hl). repeat split; [done|]. lia.
    + destruct Hc as (-> & -> & Hd & Hb & Hl & He). rewrite Ha, Hp in He |- *. repeat split; try done. lia.
    + destruct Hc as (-> & Hm & Hl). repeat split; [done|]. lia.
Qed.

Lemma recv_yielding_spec turns : forall ws t ms rest,
  drain dec (pending t) = Some (ms, rest) ->
  let '(r, t', ws', later) := recv_yielding turns ws t in
  exists used, turns = used ++ later /\ call_spec t t' ws ws' used r ms rest.
Proof.
  induction turns as [|turn turns IH]; intros ws t ms rest E; destruct (decode_total dec (buffered t)) as (item & buf & Hd);
    pose proof (drain_cases _ _ _ _ _ _ Hd E) as Hc; cbn [recv_yielding]; rewrite Hd; destruct item as [m|].
  1, 3: exists []; split; [done|]; destruct Hc as (ms' & -> & Hm);
    destruct (serve_spec ws (with_stream t buf (unread (stream t)) (tcp_connected t))) as (Ha & Hp & Hb & Hu & Hw & _);
    unfold call_spec, pending; rewrite Ha, Hp, Hb, Hu, Hw; cbn; rewrite !app_nil_r; repeat split; by exists ms'.
  - exists []. split; [done|]. destruct Hc as [Hm _]. unfold call_spec, pending. cbn. by rewrite app_nil_r.
  - destruct Hc as [Hm Hend]. destruct turn as [| |p].
    + destruct (unread (stream t)) as [|c chunks] eqn:Hu.
      * exists [Readable]. split; [done|]. destruct (Hend eq_refl) as [-> ->].
        destruct (serve_spec ws (with_stream t rest [] false)) as (Ha & Hp & Hb & _ & Hw & Hf).
        unfold call_spec. rewrite Ha, Hp, Hb, Hw, Hf, Hu by done. cbn. by rewrite !app_nil_r.
      * specialize (IH ws (with_stream t (buf ++ c) chunks (tcp_connected t)) ms rest).
        destruct (recv_yielding _ _ _) as [[[r t'] ws'] later]. destruct IH as (used & -> & Hs).
        { unfold pending. cbn. by rewrite <- app_assoc. }
        exists (Readable :: used). split; [done|]. eapply call_spec_step, Hs; try done; cbn; [by rewrite app_nil_r|by rewrite Hu].
    + pose (t1 := serve ws (with_stream t buf (unread (stream t)) (tcp_connected t))).
      destruct (serve_spec ws (with_stream t buf (unread (stream t)) (tcp_connected t))) as (Ha & Hp & Hb & Hu & Hw & _).
      specialize (IH [] t1 ms rest). subst t1.
      destruct (recv_yielding _ _ _) as [[[r t'] ws'] later]. destruct IH as (used & -> & Hs).
      { unfold pending. by rewrite Hb, Hu. }
      exists (Released :: used). split; [done|]. eapply call_spec_step, Hs; [by rewrite Ha|by rewrite Hp| |by rewrite Hu].
      rewrite Hw. cbn. by rewrite !app_nil_r.
    + specialize (IH (ws ++ [p]) (with_stream t buf (unread (stream t)) (tcp_connected t)) ms rest Hm).
      destruct (recv_yielding _ _ _) as [[[r t'] ws'] later]. destruct IH as (used & -> & Hs).
      exists (Queued p :: used). split; [done|]. eapply call_spec_step, Hs; by try done.
Qed.

(** A call that has not returned has used every turn. *)
Lemma recv_yielding_waits turns : forall ws t t' ws' later,
  recv_yielding turns ws t = (Running, t', ws', later) -> later = [].
Proof.
  induction turns as [|turn turns IH]; intros ws t t' ws' later; cbn [recv_yielding];
    destruct (decode_total dec (buffered t)) as (item & buf & ->); destruct item as [m|]; try done; [by intros [= _ _ <-]|].
  destruct turn as [| |p]; [destruct (unread _); [done|]|..]; apply IH.
Qed.

Lemma open_window_app ws us vs : open_window ws (us ++ vs) = open_window (open_window ws us) vs.
Proof. apply fold_left_app. Qed.
Lemma open_window_suffix vs : forall ws, suffix (open_window [] vs) (open_window ws vs).
Proof.
  induction vs as [|turn vs IH] using rev_ind; intros ws; [apply suffix_nil|].
  rewrite !open_window_app. destruct turn as [| |p]; cbn; [done..|]. by apply suffix_app.
Qed.

Lemma receive_yielding_spec fuel : forall turns t msgs rest,
  drain dec (pending t) = Some (msgs, rest) -> (length msgs < fuel)%nat ->
  let '(ms, e, t', waiting, later) := receive_yielding fuel turns t in
  exists used, turns = used ++ later /\
    written (stream t') ++ sent waiting = written (stream t) ++ sent (queued used) /\
    suffix waiting (open_window [] used) /\
    match e with
    | Some e => ms = msgs /\ waiting = [] /\ tcp_connected t' = false /\ buffered t' = rest /\
        e = (if decide (rest = []) then ConnectionLost (byte_str "TCP connection to " ++ tcp_target (tcp_addr t) (tcp_port t)
                                                        ++ byte_str " closed (EOF)") else StreamFailed)
    | None => prefix ms msgs /\ later = [] /\ (reads used <= length (unread (stream t)))%nat
    end.
Proof.
  induction fuel as [|fuel IH]; intros turns t msgs rest E Hl; [lia|]. cbn [receive_yielding].
  pose proof (recv_yielding_spec turns [] t msgs rest E) as Hs. pose proof (recv_yielding_waits turns [] t) as Hr.
  destruct (recv_yielding turns [] t) as [[[r t1] ws] later]. destruct Hs as (used & -> & Ha & Hp & Hw & Hc).
  destruct r as [[m|e]| |].
  - destruct Hc as (-> & (ms' & -> & Hm) & Hu). specialize (IH later t1 ms' rest Hm ltac:(cbn in Hl; lia)).
    destruct (receive_yielding _ _ _) as [[[[ms e] t'] waiting] later']. destruct IH as (used' & -> & Hw' & Hx & He).
    cbn in Hw. rewrite app_nil_r in Hw. exists (used ++ used'). split; [by rewrite app_assoc|]. split; [|split].
    + by rewrite Hw', Hw, queued_app, sent_app, app_assoc.
    + rewrite open_window_app. etrans; [done|apply open_window_suffix].
    + rewrite <- Ha, <- Hp. destruct e as [e|].
      * destruct He as (-> & ?). by split.
      * destruct He as (Hpre & -> & Hn). split; [by apply prefix_cons|]. split; [done|]. rewrite reads_app. lia.
  - destruct Hc as (-> & -> & Hd & Hb & _ & He). exists used. split; [done|]. split; [done|]. split; [apply suffix_nil|]. done.
  - done.
  - rewrite (Hr _ _ _ eq_refl) in *. destruct Hc as (-> & _ & Hu). exists used. split; [done|]. split; [done|]. split; [done|].
    split; [apply prefix_nil|]. split; [done|]. lia.
Qed.

(** Without senders and windows a call is the transport's receive. *)
Lemma recv_yielding_recv n : forall t,
  (length (unread (stream t)) < n)%nat ->
  let (r, t') := @tcp_recv ByteStream FramedStream (codec_framed enc dec) t in
  exists later, recv_yielding (repeat Readable n) [] t = (Returned r, t', [], later).
Proof.
  induction n as [|n IH]; intros t Hl; [lia|]. unfold tcp_recv, stream_recv in *. cbn [framed_next codec_framed recv_yielding repeat].
  destruct t as [addr port [buf [chunks w]] up config]. cbn -[decode byte_str] in Hl |- *.
  destruct (decode_total dec buf) as (item & rest & Hd). destruct chunks as [|c chunks]; cbn [next_frame]; rewrite Hd; destruct item as [m|].
  - by eexists.
  - destruct rest; by eexists.
  - by eexists.
  - specialize (IH (mkTcp addr port (mkFramed (rest ++ c) (mkStream chunks w)) up config)). cbn -[decode byte_str] in IH, Hl. specialize (IH ltac:(lia)).
    destruct (next_frame dec (rest ++ c) chunks) as [[[[m|e]|] buf'] chunks']; exact IH.
Qed.
End Receiver.

(** * Properties *)

(** C3. Receiving in windows loses nothing and starves no sender. Whatever the order in
    which reads complete, windows end and tasks ask to send, the receive loop has
    yielded a prefix of the messages that decoding the whole stream yields, and all of
    them, in order, by the time it has read the end of the stream; the bytes written
    are those of the senders, in the order they asked; and whoever still waits to
    send asked in the window that is still open. *)
Theorem yielding_receiver_loses_nothing (enc : ToRadio -> bytes) (dec : bytes -> option FromRadio)
    addr port config chunks w msgs rest fuel turns :
  receive dec [] [concat chunks] = Some (msgs, rest) -> (length msgs < fuel)%nat ->
  let '(ms, e, t, waiting, later) :=
    receive_yielding enc dec fuel turns (mkTcp addr port (mkFramed [] (mkStream chunks w)) true config) in
  exists used, turns = used ++ later /\
    written (fs_stream (tcp_framed t)) ++ sent enc waiting = w ++ sent enc (queued used) /\
    suffix waiting (open_window [] used) /\
    match e with
    | Some e => ms = msgs /\ waiting = [] /\ tcp_connected t = false /\ fs_buffer (tcp_framed t) = rest /\
        e = (if decide (rest = []) then ConnectionLost (byte_str "TCP connection to " ++ tcp_target addr port ++ byte_str " closed (EOF)")
             else StreamFailed)
    | None => prefix ms msgs /\ later = [] /\ (reads used <= length chunks)%nat
    end.
Proof.
  rewrite receive_concat by done. cbn [concat app]. rewrite app_nil_r. intros E Hl.
  exact (receive_yielding_spec enc dec fuel turns (mkTcp addr port (mkFramed [] (mkStream chunks w)) true config) msgs rest E Hl).
Qed.

Module ReceiverSample.
Definition dec (b : bytes) : option FromRadio := Some (Some (FRConfigCompleteId (hd 0 b))).
Definition enc (p : ToRadio) : bytes := match p with Some (TRWantConfigId id) => [8; id] | _ => [] end.
Definition want (id : Z) : ToRadio := Some (TRWantConfigId id).
Definition start : TcpTransport FramedStream :=
  mkTcp [] 4403 (mkFramed [] (mkStream [[1; 0x94; 0xC3; 0]; [1; 7; 0x94]] [])) true TransportConfig_default.

(** The window ends in the middle of a frame, and another one before the end. *)
Definition turns : list RecvTurn :=
  [Readable; Queued (want 1); Queued None; Released; Readable; Queued (want 2); Readable].

(** Both requests of the first window are written before the frame is complete. *)
Example delivered :
  let '(ms, e, t, waiting, later) := receive_yielding enc dec 2 turns start in
  (ms, e, waiting, later, written (fs_stream (tcp_framed t)))
  = ([Some (FRConfigCompleteId 7)], Some StreamFailed, [], [],
     [0x94; 0xC3; 0; 2; 8; 1; 0x94; 0xC3; 0; 0; 0x94; 0xC3; 0; 2; 8; 2]).
Proof. vm_compute. reflexivity. Qed.

Lemma yielding_receiver_loses_nothing_witness :
  receive dec [] [concat [[1; 0x94; 0xC3; 0]; [1; 7; 0x94]]] = Some ([Some (FRConfigCompleteId 7)], [0x94]) /\
  let '(ms, e, t, waiting, later) := receive_yielding enc dec 2 turns start in
  exists used, turns = used ++ later /\
    written (fs_stream (tcp_framed t)) ++ sent enc waiting = [] ++ sent enc (queued used) /\
    suffix waiting (open_window [] used) /\
    match e with
    | Some e => ms = [Some (FRConfigCompleteId 7)] /\ waiting = [] /\ tcp_connected t = false /\ fs_buffer (tcp_framed t) = [0x94] /\
        e = StreamFailed
    | None => prefix ms [Some (FRConfigCompleteId 7)] /\ later = [] /\ (reads used <= 2)%nat
    end.
Proof.
  split; [reflexivity|].
  exact (yielding_receiver_loses_nothing enc dec [] 4403 TransportConfig_default [[1; 0x94; 0xC3; 0]; [1; 7; 0x94]] []
    [Some (FRConfigCompleteId 7)] [0x94] 2 turns eq_refl ltac:(cbn; lia)).
Defined.
End ReceiverSample.
