(* ===== verification/Monitor.v ===== *)
(** * The gateway health monitor (crates/kerykeion/src/bridge.rs)

    The background task [run_health_monitor], interleaved with the tasks that use the
    bridge under the same lock. The [watch] channel keeps the last configuration and
    whether the monitor has seen it. *)

From S2P Require Import Prelude Float MeshTypes Proto Bridge MeshConfig Transport.

Local Open Scope Z_scope.

Definition health_check_interval (c : BridgeConfig) : Duration := duration_from_secs (health_check_interval_secs c).

(** The task: the bridge it shares, whether a configuration waits to be seen, the
    period of its timer, how many gateways the current tick has left, and for every
    tick the period and the interval configured at the time. *)
Record Monitor : Type := mkMonitor {
  mon_bridge : GatewayBridge; mon_changed : bool; mon_interval : Duration; mon_left : nat;
  mon_ticks : list (Duration * Duration) }.

(** What happens next: another task holds the lock for one operation, the monitor's
    [select!] is polled while the token is cancelled or not and the timer due or not,
    or the monitor gets the lock for one gateway of its tick. *)
Inductive MonitorEvent : Type :=
| MOther (op : BridgeOp)
| MSelect (cancelled due : bool)
| MEnsure (now : Instant).

Definition is_update (op : BridgeOp) : bool := match op with BUpdateConfig _ => true | _ => false end.

Definition with_bridge (m : Monitor) (b : GatewayBridge) (changed : bool) (left_ : nat) : Monitor :=
  mkMonitor b changed (mon_interval m) left_ (mon_ticks m).

(** The branches of the [select!] in order; within a tick it is not polled. *)
Definition monitor_select (cancelled due : bool) (m : Monitor) : loop_result unit * Monitor :=
  let b := mon_bridge m in
  if (0 <? mon_left m)%nat then (Running, m)
  else if cancelled then (Returned tt, m)
  else if mon_changed m then
    let next_interval := health_check_interval (config_watch b) in
    if next_interval =? mon_interval m then (Running, with_bridge m b false 0)
    else if next_interval =? 0 then (Panicked, m)
    else (Running, mkMonitor b false next_interval 0 (mon_ticks m))
  else if due then
    (Running, mkMonitor b false (mon_interval m) (length (gateways b))
                (mon_ticks m ++ [(mon_interval m, health_check_interval (bridge_config b))]))
  else (Running, m).

Fixpoint monitor_loop (events : list MonitorEvent) (m : Monitor) : loop_result unit * Monitor :=
  match events with
  | [] => (Running, m)
  | MOther op :: events =>
      monitor_loop events (with_bridge m (run_bridge_op (mon_bridge m) op) (mon_changed m || is_update op) (mon_left m))
  | MSelect cancelled due :: events =>
      match monitor_select cancelled due m with
      | (Running, m) => monitor_loop events m
      | stopped => stopped
      end
  | MEnsure now :: events =>
      monitor_loop events
        (match mon_left m with
         | O => m
         | S n => with_bridge m (ensure_active (mon_bridge m) now) (mon_changed m) n
         end)
  end.

(** [interval] panics on a zero period. *)
Definition run_health_monitor (b : GatewayBridge) (events : list MonitorEvent) : loop_result unit * Monitor :=
  let m := mkMonitor b false (health_check_interval (config_watch b)) 0 [] in
  if mon_interval m =? 0 then (Panicked, m) else monitor_loop events m.

(** * Lemmas *)

(** The configuration in use and the one published. *)
Definition configs (b : GatewayBridge) : BridgeConfig * BridgeConfig := (bridge_config b, config_watch b).

Lemma failover_configs b now : configs (failover b now) = configs b.
Proof. unfold failover. cbv zeta. destruct (negb _); [by destruct (select_gateway b)|done]. Qed.

Lemma ensure_active_configs b now : configs (ensure_active b now) = configs b.
Proof. unfold ensure_active. repeat case_match; auto using failover_configs. Qed.

Lemma push_events_configs es b : configs (fold_left push_event es b) = configs b.
Proof. revert b. induction es as [|e es IH]; intros b; [done|]. cbn [fold_left]. by rewrite IH. Qed.

Lemma run_bridge_op_configs b op :
  configs (run_bridge_op b op) = match op with BUpdateConfig c => (c, c) | _ => configs b end.
Proof.
  destruct op as [node pr now|node|c| |now|now|node ms now|node now now'|node loss]; cbn [run_bridge_op].
  - unfold add_gateway. by case_match.
  - unfold remove_gateway. cbv zeta. by case_match.
  - done.
  - done.
  - apply ensure_active_configs.
  - apply failover_configs.
  - unfold record_health_success. destruct (find_gateway b node); [|done]. by destruct (negb _).
  - unfold record_health_failure. destruct (find_gateway b node); [|done]. destruct (if _ <=? _ then _ else _) as [h es].
    destruct (_ && _ && _); rewrite ?failover_configs; by rewrite push_events_configs.
  - done.
Qed.

(** The bridge is well formed and publishes its configuration, the timer runs with the
    interval last seen, and every tick had the interval in force. *)
Record monitor_wf (m : Monitor) : Prop := {
  mo_bridge : bridge_ok (mon_bridge m);
  mo_same : bridge_config (mon_bridge m) = config_watch (mon_bridge m);
  mo_period : mon_changed m = false -> mon_interval m = health_check_interval (bridge_config (mon_bridge m));
  mo_ticks : Forall (fun tick => tick.1 = tick.2) (mon_ticks m) }.

Definition configured_secs (m : Monitor) : Z := health_check_interval_secs (bridge_config (mon_bridge m)).

Lemma interval_zero c : health_check_interval c = 0 <-> health_check_interval_secs c = 0.
Proof. unfold health_check_interval, duration_from_secs, NANOS_PER_SEC. lia. Qed.

Lemma monitor_wf_step m b changed n :
  monitor_wf m -> bridge_ok b -> configs b = configs (mon_bridge m) -> (changed = false -> mon_changed m = false) ->
  monitor_wf (with_bridge m b changed n).
Proof.
  intros [_ Hs Hp Ht] Hb E Hc. injection E as E1 E2. constructor; cbn; rewrite ?E1, ?E2; auto.
Qed.

Lemma monitor_other_wf m op :
  monitor_wf m -> monitor_wf (with_bridge m (run_bridge_op (mon_bridge m) op) (mon_changed m || is_update op) (mon_left m)).
Proof.
  intros Hm. pose proof (run_bridge_op_ok _ op (mo_bridge m Hm)) as Hb.
  pose proof (run_bridge_op_configs (mon_bridge m) op) as E.
  destruct (is_update op) eqn:Eu.
  - destruct op as [| |c| | | | | |]; try done. rewrite orb_true_r.
    constructor; try (apply Hm); cbn; auto; done.
  - apply monitor_wf_step; [done|done| |by rewrite orb_false_r]. by destruct op.
Qed.

(** One poll: it panics only on a configuration without an interval. *)
Lemma monitor_select_wf cancelled due m :
  monitor_wf m ->
  let '(r, m') := monitor_select cancelled due m in
  monitor_wf m' /\ mon_bridge m' = mon_bridge m /\ (r = Panicked -> m' = m /\ configured_secs m = 0) /\
  (r = Returned tt -> cancelled = true).
Proof.
  intros Hm. destruct Hm as [Hb Hs Hp Ht] eqn:E. clear E. unfold monitor_select. cbv zeta.
  destruct (0 <? mon_left m)%nat; [done|]. destruct cancelled; [done|].
  destruct (mon_changed m) eqn:Ec.
  - rewrite <- Hs. destruct (_ =? mon_interval m) eqn:Ei.
    { apply Z.eqb_eq in Ei. split; [|done]. constructor; cbn; auto; done. }
    destruct (_ =? 0) eqn:Ez.
    { apply Z.eqb_eq, interval_zero in Ez. by split_and!. }
    split; [|done]. constructor; cbn; auto; done.
  - destruct due; [|done]. split; [|done]. constructor; cbn; auto.
    apply Forall_app. split; [done|]. constructor; [|constructor]. cbn. by apply Hp.
Qed.

Lemma monitor_ensure_wf m now :
  monitor_wf m ->
  let m' := match mon_left m with O => m | S n => with_bridge m (ensure_active (mon_bridge m) now) (mon_changed m) n end in
  monitor_wf m' /\ configured_secs m' = configured_secs m.
Proof.
  intros Hm. destruct (mon_left m); [done|]. pose proof (ensure_active_configs (mon_bridge m) now) as E. split.
  - apply monitor_wf_step; [done| |done|done]. exact (run_bridge_op_ok _ (BEnsureActive now) (mo_bridge m Hm)).
  - unfold configured_secs. cbn [with_bridge mon_bridge]. by injection E as -> _.
Qed.

Lemma monitor_loop_wf events : forall m,
  monitor_wf m ->
  let '(r, m') := monitor_loop events m in
  monitor_wf m' /\ (r = Returned tt -> exists due, In (MSelect true due) events) /\
  (1 <= configured_secs m -> (forall c, In (MOther (BUpdateConfig c)) events -> 1 <= health_check_interval_secs c) ->
   r <> Panicked).
Proof.
  induction events as [|[op|cancelled due|now] events IH]; intros m Hm; cbn [monitor_loop]; [done| | |].
  - specialize (IH _ (monitor_other_wf m op Hm)). destruct (monitor_loop events _) as [r m'].
    destruct IH as (H1 & H2 & H3). split; [done|]. split.
    + intros E. destruct (H2 E) as [due Hin]. exists due. by right.
    + intros Hi Hc. apply H3; [|intros c Hin; apply Hc; by right].
      unfold configured_secs. cbn [with_bridge mon_bridge].
      change (bridge_config (run_bridge_op (mon_bridge m) op)) with (configs (run_bridge_op (mon_bridge m) op)).1.
      rewrite run_bridge_op_configs. destruct op; try exact Hi. apply Hc. by left.
  - pose proof (monitor_select_wf cancelled due m Hm) as Hs.
    destruct (monitor_select cancelled due m) as [[[]| |] m1]; destruct Hs as (H1 & Hb & H2 & H3).
    + split; [done|]. split; [|done]. intros _. exists due. left. by rewrite H3.
    + split; [done|]. split; [done|]. intros Hi _. destruct (H2 eq_refl) as [_ Hz]. lia.
    + specialize (IH m1 H1). destruct (monitor_loop events m1) as [r m']. destruct IH as (G1 & G2 & G3).
      split; [done|]. split.
      * intros E. destruct (G2 E) as [due' Hin]. exists due'. by right.
      * intros Hi Hc. apply G3; [unfold configured_secs; by rewrite Hb|intros c Hin; apply Hc; by right].
  - destruct (monitor_ensure_wf m now Hm) as [Hm' Ec]. specialize (IH _ Hm').
    destruct (monitor_loop events _) as [r m']. destruct IH as (H1 & H2 & H3). split; [done|]. split.
    + intros E. destruct (H2 E) as [due Hin]. exists due. by right.
    + intros Hi Hc. apply H3; [by rewrite Ec|intros c Hin; apply Hc; by right].
Qed.

(** A bridge without a usable active gateway gets one as soon as its cooldown is over. *)
Lemma ensure_active_recovers b now :
  bridge_ok b -> (exists g, g ∈ gateways b /\ is_available g = true) ->
  match last_failover b with
  | Some at_ => duration_from_secs (failover_cooldown_secs (bridge_config b)) <= duration_since now at_
  | None => True
  end ->
  Forall (fun g => is_uint 8 (gw_priority g)) (gateways b) ->
  exists n, active_gateway (ensure_active b now) = Some n.
Proof.
  intros Hb (g & Hg & Hav) Hcool Hpr.
  assert (exists n, active_gateway (failover b now) = Some n) as Hf.
  { pose proof (failover_selects_best b now Hpr) as Hsel. destruct (active_gateway (failover b now)) as [n|]; [by eexists|].
    rewrite Forall_forall in Hsel. specialize (Hsel _ Hg). congruence. }
  unfold ensure_active. destruct (active_gateway b) as [active|] eqn:Ea.
  - destruct (negb _); [|by rewrite Ea; eexists]. destruct (last_failover b); [|done].
    destruct (_ <? _) eqn:E; [|done]. apply Z.ltb_lt in E. lia.
  - destruct (last_failover b); [|done]. destruct (_ <? _) eqn:E; [|done]. apply Z.ltb_lt in E. lia.
Qed.

(** A configuration without an interval panics the monitor that sees it. *)
Lemma zero_health_interval_panics b c due :
  health_check_interval_secs c = 0 -> 0 < health_check_interval (config_watch b) ->
  (run_health_monitor b [MOther (BUpdateConfig c); MSelect false due]).1 = Panicked.
Proof.
  intros Hz Hp. unfold run_health_monitor. cbn [mon_interval]. rewrite (proj2 (Z.eqb_neq _ 0)) by lia.
  cbn [monitor_loop]. unfold monitor_select. cbn. unfold health_check_interval at 1. rewrite Hz. cbn.
  rewrite (proj2 (Z.eqb_neq 0 _)) by lia. unfold health_check_interval. by rewrite Hz.
Qed.

(** * Properties *)

(** The health monitor follows the bridge it watches: started on a well-formed
    bridge, whatever the other tasks do to it in between, even in the middle of a
    tick, it ticks only with the interval of the configuration in force, never panics
    while every configured interval is at least a second, stops only when cancelled,
    and leaves no gateway registered twice and none active that is not registered and
    available. *)
Theorem health_monitor_follows (b : GatewayBridge) (events : list MonitorEvent) :
  bridge_ok b -> bridge_config b = config_watch b -> 1 <= health_check_interval_secs (bridge_config b) ->
  (forall c, In (MOther (BUpdateConfig c)) events -> 1 <= health_check_interval_secs c) ->
  let '(r, m) := run_health_monitor b events in
  bridge_ok (mon_bridge m) /\ Forall (fun tick => tick.1 = tick.2) (mon_ticks m) /\ r <> Panicked /\
  (r = Returned tt -> exists due, In (MSelect true due) events).
Proof.
  intros Hb Hs Hi Hc. unfold run_health_monitor. cbn [mon_interval].
  rewrite <- Hs, (proj2 (Z.eqb_neq _ 0)) by (rewrite interval_zero; lia).
  pose proof (monitor_loop_wf events (mkMonitor b false (health_check_interval (bridge_config b)) 0 []) ltac:(by constructor)) as Hl.
  destruct (monitor_loop _ _) as [r m]. destruct Hl as (Hm & Hr & Hp). split; [apply Hm|]. split; [apply Hm|].
  split; [by apply Hp|done].
Qed.

(** Two gateways; the configuration changes before the second tick. *)
Definition monitored : GatewayBridge :=
  run_bridge (bridge_with_config BridgeConfig_default) [BAdd 7 1 0; BAdd 9 2 0].
Definition every_five_seconds : BridgeConfig := mkBridgeConfig 5 5000 (f32_tenths 2) 3 30.
Definition monitor_day : list MonitorEvent :=
  [MSelect false true; MEnsure 1; MOther (BUpdateConfig every_five_seconds); MEnsure 2; MSelect false true;
   MSelect false true; MOther (BRemove 7); MEnsure 3; MSelect true true].

Lemma health_monitor_follows_witness :
  let m := (run_health_monitor monitored monitor_day).2 in
  mon_ticks m = [(60 * NANOS_PER_SEC, 60 * NANOS_PER_SEC); (5 * NANOS_PER_SEC, 5 * NANOS_PER_SEC)] /\ bridge_ok (mon_bridge m).
Proof.
  pose proof (health_monitor_follows monitored monitor_day) as Hf. cbv zeta. split; [vm_compute; reflexivity|].
  destruct (run_health_monitor monitored monitor_day) as [r m]. apply Hf.
  - apply run_bridge_ok. split; [constructor|done].
  - vm_compute. reflexivity.
  - vm_compute. discriminate.
  - intros c Hin. unfold monitor_day in Hin. cbn [In] in Hin.
    repeat destruct Hin as [Hin|Hin]; try discriminate; [|destruct Hin]. injection Hin as <-. vm_compute. discriminate.
Defined.
