(* ===== verification/Discovery.v ===== *)
(** * Discovery (crates/kerykeion/src/discovery.rs)

    The background task that asks every known node for a traceroute and, on another
    timer, reports nodes gone offline, expires links and nodes of the topology and
    reports partitions. It shares the packet processor with the receive task, whose
    packets are events of the loop here. Node life cycle and request building are
    in [NodeDb]. *)

From S2P Require Import Prelude Float MeshTypes Proto NodeDb Topology Partition Signal MeshSignal Handshake PacketProc MeshConfig Transport.

Local Open Scope Z_scope.

(** The reads of one pass of stale detection: the clock for the node table, the two
    instants the topology reads, fresh identifiers and stamps of the signals. *)
Record StaleEnv : Type := mkStaleEnv {
  se_now : Timestamp; se_links : Instant; se_nodes : Instant; se_id : nat -> Ulid; se_stamp : nat -> Z }.

Section Discovery.
Context `{StableGraph} `{HashOrder} (dec : Decoders).
(** [Instant::checked_sub], whose range depends on the platform. *)
Context (checked_sub : Instant -> Duration -> option Instant).

Definition set_topology (p : PacketProcessor) (t : MeshTopology) : PacketProcessor := mkProcessor (node_db p) t.

(** [None] is a panic: three times the timeout is not a [Duration]. *)
Definition run_stale_detection (p : PacketProcessor) (stale_timeout : Duration) (env : StaleEnv)
  : option (PacketProcessor * list GeoSignal) :=
  let offline := offline_nodes (node_db p) (se_now env) stale_timeout in
  let signal k event := mesh_event_to_signal (se_id env k) (se_stamp env k) event (event_position (node_db p) event) in
  let signals := imap (fun k node => signal k (NodeOffline node)) offline in
  expiry ← duration_mul stale_timeout 3;
  let t := remove_stale_links (topology p) (checked_sub (se_links env) expiry) in
  let t := remove_stale_nodes t (checked_sub (se_nodes env) expiry) in
  components ← connected_components t;
  let signals := if (1 <? length components)%nat
                 then signals ++ [signal (length offline) (PartitionDetected components)] else signals in
  Some (set_topology p t, signals).

Section Loop.
Context {C : Type} `{MeshConnection C}.

(** The cancellation token is asked before every request: [cancelled k] is its
    [k]-th answer. *)
Fixpoint send_requests (nodes : list NodeNum) (cancelled : nat -> bool) (k : nat) (c : C) : C :=
  match nodes with
  | [] => c
  | node :: nodes =>
      if cancelled k then c
      else send_requests nodes cancelled (S k) (conn_send (Some (build_traceroute_request node)) c).2
  end.

Definition send_traceroutes (db : NodeDb) (cancelled : nat -> bool) (c : C) : C :=
  send_requests (traceroute_targets db) cancelled 0 c.

(** What the [select!] resolves to, and what the receive task does in between. *)
Inductive DiscoveryEvent : Type :=
| DCancelled
| DTraceroute (cancelled : nat -> bool)
| DStale (env : StaleEnv)
| DPacket (packet : MeshPacket) (env : PacketEnv).

Record DiscoveryState : Type := mkDiscovery {
  ds_processor : PacketProcessor; ds_conn : C; ds_signals : list GeoSignal }.

Fixpoint discovery_loop (stale_timeout : Duration) (events : list DiscoveryEvent) (s : DiscoveryState)
  : loop_result unit * DiscoveryState :=
  match events with
  | [] => (Running, s)
  | DCancelled :: _ => (Returned tt, s)
  | DTraceroute cancelled :: events =>
      discovery_loop stale_timeout events
        (mkDiscovery (ds_processor s) (send_traceroutes (node_db (ds_processor s)) cancelled (ds_conn s)) (ds_signals s))
  | DStale env :: events =>
      match run_stale_detection (ds_processor s) stale_timeout env with
      | Some (p, signals) => discovery_loop stale_timeout events (mkDiscovery p (ds_conn s) (ds_signals s ++ signals))
      | None => (Panicked, s)
      end
  | DPacket packet env :: events =>
      match process_mesh_packet dec (ds_processor s) packet env with
      | Some (p, _, signals) => discovery_loop stale_timeout events (mkDiscovery p (ds_conn s) (ds_signals s ++ signals))
      | None => (Panicked, s)
      end
  end.

(** [tokio::time::interval] panics on a zero period, [stale_timeout / 2] being one. *)
Definition run_discovery (config : TopologyConfig) (events : list DiscoveryEvent) (s : DiscoveryState)
  : loop_result unit * DiscoveryState :=
  let traceroute_interval := duration_from_secs (traceroute_interval_secs config) in
  let stale_timeout := duration_from_secs (stale_node_timeout_secs config) in
  if (traceroute_interval =? 0) || (stale_timeout / 2 =? 0) then (Panicked, s)
  else discovery_loop stale_timeout events s.
End Loop.

(** * Lemmas *)

Definition tracked (t : MeshTopology) (n : NodeNum) : Prop := is_Some (node_index t !! n).

(** ** Expiring links *)

Lemma remove_edges_lookup l : forall g e x,
  edge_refs (fold_left (fun g (e : EdgeRef) => sg_remove_edge g e.1) l g) !! e = Some x <->
  edge_refs g !! e = Some x /\ e ∉ map fst l.
Proof.
  induction l as [|r l IH]; intros g e x; cbn; [split; [|tauto]; intros ?; split; [done|apply not_elem_of_nil]|].
  destruct (sg_remove_edge_spec g r.1) as [_ He]. rewrite IH, He, lookup_delete_Some, not_elem_of_cons.
  split; [intros ((Hne & Hx) & Hl)|intros (Hx & Hne & Hl)]; split; auto.
Qed.

Lemma remove_stale_links_lookup t c e x :
  edge_refs (graph (remove_stale_links t (Some c))) !! e = Some x <->
  edge_refs (graph t) !! e = Some x /\ is_stale x.2 c = false.
Proof.
  cbn. rewrite remove_edges_lookup. split; intros [Hx Hs]; (split; [done|]).
  - destruct (is_stale x.2 c) eqn:E; [|done]. exfalso. apply Hs. apply list_elem_of_fmap. exists (e, x). split; [done|].
    apply list_elem_of_In, filter_In. split; [|exact E]. apply list_elem_of_In.
    rewrite edge_indices_spec. by apply elem_of_map_to_list.
  - intros ([e' x'] & -> & Hin)%list_elem_of_fmap. apply list_elem_of_In, filter_In in Hin as [Hin Hst].
    apply list_elem_of_In in Hin. rewrite edge_indices_spec in Hin. apply elem_of_map_to_list in Hin.
    cbn in *. unfold edge_weight in Hst. cbn in Hst. congruence.
Qed.

(** ** Expiring nodes *)

Lemma remove_node_lookup t num n i :
  node_index (remove_node t num) !! n = Some i <-> node_index t !! n = Some i /\ n <> num.
Proof.
  unfold remove_node. destruct (node_index t !! num) as [idx|] eqn:E; cbn.
  - rewrite lookup_delete_Some. intuition congruence.
  - split; [intros Hn; split; [done|congruence]|tauto].
Qed.

Lemma remove_node_edges t num e a b w :
  edge_refs (graph (remove_node t num)) !! e = Some (a, b, w) <->
  edge_refs (graph t) !! e = Some (a, b, w) /\ node_index t !! num <> Some a /\ node_index t !! num <> Some b.
Proof.
  unfold remove_node. destruct (node_index t !! num) as [idx|] eqn:E; cbn; [|naive_solver].
  destruct (sg_remove_node_spec (graph t) idx) as [_ He]. rewrite He, map_lookup_filter_Some. cbn. naive_solver.
Qed.

Lemma remove_nodes_spec l : forall t,
  let t' := fold_left remove_node l t in
  (forall n i, node_index t' !! n = Some i <-> node_index t !! n = Some i /\ n ∉ l) /\
  (forall e a b w, edge_refs (graph t') !! e = Some (a, b, w) <->
     edge_refs (graph t) !! e = Some (a, b, w) /\ forall n, n ∈ l -> node_index t !! n <> Some a /\ node_index t !! n <> Some b).
Proof.
  induction l as [|num l IH]; intros t; cbn.
  - split; [intros n i|intros e a b w]; split; try tauto; intros ?; (split; [done|]); [apply not_elem_of_nil|].
    intros n Hn. by apply not_elem_of_nil in Hn.
  - destruct (IH (remove_node t num)) as [IH1 IH2]. split.
    + intros n i. rewrite IH1, remove_node_lookup, not_elem_of_cons. tauto.
    + intros e a b w. rewrite IH2, remove_node_edges. split.
      * intros ((He & Ha & Hb) & Hl). split; [done|]. intros n [->|Hn]%elem_of_cons; [done|].
        destruct (decide (n = num)) as [->|Hne]; [done|].
        destruct (Hl n Hn) as [Ha' Hb']. split; intros Hi; [apply Ha'|apply Hb']; apply remove_node_lookup; by split.
      * intros (He & Hl). destruct (Hl num ltac:(by left)) as [Ha Hb]. split; [done|].
        intros n Hn. destruct (Hl n ltac:(by right)) as [Ha' Hb'].
        split; intros [Hi _]%remove_node_lookup; [by apply Ha'|by apply Hb'].
Qed.

(** ** What one pass leaves of the topology *)

Lemma remove_stale_links_link t c m n w :
  link (remove_stale_links t (Some c)) m n w <-> link t m n w /\ is_stale w c = false.
Proof.
  unfold link. setoid_rewrite remove_stale_links_lookup. cbn [remove_stale_links node_index snd]. naive_solver.
Qed.

Lemma node_is_stale_false t c i :
  node_is_stale t c i = false <->
  exists e a b w, edge_refs (graph t) !! e = Some (a, b, w) /\ (a = i \/ b = i) /\ is_stale w c = false.
Proof.
  unfold node_is_stale. rewrite negb_false_iff, existsb_exists. split.
  - intros ([e [[a b] w]] & Hin & Hw%negb_true_iff). apply list_elem_of_In, elem_of_app in Hin.
    exists e, a, b, w. destruct Hin as [[He Hi]%edges_incoming_spec|[He Hi]%edges_outgoing_spec]; eauto.
  - intros (e & a & b & w & He & Hi & Hw). exists (e, (a, b, w)). split; [|by rewrite negb_true_iff].
    apply list_elem_of_In, elem_of_app. destruct Hi as [Hi|Hi]; [right; apply edges_outgoing_spec|left; apply edges_incoming_spec]; by split.
Qed.

Lemma fresh_incident t c n i :
  topo_ok t -> node_index t !! n = Some i ->
  (node_is_stale t c i = false <-> exists m w, (link t n m w \/ link t m n w) /\ is_stale w c = false).
Proof.
  intros Hok Hn. rewrite node_is_stale_false. split.
  - intros (e & a & b & w & He & Hi & Hw). destruct (ok_ends t Hok _ _ _ _ He) as [[na Ha] [nb Hb]].
    apply (ok_index t Hok) in Ha, Hb. destruct Hi as [<-|<-]; [exists nb|exists na]; exists w; (split; [|done]).
    + left. exists e, a, b. by split.
    + right. exists e, a, b. by split.
  - intros (m & w & [(e & a & b & Ha & Hb & He)|(e & a & b & Ha & Hb & He)] & Hw); exists e, a, b, w;
      (split; [done|]; split; [|done]); [left|right]; congruence.
Qed.

Lemma stale_nodes_elem t c n :
  n ∈ map fst (List.filter (fun kv => node_is_stale t c kv.2) (hm_iter (node_index t))) <->
  exists i, node_index t !! n = Some i /\ node_is_stale t c i = true.
Proof.
  rewrite list_elem_of_fmap. split.
  - intros ([n' i] & -> & Hin). apply list_elem_of_In, filter_In in Hin as [Hin Hs]. exists i. split; [|done].
    apply list_elem_of_In in Hin. rewrite hm_iter_perm in Hin. by apply elem_of_map_to_list.
  - intros (i & Hn & Hs). exists (n, i). split; [done|]. apply list_elem_of_In, filter_In. split; [|done].
    apply list_elem_of_In. rewrite hm_iter_perm. by apply elem_of_map_to_list.
Qed.

Lemma remove_stale_nodes_tracked t c n :
  topo_ok t ->
  tracked (remove_stale_nodes t (Some c)) n <-> exists m w, (link t n m w \/ link t m n w) /\ is_stale w c = false.
Proof.
  intros Hok. unfold tracked, remove_stale_nodes.
  destruct (remove_nodes_spec (map fst (List.filter (fun kv => node_is_stale t c kv.2) (hm_iter (node_index t)))) t) as [Hi _].
  split.
  - intros [i [Hn Hl]%Hi]. apply (fresh_incident t c n i Hok Hn). destruct (node_is_stale t c i) eqn:E; [|done].
    exfalso. apply Hl, stale_nodes_elem. eauto.
  - intros Hf. assert (exists i, node_index t !! n = Some i) as [i Hn].
    { destruct Hf as (m & w & [(e & a & b & Ha & Hb & _)|(e & a & b & Ha & Hb & _)] & _); eauto. }
    exists i. apply Hi. split; [done|]. intros (i' & Hn' & Hs)%stale_nodes_elem.
    apply (fresh_incident t c n i Hok Hn) in Hf. congruence.
Qed.

Lemma remove_stale_nodes_link t c m n w :
  topo_ok t -> let t' := remove_stale_nodes t (Some c) in
  link t' m n w <-> link t m n w /\ tracked t' m /\ tracked t' n.
Proof.
  intros Hok. unfold remove_stale_nodes, link, tracked.
  destruct (remove_nodes_spec (map fst (List.filter (fun kv => node_is_stale t c kv.2) (hm_iter (node_index t)))) t) as [Hi He].
  cbv zeta. split.
  - intros (e & i & j & Hm & Hn & Hw). apply He in Hw as [Hw _]. split; [|by split; eexists].
    exists e, i, j. apply Hi in Hm as [Hm _], Hn as [Hn _]. by split.
  - intros ((e & i & j & Hm & Hn & Hw) & [i' Hm'] & [j' Hn']). exists e, i, j.
    pose proof (proj1 (Hi _ _) Hm') as [Em Lm]. pose proof (proj1 (Hi _ _) Hn') as [En Ln].
    assert (i' = i) as -> by congruence. assert (j' = j) as -> by congruence. split; [done|]. split; [done|].
    apply He. split; [done|]. intros k Hk. split; intros Hki.
    + apply Lm. apply (ok_index t Hok) in Hki, Em. assert (k = m) as -> by congruence. done.
    + apply Ln. apply (ok_index t Hok) in Hki, En. assert (k = n) as -> by congruence. done.
Qed.

Lemma visit_all_nonempty g values : forall C groups C' groups',
  visit_all g C groups values = Some (C', groups') ->
  Forall (fun g => g <> []) groups -> Forall (fun g => g <> []) groups'.
Proof.
  induction values as [|idx values IH]; intros C groups C' groups'; cbn [visit_all]; [by intros [= <- <-]|].
  destruct (bool_decide _); [apply IH|]. intros ([C1 group] & _ & E)%bind_Some Hne. refine (IH _ _ _ _ E _).
  destruct group; [done|]. apply Forall_app. split; [done|]. by repeat constructor.
Qed.

Lemma add_singletons_nonempty g values : forall C groups,
  Forall (fun g => g <> []) groups -> Forall (fun g => g <> []) (add_singletons g C groups values).
Proof.
  induction values as [|idx values IH]; intros C groups Hne; cbn [add_singletons]; [done|].
  destruct (C !! idx); [by apply IH|]. destruct (node_weights g !! idx); [|by apply IH].
  apply IH, Forall_app. split; [done|]. by repeat constructor.
Qed.

Lemma components_nonempty t groups : connected_components t = Some groups -> Forall (fun g => g <> []) groups.
Proof.
  unfold connected_components. case_bool_decide; [by intros [= <-]|].
  intros ([C groups'] & E & [= <-])%bind_Some. apply add_singletons_nonempty.
  apply (visit_all_nonempty _ _ _ _ _ _ E). constructor.
Qed.

(** More than one component means two tracked nodes without a path. *)
Lemma components_many t groups :
  connected_components t = Some groups -> NoDup (concat groups) ->
  (forall n, n ∈ concat groups <-> tracked t n) ->
  (forall m n, (exists group, group ∈ groups /\ m ∈ group /\ n ∈ group) <-> connected t m n) ->
  (1 < length groups)%nat <-> exists m n, tracked t m /\ tracked t n /\ ~ connected t m n.
Proof.
  intros Hne%components_nonempty Hnd Hcov Hsame. split.
  - intros Hl. destruct groups as [|[|m g1] [|[|n g2] groups]]; cbn in Hl; try lia; try by inversion Hne; subst.
    { inversion Hne as [|? ? _ Hne']; by inversion Hne'. }
    exists m, n. split; [apply Hcov; cbn; left|]. split; [apply Hcov; cbn; right; apply elem_of_app; right; left|].
    rewrite <- Hsame. intros (group & Hg & Hm & Hn).
    cbn in Hnd. apply NoDup_cons in Hnd as [Hm1 Hnd]. rewrite not_elem_of_app in Hm1. destruct Hm1 as [_ Hm2].
    apply elem_of_cons in Hg as [->|Hg].
    + apply elem_of_cons in Hn as [->|Hn]; [apply Hm2; by left|].
      apply NoDup_app in Hnd as (_ & Hd & _). apply (Hd n Hn). by left.
    + apply Hm2. change (m ∈ concat ((n :: g2) :: groups)). apply list_elem_of_In, in_concat.
      exists group. split; by apply list_elem_of_In.
  - intros (m & n & Hm & Hn & Hnc). apply Hcov in Hm, Hn.
    apply list_elem_of_In, in_concat in Hm as (g1 & Hg1 & Hm), Hn as (g2 & Hg2 & Hn).
    destruct groups as [|g [|g' groups]]; [done| |cbn; lia]. exfalso. apply Hnc, Hsame.
    destruct Hg1 as [<-|[]], Hg2 as [<-|[]]. exists g. rewrite !list_elem_of_In. split; [by left|done].
Qed.

Lemma processor_ok_topology p t : processor_ok p -> topo_ok t -> processor_ok (set_topology p t).
Proof. intros [Hdb _ Hpos] Ht. by constructor. Qed.

Lemma processor_wf_topology p t : processor_wf p -> topo_ok t -> processor_wf (set_topology p t).
Proof. intros [Hdb _] Ht. by constructor. Qed.

(** Both expiries as [run_stale_detection] runs them. *)
Definition expire (t : MeshTopology) (links nodes : option Instant) : MeshTopology :=
  remove_stale_nodes (remove_stale_links t links) nodes.

Lemma expire_ok t links nodes : topo_ok t -> topo_ok (expire t links nodes).
Proof. intros Hok. by apply remove_stale_nodes_ok, remove_stale_links_ok. Qed.

Lemma expire_tracked t c1 c2 n :
  topo_ok t -> c1 <= c2 ->
  tracked (expire t (Some c1) (Some c2)) n <-> exists m w, (link t n m w \/ link t m n w) /\ is_stale w c2 = false.
Proof.
  intros Hok Hc. unfold expire. rewrite remove_stale_nodes_tracked by by apply remove_stale_links_ok.
  setoid_rewrite remove_stale_links_link.
  assert (forall w, is_stale w c2 = false -> is_stale w c1 = false) by (unfold is_stale; lia). naive_solver.
Qed.

Lemma expire_link t c1 c2 m n w :
  topo_ok t -> let t' := expire t (Some c1) (Some c2) in
  link t' m n w <-> link t m n w /\ is_stale w c1 = false /\ tracked t' m /\ tracked t' n.
Proof.
  intros Hok. cbv zeta. unfold expire. rewrite remove_stale_nodes_link by by apply remove_stale_links_ok.
  rewrite remove_stale_links_link. tauto.
Qed.

(** The node-offline signals of a pass. *)
Definition offline_signals (p : PacketProcessor) (stale_timeout : Duration) (env : StaleEnv) : list GeoSignal :=
  imap (fun k node => mesh_event_to_signal (se_id env k) (se_stamp env k) (NodeOffline node)
                        (event_position (node_db p) (NodeOffline node)))
       (offline_nodes (node_db p) (se_now env) stale_timeout).

Lemma run_stale_detection_eq p stale_timeout env :
  topo_ok (topology p) -> stale_timeout * 3 <= DURATION_MAX ->
  let t' := expire (topology p) (checked_sub (se_links env) (stale_timeout * 3)) (checked_sub (se_nodes env) (stale_timeout * 3)) in
  exists partition, run_stale_detection p stale_timeout env
    = Some (set_topology p t', offline_signals p stale_timeout env ++ partition) /\
    (length partition <= 1)%nat /\ (partition = [] <-> forall m n, tracked t' m -> tracked t' n -> connected t' m n).
Proof.
  intros Htopo Hmax. cbv zeta. unfold run_stale_detection, duration_mul. rewrite (proj2 (Z.leb_le _ _) Hmax).
  cbn [mbind option_bind].
  pose proof (expire_ok _ (checked_sub (se_links env) (stale_timeout * 3)) (checked_sub (se_nodes env) (stale_timeout * 3))
                Htopo) as Hok.
  fold (expire (topology p) (checked_sub (se_links env) (stale_timeout * 3)) (checked_sub (se_nodes env) (stale_timeout * 3))).
  destruct (connected_components_spec _ Hok) as (groups & Hg & Hnd & Hcov & Hsame). rewrite Hg. cbn [mbind option_bind].
  pose proof (components_many _ _ Hg Hnd Hcov Hsame) as Hmany. fold (offline_signals p stale_timeout env).
  destruct (1 <? length groups)%nat eqn:E.
  - eexists. split; [reflexivity|]. split; [done|]. split; [done|]. intros Hall. apply Nat.ltb_lt, Hmany in E as (m & n & Hm & Hn & Hnc). destruct Hnc. by apply Hall.
  - exists []. rewrite app_nil_r. split; [reflexivity|]. split; [cbn; lia|]. split; [|done].
    intros _ m n Hm Hn. apply Nat.ltb_ge in E.
    apply Hcov, list_elem_of_In, in_concat in Hm as (g1 & Hg1 & Hm), Hn as (g2 & Hg2 & Hn).
    apply Hsame. destruct groups as [|g [|]]; [done| |cbn in E; lia].
    destruct Hg1 as [<-|[]], Hg2 as [<-|[]]. exists g. rewrite !list_elem_of_In. split; [by left|done].
Qed.

(** A pass changes the topology only. *)
Lemma run_stale_keeps p stale_timeout env p' signals :
  topo_ok (topology p) -> run_stale_detection p stale_timeout env = Some (p', signals) ->
  exists t, topo_ok t /\ p' = set_topology p t.
Proof.
  intros Ht Hrun. destruct (Z.le_gt_cases (stale_timeout * 3) DURATION_MAX) as [Hmax|Hmax].
  - destruct (run_stale_detection_eq p stale_timeout env Ht Hmax) as (part & E & _).
    rewrite Hrun in E. injection E as -> _. eexists. split; [|done]. by apply expire_ok.
  - unfold run_stale_detection, duration_mul in Hrun. by rewrite (proj2 (Z.leb_gt _ _) Hmax) in Hrun.
Qed.

(** * Properties *)

(** C26. One pass of stale detection, its two clock reads in order and the instants
    three timeouts before them representable: it leaves the node table alone; a link
    stays exactly if it was observed since three timeouts ago and both its ends stay,
    a node stays exactly if one of its links was; and a partition is reported, once,
    exactly when two of the remaining nodes are not connected. *)
Theorem stale_detection_prunes p stale_timeout env c1 c2 :
  processor_ok p -> stale_timeout * 3 <= DURATION_MAX ->
  checked_sub (se_links env) (stale_timeout * 3) = Some c1 -> checked_sub (se_nodes env) (stale_timeout * 3) = Some c2 ->
  c1 <= c2 ->
  exists p' partition,
    run_stale_detection p stale_timeout env = Some (p', offline_signals p stale_timeout env ++ partition) /\
    processor_ok p' /\ node_db p' = node_db p /\
    (forall n, tracked (topology p') n <->
       exists m w, (link (topology p) n m w \/ link (topology p) m n w) /\ c2 <= lq_last_observed w) /\
    (forall m n w, link (topology p') m n w <->
       link (topology p) m n w /\ c1 <= lq_last_observed w /\ tracked (topology p') m /\ tracked (topology p') n) /\
    (length partition <= 1)%nat /\
    (partition = [] <-> forall m n, tracked (topology p') m -> tracked (topology p') n -> connected (topology p') m n).
Proof.
  intros Hp Hmax H1 H2 Hc. destruct (run_stale_detection_eq p stale_timeout env (pr_topology _ Hp) Hmax) as (part & Hrun & Hlen & Hpart).
  rewrite H1, H2 in *. assert (forall w c, is_stale w c = false <-> c <= lq_last_observed w) as Hst by (intros w c; unfold is_stale; lia).
  eexists _, part. split; [exact Hrun|]. split; [by apply processor_ok_topology, expire_ok, pr_topology|].
  split; [done|]. cbn [topology set_topology]. setoid_rewrite <- Hst.
  split; [intros n; by apply expire_tracked, Hc; apply pr_topology|]. split; [|by split].
  intros m n w. by apply expire_link, pr_topology.
Qed.

(** The discovery task never panics and never breaks the state it shares with the
    receive task: for any timeouts of at least a second whose triple is a duration,
    after any interleaving of traceroute rounds, stale detection and received
    packets the node table, the topology and the stored positions are well formed. *)
Theorem discovery_preserves_state {C} `{MeshConnection C} config events (s : DiscoveryState (C := C)) :
  1 <= traceroute_interval_secs config -> 1 <= stale_node_timeout_secs config ->
  stale_node_timeout_secs config * 3 < 2 ^ 64 -> processor_ok (ds_processor s) ->
  let '(r, s') := run_discovery config events s in
  r <> Panicked /\ processor_ok (ds_processor s').
Proof.
  intros Ht Hs Hmax Hp. unfold run_discovery. cbv zeta.
  destruct (_ || _) eqn:Ez; [exfalso|].
  { unfold duration_from_secs, NANOS_PER_SEC in Ez. Z.to_euclidean_division_equations. lia. }
  clear Ez.
  assert (duration_from_secs (stale_node_timeout_secs config) * 3 <= DURATION_MAX) as Hd
    by (unfold duration_from_secs, DURATION_MAX, NANOS_PER_SEC; lia).
  revert s Hp. induction events as [|[|cancelled|env|packet env] events IH]; intros s Hp; cbn [discovery_loop]; [done|done| | |].
  - by apply IH.
  - destruct (run_stale_detection_eq (ds_processor s) _ env (pr_topology _ Hp) Hd) as (part & -> & _). apply IH. cbn [ds_processor].
    by apply processor_ok_topology, expire_ok, pr_topology.
  - apply processor_ok_wf in Hp as [Hp Hq].
    destruct (process_mesh_packet_keeps dec (ds_processor s) packet env Hp) as (p' & ev & sig & -> & Hp' & Hq').
    apply IH, processor_ok_wf. auto.
Qed.
End Discovery.

(** * A mesh with one fresh link and one expired *)

Module DiscoverySample.
#[local] Existing Instances MapGraph.map_graph canonical_order.

(** A connection that always sends. *)
#[local] Instance open_line : MeshConnection (list (option ToRadioVariant)) := {
  conn_send p c := (Ok tt, c ++ [p]); conn_recv _ c := (Running, c);
  conn_is_connected _ := true; conn_reconnect _ c := (Returned (Ok tt), c) }.

Definition sub (i : Instant) (d : Duration) : option Instant := Some (i - d).
Definition second : Duration := duration_from_secs 1.
Definition stale_env : StaleEnv := mkStaleEnv 100000 (100 * second) (100 * second) (fun k => Z.of_nat k) (fun _ => 0).

(** Links 1 -> 2 observed at 99 s and 3 -> 4 at 10 s. *)
Definition mesh : MeshTopology :=
  default MeshTopology_new
    (t ← update_link MeshTopology_new 1 2 (f32_of_Z 5) (99 * second); update_link t 3 4 (f32_of_Z 5) (10 * second)).
Definition proc : PacketProcessor := set_topology empty_processor mesh.

Lemma mesh_ok : topo_ok mesh.
Proof.
  destruct (run_topology_ok [TUpdateLink 1 2 (f32_of_Z 5) (99 * second); TUpdateLink 3 4 (f32_of_Z 5) (10 * second)]
              MeshTopology_new topo_new_ok) as (t & E & Hok).
  unfold mesh. cbn [run_topology run_topology_op] in E. destruct (update_link MeshTopology_new _ _ _ _) as [t1|]; [|done].
  cbn [mbind option_bind] in *. destruct (update_link t1 _ _ _ _) as [t2|]; [|done]. by injection E as <-.
Qed.
Lemma proc_ok : processor_ok proc.
Proof. apply processor_ok_topology; [apply empty_processor_ok|apply mesh_ok]. Qed.

Lemma stale_detection_prunes_witness :
  (10 * second) * 3 <= DURATION_MAX /\
  exists p' partition,
    run_stale_detection sub proc (10 * second) stale_env = Some (p', offline_signals proc (10 * second) stale_env ++ partition) /\
    processor_ok p' /\
    (tracked (topology p') 3 <-> exists m w, (link mesh 3 m w \/ link mesh m 3 w) /\ 70 * second <= lq_last_observed w).
Proof.
  split; [vm_compute; discriminate|].
  destruct (stale_detection_prunes sub proc (10 * second) stale_env (70 * second) (70 * second) proc_ok
    ltac:(vm_compute; discriminate) eq_refl eq_refl ltac:(lia)) as (p' & part & Hrun & Hok & _ & Hn & _).
  exists p', part. split; [exact Hrun|]. split; [exact Hok|]. exact (Hn 3).
Defined.

Example expired_node_dropped :
  (fun r => (contains_node (topology r.1) 1, contains_node (topology r.1) 3, length r.2)) <$>
    run_stale_detection sub proc (10 * second) stale_env = Some (true, false, 0%nat).
Proof. vm_compute. reflexivity. Qed.

(** Two remaining components are reported. *)
Example partition_reported :
  (fun r => length r.2) <$> run_stale_detection sub proc (100 * second) stale_env = Some 1%nat.
Proof. vm_compute. reflexivity. Qed.

Lemma discovery_preserves_state_witness :
  let s := mkDiscovery proc [] [] in
  let '(r, s') := run_discovery demo_decoders sub TopologyConfig_default
                    [DStale stale_env; DTraceroute (fun _ => false); DPacket (demo_packet 7 9 NEIGHBORINFO_APP) demo_env] s in
  r <> Panicked /\ processor_ok (ds_processor s').
Proof.
  intros s. apply (discovery_preserves_state demo_decoders sub TopologyConfig_default _ s);
    [vm_compute; discriminate|vm_compute; discriminate|reflexivity|exact proc_ok].
Defined.
End DiscoverySample.
