(* ===== verification/RoutingProc.v ===== *)
(** * Delivery confirmation (crates/kerykeion/src/processor.rs, [RoutingProcessor])

    How an inbound [ROUTING_APP] packet becomes an ACK, a NAK or nothing, and
    what each does to the delivery tracker and the outbound queue. The protobuf
    decoder of [Routing] is a parameter. *)

From S2P Require Import Prelude MeshTypes Proto Outbound Delivery.

Local Open Scope Z_scope.

Inductive RoutingResult : Type :=
| RAck (request_id : PacketId)
| RNak (request_id : PacketId) (error : RoutingError)
| RUnknownError (request_id : PacketId) (code : Z)
| NotRouting.

Definition ROUTING_APP : Z := 5.

Section Decode.
Context (routing_decode : bytes -> option Routing).

Definition process_routing (packet : MeshPacket) : RoutingResult :=
  match mp_payload_variant packet with
  | Some (Decoded data) =>
      if negb (d_portnum data =? ROUTING_APP) then NotRouting
      else
        let request_id := d_request_id data in
        if request_id =? 0 then NotRouting
        else
          match routing_decode (d_payload data) with
          | None => NotRouting
          | Some routing_msg =>
              match routing_variant routing_msg with
              | Some (ErrorReason code) =>
                  match routing_error_try_from code with
                  | Some RNone => RAck request_id
                  | Some error => RNak request_id error
                  | None => RUnknownError request_id code
                  end
              | None => NotRouting
              end
          end
  | _ => NotRouting
  end.
End Decode.

Definition apply_routing_result (result : RoutingResult) (delivery : DeliveryTracker)
    (outbound : OutboundQueue) (now : Instant) : DeliveryTracker * OutboundQueue :=
  match result with
  | RAck request_id =>
      (mark_acknowledged delivery request_id None now, (queue_handle_ack outbound request_id).2)
  | RNak request_id error =>
      let (retried, outbound) := queue_handle_nak outbound request_id in
      (if retried then record_retry delivery request_id
       else mark_failed delivery request_id (FNak error), outbound)
  | RUnknownError request_id code =>
      let (retried, outbound) := queue_handle_nak outbound request_id in
      (if retried then record_retry delivery request_id
       else mark_failed delivery request_id (FUnknownNak code), outbound)
  | NotRouting => (delivery, outbound)
  end.

(** The packet is an explicit confirmation of [id]. *)
Definition explicit_ack (routing_decode : bytes -> option Routing) (packet : MeshPacket) (id : PacketId)
  : Prop :=
  id <> 0 /\ exists data, mp_payload_variant packet = Some (Decoded data) /\
    d_portnum data = ROUTING_APP /\ d_request_id data = id /\
    routing_decode (d_payload data) = Some (mkRouting (Some (ErrorReason 0))).

(** * Lemmas *)

Lemma process_routing_ack dec packet id :
  process_routing dec packet = RAck id <-> explicit_ack dec packet id.
Proof.
  unfold process_routing, explicit_ack. split.
  - destruct (mp_payload_variant packet) as [[data|]|]; [|done..].
    destruct (d_portnum data =? ROUTING_APP) eqn:Ep; [|done]. simpl.
    destruct (d_request_id data =? 0) eqn:Ei; [done|].
    destruct (dec (d_payload data)) as [[[[code]|]]|] eqn:Ed; simpl; [|done..].
    destruct (routing_error_try_from code) as [e|] eqn:Ec; [|done].
    destruct e; try done. apply routing_error_try_from_None in Ec as ->.
    intros [= <-]. split; [lia|]. exists data. split; [done|]. split; [lia|]. done.
  - intros (Hid & data & -> & -> & <- & ->). simpl.
    by rewrite (proj2 (Z.eqb_neq _ _) Hid).
Qed.

(** Neither recording a retry nor a failure acknowledges anything. *)
Lemma nak_path_not_acked t id k r reason (retried : bool) :
  records (if retried then record_retry t id else mark_failed t id reason) !! k = Some r ->
  is_acked (dr_status r) = true -> exists r0, records t !! k = Some r0 /\ dr_status r0 = dr_status r.
Proof.
  destruct retried; [unfold record_retry|unfold mark_failed];
    (destruct (records t !! id) as [r0|] eqn:E; [|intros Hk _; by exists r]); simpl;
    intros [[<- <-]|[Hne Hk]]%lookup_insert_Some Ha; try done; [by exists r0|by exists r..].
Qed.

(** * Properties *)

(** Only an explicit confirmation acknowledges: a record can become
    acknowledged through an inbound packet only if that packet is a decoded
    [ROUTING_APP] packet whose payload carries the error code 0 for that very
    request id; a NAK, an unknown error code, an undecodable payload or any
    other packet leaves no record acknowledged that was not so before. *)
Theorem only_explicit_ack_acknowledges dec packet t q now id :
  let t' := (apply_routing_result (process_routing dec packet) t q now).1 in
  (exists a h, delivery_status t' id = Some (Acknowledged a h)) ->
  (exists a h, delivery_status t id = Some (Acknowledged a h)) \/ explicit_ack dec packet id.
Proof.
  cbv zeta. intros (a & h & Hst). destruct (process_routing dec packet) as [i|i e|i c|] eqn:E; simpl in Hst.
  - apply process_routing_ack in E. destruct (decide (id = i)) as [->|Hne]; [by right|left].
    exists a, h. revert Hst. unfold mark_acknowledged.
    destruct (records t !! i) as [r|] eqn:Hr; [|done]. unfold delivery_status.
    destruct (dr_status r); simpl; try done; by rewrite lookup_insert_ne.
  - left. destruct (queue_handle_nak q i) as [retried o]. cbn [fst] in Hst.
    unfold delivery_status in Hst. apply fmap_Some in Hst as (r & Hr & Hs).
    apply nak_path_not_acked in Hr as (r0 & Hr0 & Hs0); [|by rewrite <- Hs].
    exists a, h. unfold delivery_status. rewrite Hr0. simpl. congruence.
  - left. destruct (queue_handle_nak q i) as [retried o]. cbn [fst] in Hst.
    unfold delivery_status in Hst. apply fmap_Some in Hst as (r & Hr & Hs).
    apply nak_path_not_acked in Hr as (r0 & Hr0 & Hs0); [|by rewrite <- Hs].
    exists a, h. unfold delivery_status. rewrite Hr0. simpl. congruence.
  - left. eauto.
Qed.

Lemma only_explicit_ack_acknowledges_witness :
  let dec := fun b : bytes => match b with [c] => Some (mkRouting (Some (ErrorReason c))) | _ => None end in
  let packet := mkMeshPacket 2 1 0 (Some (Decoded (mkData 5 [0] false 0 0 7 0 []))) 30 0
                  SpecFloat.S754_nan 3 false 0 0 false 3 in
  let t := track DeliveryTracker_new 7 2 0 in
  let q := outbound_with_config OutboundConfig_default in
  explicit_ack dec packet 7.
Proof.
  intros dec packet t q.
  destruct (only_explicit_ack_acknowledges dec packet t q 9 7) as [(a & h & T)|T].
  - exists 9, None. vm_compute. reflexivity.
  - vm_compute in T. discriminate T.
  - exact T.
Defined.
