(* ===== verification/Collector.v ===== *)
(** * The mesh collector (crates/kerykeion/src/collector.rs)

    [MeshCollector] owns the node database shown to the operator and the router,
    and drives the packet processor. Its asynchronous tasks are modelled by the
    sections of code they run under one lock: what one received message does, and
    the steps of the router flush. Attempts to connect, received messages and
    joined tasks are inputs; clock reads are arguments. *)

From S2P Require Import Prelude Float MeshTypes Proto Outbound Delivery StoreForward Router NodeDb Topology Signal MeshSignal Handshake PacketProc Bridge RoutingProc.

Local Open Scope Z_scope.

(** The parts of [MeshConfig] the collector hands to its components; a connection
    is named by its position in [cc_connections]. *)
Record CollectorConfig : Type := mkCollectorConfig {
  cc_connections : nat; cc_outbound : OutboundConfig; cc_bridge : BridgeConfig;
  cc_store_forward : StoreForwardConfig }.

Record MeshCollector : Type := mkCollector {
  mc_config : CollectorConfig;
  mc_node_db : NodeDb;
  mc_bridge : GatewayBridge;
  mc_router : MeshRouter
}.

Definition MeshCollector_new (config : CollectorConfig) : MeshCollector :=
  mkCollector config NodeDb_new (bridge_with_config (cc_bridge config))
    (router_with_config (outbound_with_config (cc_outbound config)) (StoreForward_new (cc_store_forward config))
       DeliveryTracker_new (cc_outbound config)).

Definition set_node_db (c : MeshCollector) (db : NodeDb) : MeshCollector :=
  mkCollector (mc_config c) db (mc_bridge c) (mc_router c).
Definition set_router (c : MeshCollector) (r : MeshRouter) : MeshCollector :=
  mkCollector (mc_config c) (mc_node_db c) (mc_bridge c) r.

(** ** Supervision of the background tasks *)

(** A joined task: it returned, returned an error, or panicked. *)
Inductive TaskResult : Type := TaskOk | TaskErr | TaskPanic.
Inductive TaskOutcome : Type := Continue | Shutdown.

Definition supervise_task_result (r : TaskResult) : TaskOutcome :=
  match r with TaskOk => Continue | TaskErr | TaskPanic => Shutdown end.

Section Collector.
Context `{StableGraph} `{HashOrder} (dec : Decoders) (routing_decode : bytes -> option Routing).

(** ** Received messages *)

Definition compute_hop_count (hop_start hop_limit : Z) : option Z := hop_count_from_wire hop_start hop_limit.

Definition handle_mesh_packet (db : NodeDb) (packet : MeshPacket) (now : Timestamp) : NodeDb :=
  match from_wire (mp_from packet) with
  | None => db
  | Some node_num =>
      let snr := if f32_eqb (mp_rx_snr packet) f32_zero then None else Some (mp_rx_snr packet) in
      let hop_count := compute_hop_count (mp_hop_start packet) (mp_hop_limit packet) in
      match db_get db node_num with
      | Some node =>
          db_insert db
            (mkMeshNode (mn_num node) (mn_user node) (mn_position node) (mn_metrics node) (Some now)
               (match snr with Some s => Some s | None => mn_snr node end)
               (match hop_count with Some h => Some h | None => mn_hop_count node end))
      | None => db_insert db (mkMeshNode node_num None None None (Some now) snr hop_count)
      end
  end.

Definition process_packet (c : MeshCollector) (from_radio : option FromRadioVariant) (now : Timestamp)
  : MeshCollector :=
  match from_radio with
  | Some (FRPacket packet) => set_node_db c (handle_mesh_packet (mc_node_db c) packet now)
  | Some (FRNodeInfo ni) => set_node_db c (db_insert (mc_node_db c) (node_info_to_mesh_node ni))
  | _ => c
  end.

Definition dispatch_routing (r : MeshRouter) (packet : MeshPacket) (now : Instant) : MeshRouter :=
  match process_routing routing_decode packet with
  | NotRouting => r
  | routing_result =>
      let (d, o) := apply_routing_result routing_result (delivery r) (outbound r) now in
      set_delivery (set_outbound r o) d
  end.

(** What one message reads: [me_now] by the collector, [me_env] by the processor,
    [me_instant] by the router. *)
Record MessageEnv : Type := mkMessageEnv { me_now : Timestamp; me_env : PacketEnv; me_instant : Instant }.

(** The new states and the signals broadcast; [None] is a panic. *)
Definition dispatch_to_processor (c : MeshCollector) (p : PacketProcessor) (from_radio : option FromRadioVariant)
    (env : MessageEnv) : option (MeshCollector * PacketProcessor * list GeoSignal) :=
  match from_radio with
  | Some (FRPacket packet) =>
      '(p, _, signals) ← process_mesh_packet dec p packet (me_env env);
      Some (set_router c (dispatch_routing (mc_router c) packet (me_instant env)), p, signals)
  | Some (FRNodeInfo ni) =>
      Some (c, mkProcessor (db_insert (node_db p) (node_info_to_mesh_node ni)) (topology p), [])
  | _ => Some (c, p, [])
  end.

(** The branch of the receive loop for a received message. *)
Definition receive_message (c : MeshCollector) (p : PacketProcessor) (from_radio : option FromRadioVariant)
    (env : MessageEnv) : option (MeshCollector * PacketProcessor * list GeoSignal) :=
  dispatch_to_processor (process_packet c from_radio (me_now env)) p from_radio env.

Definition make_processor (c : MeshCollector) : PacketProcessor := mkProcessor (mc_node_db c) MeshTopology_new.

(** ** Connecting *)

Inductive ConnectAttempt : Type :=
| ConnectFailed
| Connected (want_config_id : Z) (send_ok : bool) (events : list RecvEvent).

(** The handshake of one connection, in a scratch database, merged on success. *)
Definition handshake_one (db : NodeDb) (want_config_id : Z) (send_ok : bool) (events : list RecvEvent)
  : option NodeDb :=
  match (handshake_with_config want_config_id NodeDb_new send_ok events).1 with
  | Ok result => Some (fold_left db_insert (known_nodes result) (set_my_node db (my_node_num result)))
  | Err _ => None
  end.

(** The second loop: the connections that completed the handshake, by position. *)
Fixpoint handshake_all (db : NodeDb) (i : nat) (attempts : list ConnectAttempt) : list nat * NodeDb :=
  match attempts with
  | [] => ([], db)
  | ConnectFailed :: rest => handshake_all db (S i) rest
  | Connected id send_ok events :: rest =>
      match handshake_one db id send_ok events with
      | Some db => let (active, db) := handshake_all db (S i) rest in (i :: active, db)
      | None => handshake_all db (S i) rest
      end
  end.

Inductive CollectorError : Type := HandshakeFailed (configured : nat) | ConnectionLost.

(** One attempt per configured connection. *)
Definition connect_and_handshake (c : MeshCollector) (attempts : list ConnectAttempt)
  : result (list nat) CollectorError * MeshCollector :=
  let (active, db) := handshake_all (mc_node_db c) 0 attempts in
  let c := set_node_db c db in
  match active, cc_connections (mc_config c) with
  | [], S _ => (Err (HandshakeFailed (cc_connections (mc_config c))), c)
  | _, _ => (Ok active, c)
  end.

(** ** The receive loop *)

Inductive LoopEvent : Type :=
| Cancelled
| ReceivedMessage (v : option FromRadioVariant) (env : MessageEnv)
| ReceiveError (still_connected : bool)
| TaskJoined (r : TaskResult).

Inductive LoopEnd : Type := Running | StoppedByCancel | StoppedByLoss | StoppedByTask.

(** How far the loop got on a list of events, and the states it left. *)
Fixpoint receive_loop (c : MeshCollector) (p : PacketProcessor) (events : list LoopEvent)
  : option (MeshCollector * PacketProcessor * list GeoSignal * LoopEnd) :=
  match events with
  | [] => Some (c, p, [], Running)
  | Cancelled :: _ => Some (c, p, [], StoppedByCancel)
  | ReceivedMessage v env :: rest =>
      '(c, p, signals) ← receive_message c p v env;
      '(c, p, more, e) ← receive_loop c p rest;
      Some (c, p, signals ++ more, e)
  | ReceiveError still_connected :: rest =>
      if still_connected then receive_loop c p rest else Some (c, p, [], StoppedByLoss)
  | TaskJoined r :: rest =>
      match supervise_task_result r with
      | Continue => receive_loop c p rest
      | Shutdown => Some (c, p, [], StoppedByTask)
      end
  end.

(** The whole of [run]: connect, then the loop, then, once it ended, the timeouts
    of the router. *)
Definition run (c : MeshCollector) (attempts : list ConnectAttempt) (events : list LoopEvent) (now : Instant)
  : option (result LoopEnd CollectorError * MeshCollector * list GeoSignal) :=
  match connect_and_handshake c attempts with
  | (Err e, c) => Some (Err e, c, [])
  | (Ok [], c) => Some (Ok StoppedByLoss, c, [])
  | (Ok (_ :: _), c) =>
      '(c, _, signals, e) ← receive_loop c (make_processor c) events;
      let c := match e with
               | Running => c
               | _ => set_router c (process_timeouts (mc_router c) now).1
               end in
      Some (Ok e, c, signals)
  end.

(** ** The router flush *)

(** [while let Some(msg) = r.next_to_send()], the [k]-th call reading [clock k]. *)
Fixpoint drain_sendable (fuel : nat) (clock : nat -> Instant) (k : nat) (r : MeshRouter)
  : list PendingMessage * MeshRouter :=
  match fuel with
  | O => ([], r)
  | S fuel =>
      match router_next_to_send r (clock k) (clock k) with
      | (Some msg, r) => let (msgs, r) := drain_sendable fuel clock (S k) r in (msg :: msgs, r)
      | (None, r) => ([], r)
      end
  end.

(** The section of a tick under the router's lock. Each call that returns a message
    takes at least one from the queue, so the queue's length bounds the loop. *)
Definition flush_collect (r : MeshRouter) (clock : nat -> Instant) (ts : Z) : list PendingMessage * MeshRouter :=
  let r := (process_timeouts r (clock 0%nat)).1 in
  let r := (run_maintenance r (clock 1%nat) (clock 2%nat) ts (clock 3%nat)).2 in
  drain_sendable (S (length (pending (outbound r)))) clock 4 r.

(** Where the flush task is, with the messages it holds outside the lock. *)
Inductive FlushPhase : Type :=
| FlushIdle
| FlushSending (pending : list PendingMessage)
| FlushTracking (msg : PendingMessage) (pending : list PendingMessage).

Record Shared : Type := mkShared { sh_router : MeshRouter; sh_flush : FlushPhase; sh_air : list MeshPacket }.

(** The interleaving of the flush task with the receive loop, one locked section at
    a time. [sh_air] is what was handed to the radio, a failed send included. *)
Inductive shared_step : Shared -> Shared -> Prop :=
| sh_tick r air clock ts msgs r' :
    flush_collect r clock ts = (msgs, r') ->
    shared_step (mkShared r FlushIdle air) (mkShared r' (FlushSending msgs) air)
| sh_done r air :
    shared_step (mkShared r (FlushSending []) air) (mkShared r FlushIdle air)
| sh_send r msg msgs air :
    shared_step (mkShared r (FlushSending (msg :: msgs)) air)
                (mkShared r (FlushTracking msg msgs) (air ++ [pm_packet msg]))
| sh_track r msg msgs air now :
    shared_step (mkShared r (FlushTracking msg msgs) air)
                (mkShared (track_sent r msg now) (FlushSending msgs) air)
| sh_routing r phase air packet now :
    shared_step (mkShared r phase air) (mkShared (dispatch_routing r packet now) phase air).

(** * Lemmas *)

(** ** The two node tables *)

Abbreviation known db n := (is_Some (db_get db n)) (only parsing).

Lemma dispatch_keeps p from packet decoded env p' ev :
  db_ok (node_db p) -> dispatch dec p from packet decoded env = Some (p', ev) ->
  known (node_db p) from -> known (node_db p') from.
Proof.
  intros Hdb Hd Hk.
  assert (forall n, mn_num n = from -> known (db_insert (node_db p) n) from) as Hins
    by (intros n <-; rewrite db_insert_self; eauto).
  pose proof (known_node_num (node_db p) from Hdb) as Hnum.
  unfold dispatch in Hd. repeat (destruct (_ =? _) in Hd).
  - apply (inj Some) in Hd. unfold handle_nodeinfo in Hd. destruct (user_decode _ _); simplify_eq; [by apply Hins|done].
  - apply (inj Some) in Hd. unfold handle_position in Hd. destruct (position_decode _ _); [|by simplify_eq].
    destruct (Coordinates_new _ _ _); simplify_eq; [by apply Hins|done].
  - apply (inj Some) in Hd. unfold handle_telemetry in Hd. destruct (telemetry_decode _ _) as [tm|]; [|by simplify_eq].
    destruct (tel_variant tm) as [[dm]|]; [|by simplify_eq]. injection Hd as <- <-. cbn [node_db].
    unfold known_node in Hnum. destruct (db_get (node_db p) from) as [x|]; [|done]. by apply Hins.
  - unfold handle_neighborinfo in Hd. destruct (neighborinfo_decode _ _); [|by simplify_eq].
    destruct (negb _); [by simplify_eq|]. destruct (update_links _ _ _ _); [|done]. by simplify_eq/=.
  - unfold handle_traceroute in Hd. destruct (route_decode _ _) as [route|]; [|by simplify_eq].
    destruct (update_links _ _ _ _); [|done]. cbn [mbind option_bind] in Hd.
    destruct (rd_back route); [by simplify_eq/=|]. destruct (update_links _ _ _ _); [|done]. by simplify_eq/=.
  - by simplify_eq.
Qed.

(** A packet makes its sender known to the processor, and nobody else unknown while
    the table has room. *)
Lemma process_mesh_packet_known p packet env p' ev sg :
  processor_wf p -> process_mesh_packet dec p packet env = Some (p', ev, sg) ->
  forall n, (db_len (node_db p) < MAX_LIVE_NODES)%nat \/ known (node_db p) (mp_from packet) \/ from_wire (mp_from packet) = None ->
    (known (node_db p') n <-> known (node_db p) n \/ from_wire (mp_from packet) = Some n).
Proof.
  intros Hp Hrun. destruct (process_mesh_packet_effect dec p packet env Hp) as (p2 & ev2 & sg2 & Hrun2 & _ & He).
  rewrite Hrun in Hrun2. injection Hrun2 as <- <- <-.
  destruct (from_wire (mp_from packet)) as [from|] eqn:Ef.
  2: { destruct He as [-> _]. intros n _. naive_solver. }
  destruct He as [[Hok _ [_ Ho] _] Hfrom]. intros n Hroom.
  assert (known (node_db p') from) as Hk.
  { unfold process_mesh_packet in Hrun. rewrite Ef in Hrun.
    destruct (passive_learning_effect p packet from env Hp) as (p1 & Hl & [Hok1 _ _ _] & Hk1).
    rewrite Hl in Hrun. cbn [mbind option_bind] in Hrun.
    destruct (mp_payload_variant packet) as [[decoded|b]|]; [|by simplify_eq..].
    destruct (dispatch dec p1 from packet decoded env) as [[p3 ev3]|] eqn:Hd; [|done].
    injection Hrun as <- _ _. by eapply dispatch_keeps; [apply Hok1|exact Hd|]. }
  destruct (decide (n = from)) as [->|Hne]; [naive_solver|].
  destruct (Ho n Hne) as [-> |(Hn & Hnone & Hlen)]; [naive_solver|].
  exfalso. rewrite <- Hfrom in Hroom. destruct Hroom as [?|[[x Hx]|?]]; [lia|congruence|done].
Qed.

Lemma db_insert_known db node n :
  db_ok db -> (db_len db < MAX_LIVE_NODES)%nat \/ known db (mn_num node) ->
  (known (db_insert db node) n <-> known db n \/ n = mn_num node).
Proof.
  intros Hdb Hroom. destruct (decide (n = mn_num node)) as [->|Hne].
  { rewrite db_insert_self. naive_solver. }
  destruct (of_others _ _ _ (db_insert_only_from db node Hdb) n Hne) as [-> |(_ & Hnone & Hlen)]; [naive_solver|].
  exfalso. destruct Hroom as [?|[x Hx]]; [lia|congruence].
Qed.

(** The node a message reports. *)
Definition reported (v : option FromRadioVariant) : option NodeNum :=
  match v with
  | Some (FRPacket packet) => from_wire (mp_from packet)
  | Some (FRNodeInfo ni) => Some (ni_num ni)
  | _ => None
  end.

Lemma process_packet_known c v now n :
  db_ok (mc_node_db c) ->
  (forall m, reported v = Some m -> (db_len (mc_node_db c) < MAX_LIVE_NODES)%nat \/ known (mc_node_db c) m) ->
  db_ok (mc_node_db (process_packet c v now)) /\
  (known (mc_node_db (process_packet c v now)) n <-> known (mc_node_db c) n \/ reported v = Some n).
Proof.
  intros Hdb Hroom. destruct v as [v|]; [|cbn; naive_solver].
  destruct v as [packet| |ni| | |]; cbn [process_packet reported] in *; try (cbn; naive_solver).
  - unfold handle_mesh_packet, set_node_db. cbn [mc_node_db].
    destruct (from_wire (mp_from packet)) as [from|]; [|naive_solver].
    specialize (Hroom from eq_refl).
    destruct (db_get (mc_node_db c) from) as [node|] eqn:E.
    + assert (mn_num node = from) as Hn by (destruct Hdb as [_ Hnum]; by apply Hnum in E).
      split; [by apply db_insert_ok|]. rewrite db_insert_known by (cbn [mn_num]; rewrite ?Hn, ?E; eauto). cbn [mn_num]. naive_solver.
    + split; [by apply db_insert_ok|]. rewrite db_insert_known by (cbn [mn_num]; rewrite ?E; eauto). cbn [mn_num]. naive_solver.
  - unfold set_node_db. cbn [mc_node_db]. split; [by apply db_insert_ok|].
    rewrite db_insert_known by (exact (Hroom _ eq_refl) || done).
    change (mn_num (node_info_to_mesh_node ni)) with (ni_num ni). naive_solver.
Qed.

Lemma room_or_known (U : gset Z) db m :
  (size U <= MAX_LIVE_NODES)%nat -> (forall n, known db n -> n ∈ U) -> m ∈ U ->
  (db_len db < MAX_LIVE_NODES)%nat \/ known db m.
Proof.
  intros HU Hdb Hm. destruct (db_get db m) as [x|] eqn:E; [right; eauto|left].
  enough (size (nodes db) < size U)%nat by (unfold db_len; lia).
  rewrite <- (size_dom (D := gset Z)). apply subset_size. split.
  - intros n Hn. apply elem_of_dom in Hn. by apply Hdb.
  - intros Hsub. apply Hsub, elem_of_dom in Hm as [x Hx]. unfold db_get in E. congruence.
Qed.

(** Both tables know exactly the nodes of [K]. *)
Record tables_know (c : MeshCollector) (p : PacketProcessor) (K : gset Z) : Prop := mkKnow {
  tk_collector : forall n, known (mc_node_db c) n <-> n ∈ K;
  tk_both : forall n, known (node_db p) n <-> n ∈ K }.

Definition reported_set (v : option FromRadioVariant) : gset Z :=
  match reported v with Some n => {[ n ]} | None => ∅ end.

(** A node record reports a position on the planet, or none. The collector does not
    check that; [node_info_position_unchecked] is such a record. *)
Definition message_ok (v : option FromRadioVariant) : Prop :=
  match v with Some (FRNodeInfo ni) => position_ok (node_info_to_mesh_node ni) | _ => True end.

#[global] Instance position_ok_dec n : Decision (position_ok n).
Proof. unfold position_ok. destruct (mn_position n); apply _. Defined.
#[global] Instance message_ok_dec v : Decision (message_ok v).
Proof. unfold message_ok. destruct v as [[| |ni| | |]|]; apply _. Defined.

Lemma process_packet_ok c v now : db_ok (mc_node_db c) ->
  db_ok (mc_node_db (process_packet c v now)) /\ mc_bridge (process_packet c v now) = mc_bridge c /\
  mc_router (process_packet c v now) = mc_router c.
Proof.
  intros Hdb. destruct v as [[packet| |ni| | |]|]; cbn; try done.
  - split; [|done]. unfold handle_mesh_packet. destruct (from_wire (mp_from packet)); [|done].
    destruct (db_get _ _); by apply db_insert_ok.
  - split; [|done]. by apply db_insert_ok.
Qed.

(** Whatever the message, the processor takes it. *)
Lemma receive_message_total c p v env :
  db_ok (mc_node_db c) -> processor_wf p ->
  exists c' p' sg, receive_message c p v env = Some (c', p', sg) /\
    db_ok (mc_node_db c') /\ processor_wf p' /\ (positions_ok p -> message_ok v -> positions_ok p').
Proof.
  intros Hdb Hp. destruct (process_packet_ok c v (me_now env) Hdb) as [Hdb' _].
  unfold receive_message, dispatch_to_processor. set (c1 := process_packet c v (me_now env)) in *. clearbody c1.
  destruct v as [[packet| |ni| | |]|]; try (eexists _, _, _; split; [done|]; split; [done|]; split; [done|auto]).
  - destruct (process_mesh_packet_keeps dec p packet (me_env env) Hp) as (p' & ev & sg & -> & Hp' & Hq).
    cbn [mbind option_bind]. eexists _, _, _. split; [done|]. split; [done|]. split; [done|auto].
  - destruct (insert_record_spec p (ni_num ni) (node_info_to_mesh_node ni) Hp eq_refl) as (Hp' & Hq & _).
    eexists _, _, _. split; [done|]. by split.
Qed.

(** While the tables have room, they know the same nodes after a message. *)
Lemma receive_message_knows c p K v env c' p' sg :
  db_ok (mc_node_db c) -> processor_wf p -> tables_know c p K ->
  (size (K ∪ reported_set v) <= MAX_LIVE_NODES)%nat ->
  receive_message c p v env = Some (c', p', sg) -> tables_know c' p' (K ∪ reported_set v).
Proof.
  intros Hdb Hp [Hc Hb] Hsize.
  assert (forall db, (forall n, known db n <-> n ∈ K) -> forall m, reported v = Some m ->
            (db_len db < MAX_LIVE_NODES)%nat \/ known db m) as Hroom.
  { intros db Hk m Hm. unfold reported_set in Hsize. rewrite Hm in Hsize.
    apply (room_or_known (K ∪ {[ m ]})); [done|intros n Hn; apply Hk in Hn; set_solver|set_solver]. }
  assert (forall n, n ∈ K ∪ reported_set v <-> n ∈ K \/ reported v = Some n) as HK.
  { intros n. unfold reported_set. destruct (reported v); set_solver. }
  assert (forall n, known (mc_node_db (process_packet c v (me_now env))) n <-> n ∈ K ∪ reported_set v) as Hc'.
  { intros n. rewrite (proj2 (process_packet_known c v (me_now env) n Hdb (Hroom _ Hc))), Hc, HK. done. }
  unfold receive_message, dispatch_to_processor. set (c1 := process_packet c v (me_now env)) in *. clearbody c1.
  assert (reported v = None -> tables_know c1 p (K ∪ reported_set v)) as Hnone.
  { intros Hr. constructor; [done|]. intros n. rewrite Hb, HK, Hr. naive_solver. }
  destruct v as [[packet| |ni| | |]|]; try (intros [= <- <- <-]; by apply Hnone).
  - destruct (process_mesh_packet dec p packet (me_env env)) as [[[p2 ev] sg2]|] eqn:Hrun; [|done].
    cbn [mbind option_bind]. intros [= <- <- <-]. constructor; [done|].
    intros n. rewrite HK, <- Hb. apply (process_mesh_packet_known _ _ _ _ _ _ Hp Hrun).
    destruct (from_wire (mp_from packet)) as [m|] eqn:Ef; [|by right; right].
    destruct (Hroom _ Hb m) as [?|?]; [by cbn [reported]; rewrite Ef|by left|].
    apply from_wire_Some in Ef as [<- _]. by right; left.
  - intros [= <- <- <-]. constructor; [done|]. intros n. cbn [node_db].
    rewrite db_insert_known by (exact (Hroom _ Hb _ eq_refl) || apply Hp).
    rewrite HK, Hb. change (mn_num (node_info_to_mesh_node ni)) with (ni_num ni). cbn [reported]. naive_solver.
Qed.

(** The messages of a list of loop events up to the one that ends it. *)
Fixpoint loop_messages (events : list LoopEvent) : list (option FromRadioVariant) :=
  match events with
  | ReceivedMessage v _ :: rest => v :: loop_messages rest
  | ReceiveError true :: rest | TaskJoined TaskOk :: rest => loop_messages rest
  | _ => []
  end.

Lemma receive_loop_total events : forall c p,
  db_ok (mc_node_db c) -> processor_wf p ->
  exists c' p' sg e, receive_loop c p events = Some (c', p', sg, e) /\
    db_ok (mc_node_db c') /\ processor_wf p' /\
    (positions_ok p -> Forall message_ok (loop_messages events) -> positions_ok p') /\
    forall K, tables_know c p K -> (size (K ∪ ⋃ (reported_set <$> loop_messages events)) <= MAX_LIVE_NODES)%nat ->
      tables_know c' p' (K ∪ ⋃ (reported_set <$> loop_messages events)).
Proof.
  assert (forall K : gset Z, K ∪ ⋃ (reported_set <$> []) = K) as Hnil by set_solver.
  induction events as [|ev events IH]; intros c p Hdb Hp; cbn [receive_loop loop_messages].
  { eexists _, _, _, _. split_and!; [done|done|done|done|]. intros K ? _. by rewrite Hnil. }
  destruct ev as [|v env|[]|[]]; cbn [supervise_task_result loop_messages];
    try (eexists _, _, _, _; split_and!; [done|done|done|done|]; intros K ? _; by rewrite Hnil); try by apply IH.
  destruct (receive_message_total c p v env Hdb Hp) as (c1 & p1 & sg1 & Hr & Hdb1 & Hp1 & Hq1). rewrite Hr.
  cbn [mbind option_bind]. destruct (IH c1 p1 Hdb1 Hp1) as (c2 & p2 & sg2 & e & -> & Hdb2 & Hp2 & Hq2 & Hk2).
  cbn [mbind option_bind]. eexists _, _, _, _. split_and!; [done|done|done| |].
  - intros Hq [Hv Hvs]%Forall_cons. auto.
  - intros K Hk. rewrite fmap_cons, union_list_cons, (assoc_L (∪)). intros Hsize. apply Hk2; [|done].
    eapply receive_message_knows; [exact Hdb|exact Hp|exact Hk| |exact Hr].
    etrans; [|exact Hsize]. apply subseteq_size. set_solver.
Qed.

(** C24. The two node tables agree: from the processor seeded with the collector's
    table, whatever messages, errors and task results the receive loop sees, the loop
    does not panic and leaves both node tables and the topology well formed; every
    stored position is on the planet if those of the start and of the node records
    received were, which the code does not check; and as long as no more nodes were
    heard than a table holds, the table shown to the operator and the processor's know
    exactly the same nodes, those of the start and those the messages reported. *)
Theorem node_tables_agree c events :
  db_ok (mc_node_db c) ->
  let heard := dom (nodes (mc_node_db c)) ∪ ⋃ (reported_set <$> loop_messages events) in
  exists c' p' signals e, receive_loop c (make_processor c) events = Some (c', p', signals, e) /\
    db_ok (mc_node_db c') /\ processor_wf p' /\
    (positions_ok (make_processor c) -> Forall message_ok (loop_messages events) -> positions_ok p') /\
    ((size heard <= MAX_LIVE_NODES)%nat ->
     forall n, (known (mc_node_db c') n <-> n ∈ heard) /\ (known (node_db p') n <-> n ∈ heard)).
Proof.
  intros Hdb heard. assert (processor_wf (make_processor c)) as Hp by (constructor; [done|apply topo_new_ok]).
  destruct (receive_loop_total events c (make_processor c) Hdb Hp) as (c' & p' & sg & e & Hr & Hdb' & Hp' & Hq & Hk).
  exists c', p', sg, e. split_and!; [done..|]. intros Hsize n.
  destruct (Hk (dom (nodes (mc_node_db c)))) as [Hk1 Hk2]; [|done|by rewrite Hk1, Hk2].
  constructor; intros m; by rewrite elem_of_dom.
Qed.

(** ** The flush *)

Lemma pop_unexpired_shorter now l m rest :
  pop_unexpired now l = (m, rest) ->
  match m with Some _ => (length rest < length l)%nat | None => rest = [] end.
Proof.
  revert m rest. induction l as [|x l IH]; intros m rest Hp; cbn [pop_unexpired] in Hp; [by simplify_eq|].
  destruct (pm_is_expired x now); [|by simplify_eq/=; lia].
  apply IH in Hp. destruct m; [cbn; lia|done].
Qed.

(** The window is looked at again for every message, but messages taken and not yet
    tracked do not count: the loop takes nothing, or leaves nothing. *)
Lemma drain_sendable_all fuel : forall clock k r msgs r',
  (length (pending (outbound r)) < fuel)%nat -> drain_sendable fuel clock k r = (msgs, r') ->
  (size (inflight (outbound r)) < max_inflight (outbound r))%nat -> pending (outbound r') = [].
Proof.
  induction fuel as [|fuel IH]; intros clock k r msgs r' Hf Hd Hw; [lia|]. cbn [drain_sendable] in Hd.
  unfold router_next_to_send, next_to_send in Hd. rewrite leb_correct_conv in Hd by lia.
  destruct (pop_unexpired (clock k) (pending (outbound r))) as [m rest] eqn:Hp.
  apply pop_unexpired_shorter in Hp. destruct m as [msg|]; [|by simplify_eq/=].
  destruct (drain_sendable fuel clock (S k) _) as [msgs1 r1] eqn:Hd1. injection Hd as <- <-.
  eapply IH; [|exact Hd1|]; cbn; lia.
Qed.

Lemma drain_sendable_window fuel clock k r msgs r' :
  drain_sendable fuel clock k r = (msgs, r') ->
  (max_inflight (outbound r) <= size (inflight (outbound r)))%nat -> msgs = [].
Proof.
  destruct fuel as [|fuel]; cbn [drain_sendable]; intros Hd Hw; [by simplify_eq|].
  unfold router_next_to_send, next_to_send in Hd. rewrite leb_correct in Hd by lia. by simplify_eq.
Qed.

Lemma flush_collect_all r clock ts msgs r' :
  flush_collect r clock ts = (msgs, r') -> msgs = [] \/ pending (outbound r') = [].
Proof.
  unfold flush_collect. set (r1 := (run_maintenance _ _ _ _ _).2). clearbody r1. intros Hd.
  destruct (le_lt_dec (max_inflight (outbound r1)) (size (inflight (outbound r1)))) as [Hw|Hw].
  - left. by eapply drain_sendable_window.
  - right. eapply drain_sendable_all; [|exact Hd|done]. lia.
Qed.

(** An acknowledgement handled between the transmission and [track_sent]: the record
    is acknowledged, and the message is in flight all the same. *)
Lemma early_ack_leaves_inflight r msg packet now now' record :
  let id := mp_id (pm_packet msg) in
  process_routing routing_decode packet = RAck id ->
  records (delivery r) !! id = Some record -> is_active record = true ->
  let r' := track_sent (dispatch_routing r packet now) msg now' in
  delivery_status (delivery r') id = Some (Acknowledged now None) /\ is_Some (inflight (outbound r') !! id).
Proof.
  intros id Hack Hrec Hact r'. subst r'. unfold dispatch_routing. rewrite Hack. cbn.
  split; [|rewrite lookup_insert_eq; eauto].
  unfold delivery_status, mark_acknowledged. rewrite Hrec.
  unfold is_active in Hact. destruct (dr_status record); try done; cbn; by rewrite lookup_insert_eq.
Qed.
End Collector.

(** * Two flaws of the flush *)

Module FlushSample.

#[local] Existing Instance canonical_order.

Definition config : OutboundConfig := mkOutboundConfig 1 16 5 30 3600 7200.
Definition text_packet (id : Z) : MeshPacket :=
  mkMeshPacket 1 9 0 (Some (Decoded (mkData 1 [] true 0 0 0 0 []))) id 0 f32_zero 3 true 64 0 false 3.
Definition queue (r : MeshRouter) (id : Z) : MeshRouter :=
  (send (fun _ => []) r (text_packet id) true (SendOptions_with_config config) 0 0 0).2.
Definition empty_router : MeshRouter :=
  router_with_config (outbound_with_config config) (StoreForward_new StoreForwardConfig_default)
    DeliveryTracker_new config.

(** An acknowledgement of packet 1 by node 9. *)
Definition decode_ack (_ : bytes) : option Routing := Some (mkRouting (Some (ErrorReason 0))).
Definition ack_packet : MeshPacket :=
  mkMeshPacket 9 1 0 (Some (Decoded (mkData ROUTING_APP [] false 0 0 1 0 []))) 77 0 f32_zero 3 false 0 0 false 3.

Definition at_time (t : Z) : nat -> Instant := fun _ => t.
Definition tick (r : MeshRouter) (t : Z) : MeshRouter := (flush_collect r (at_time t) 0).2.
Definition taken (r : MeshRouter) (t : Z) : list PendingMessage := (flush_collect r (at_time t) 0).1.

Definition message (id retries : Z) : PendingMessage :=
  mkPending (text_packet id) 0 (duration_from_secs 3600) PDefault retries.

Lemma tick_step r t msgs air :
  taken r t = msgs ->
  shared_step decode_ack (mkShared r FlushIdle air) (mkShared (tick r t) (FlushSending msgs) air).
Proof. intros <-. apply (sh_tick _ _ _ (at_time t) 0). apply surjective_pairing. Qed.

(** The flush does not keep to the window: a tick takes no message or all that
    are queued, because messages it holds do not count as in flight; with room for
    one message in flight and two queued, both are sent and in flight at its end. *)
Theorem flush_overruns_window :
  (forall (O : HashOrder) r clock ts msgs r',
     @flush_collect O r clock ts = (msgs, r') -> msgs = [] \/ pending (outbound r') = []) /\
  exists r r' air, r = queue (queue empty_router 1) 2 /\
    rtc (shared_step decode_ack) (mkShared r FlushIdle []) (mkShared r' FlushIdle air) /\
    max_inflight (outbound r') = 1%nat /\ size (inflight (outbound r')) = 2%nat.
Proof.
  split; [intros O r clock ts msgs r'; apply flush_collect_all|].
  eexists _, _, _. split; [reflexivity|]. split; [|split].
  - eapply rtc_l; [apply (tick_step _ 1 [message 1 0; message 2 0]); vm_compute; reflexivity|].
    eapply rtc_l; [apply sh_send|]. eapply rtc_l; [apply (sh_track _ _ _ _ _ 1)|].
    eapply rtc_l; [apply sh_send|]. eapply rtc_l; [apply (sh_track _ _ _ _ _ 1)|].
    eapply rtc_l; [apply sh_done|]. apply rtc_refl.
  - vm_compute. reflexivity.
  - vm_compute. reflexivity.
Qed.

Definition seconds (n : Z) : Instant := duration_from_secs n.

(** An acknowledgement that arrives between the transmission of a message and
    [track_sent] is lost on the retry timer: whatever the router's state, the message
    ends up acknowledged and in flight at once; and in a run from a single queued
    message the acknowledged packet is sent again after the timeout, and its record
    is no longer acknowledged. *)
Theorem early_ack_retransmits :
  (forall routing_decode r msg packet now now' record,
     process_routing routing_decode packet = RAck (mp_id (pm_packet msg)) ->
     records (delivery r) !! mp_id (pm_packet msg) = Some record -> is_active record = true ->
     let r' := track_sent (dispatch_routing routing_decode r packet now) msg now' in
     delivery_status (delivery r') (mp_id (pm_packet msg)) = Some (Acknowledged now None) /\
     is_Some (inflight (outbound r') !! mp_id (pm_packet msg))) /\
  exists s s', rtc (shared_step decode_ack) (mkShared (queue empty_router 1) FlushIdle []) s /\
    sh_air s = [text_packet 1] /\
    delivery_status (delivery (sh_router s)) 1 = Some (Acknowledged (seconds 2) None) /\
    rtc (shared_step decode_ack) s s' /\ sh_air s' = [text_packet 1; text_packet 1] /\
    delivery_status (delivery (sh_router s')) 1 = Some (Sent (seconds 40)).
Proof.
  split.
  { intros dec r msg packet now now' record Hack Hrec Hact. by apply (early_ack_leaves_inflight dec r msg packet now now' record). }
  eexists _, _. split.
  { eapply rtc_l; [apply (tick_step _ (seconds 1) [message 1 0]); vm_compute; reflexivity|].
    eapply rtc_l; [apply sh_send|].
    eapply rtc_l; [apply (sh_routing _ _ _ _ ack_packet (seconds 2))|]. apply rtc_refl. }
  split; [reflexivity|]. split; [vm_compute; reflexivity|]. split.
  { eapply rtc_l; [apply (sh_track _ _ _ _ _ (seconds 3))|]. eapply rtc_l; [apply sh_done|].
    eapply rtc_l; [apply (tick_step _ (seconds 40) [message 1 1]); vm_compute; reflexivity|].
    eapply rtc_l; [apply sh_send|]. apply rtc_refl. }
  split; [reflexivity|vm_compute; reflexivity].
Qed.

End FlushSample.

(** ** The receive loop on a packet and a node record *)

Definition demo_collector : MeshCollector :=
  MeshCollector_new (mkCollectorConfig 1 OutboundConfig_default BridgeConfig_default StoreForwardConfig_default).
Definition demo_message_env : MessageEnv := mkMessageEnv 1000 demo_env 5.
Definition demo_info (num lat : Z) : NodeInfo :=
  mkNodeInfo num None (Some (mkPosition lat 0 0 0)) f32_zero 0 0.
Definition demo_events : list LoopEvent :=
  [ReceivedMessage (Some (FRPacket (demo_packet 7 9 NEIGHBORINFO_APP))) demo_message_env;
   ReceiveError true; ReceivedMessage (Some (FRNodeInfo (demo_info 12 515000000))) demo_message_env; Cancelled].

Lemma node_tables_agree_witness :
  exists c' p' signals e,
    receive_loop (H0 := canonical_order) demo_decoders (fun _ => None) demo_collector
      (make_processor (H := MapGraph.map_graph) demo_collector) demo_events = Some (c', p', signals, e) /\
    positions_ok p' /\
    forall n, is_Some (db_get (mc_node_db c') n) <-> is_Some (db_get (node_db p') n).
Proof.
  destruct (@node_tables_agree MapGraph.map_graph canonical_order demo_decoders (fun _ => None)
    demo_collector demo_events) as (c' & p' & sg & e & Hr & _ & _ & Hq & Hk).
  - split; cbn; [rewrite map_size_empty; apply Nat.le_0_l|apply map_Forall_empty].
  - exists c', p', sg, e. split; [exact Hr|]. split.
    + apply Hq; [apply map_Forall_empty|repeat constructor].
    + intros n. destruct (Hk ltac:(apply (bool_decide_unpack _); vm_compute; exact I) n) as [H1 H2].
      rewrite H1, H2. reflexivity.
Defined.

(** A node record of the radio is stored with its position unchecked: latitude 200
    enters the table, which a position report would not. *)
Example node_info_position_unchecked :
  let n := node_info_to_mesh_node (demo_info 12 2000000000) in
  let c := process_packet (H0 := canonical_order) demo_collector (Some (FRNodeInfo (demo_info 12 2000000000))) 0 in
  db_get (mc_node_db c) 12 = Some n /\ is_Some (mn_position n) /\ ~ position_ok n.
Proof.
  split; [reflexivity|]. split; [by eexists|]. vm_compute. discriminate.
Qed.
