(* ===== verification/RouterInv.v ===== *)
(** * The router's invariant

    What every operation of [Router] and every use the collector makes of a router
    preserves: the invariants of its queue, its delivery statistics and its stored
    messages together. *)

From S2P Require Import Prelude Float MeshTypes Proto Outbound Delivery StoreForward Router NodeDb Topology Signal MeshSignal Handshake PacketProc Bridge RoutingProc Collector.

Local Open Scope Z_scope.

(** The limits of the queue never change; [retries] is the configured maximum. *)
Record router_ok (retries : Z) (capacity : nat) (r : MeshRouter) : Prop := {
  ro_queue : queue_ok (outbound r);
  ro_retries : max_retries (outbound r) = retries;
  ro_capacity : max_pending (outbound r) = capacity;
  ro_tracker : tracker_ok (delivery r);
  ro_destinations : (size (queues (store_forward r)) <= MAX_DESTINATIONS)%nat;
  ro_stored : queues_bounded (store_forward r) }.

(** A message the flush holds outside the queue. *)
Definition held_ok (retries : Z) (m : PendingMessage) : Prop := 0 <= pm_retries m <= retries.

Section Invariant.
Context `{HashOrder} (retries : Z) (capacity : nat) (Hretries : is_uint 8 retries).

Abbreviation ok := (router_ok retries capacity) (only parsing).

Lemma ok_queue r op : ok r -> op_ok retries op -> ok (set_outbound r (run_op (outbound r) op)).
Proof.
  intros [Hq Hr Hc Ht Hs Hb] Hop. destruct (run_op_ok (outbound r) op) as (Hq' & Hr' & Hc'); rewrite ?Hr; [done..|].
  constructor; cbn; congruence || done.
Qed.

Lemma ok_tracker r op : ok r -> ok (set_delivery r (run_tracker_op (delivery r) op)).
Proof. intros [Hq Hr Hc Ht Hs Hb]. constructor; cbn; [done..|by apply run_tracker_op_ok|done|done]. Qed.

Lemma ok_store r op : ok r -> is_deserialize op = false ->
  ok (set_store_forward r (run_sf_op (fun _ => None) (store_forward r) op)).
Proof.
  intros [Hq Hr Hc Ht Hs Hb] Hop. constructor; cbn; [done..| |by apply run_sf_op_bounded].
  by apply run_sf_op_size.
Qed.

(** ** Timeouts and maintenance *)

Lemma ok_retry r id : ok r -> ok (set_outbound r (retry (outbound r) id).2).
Proof. intros Hr. by apply (ok_queue r (OpRetry id)). Qed.

Lemma timeout_one_ok r failed id : ok r -> ok (timeout_one (r, failed) id).1.
Proof.
  intros Hr%(fun h => ok_retry r id h). unfold timeout_one. destruct (retry (outbound r) id) as [[] o]; cbn [snd fst] in *.
  - by apply (ok_tracker (set_outbound r o) (TRecordRetry id)).
  - by apply (ok_tracker (set_outbound r o) (TMarkFailed id FMaxRetries)).
Qed.

Lemma process_timeouts_ok r now : ok r -> ok (process_timeouts r now).1.
Proof.
  unfold process_timeouts. generalize (check_timeouts (outbound r) now) as ids. generalize (@nil PacketId) as failed.
  intros failed ids. revert r failed. induction ids as [|id ids IH]; intros r failed Hr; [done|]. cbn [fold_left].
  pose proof (timeout_one_ok r failed id Hr) as Hr'. destruct (timeout_one (r, failed) id) as [r' failed']. by apply IH.
Qed.

Lemma run_maintenance_ok r now1 now2 ts now3 : ok r -> ok (run_maintenance r now1 now2 ts now3).2.
Proof.
  intros Hr. unfold run_maintenance. destruct (expire_stale _ _ _) as [d expired] eqn:Ed. cbn [snd].
  apply (ok_tracker r (TExpireStale (record_max_age r) now1)) in Hr. cbn [run_tracker_op] in Hr. rewrite Ed in Hr. cbn [fst] in Hr.
  apply (ok_tracker _ (TPruneCompleted (record_max_age r) now2)) in Hr.
  apply (ok_store _ (SPruneExpired (now_ms ts))) in Hr; [|done].
  by apply (ok_queue _ (OpDrainExpired now3)) in Hr.
Qed.

(** ** Sending *)

Lemma router_next_to_send_ok r now now' :
  ok r -> ok (router_next_to_send r now now').2 /\
  (forall m, (router_next_to_send r now now').1 = Some m -> held_ok retries m).
Proof.
  intros Hr. pose proof (ok_queue r (OpNextToSend now) Hr I) as Hr1. cbn [run_op] in Hr1.
  unfold router_next_to_send. destruct (next_to_send (outbound r) now) as [[m|] o] eqn:E; cbn [fst snd] in *; [|done].
  split; [by apply (ok_tracker (set_outbound r o) (TMarkSent _ now'))|]. intros m' [= <-].
  unfold next_to_send in E. destruct (_ <=? _)%nat; [done|]. destruct (pop_unexpired _ _) as [m1 rest] eqn:Ep.
  injection E as -> <-. apply pop_unexpired_spec in Ep as (dropped & _ & El & _).
  destruct Hr as [[_ _ Hp _] Hm _ _ _ _]. rewrite El, Hm in Hp. apply Forall_app in Hp as [_ Hp]. by apply Forall_cons in Hp as [? _].
Qed.

Lemma drain_sendable_ok fuel clock : forall k r msgs r',
  ok r -> drain_sendable fuel clock k r = (msgs, r') -> ok r' /\ Forall (held_ok retries) msgs.
Proof.
  induction fuel as [|fuel IH]; intros k r msgs r' Hr; cbn [drain_sendable]; [intros [= <- <-]; by split|].
  destruct (router_next_to_send_ok r (clock k) (clock k) Hr) as [Hr1 Hm].
  destruct (router_next_to_send r (clock k) (clock k)) as [[m|] r1]; cbn [fst snd] in *; [|intros [= <- <-]; by split].
  destruct (drain_sendable fuel clock (S k) r1) as [more r2] eqn:Ed. intros [= <- <-].
  destruct (IH _ _ _ _ Hr1 Ed) as [Hr2 Hmore]. split; [done|]. constructor; [by apply Hm|done].
Qed.

Lemma flush_collect_ok r clock ts msgs r' :
  ok r -> flush_collect r clock ts = (msgs, r') -> ok r' /\ Forall (held_ok retries) msgs.
Proof.
  intros Hr. unfold flush_collect. cbv zeta. apply drain_sendable_ok. by apply run_maintenance_ok, process_timeouts_ok.
Qed.

Lemma track_sent_ok r m now : ok r -> held_ok retries m -> ok (track_sent r m now).
Proof. intros Hr Hm. by apply (ok_queue r (OpTrackInflight m (ack_timeout r) now)). Qed.

Lemma send_ok encode r packet reachable options now_q now_t ts : ok r -> ok (send encode r packet reachable options now_q now_t ts).2.
Proof.
  intros Hr. unfold send. cbv zeta. destruct reachable.
  - pose proof (ok_queue r (OpEnqueue (mkPending packet now_q (duration_from_secs (so_ttl_secs options)) (so_priority options) 0)) Hr)
      as Hr1. cbn [run_op op_ok pm_retries] in Hr1. unfold is_uint in Hretries. specialize (Hr1 ltac:(lia)).
    destruct (enqueue _ _) as [o [[]|e]]; cbn [fst snd] in *; [|done]. by apply (ok_tracker (set_outbound r o) (TTrack _ _ now_t)).
  - set (m := mkStored _ _ _ _ _ _ _ _). pose proof (ok_store r (SStore (mp_to packet) m) Hr eq_refl) as Hr1.
    cbn [run_sf_op] in Hr1. destruct (store _ _ m) as [s [[]|e]]; cbn [fst snd] in *; [|done].
    by apply (ok_tracker (set_store_forward r s) (TTrack _ _ now_t)).
Qed.

Lemma node_came_online_ok decode r dest now : ok r -> ok (node_came_online decode r dest now).
Proof.
  intros Hr. unfold node_came_online.
  pose proof (ok_store r (SDrainFor dest) Hr eq_refl) as Hs. cbn [run_sf_op] in Hs.
  destruct (drain_for (store_forward r) dest) as [stored s]. cbn [snd] in Hs. cbv zeta.
  assert (forall l o, ok (set_outbound (set_store_forward r s) o) ->
    ok (set_outbound (set_store_forward r s) (enqueue_stored decode o l now))) as Henq.
  { induction l as [|m l IH]; intros o Ho; cbn [enqueue_stored]; [done|].
    destruct (decode (sm_packet_bytes m)) as [packet|]; [|by apply IH].
    set (pm := mkPending _ _ _ _ _). pose proof (ok_queue _ (OpEnqueue pm) Ho) as Ho1. unfold is_uint in Hretries.
    specialize (Ho1 ltac:(cbn; lia)). cbn [run_op] in Ho1.
    change (outbound (set_outbound (set_store_forward r s) o)) with o in Ho1.
    destruct (enqueue o pm) as [o1 [[]|e]]; cbn [fst] in Ho1; [by apply IH|done]. }
  specialize (Henq (take (Nat.min (length stored) (remaining_capacity (outbound r))) stored) (outbound r) Hs).
  assert (forall l s o, ok (set_store_forward (set_outbound r o) s) ->
    ok (set_store_forward (set_outbound r o) (fold_left (fun s msg => (store s dest msg).1) l s))) as Hdef.
  { induction l as [|m l IH]; intros s1 o Ho; cbn [fold_left]; [done|]. apply IH.
    exact (ok_store _ (SStore dest m) Ho eq_refl). }
  by apply Hdef.
Qed.

(** ** Acknowledgements *)

Lemma handle_ack_ok r id hops now : ok r -> ok (handle_ack r id hops now).
Proof.
  intros Hr. apply (ok_queue r (OpHandleAck id)) in Hr; [|done]. by apply (ok_tracker _ (TMarkAcknowledged id hops now)) in Hr.
Qed.

Lemma handle_nak_ok r id error : ok r -> ok (handle_nak r id error).
Proof.
  intros Hr%(fun h => ok_retry r id h). unfold handle_nak, queue_handle_nak.
  destruct (retry (outbound r) id) as [[] o]; cbn [snd] in *.
  - by apply (ok_tracker (set_outbound r o) (TRecordRetry id)).
  - by apply (ok_tracker (set_outbound r o) (TMarkFailed id (FNak error))).
Qed.

Lemma dispatch_routing_ok decode r packet now : ok r -> ok (dispatch_routing decode r packet now).
Proof.
  intros Hr. unfold dispatch_routing. destruct (process_routing decode packet) as [id|id error|id code|]; [| | |done].
  - by apply handle_ack_ok.
  - apply (fun h => ok_retry r id h) in Hr. cbn [apply_routing_result]. unfold queue_handle_nak.
    destruct (retry (outbound r) id) as [[] o]; cbn [snd] in *.
    + by apply (ok_tracker (set_outbound r o) (TRecordRetry id)).
    + by apply (ok_tracker (set_outbound r o) (TMarkFailed id (FNak error))).
  - apply (fun h => ok_retry r id h) in Hr. cbn [apply_routing_result]. unfold queue_handle_nak.
    destruct (retry (outbound r) id) as [[] o]; cbn [snd] in *.
    + by apply (ok_tracker (set_outbound r o) (TRecordRetry id)).
    + by apply (ok_tracker (set_outbound r o) (TMarkFailed id (FUnknownNak code))).
Qed.
End Invariant.

Lemma fresh_router_ok (c : OutboundConfig) (s : StoreForwardConfig) :
  is_uint 8 (oc_max_retries c) ->
  router_ok (oc_max_retries c) (oc_max_pending c)
    (router_with_config (outbound_with_config c) (StoreForward_new s) DeliveryTracker_new c).
Proof.
  intros Hc. constructor; cbn; [by apply queue_ok_new|done|done|apply tracker_ok_new|rewrite map_size_empty; unfold MAX_DESTINATIONS; lia|].
  apply map_Forall_empty.
Qed.
