(* ===== verification/System.v ===== *)
(** * The running collector (crates/kerykeion/src/collector.rs: run,
      spawn_background_tasks)

    After the handshake the collector runs its receive loop and its background tasks
    (a heartbeat for every connection, gateway health, discovery, router flush) over
    the connections, the node table, the packet processor, the bridge and the router,
    each under its own lock, while clients use the bridge and the router. A step is
    what one task does under one lock; the steps interleave in any order until the
    collector shuts down. A task creates its timers when it is first polled, and a
    timer without a period panics it; a task that panicked or failed takes no more
    steps. Nothing restricts what is received and configured: a node record may name a
    position off the planet and a configuration may have a zero interval. *)

From S2P Require Import Prelude Float MeshTypes Proto Outbound Delivery StoreForward Router NodeDb Topology Partition Gateway Signal MeshSignal Handshake PacketProc Bridge MeshConfig Transport Monitor Discovery RoutingProc Collector RouterInv.

Local Open Scope Z_scope.

(** Where the receive loop is: polling, about to give a message to the processor, about
    to give a packet to the router, about to look at the link after an error, or gone. *)
Inductive ReceivePhase : Type :=
| RxPoll
| RxDispatch (v : option FromRadioVariant) (env : MessageEnv)
| RxRouting (packet : MeshPacket) (env : MessageEnv)
| RxError
| RxPanicked.

(** A background task that was spawned, by connection. *)
Inductive BackgroundTask : Type :=
| HeartbeatTask (connection : nat) | HealthTask | DiscoveryTask (connection : nat) | FlushTask (connection : nat).

#[global] Instance BackgroundTask_eq_dec : EqDecision BackgroundTask.
Proof. solve_decision. Defined.

Definition spawn_background_tasks (active : list nat) : list BackgroundTask :=
  map HeartbeatTask active ++ [HealthTask]
  ++ match active with primary :: _ => [DiscoveryTask primary; FlushTask primary] | [] => [] end.

Section System.
Context `{StableGraph} `{HashOrder} {C : Type} `{MeshConnection C}.

(** The primary connection is [sy_conn], the others are [sy_others]; [sy_spawned] are
    the tasks not polled yet, [sy_running] those that are and have not ended, [sy_tasks]
    what the ended ones returned. *)
Record System : Type := mkSystem {
  sy_collector : MeshCollector;
  sy_processor : PacketProcessor;
  sy_monitor : Monitor;
  sy_conn : C;
  sy_others : list C;
  sy_receive : ReceivePhase;
  sy_traceroutes : list NodeNum;
  sy_flush : FlushPhase;
  sy_signals : list GeoSignal;
  sy_spawned : list BackgroundTask;
  sy_running : list BackgroundTask;
  sy_tasks : list TaskResult;
  sy_end : option LoopEnd }.

Implicit Types s : System.

Definition set_collector c s : System :=
  mkSystem c (sy_processor s) (sy_monitor s) (sy_conn s) (sy_others s) (sy_receive s) (sy_traceroutes s) (sy_flush s)
    (sy_signals s) (sy_spawned s) (sy_running s) (sy_tasks s) (sy_end s).
Definition set_processor p signals s : System :=
  mkSystem (sy_collector s) p (sy_monitor s) (sy_conn s) (sy_others s) (sy_receive s) (sy_traceroutes s) (sy_flush s)
    (sy_signals s ++ signals) (sy_spawned s) (sy_running s) (sy_tasks s) (sy_end s).
(** The bridge is the collector's; the monitor keeps a view of it. *)
Definition set_monitor m s : System :=
  mkSystem (mkCollector (mc_config (sy_collector s)) (mc_node_db (sy_collector s)) (mon_bridge m) (mc_router (sy_collector s)))
    (sy_processor s) m (sy_conn s) (sy_others s) (sy_receive s) (sy_traceroutes s) (sy_flush s)
    (sy_signals s) (sy_spawned s) (sy_running s) (sy_tasks s) (sy_end s).
Definition set_conn conn s : System :=
  mkSystem (sy_collector s) (sy_processor s) (sy_monitor s) conn (sy_others s) (sy_receive s) (sy_traceroutes s) (sy_flush s)
    (sy_signals s) (sy_spawned s) (sy_running s) (sy_tasks s) (sy_end s).
Definition set_others conns s : System :=
  mkSystem (sy_collector s) (sy_processor s) (sy_monitor s) (sy_conn s) conns (sy_receive s) (sy_traceroutes s) (sy_flush s)
    (sy_signals s) (sy_spawned s) (sy_running s) (sy_tasks s) (sy_end s).
Definition set_receive phase s : System :=
  mkSystem (sy_collector s) (sy_processor s) (sy_monitor s) (sy_conn s) (sy_others s) phase (sy_traceroutes s) (sy_flush s)
    (sy_signals s) (sy_spawned s) (sy_running s) (sy_tasks s) (sy_end s).
Definition set_traceroutes l s : System :=
  mkSystem (sy_collector s) (sy_processor s) (sy_monitor s) (sy_conn s) (sy_others s) (sy_receive s) l (sy_flush s)
    (sy_signals s) (sy_spawned s) (sy_running s) (sy_tasks s) (sy_end s).
Definition set_flush phase s : System :=
  mkSystem (sy_collector s) (sy_processor s) (sy_monitor s) (sy_conn s) (sy_others s) (sy_receive s) (sy_traceroutes s) phase
    (sy_signals s) (sy_spawned s) (sy_running s) (sy_tasks s) (sy_end s).
Definition set_tasks spawned running tasks s : System :=
  mkSystem (sy_collector s) (sy_processor s) (sy_monitor s) (sy_conn s) (sy_others s) (sy_receive s) (sy_traceroutes s)
    (sy_flush s) (sy_signals s) spawned running tasks (sy_end s).
Definition without (t : BackgroundTask) (l : list BackgroundTask) : list BackgroundTask := filter (fun x => x <> t) l.
(** A task that returned [r], or panicked. *)
Definition task_ended t r s : System :=
  set_tasks (without t (sy_spawned s)) (without t (sy_running s)) (sy_tasks s ++ [r]) s.
Definition set_router' r s : System := set_collector (set_router (sy_collector s) r) s.
(** Shutting down: the router's timeouts are processed once more. *)
Definition shut_down e now s : System :=
  let c := sy_collector s in
  mkSystem (set_router c (process_timeouts (mc_router c) now).1) (sy_processor s) (sy_monitor s) (sy_conn s) (sy_others s)
    (sy_receive s) (sy_traceroutes s) (sy_flush s) (sy_signals s) (sy_spawned s) (sy_running s) (sy_tasks s) (Some e).

(** What clients of the router do under its lock. *)
Inductive RouterCall : Type :=
| CallSend (packet : MeshPacket) (reachable : bool) (options : SendOptions) (now_q now_t : Instant) (ts : Z)
| CallOnline (dest : NodeNum) (now : Instant)
| CallAck (id : PacketId) (hops : option Z) (now : Instant)
| CallNak (id : PacketId) (error : RoutingError).

Section Steps.
Context (dec : Decoders) (routing_decode : bytes -> option Routing).
Context (packet_encode : MeshPacket -> bytes) (packet_decode : bytes -> option MeshPacket).
Context (checked_sub : Instant -> Duration -> option Instant).
Context (heartbeat : HeartbeatConfig) (topology_config : TopologyConfig) (flush_config : FlushConfig).

Definition stale_timeout : Duration := duration_from_secs (stale_node_timeout_secs topology_config).

(** [tokio::time::interval] panics on a zero period. *)
Definition zero_timer (t : BackgroundTask) (b : GatewayBridge) : bool :=
  match t with
  | HeartbeatTask _ => heartbeat_interval heartbeat =? 0
  | HealthTask => health_check_interval (config_watch b) =? 0
  | DiscoveryTask _ =>
      (duration_from_secs (traceroute_interval_secs topology_config) =? 0) || (stale_timeout / 2 =? 0)
  | FlushTask _ => duration_from_secs (router_flush_interval_secs flush_config) =? 0
  end.

(** The first poll of a task: it makes its timers, and the health monitor subscribes to
    the bridge's configuration. *)
Definition start_task (t : BackgroundTask) s : System :=
  let b := mc_bridge (sy_collector s) in
  if zero_timer t b then task_ended t TaskPanic s
  else
    let s := set_tasks (without t (sy_spawned s)) (t :: sy_running s) (sy_tasks s) s in
    match t with
    | HealthTask => set_monitor (mkMonitor b false (health_check_interval (config_watch b)) 0 (mon_ticks (sy_monitor s))) s
    | _ => s
    end.

(** Clients of the bridge take its lock whether the monitor runs or not. *)
Definition monitor_may (event : MonitorEvent) s : Prop :=
  match event with MOther _ => True | _ => In HealthTask (sy_running s) end.

Definition call_router (r : MeshRouter) (call : RouterCall) : MeshRouter :=
  match call with
  | CallSend packet reachable options now_q now_t ts => (send packet_encode r packet reachable options now_q now_t ts).2
  | CallOnline dest now => node_came_online packet_decode r dest now
  | CallAck id hops now => handle_ack r id hops now
  | CallNak id error => handle_nak r id error
  end.

(** The middle section of a received message, under the processor's lock: its result,
    the signals and what is left to do; [None] is a panic. *)
Definition processor_section (p : PacketProcessor) (v : option FromRadioVariant) (env : MessageEnv)
  : option (PacketProcessor * list GeoSignal * ReceivePhase) :=
  match v with
  | Some (FRPacket packet) =>
      '(p, _, signals) ← process_mesh_packet dec p packet (me_env env); Some (p, signals, RxRouting packet env)
  | Some (FRNodeInfo ni) => Some (mkProcessor (db_insert (node_db p) (node_info_to_mesh_node ni)) (topology p), [], RxPoll)
  | _ => Some (p, [], RxPoll)
  end.

Inductive system_step (s : System) : System -> Prop :=
(* The receive loop. A poll that times out gives the lock back. *)
| ss_poll fuel conn :
    sy_end s = None -> sy_receive s = RxPoll -> conn_recv fuel (sy_conn s) = (Transport.Running, conn) ->
    system_step s (set_conn conn s)
| ss_message fuel v env conn :
    sy_end s = None -> sy_receive s = RxPoll -> conn_recv fuel (sy_conn s) = (Returned (Ok v), conn) ->
    system_step s (set_receive (RxDispatch v env)
                     (set_collector (process_packet (sy_collector s) v (me_now env)) (set_conn conn s)))
| ss_dispatch v env p signals phase :
    sy_end s = None -> sy_receive s = RxDispatch v env ->
    processor_section (sy_processor s) v env = Some (p, signals, phase) ->
    system_step s (set_receive phase (set_processor p signals s))
| ss_dispatch_panics v env :
    sy_end s = None -> sy_receive s = RxDispatch v env -> processor_section (sy_processor s) v env = None ->
    system_step s (set_receive RxPanicked s)
| ss_routing packet env :
    sy_end s = None -> sy_receive s = RxRouting packet env ->
    system_step s (set_receive RxPoll
                     (set_router' (dispatch_routing routing_decode (mc_router (sy_collector s)) packet (me_instant env)) s))
| ss_error fuel e conn :
    sy_end s = None -> sy_receive s = RxPoll -> conn_recv fuel (sy_conn s) = (Returned (Err e), conn) ->
    system_step s (set_receive RxError (set_conn conn s))
| ss_still_connected :
    sy_end s = None -> sy_receive s = RxError -> conn_is_connected (sy_conn s) = true ->
    system_step s (set_receive RxPoll s)
| ss_lost now :
    sy_end s = None -> sy_receive s = RxError -> conn_is_connected (sy_conn s) = false ->
    system_step s (shut_down StoppedByLoss now s)
| ss_cancelled now :
    sy_end s = None -> sy_receive s = RxPoll -> system_step s (shut_down StoppedByCancel now s)
| ss_task_lost r now :
    sy_end s = None -> sy_receive s = RxPoll -> In r (sy_tasks s) -> supervise_task_result r = Shutdown ->
    system_step s (shut_down StoppedByTask now s)
(* A background task is polled for the first time. *)
| ss_starts t :
    sy_end s = None -> In t (sy_spawned s) -> system_step s (start_task t s)
(* Heartbeats: an error ends the task. *)
| ss_heartbeat conn :
    sy_end s = None -> In (HeartbeatTask 0) (sy_running s) -> conn_send None (sy_conn s) = (Ok tt, conn) ->
    system_step s (set_conn conn s)
| ss_heartbeat_fails e conn :
    sy_end s = None -> In (HeartbeatTask 0) (sy_running s) -> conn_send None (sy_conn s) = (Err e, conn) ->
    system_step s (task_ended (HeartbeatTask 0) TaskErr (set_conn conn s))
| ss_other_heartbeat i c conn :
    sy_end s = None -> In (HeartbeatTask (S i)) (sy_running s) -> sy_others s !! i = Some c -> conn_send None c = (Ok tt, conn) ->
    system_step s (set_others (<[i := conn]> (sy_others s)) s)
| ss_other_heartbeat_fails i c e conn :
    sy_end s = None -> In (HeartbeatTask (S i)) (sy_running s) -> sy_others s !! i = Some c -> conn_send None c = (Err e, conn) ->
    system_step s (task_ended (HeartbeatTask (S i)) TaskErr (set_others (<[i := conn]> (sy_others s)) s))
(* Gateway health, and the clients of the bridge. *)
| ss_monitor event m :
    sy_end s = None -> monitor_may event s -> monitor_loop [event] (sy_monitor s) = (Transport.Running, m) ->
    system_step s (set_monitor m s)
| ss_monitor_panics event m :
    sy_end s = None -> monitor_may event s -> monitor_loop [event] (sy_monitor s) = (Panicked, m) ->
    system_step s (task_ended HealthTask TaskPanic (set_monitor m s))
(* Discovery: a round of traceroutes, sent one by one, and stale detection. *)
| ss_round :
    sy_end s = None -> In (DiscoveryTask 0) (sy_running s) -> sy_traceroutes s = [] ->
    system_step s (set_traceroutes (traceroute_targets (node_db (sy_processor s))) s)
| ss_traceroute node more :
    sy_end s = None -> In (DiscoveryTask 0) (sy_running s) -> sy_traceroutes s = node :: more ->
    system_step s (set_traceroutes more (set_conn (conn_send (Some (build_traceroute_request node)) (sy_conn s)).2 s))
| ss_stale env p signals :
    sy_end s = None -> In (DiscoveryTask 0) (sy_running s) -> sy_traceroutes s = [] ->
    run_stale_detection checked_sub (sy_processor s) stale_timeout env = Some (p, signals) ->
    system_step s (set_processor p signals s)
| ss_stale_panics env :
    sy_end s = None -> In (DiscoveryTask 0) (sy_running s) -> sy_traceroutes s = [] ->
    run_stale_detection checked_sub (sy_processor s) stale_timeout env = None ->
    system_step s (task_ended (DiscoveryTask 0) TaskPanic s)
(* The router flush, and the clients of the router. *)
| ss_flush clock ts msgs r :
    sy_end s = None -> In (FlushTask 0) (sy_running s) -> sy_flush s = FlushIdle ->
    flush_collect (mc_router (sy_collector s)) clock ts = (msgs, r) ->
    system_step s (set_flush (FlushSending msgs) (set_router' r s))
| ss_flush_send msg msgs :
    sy_end s = None -> In (FlushTask 0) (sy_running s) -> sy_flush s = FlushSending (msg :: msgs) ->
    system_step s (set_flush (FlushTracking msg msgs) (set_conn (conn_send (Some (TRPacket (pm_packet msg))) (sy_conn s)).2 s))
| ss_flush_track msg msgs now :
    sy_end s = None -> In (FlushTask 0) (sy_running s) -> sy_flush s = FlushTracking msg msgs ->
    system_step s (set_flush (FlushSending msgs) (set_router' (track_sent (mc_router (sy_collector s)) msg now) s))
| ss_flush_done :
    sy_end s = None -> In (FlushTask 0) (sy_running s) -> sy_flush s = FlushSending [] -> system_step s (set_flush FlushIdle s)
| ss_call call :
    sy_end s = None -> system_step s (set_router' (call_router (mc_router (sy_collector s)) call) s).

(** The collector after its handshake, its connections numbered from the primary. *)
Definition system_start (c : MeshCollector) (conn : C) (others : list C) : System :=
  mkSystem c (make_processor c)
    (mkMonitor (mc_bridge c) false (health_check_interval (config_watch (mc_bridge c))) 0 [])
    conn others RxPoll [] FlushIdle [] (spawn_background_tasks (seq 0 (S (length others)))) [] [] None.

(** * Lemmas *)

(** Without interruption the three sections of a received message are
    [receive_message]. *)
Lemma sections_compose c p v env c' p' signals :
  receive_message dec routing_decode c p v env = Some (c', p', signals) <->
  exists phase, processor_section p v env = Some (p', signals, phase) /\
    c' = match phase with
         | RxRouting packet env =>
             set_router (process_packet c v (me_now env))
               (dispatch_routing routing_decode (mc_router (process_packet c v (me_now env))) packet (me_instant env))
         | _ => process_packet c v (me_now env)
         end.
Proof.
  unfold receive_message, dispatch_to_processor, processor_section.
  destruct v as [[packet| |ni| | |]|]; try (split; [intros [= <- <- <-]; by eexists|by intros (? & [= <- <- <-] & ->)]).
  destruct (process_mesh_packet dec p packet (me_env env)) as [[[p1 ev] sg]|]; cbn [mbind option_bind]; [|naive_solver].
  split; [intros [= <- <- <-]; by eexists|by intros (? & [= <- <- <-] & ->)].
Qed.

(** ** The invariant *)

Context (retries : Z) (capacity : nat) (Hretries : is_uint 8 retries).

Definition flush_ok (phase : FlushPhase) : Prop :=
  match phase with
  | FlushIdle => True
  | FlushSending msgs => Forall (held_ok retries) msgs
  | FlushTracking msg msgs => held_ok retries msg /\ Forall (held_ok retries) msgs
  end.

Record system_wf s : Prop := {
  so_nodes : db_ok (mc_node_db (sy_collector s));
  so_processor : processor_wf (sy_processor s);
  so_router : router_ok retries capacity (mc_router (sy_collector s));
  so_monitor : monitor_wf (sy_monitor s);
  so_bridge : mc_bridge (sy_collector s) = mon_bridge (sy_monitor s);
  so_flush : flush_ok (sy_flush s);
  so_receive : sy_receive s <> RxPanicked;
  so_end : sy_end s = Some StoppedByTask -> exists r, In r (sy_tasks s) /\ supervise_task_result r = Shutdown }.

(** What must be configured for a task to panic. *)
Definition misconfigured s : Prop :=
  interval_secs heartbeat = 0 \/ traceroute_interval_secs topology_config = 0 \/
  stale_node_timeout_secs topology_config = 0 \/ DURATION_MAX < stale_timeout * 3 \/
  router_flush_interval_secs flush_config = 0 \/
  health_check_interval_secs (bridge_config (mc_bridge (sy_collector s))) = 0.

(** A node record with a position off the planet is about to be stored. *)
Definition off_planet s : Prop := exists v env, sy_receive s = RxDispatch v env /\ ~ message_ok v.

Lemma processor_section_total p v env : processor_wf p ->
  exists p' signals phase, processor_section p v env = Some (p', signals, phase) /\ processor_wf p' /\
    (positions_ok p -> message_ok v -> positions_ok p') /\
    match phase with RxDispatch _ _ | RxError | RxPanicked => False | _ => True end.
Proof.
  intros Hp. destruct v as [[packet| |ni| | |]|]; cbn [processor_section]; try (by eexists _, _, _).
  - destruct (process_mesh_packet_keeps dec p packet (me_env env) Hp) as (p' & ev & sg & -> & Hp' & Hq).
    eexists _, _, _. split; [done|]. by split; [|split; [auto|]].
  - destruct (insert_record_spec p (ni_num ni) (node_info_to_mesh_node ni) Hp eq_refl) as (Hp' & Hq & _).
    eexists _, _, _. split; [done|]. by split.
Qed.

Lemma router_replaced s r : system_wf s -> router_ok retries capacity r -> system_wf (set_router' r s).
Proof. intros [? ? ? ? ? ? ? ?] Hr. by constructor. Qed.

Lemma call_router_ok r call : router_ok retries capacity r -> router_ok retries capacity (call_router r call).
Proof.
  destruct call; cbn [call_router]; [by apply send_ok|by apply node_came_online_ok|by apply handle_ack_ok|by apply handle_nak_ok].
Qed.

Lemma shut_down_wf e now s :
  system_wf s -> (e = StoppedByTask -> exists r, In r (sy_tasks s) /\ supervise_task_result r = Shutdown) ->
  system_wf (shut_down e now s).
Proof.
  intros [? ? ? ? ? ? ? ?] He. constructor; try done; [by apply process_timeouts_ok|]. cbn. intros [= ->]. by apply He.
Qed.

Lemma monitor_set_wf s m : system_wf s -> monitor_wf m -> system_wf (set_monitor m s).
Proof. intros [? ? ? ? ? ? ? ?] Hm. by constructor. Qed.

Lemma task_ended_wf s t r : system_wf s -> sy_end s = None -> system_wf (task_ended t r s).
Proof. intros [? ? ? ? ? ? ? ?] He. constructor; try done. cbn. by rewrite He. Qed.

Lemma start_task_wf s t : system_wf s -> sy_end s = None -> system_wf (start_task t s).
Proof.
  intros Hok He. unfold start_task. destruct (zero_timer _ _); [by apply task_ended_wf|]. cbv zeta.
  set (s1 := set_tasks _ _ _ _).
  assert (system_wf s1) as Hs1 by (destruct Hok; constructor; try done; cbn; by rewrite He).
  destruct t; try done. apply monitor_set_wf; [done|]. destruct (so_monitor _ Hok) as [Hb Hs _ Ht].
  rewrite <- (so_bridge _ Hok) in Hb, Hs. constructor; cbn; auto. intros _. by rewrite Hs.
Qed.

(** The monitor's events: a client's call, a poll, or one gateway of a tick. *)
Lemma monitor_event_wf m event :
  monitor_wf m ->
  let '(r, m') := monitor_loop [event] m in
  monitor_wf m' /\ (r = Panicked -> configured_secs m = 0).
Proof.
  intros Hm. destruct event as [op|cancelled due|now]; cbn [monitor_loop].
  - split; [by apply monitor_other_wf|done].
  - pose proof (monitor_select_wf cancelled due m Hm) as Hs.
    destruct (monitor_select cancelled due m) as [[[]| |] m']; destruct Hs as (Hw & _ & Hz & _); (split; [done|]); try done.
    intros E. by destruct (Hz E).
  - split; [by apply monitor_ensure_wf|done].
Qed.

(** A step keeps the invariant. *)
Lemma system_step_wf s s' : system_step s s' -> system_wf s -> system_wf s'.
Proof.
  intros Hstep Hok. pose proof Hok as [Hn Hp Hr Hm Hb Hf Hv He].
  destruct Hstep as [fuel conn| |v env p signals phase ? ? Hs|v env ? ? Hs| | | | | |r now ? ? Hin| | | | | |event m ? ? Hl
    |event m ? ? Hl| | |env p signals ? ? ? Hs| |clock ts msgs r ? ? ? Hc|msg msgs ? ? Hx|msg msgs now ? ? Hx| |];
    try by constructor.
  - destruct (process_packet_ok (sy_collector s) v (me_now env) Hn) as (Hn' & Eb & Er).
    constructor; cbn; [done|done|by rewrite Er|done|by rewrite Eb|done..].
  - destruct (processor_section_total (sy_processor s) v env Hp) as (p2 & sg2 & ph2 & E & Hp' & _ & Hph).
    assert (phase = ph2 /\ p = p2) as [-> ->] by (split; congruence). constructor; try done. cbn. by intros ->.
  - destruct (processor_section_total (sy_processor s) v env Hp) as (p2 & sg2 & ph2 & E & _). congruence.
  - apply (router_replaced (set_receive RxPoll s)); [by constructor|]. by apply dispatch_routing_ok.
  - by apply shut_down_wf.
  - by apply shut_down_wf.
  - apply shut_down_wf; [done|]. eauto.
  - by apply start_task_wf.
  - apply task_ended_wf; [by constructor|done].
  - apply task_ended_wf; [by constructor|done].
  - pose proof (monitor_event_wf (sy_monitor s) event Hm) as Hw. rewrite Hl in Hw. destruct Hw. by apply monitor_set_wf.
  - pose proof (monitor_event_wf (sy_monitor s) event Hm) as Hw. rewrite Hl in Hw.
    destruct Hw. apply task_ended_wf; [by apply monitor_set_wf|done].
  - destruct (run_stale_keeps checked_sub _ _ _ _ _ (pw_topology _ Hp) Hs) as (t & Ht & ->).
    constructor; try done. cbn. by apply processor_wf_topology.
  - by apply task_ended_wf.
  - apply (flush_collect_ok retries capacity Hretries _ _ _ _ _ Hr) in Hc as [Hr' Hms].
    apply (router_replaced (set_flush (FlushSending msgs) s)); [by constructor|done].
  - rewrite Hx in Hf. apply Forall_cons in Hf. by constructor.
  - rewrite Hx in Hf. destruct Hf as [Hmsg Hms].
    apply (router_replaced (set_flush (FlushSending msgs) s)); [by constructor|]. by apply track_sent_ok.
  - apply router_replaced; [done|]. by apply call_router_ok.
Qed.

(** A task panics only in a misconfigured state. *)
Lemma system_step_panics s s' :
  system_step s s' -> system_wf s -> ~ In TaskPanic (sy_tasks s) -> ~ In TaskPanic (sy_tasks s') \/ misconfigured s.
Proof.
  intros Hstep Hok Hno.
  assert (forall t r s1, sy_tasks s1 = sy_tasks s -> r <> TaskPanic -> ~ In TaskPanic (sy_tasks (task_ended t r s1))) as Hend.
  { intros t r s1 E Hr. cbn. rewrite E. by intros [?|[?|[]]]%in_app_or. }
  destruct Hstep as [| | | | | | | | | |t| | | | | |event m ? ? Hl| | | |env ? ? ? Hs| | | | |]; try (by left);
    try (left; by apply Hend).
  - unfold start_task. destruct (zero_timer t _) eqn:Ez; [right|left; by destruct t].
    unfold misconfigured, zero_timer, heartbeat_interval, stale_timeout, duration_from_secs, NANOS_PER_SEC in *.
    destruct t; [left|do 5 right|right; apply orb_prop in Ez as [Ez|Ez]; [left|right; left]|do 4 right; left];
      apply Z.eqb_eq in Ez; try (Z.to_euclidean_division_equations; lia).
    rewrite (so_bridge _ Hok), (mo_same _ (so_monitor _ Hok)), <- (so_bridge _ Hok). by apply interval_zero.
  - right. do 5 right. pose proof (monitor_event_wf (sy_monitor s) event (so_monitor _ Hok)) as Hw. rewrite Hl in Hw.
    rewrite (so_bridge _ Hok). by apply Hw.
  - right. do 3 right. left. destruct (Z.le_gt_cases (stale_timeout * 3) DURATION_MAX) as [Hle|?]; [|lia].
    destruct (run_stale_detection_eq checked_sub (sy_processor s) stale_timeout env (pw_topology _ (so_processor _ Hok)) Hle)
      as (part & E & _). congruence.
Qed.

(** Only a node record puts a position off the planet. *)
Lemma system_step_positions s s' :
  system_step s s' -> system_wf s -> positions_ok (sy_processor s) -> positions_ok (sy_processor s') \/ off_planet s.
Proof.
  intros Hstep Hok Hpos. pose proof (so_processor _ Hok) as Hp.
  destruct Hstep as [| |v env p signals phase ? Hr Hs| | | | | | | |t| | | | | | | | |env p signals ? ? ? Hs| | | | | |]; try (by left).
  - destruct (processor_section_total (sy_processor s) v env Hp) as (p2 & sg2 & ph2 & E & _ & Hq & _).
    assert (p = p2) as -> by congruence.
    destruct (message_ok_dec v) as [Hv|Hv]; [left; cbn; auto|right; by exists v, env].
  - left. unfold start_task. destruct (zero_timer t _); [done|]. by destruct t.
  - destruct (run_stale_keeps checked_sub _ _ _ _ _ (pw_topology _ Hp) Hs) as (t & _ & ->). by left.
Qed.

Lemma system_start_wf c conn others :
  db_ok (mc_node_db c) -> router_ok retries capacity (mc_router c) -> bridge_ok (mc_bridge c) ->
  bridge_config (mc_bridge c) = config_watch (mc_bridge c) -> system_wf (system_start c conn others).
Proof.
  intros Hdb Hr Hb Hs. constructor; cbn; try done.
  - constructor; [done|apply topo_new_ok].
  - constructor; cbn; rewrite <- ?Hs; auto.
Qed.

(** A message in hand is finished in at most two steps, and then nothing keeps the
    loop from seeing its cancellation; an error in hand may end it first. *)
Lemma system_stops s : system_wf s -> sy_end s = None ->
  exists s' e, rtc system_step s s' /\ sy_end s' = Some e /\ (e = StoppedByCancel \/ e = StoppedByLoss).
Proof.
  intros Hok He.
  assert (forall s1, sy_end s1 = None -> sy_receive s1 = RxPoll ->
    exists s' e, rtc system_step s1 s' /\ sy_end s' = Some e /\ (e = StoppedByCancel \/ e = StoppedByLoss)) as Hpoll.
  { intros s1 He1 Hr1. exists (shut_down StoppedByCancel 0 s1), StoppedByCancel. split; [|by auto]. by apply rtc_once, ss_cancelled. }
  assert (forall s1 packet env, sy_end s1 = None -> sy_receive s1 = RxRouting packet env ->
    exists s' e, rtc system_step s1 s' /\ sy_end s' = Some e /\ (e = StoppedByCancel \/ e = StoppedByLoss)) as Hrouting.
  { intros s1 packet env He1 Hr1. edestruct Hpoll as (s' & e & Hs' & ?); [| |exists s', e; split; [|done]; eapply rtc_l; [by eapply ss_routing|exact Hs']]; done. }
  pose proof (so_receive _ Hok) as Hnp.
  destruct (sy_receive s) as [|v env|packet env| |] eqn:Hr; [by apply Hpoll| |by eapply Hrouting| |done].
  - destruct (processor_section_total _ v env (so_processor _ Hok)) as (p' & signals & phase & E & _ & _ & Hph).
    pose proof (ss_dispatch s v env p' signals phase He Hr E) as Hstep. destruct phase as [|? ?|packet env'| |]; [|done| |done|done].
    + edestruct Hpoll as (s' & e & Hs' & ?); [| |exists s', e; split; [|done]; by eapply rtc_l]; done.
    + edestruct Hrouting as (s' & e & Hs' & ?); [| |exists s', e; split; [|done]; by eapply rtc_l]; done.
  - destruct (conn_is_connected (sy_conn s)) eqn:Ec.
    + pose proof (ss_still_connected s He Hr Ec) as Hstep.
      edestruct Hpoll as (s' & e & Hs' & ?); [| |exists s', e; split; [|done]; by eapply rtc_l]; done.
    + exists (shut_down StoppedByLoss 0 s), StoppedByLoss. split; [|by auto]. by apply rtc_once, ss_lost.
Qed.
End Steps.
End System.

(** * Properties *)

(** C25. The collector as a whole is safe: started on any well-formed node table, with
    any configuration (its retry limit being a u8), in every state the interleaving of its receive loop, its
    background tasks and the clients of its bridge and router can reach, whatever is
    received: both node tables, the topology, the bridge, the bounded outbound queue,
    the delivery statistics and the stored messages are well formed; the health monitor
    has ticked with the configured interval; the receive loop has not panicked; a
    background task has panicked only if at some state of the run a timer was
    configured without a period (heartbeat, traceroute, stale timeout, router flush or
    the health interval of the bridge) or with a stale timeout whose triple is no
    duration; a stored position is off the planet only if one was at the start or a
    node record with one was received; the collector has shut down for a lost task only
    if one failed or panicked; and while it runs it can be stopped from where it is. *)
Theorem collector_system_safe `{StableGraph} `{HashOrder} {C} `{MeshConnection C} dec routing_decode encode decode checked_sub
    heartbeat topology_config flush_config (config : CollectorConfig) (db : NodeDb) (conn : C) (others : list C) (s : System (C := C)) :
  let start := system_start (set_node_db (MeshCollector_new config) db) conn others in
  let reaches := rtc (system_step dec routing_decode encode decode checked_sub heartbeat topology_config flush_config) in
  is_uint 8 (oc_max_retries (cc_outbound config)) -> db_ok db -> reaches start s ->
  (db_ok (mc_node_db (sy_collector s)) /\ processor_wf (sy_processor s) /\ bridge_ok (mc_bridge (sy_collector s))) /\
  (queue_ok (outbound (mc_router (sy_collector s))) /\
   max_pending (outbound (mc_router (sy_collector s))) = oc_max_pending (cc_outbound config) /\
   tracker_ok (delivery (mc_router (sy_collector s))) /\
   (size (queues (store_forward (mc_router (sy_collector s)))) <= MAX_DESTINATIONS)%nat /\
   queues_bounded (store_forward (mc_router (sy_collector s)))) /\
  Forall (fun tick => tick.1 = tick.2) (mon_ticks (sy_monitor s)) /\
  sy_receive s <> RxPanicked /\
  (In TaskPanic (sy_tasks s) ->
   exists s0, reaches start s0 /\ reaches s0 s /\ misconfigured heartbeat topology_config flush_config s0) /\
  (positions_ok (sy_processor start) ->
   positions_ok (sy_processor s) \/ exists s0, reaches start s0 /\ reaches s0 s /\ off_planet s0) /\
  (sy_end s = Some StoppedByTask -> exists r, In r (sy_tasks s) /\ supervise_task_result r = Shutdown) /\
  (sy_end s = None -> exists s' e, reaches s s' /\ sy_end s' = Some e /\ (e = StoppedByCancel \/ e = StoppedByLoss)).
Proof.
  intros start reaches Hret Hdb Hrun. set (wf := system_wf (C := C) (oc_max_retries (cc_outbound config)) (oc_max_pending (cc_outbound config))).
  assert (wf start) as Hstart.
  { apply system_start_wf; try done; [by apply fresh_router_ok|]. constructor; [constructor|done]. }
  assert (forall x y, system_step dec routing_decode encode decode checked_sub heartbeat topology_config flush_config x y -> wf x -> wf y)
    as Hinv by (intros x y Hxy; by eapply system_step_wf).
  destruct (rtc_unless _ wf _ (misconfigured heartbeat topology_config flush_config) Hinv
    ltac:(intros x y Hxy Hx; by eapply system_step_panics) _ _ Hrun Hstart ltac:(by intros [])) as [Hok Hpanic].
  split; [split; [apply Hok|split; [apply Hok|]]|].
  { rewrite (so_bridge _ _ _ Hok). apply Hok. }
  destruct (so_router _ _ _ Hok) as [? ? ? ? ? ?]. split; [done|]. split; [apply Hok|]. split; [apply Hok|].
  split; [intros Hp; by destruct Hpanic as [?|?]|]. split; [|split; [apply Hok|]].
  - intros Hpos. by apply (rtc_unless _ wf _ off_planet Hinv ltac:(intros x y Hxy Hx; by eapply system_step_positions) _ _ Hrun Hstart Hpos).
  - intros He. by eapply system_stops.
Qed.

(** * A run: a packet arrives between the other tasks' steps *)

Module SystemSample.
Import DiscoverySample.
#[local] Existing Instances MapGraph.map_graph canonical_order.

(** A radio with messages waiting. *)
Record Inbox : Type := mkInbox { inbox : list (option FromRadioVariant); outbox : list (option ToRadioVariant) }.
#[local] Instance inbox_connection : MeshConnection Inbox := {
  conn_send p c := (Ok tt, mkInbox (inbox c) (outbox c ++ [p]));
  conn_recv _ c := match inbox c with m :: rest => (Returned (Ok m), mkInbox rest (outbox c)) | [] => (Transport.Running, c) end;
  conn_is_connected _ := true; conn_reconnect _ c := (Returned (Ok tt), c) }.

Definition demo_config : CollectorConfig := mkCollectorConfig 1 OutboundConfig_default BridgeConfig_default StoreForwardConfig_default.
Definition packet : MeshPacket := demo_packet 7 9 NEIGHBORINFO_APP.
Definition radio : Inbox := mkInbox [Some (FRPacket packet)] [].
Definition msg_env : MessageEnv := mkMessageEnv 1000 demo_env 5.
(** Stale after twelve seconds; [flush] is the interval of the router flush. *)
Definition demo_topology : TopologyConfig := mkTopologyConfig 3600 12 true [] f32_zero.
Definition step_with (flush : Z) := system_step (C := Inbox) demo_decoders (fun _ => None) (fun _ => []) (fun _ => None) sub
  HeartbeatConfig_default demo_topology (mkFlushConfig flush).
Definition start_with (flush : Z) := start_task (C := Inbox) HeartbeatConfig_default demo_topology (mkFlushConfig flush).
Definition start : System (C := Inbox) := system_start (set_node_db (MeshCollector_new demo_config) NodeDb_new) radio [].

(** The states of the run, each from the one before. *)
Definition spawned : System (C := Inbox) :=
  start_with 1 (FlushTask 0) (start_with 1 (DiscoveryTask 0) (start_with 1 HealthTask (start_with 1 (HeartbeatTask 0) start))).
Definition received : System (C := Inbox) :=
  set_receive (RxDispatch (Some (FRPacket packet)) msg_env)
    (set_collector (process_packet (sy_collector spawned) (Some (FRPacket packet)) 1000) (set_conn (mkInbox [] []) spawned)).
Definition beating : System (C := Inbox) := set_conn (mkInbox [] [None]) received.
Definition dispatched : System (C := Inbox) :=
  match processor_section demo_decoders (sy_processor beating) (Some (FRPacket packet)) msg_env with
  | Some (p, signals, phase) => set_receive phase (set_processor p signals beating)
  | None => beating
  end.
Definition monitored : System (C := Inbox) :=
  set_monitor (monitor_loop [MSelect false true] (sy_monitor dispatched)).2 dispatched.
Definition in_round : System (C := Inbox) := set_traceroutes (traceroute_targets (node_db (sy_processor monitored))) monitored.
Definition routed : System (C := Inbox) :=
  set_receive RxPoll
    (set_router' (dispatch_routing (fun _ => None) (mc_router (sy_collector in_round)) packet (me_instant msg_env)) in_round).

Lemma demo_start : rtc (step_with 1) start spawned.
Proof.
  eapply rtc_l; [apply (ss_starts _ _ _ _ _ _ _ _ _ (HeartbeatTask 0)); [reflexivity|vm_compute; tauto]|].
  eapply rtc_l; [apply (ss_starts _ _ _ _ _ _ _ _ _ HealthTask); [reflexivity|vm_compute; tauto]|].
  eapply rtc_l; [apply (ss_starts _ _ _ _ _ _ _ _ _ (DiscoveryTask 0)); [reflexivity|vm_compute; tauto]|].
  apply rtc_once, (ss_starts _ _ _ _ _ _ _ _ _ (FlushTask 0)); [reflexivity|vm_compute; tauto].
Qed.

Lemma demo_run : rtc (step_with 1) start routed.
Proof.
  etransitivity; [exact demo_start|].
  assert (forall t, In t [HeartbeatTask 0; HealthTask; DiscoveryTask 0; FlushTask 0] -> In t (sy_running spawned)) as Hrun
    by (intros t; vm_compute; tauto).
  apply (rtc_l _ _ received); [by apply (ss_message _ _ _ _ _ _ _ _ _ 0%nat)|].
  apply (rtc_l _ _ beating); [apply ss_heartbeat; [done|by apply Hrun; left|done]|].
  apply (rtc_l _ _ dispatched).
  { destruct (processor_section demo_decoders (sy_processor beating) (Some (FRPacket packet)) msg_env) as [[[p sg] ph]|] eqn:E.
    2: { absurd (match processor_section demo_decoders (sy_processor beating) (Some (FRPacket packet)) msg_env with
                 | Some _ => true | None => false end = false); [by vm_compute|by rewrite E]. }
    unfold dispatched. rewrite E. by apply (ss_dispatch _ _ _ _ _ _ _ _ beating (Some (FRPacket packet)) msg_env p sg ph). }
  apply (rtc_l _ _ monitored).
  { apply (ss_monitor _ _ _ _ _ _ _ _ _ (MSelect false true)); [by vm_compute|vm_compute; tauto|].
    apply injective_projections; [by vm_compute|reflexivity]. }
  apply (rtc_l _ _ in_round); [apply ss_round; [by vm_compute|vm_compute; tauto|by vm_compute]|].
  apply (rtc_l _ _ routed); [|apply rtc_refl].
  apply (ss_routing _ _ _ _ _ _ _ _ in_round packet msg_env); by vm_compute.
Qed.

(** The flush task of a configuration without a flush interval, at its first poll. *)
Definition unflushed : System (C := Inbox) := start_with 0 (FlushTask 0) start.

Lemma collector_system_safe_witness :
  (processor_wf (sy_processor routed) /\ sy_receive routed <> RxPanicked /\
   (exists s' e, rtc (step_with 1) routed s' /\ sy_end s' = Some e /\ (e = StoppedByCancel \/ e = StoppedByLoss)) /\
   sy_traceroutes routed = [7] /\ length (mon_ticks (sy_monitor routed)) = 1%nat /\ sy_tasks routed = []) /\
  sy_tasks unflushed = [TaskPanic] /\
  exists s0, rtc (step_with 0) start s0 /\ rtc (step_with 0) s0 unflushed /\
    misconfigured HeartbeatConfig_default demo_topology (mkFlushConfig 0) s0.
Proof.
  assert (is_uint 8 (oc_max_retries (cc_outbound demo_config))) as Hret by (vm_compute; split; [discriminate|reflexivity]).
  assert (db_ok NodeDb_new) as Hdb by (split; [vm_compute; lia|apply map_Forall_empty]).
  split; [|split; [by vm_compute|]].
  - destruct (collector_system_safe demo_decoders (fun _ => None) (fun _ => []) (fun _ => None) sub HeartbeatConfig_default
      demo_topology (mkFlushConfig 1) demo_config NodeDb_new radio [] routed Hret Hdb demo_run)
      as ((_ & Hok & _) & _ & _ & Hp & _ & _ & _ & Hstop).
    split; [exact Hok|]. split; [exact Hp|]. split; [apply Hstop; by vm_compute|]. split; [by vm_compute|]. split; by vm_compute.
  - destruct (collector_system_safe demo_decoders (fun _ => None) (fun _ => []) (fun _ => None) sub HeartbeatConfig_default
      demo_topology (mkFlushConfig 0) demo_config NodeDb_new radio [] unflushed Hret Hdb)
      as (_ & _ & _ & _ & Hpanic & _).
    + apply rtc_once, ss_starts; [reflexivity|by vm_compute; auto].
    + apply Hpanic. vm_compute. left. reflexivity.
Defined.
End SystemSample.
