(* ===== verification/Transmit.v ===== *)
(** * How often a packet is transmitted (crates/kerykeion: router.rs, outbound.rs, collector.rs)

    The flush task, the receive loop and the clients of the router interleave under
    its lock. For every packet id an account is kept of the transmissions the copies
    of the packet can still cause, wherever they are: pending, in flight, in the
    hands of the flush task, or stored for a node that is away. *)

From S2P Require Import Prelude MeshTypes Proto Outbound Delivery StoreForward Router NodeDb Topology Signal MeshSignal Handshake PacketProc Bridge RoutingProc Collector RouterInv System.

Local Open Scope Z_scope.

(** * The account *)

Section Account.
Context `{HashOrder} (routing_decode : bytes -> option Routing).
Context (packet_encode : MeshPacket -> bytes) (packet_decode : bytes -> option MeshPacket).
Context (retries : Z) (capacity : nat) (Hretries : is_uint 8 retries) (id : PacketId).

Definition carries (packet : MeshPacket) (due : Z) : Z := if mp_id packet =? id then due else 0.
Definition pending_due (m : PendingMessage) : Z := carries (pm_packet m) (retries + 1 - pm_retries m).
Definition inflight_due (m : InflightMessage) : Z := carries (im_packet m) (retries - im_retries m).
Definition stored_due (m : StoredMessage) : Z :=
  match packet_decode (sm_packet_bytes m) with
  | Some packet => carries packet (retries + 1)
  | None => 0
  end.

Definition queue_due (q : OutboundQueue) : Z := zsum pending_due (pending q) + map_sum inflight_due (inflight q).
Definition store_due (s : StoreForward) : Z := map_sum (zsum stored_due) (queues s).
Definition router_due (r : MeshRouter) : Z := queue_due (outbound r) + store_due (store_forward r).
Definition flush_due (phase : FlushPhase) : Z :=
  match phase with
  | FlushIdle => 0
  | FlushSending msgs => zsum pending_due msgs
  | FlushTracking msg msgs => pending_due msg - carries (pm_packet msg) 1 + zsum pending_due msgs
  end.
Definition transmissions (air : list MeshPacket) : Z := zsum (fun packet => carries packet 1) air.
(** What was transmitted and can still be. *)
Definition account (s : Shared) : Z := transmissions (sh_air s) + flush_due (sh_flush s) + router_due (sh_router s).

Abbreviation ok := (router_ok retries capacity) (only parsing).

Lemma pending_due_pos m : held_ok retries m -> 0 <= pending_due m.
Proof. unfold held_ok, pending_due, carries. destruct (_ =? _); lia. Qed.

Lemma pending_pos r : ok r -> Forall (fun m => 0 <= pending_due m) (pending (outbound r)).
Proof.
  intros [[_ _ Hp _] Hm _ _ _ _]. rewrite Hm in Hp. eapply Forall_impl; [exact Hp|]. apply pending_due_pos.
Qed.

Lemma inflight_pos r : ok r -> map_Forall (fun _ m => 0 <= inflight_due m) (inflight (outbound r)).
Proof.
  intros [[_ _ _ Hi] Hm _ _ _ _] k m Hk. destruct (Hi k m Hk) as (_ & ? & ?). unfold inflight_due, carries.
  destruct (_ =? _); lia.
Qed.

Lemma stored_due_pos m : 0 <= stored_due m.
Proof. unfold stored_due, carries, is_uint in *. destruct (packet_decode _); [destruct (_ =? _)|]; lia. Qed.

Lemma stored_pos l : 0 <= zsum stored_due l.
Proof. apply zsum_nonneg, Forall_forall. intros m _. apply stored_due_pos. Qed.

(** ** The queue *)

Lemma enqueue_due q msg :
  queue_due (enqueue q msg).1 = queue_due q + if is_ok (enqueue q msg).2 then pending_due msg else 0.
Proof.
  destruct (decide (length (pending q) < max_pending q)%nat) as [Hlt|Hge].
  - destruct (enqueue_perm q msg Hlt) as (p & -> & Hp). unfold queue_due. cbn [fst snd is_ok pending inflight set_pending].
    rewrite (zsum_perm _ _ _ Hp), zsum_cons. lia.
  - rewrite enqueue_full by lia. cbn. lia.
Qed.

Lemma enqueue_due_le q msg : 0 <= pending_due msg -> queue_due (enqueue q msg).1 <= queue_due q + pending_due msg.
Proof. rewrite enqueue_due. destruct (is_ok _); lia. Qed.

Lemma delete_due r k : ok r ->
  queue_due (set_inflight (outbound r) (delete k (inflight (outbound r)))) <= queue_due (outbound r).
Proof.
  intros Hr. unfold queue_due. cbn [pending inflight set_inflight].
  apply Z.add_le_mono_l, map_sum_subseteq; [by apply inflight_pos|apply delete_subseteq].
Qed.

Lemma retry_due r k : ok r -> queue_due (retry (outbound r) k).2 <= queue_due (outbound r).
Proof.
  intros Hr. destruct (inflight (outbound r) !! k) as [m|] eqn:Hk; [|unfold retry; by rewrite Hk].
  pose proof Hr as [[Hq1 Hq2 Hq3 Hi] Hm _ _ _ _]. destruct (Hi k m Hk) as (_ & Hb & Hmax).
  destruct (decide (im_retries m < im_max_retries m)) as [Hlt|Hge].
  2:{ unfold retry. rewrite Hk, (proj2 (Z.leb_le _ _)) by lia. by apply delete_due. }
  destruct (retry_found (outbound r) k m) as (prio & _ & ->); [by constructor|by rewrite Hm|done|done|]. cbn [snd].
  set (pm := mkPending _ _ _ _ _).
  assert (pending_due pm = inflight_due m) as E 
    by (unfold pm, pending_due, inflight_due, carries; cbn [pm_packet pm_retries]; destruct (_ =? _); lia).
  pose proof (inflight_pos r Hr k m Hk) as Hpos.
  etransitivity; [apply enqueue_due_le; rewrite E; exact Hpos|]. rewrite E. unfold queue_due. cbn [pending inflight set_inflight].
  pose proof (map_sum_lookup inflight_due _ k m Hk). lia.
Qed.

Lemma drain_expired_due r now : ok r -> queue_due (drain_expired (outbound r) now) <= queue_due (outbound r).
Proof.
  intros Hr. unfold drain_expired, queue_due. cbn [pending inflight set_inflight set_pending]. apply Z.add_le_mono.
  - apply zsum_sublist; [apply filter_sublist|by apply pending_pos].
  - apply map_sum_subseteq; [by apply inflight_pos|apply map_filter_subseteq].
Qed.

Lemma next_to_send_due r now m q : ok r -> next_to_send (outbound r) now = (m, q) ->
  queue_due q + match m with Some m => pending_due m | None => 0 end <= queue_due (outbound r).
Proof.
  intros Hr. unfold next_to_send. destruct (_ <=? _)%nat; [intros [= <- <-]; lia|].
  destruct (pop_unexpired _ _) as [m1 rest] eqn:Ep. intros [= <- <-]. apply pop_unexpired_spec in Ep as (dropped & _ & Hl).
  pose proof (pending_pos r Hr) as Hpos. unfold queue_due. cbn [pending inflight set_pending]. destruct m1 as [m|].
  - destruct Hl as [El _]. rewrite El in Hpos |- *. apply Forall_app in Hpos as [Hd _].
    rewrite zsum_app, zsum_cons. pose proof (zsum_nonneg pending_due _ Hd). lia.
  - destruct Hl as [El ->]. rewrite El in Hpos |- *. pose proof (zsum_nonneg pending_due _ Hpos). change (zsum pending_due []) with 0. lia.
Qed.

Lemma track_inflight_due r m timeout now : ok r ->
  queue_due (track_inflight (outbound r) m timeout now) <= queue_due (outbound r) + (pending_due m - carries (pm_packet m) 1).
Proof.
  intros Hr. unfold track_inflight, queue_due. cbn [pending inflight set_inflight]. rewrite map_sum_insert.
  set (m' := mkInflight _ _ _ _ _ _ _).
  assert (inflight_due m' = pending_due m - carries (pm_packet m) 1) as ->
    by (unfold m', inflight_due, pending_due, carries; cbn [im_packet im_retries]; destruct (_ =? _); lia).
  enough (map_sum inflight_due (delete (mp_id (pm_packet m)) (inflight (outbound r))) <= map_sum inflight_due (inflight (outbound r))) by lia.
  apply map_sum_subseteq; [by apply inflight_pos|apply delete_subseteq].
Qed.

(** ** Stored messages *)

Lemma store_due_perm s dest : store_due s = zsum stored_due (stored_for s dest) + map_sum (zsum stored_due) (delete dest (queues s)).
Proof.
  unfold store_due, stored_for. destruct (queues s !! dest) as [q|] eqn:E; cbn [default].
  - by rewrite (map_sum_lookup _ _ _ _ E).
  - by rewrite delete_id.
Qed.

Lemma store_due_le s dest msg : store_due (store s dest msg).1 <= store_due s + stored_due msg.
Proof.
  pose proof (stored_due_pos msg). unfold store. destruct (negb _ && _); [cbn [fst]; lia|]. cbv zeta.
  fold (stored_for s dest). rewrite (store_due_perm s dest).
  assert (forall q, store_due (mkSF (<[dest := q]> (queues s)) (config s)) =
    zsum stored_due q + map_sum (zsum stored_due) (delete dest (queues s))) as Hq
    by (intros q; unfold store_due; cbn [queues]; apply map_sum_insert).
  destruct (_ <=? _)%nat; [destruct (_ <? _)|]; cbn [fst]; rewrite Hq, ?zsum_app, ?zsum_cons; change (zsum stored_due []) with 0; [|lia..].
  destruct (position _ _) as [pos|]; [|lia].
  pose proof (zsum_sublist stored_due _ _ (remove_at_sublist pos (stored_for s dest))
    ltac:(apply Forall_forall; intros m _; apply stored_due_pos)). lia.
Qed.

Lemma prune_due_le s now_ms : store_due (prune_expired s now_ms) <= store_due s.
Proof.
  unfold store_due, prune_expired. cbn [queues]. apply map_sum_le; [intros k q _; apply stored_pos|].
  intros k q' [(q & <- & Hq)%lookup_fmap_Some _]%map_lookup_filter_Some. exists q. split; [done|].
  apply zsum_sublist; [apply filter_sublist|]. apply Forall_forall. intros m _. apply stored_due_pos.
Qed.

Lemma drain_for_due s dest : store_due (drain_for s dest).2 + zsum stored_due (drain_for s dest).1 = store_due s.
Proof.
  rewrite (store_due_perm s dest). unfold drain_for, store_due, stored_for. cbn [fst snd queues]. apply Z.add_comm.
Qed.

Lemma restore_due dest msgs : forall s,
  store_due (fold_left (fun s msg => (store s dest msg).1) msgs s) <= store_due s + zsum stored_due msgs.
Proof.
  induction msgs as [|m msgs IH]; intros s; cbn [fold_left]; [change (zsum stored_due []) with 0; lia|].
  rewrite zsum_cons. pose proof (IH (store s dest m).1). pose proof (store_due_le s dest m). lia.
Qed.

Lemma enqueue_stored_due stored now : forall o,
  queue_due (enqueue_stored packet_decode o stored now) <= queue_due o + zsum stored_due stored.
Proof.
  induction stored as [|m stored IH]; intros o; cbn [enqueue_stored]; [change (zsum stored_due []) with 0; lia|].
  rewrite zsum_cons. pose proof (stored_pos stored). pose proof (stored_due_pos m) as Hm.
  destruct (packet_decode (sm_packet_bytes m)) as [packet|] eqn:E; [|specialize (IH o); lia].
  set (pm := mkPending _ _ _ _ _).
  assert (pending_due pm = stored_due m) as Epm
    by (unfold pending_due, stored_due, pm; rewrite E; cbn [pm_packet pm_retries]; f_equal; lia).
  pose proof (enqueue_due_le o pm ltac:(rewrite Epm; exact Hm)) as He.
  destruct (enqueue o pm) as [o1 [[]|e]]; cbn [fst] in He; [|lia]. specialize (IH o1). lia.
Qed.

Lemma node_came_online_due r dest now : router_due (node_came_online packet_decode r dest now) <= router_due r.
Proof.
  unfold node_came_online. pose proof (drain_for_due (store_forward r) dest) as Hd.
  destruct (drain_for _ _) as [stored s]. cbn [fst snd] in Hd. cbv zeta. unfold router_due. cbn [outbound store_forward set_outbound set_store_forward].
  set (n := Nat.min _ _). rewrite <- (take_drop n stored), zsum_app in Hd.
  pose proof (enqueue_stored_due (take n stored) now (outbound r)). pose proof (restore_due dest (drop n stored) s). lia.
Qed.

(** ** The router *)

Lemma router_due_queue r o : queue_due o <= queue_due (outbound r) -> router_due (set_outbound r o) <= router_due r.
Proof. unfold router_due. cbn [outbound store_forward set_outbound]. lia. Qed.

Lemma set_delivery_due r d : router_due (set_delivery r d) = router_due r.
Proof. done. Qed.

Lemma retry_router_due r k : ok r -> router_due (set_outbound r (retry (outbound r) k).2) <= router_due r.
Proof. intros Hr. by apply router_due_queue, retry_due. Qed.

Lemma timeout_one_due r failed k : ok r -> router_due (timeout_one (r, failed) k).1 <= router_due r.
Proof.
  intros Hr. pose proof (retry_router_due r k Hr) as Hle. unfold timeout_one. by destruct (retry (outbound r) k) as [[] o].
Qed.

Lemma process_timeouts_due r now : ok r -> router_due (process_timeouts r now).1 <= router_due r.
Proof.
  unfold process_timeouts. generalize (check_timeouts (outbound r) now) as ids. generalize (@nil PacketId) as failed.
  intros failed ids. revert r failed. induction ids as [|k ids IH]; intros r failed Hr; [done|]. cbn [fold_left].
  pose proof (timeout_one_due r failed k Hr). pose proof (timeout_one_ok retries capacity Hretries r failed k Hr) as Hr'.
  destruct (timeout_one (r, failed) k) as [r' failed']. cbn [fst] in *. etransitivity; [by apply IH|done].
Qed.

Lemma run_maintenance_due r now1 now2 ts now3 : ok r -> router_due (run_maintenance r now1 now2 ts now3).2 <= router_due r.
Proof.
  intros Hr. unfold run_maintenance. destruct (expire_stale _ _ _) as [d expired]. cbn [snd]. unfold router_due.
  cbn [outbound store_forward set_outbound set_store_forward set_delivery].
  apply Z.add_le_mono; [by apply drain_expired_due|apply prune_due_le].
Qed.

Lemma router_next_to_send_due r now now' : ok r ->
  router_due (router_next_to_send r now now').2 + match (router_next_to_send r now now').1 with Some m => pending_due m | None => 0 end
  <= router_due r.
Proof.
  intros Hr. unfold router_next_to_send. destruct (next_to_send (outbound r) now) as [m q] eqn:E.
  pose proof (next_to_send_due r now m q Hr E) as Hle. unfold router_due.
  destruct m as [m|]; cbn [fst snd outbound store_forward set_outbound set_delivery]; lia.
Qed.

Lemma drain_sendable_due fuel clock : forall k r msgs r', ok r -> drain_sendable fuel clock k r = (msgs, r') ->
  zsum pending_due msgs + router_due r' <= router_due r.
Proof.
  induction fuel as [|fuel IH]; intros k r msgs r' Hr; cbn [drain_sendable].
  { intros [= <- <-]. change (zsum pending_due []) with 0. lia. }
  pose proof (router_next_to_send_due r (clock k) (clock k) Hr) as Hle.
  destruct (router_next_to_send_ok retries capacity Hretries r (clock k) (clock k) Hr) as [Hr1 _].
  destruct (router_next_to_send r (clock k) (clock k)) as [[m|] r1]; cbn [fst snd] in *.
  - destruct (drain_sendable fuel clock (S k) r1) as [more r2] eqn:Ed. intros [= <- <-].
    pose proof (IH _ _ _ _ Hr1 Ed). rewrite zsum_cons. lia.
  - intros [= <- <-]. change (zsum pending_due []) with 0. lia.
Qed.

Lemma flush_collect_due r clock ts msgs r' : ok r -> flush_collect r clock ts = (msgs, r') ->
  zsum pending_due msgs + router_due r' <= router_due r.
Proof.
  intros Hr. unfold flush_collect. cbv zeta. intros Hd.
  pose proof (process_timeouts_due r (clock 0%nat) Hr). pose proof (process_timeouts_ok retries capacity Hretries r (clock 0%nat) Hr) as Hr1.
  pose proof (run_maintenance_due _ (clock 1%nat) (clock 2%nat) ts (clock 3%nat) Hr1).
  pose proof (run_maintenance_ok retries capacity Hretries _ (clock 1%nat) (clock 2%nat) ts (clock 3%nat) Hr1) as Hr2.
  apply drain_sendable_due in Hd; [lia|done].
Qed.

Lemma handle_ack_due r k hops now : ok r -> router_due (handle_ack r k hops now) <= router_due r.
Proof. intros Hr. unfold handle_ack. rewrite set_delivery_due. by apply router_due_queue, delete_due. Qed.

Lemma handle_nak_due r k error : ok r -> router_due (handle_nak r k error) <= router_due r.
Proof.
  intros Hr. pose proof (retry_router_due r k Hr) as Hle. unfold handle_nak, queue_handle_nak. by destruct (retry (outbound r) k) as [[] o].
Qed.

Lemma dispatch_routing_due r packet now : ok r -> router_due (dispatch_routing routing_decode r packet now) <= router_due r.
Proof.
  intros Hr. unfold dispatch_routing. destruct (process_routing routing_decode packet) as [k|k error|k code|]; cbn [apply_routing_result]; [| | |lia].
  - by apply handle_ack_due.
  - pose proof (retry_router_due r k Hr) as Hle. unfold queue_handle_nak. by destruct (retry (outbound r) k) as [[] o].
  - pose proof (retry_router_due r k Hr) as Hle. unfold queue_handle_nak. by destruct (retry (outbound r) k) as [[] o].
Qed.

(** The bytes a client stores decode, if at all, to a packet of the same id. *)
Context (Hcodec : forall p q, packet_decode (packet_encode p) = Some q -> mp_id q = mp_id p).

Lemma send_due r packet reachable options now_q now_t ts :
  let '(res, r') := send packet_encode r packet reachable options now_q now_t ts in
  router_due r' <= router_due r + if is_ok res then carries packet (retries + 1) else 0.
Proof.
  unfold send. cbv zeta. destruct reachable.
  - set (pm := mkPending _ _ _ _ _). pose proof (enqueue_due (outbound r) pm) as He.
    assert (pending_due pm = carries packet (retries + 1)) as Epm by (unfold pending_due, pm; cbn [pm_packet pm_retries]; f_equal; lia).
    destruct (enqueue _ _) as [o [[]|e]]; cbn [fst snd is_ok] in *; unfold router_due; cbn [outbound store_forward set_outbound set_delivery]; lia.
  - set (m := mkStored _ _ _ _ _ _ _ _). pose proof (store_due_le (store_forward r) (mp_to packet) m) as Hs.
    assert (stored_due m <= carries packet (retries + 1)) as Em.
    { unfold stored_due, m, carries, is_uint in *. cbn [sm_packet_bytes]. destruct (packet_decode _) as [q|] eqn:E.
      - rewrite (Hcodec _ _ E). lia.
      - destruct (_ =? _); lia. }
    destruct (store _ _ m) as [s [[]|e]] eqn:Est; cbn [fst snd is_ok] in *; unfold router_due;
      cbn [outbound store_forward set_store_forward set_delivery]; [lia|].
    enough (store_due s <= store_due (store_forward r)) by lia.
    unfold store in Est. repeat case_match; simplify_eq; [lia|].
    unfold store_due at 1. cbn [queues]. rewrite map_sum_insert. by rewrite (store_due_perm (store_forward r) (mp_to packet)).
Qed.

(** ** Runs *)

(** The packets a call leaves with the router. *)
Definition accepted_by (r : MeshRouter) (call : RouterCall) : list MeshPacket :=
  match call with
  | CallSend packet reachable options now_q now_t ts =>
      match (send packet_encode r packet reachable options now_q now_t ts).1 with Ok _ => [packet] | Err _ => [] end
  | _ => []
  end.

(** The tasks and the clients of the router in any order, with the packets accepted. *)
Inductive traffic (s : Shared) : list MeshPacket -> Shared -> Prop :=
| traffic_start : traffic s [] s
| traffic_task accepted s1 s2 :
    traffic s accepted s1 -> shared_step routing_decode s1 s2 -> traffic s accepted s2
| traffic_call accepted s1 call :
    traffic s accepted s1 ->
    traffic s (accepted ++ accepted_by (sh_router s1) call)
      (mkShared (call_router packet_encode packet_decode (sh_router s1) call) (sh_flush s1) (sh_air s1)).

Definition shared_ok (s : Shared) : Prop := ok (sh_router s) /\ flush_ok retries (sh_flush s).

Lemma shared_step_account s s' : shared_ok s -> shared_step routing_decode s s' ->
  shared_ok s' /\ account s' <= account s.
Proof.
  intros [Hr Hf] Hstep. unfold shared_ok, account. destruct Hstep; cbn [sh_router sh_flush sh_air flush_ok flush_due] in *.
  - match goal with Hx : flush_collect _ _ _ = _ |- _ => pose proof (flush_collect_due _ _ _ _ _ Hr Hx);
      apply (flush_collect_ok retries capacity Hretries _ _ _ _ _ Hr) in Hx as [Hr' Hms] end.
    split; [done|lia].
  - split; [done|]. change (zsum pending_due []) with 0. lia.
  - apply Forall_cons in Hf. split; [done|]. unfold transmissions. rewrite zsum_app, !zsum_cons.
    change (zsum (fun p => carries p 1) []) with 0. lia.
  - destruct Hf as [Hm Hms]. split; [split; [by apply track_sent_ok|done]|].
    pose proof (track_inflight_due r msg (ack_timeout r) now Hr). unfold track_sent, router_due.
    cbn [outbound store_forward set_outbound]. lia.
  - split; [split; [by apply dispatch_routing_ok|done]|]. pose proof (dispatch_routing_due r packet now Hr). lia.
Qed.

Lemma call_account s call : shared_ok s ->
  let s' := mkShared (call_router packet_encode packet_decode (sh_router s) call) (sh_flush s) (sh_air s) in
  shared_ok s' /\ account s' <= account s + zsum (fun p => carries p (retries + 1)) (accepted_by (sh_router s) call).
Proof.
  intros [Hr Hf] s'. split; [split; [by apply call_router_ok|done]|]. unfold account, s'. cbn [sh_router sh_flush sh_air].
  destruct call; cbn [call_router accepted_by].
  - pose proof (send_due (sh_router s) packet reachable options now_q now_t ts) as Hs.
    destruct (send _ _ _ _ _ _ _ _) as [[]]; cbn [is_ok fst snd] in *; rewrite ?zsum_cons;
      change (zsum (fun p => carries p (retries + 1)) []) with 0; lia.
  - pose proof (node_came_online_due (sh_router s) dest now). change (zsum _ []) with 0. lia.
  - pose proof (handle_ack_due (sh_router s) id0 hops now Hr). change (zsum _ []) with 0. lia.
  - pose proof (handle_nak_due (sh_router s) id0 error Hr). change (zsum _ []) with 0. lia.
Qed.

Lemma traffic_account s accepted s' : shared_ok s -> traffic s accepted s' ->
  shared_ok s' /\ account s' <= account s + zsum (fun p => carries p (retries + 1)) accepted.
Proof.
  intros Hs. induction 1 as [|accepted s1 s2 _ [Hok IH] Hstep|accepted s1 call _ [Hok IH]].
  - split; [done|]. change (zsum _ []) with 0. lia.
  - destruct (shared_step_account s1 s2 Hok Hstep). split; [done|lia].
  - destruct (call_account s1 call Hok). split; [done|]. rewrite zsum_app. lia.
Qed.

Lemma account_covers s : shared_ok s -> transmissions (sh_air s) <= account s.
Proof.
  intros [Hr Hf]. unfold account, router_due, queue_due.
  assert (0 <= flush_due (sh_flush s)) as Hfl.
  { destruct (sh_flush s) as [|msgs|msg msgs]; cbn [flush_due flush_ok] in *; [done| |].
    - apply zsum_nonneg. eapply Forall_impl; [exact Hf|]. apply pending_due_pos.
    - destruct Hf as [Hm Hms]. assert (0 <= zsum pending_due msgs)
        by (apply zsum_nonneg; eapply Forall_impl; [exact Hms|apply pending_due_pos]).
      unfold pending_due at 1, carries. unfold held_ok in Hm. destruct (_ =? _); lia. }
  pose proof (zsum_nonneg pending_due _ (pending_pos _ Hr)).
  assert (forall A (f : A -> Z) m, map_Forall (fun _ x => 0 <= f x) m -> 0 <= map_sum f m) as Hmap.
  { intros A f m Hm. apply zsum_nonneg, Forall_forall. intros [k x] Hx%elem_of_map_to_list. by apply (Hm k). }
  pose proof (Hmap _ _ _ (inflight_pos _ Hr)).
  assert (0 <= store_due (store_forward (sh_router s))) by (apply Hmap; intros k q _; apply stored_pos). lia.
Qed.
End Account.

(** How many of some packets have an id. *)
Definition copies (id : PacketId) (packets : list MeshPacket) : Z := transmissions id packets.

(** C23. Transmissions are bounded: from a fresh router, however the flush task, received
    acknowledgements and rejections, timeouts, reconnecting nodes and senders
    interleave, a packet id goes on the air at most once plus the configured number
    of retries for each time the router accepted it - also when an acknowledgement
    is missed, and when the message was stored and sent again later. *)
Theorem transmissions_bounded `{HashOrder} routing_decode packet_encode packet_decode (config : OutboundConfig)
    (sf : StoreForwardConfig) accepted s :
  let r := router_with_config (outbound_with_config config) (StoreForward_new sf) DeliveryTracker_new config in
  is_uint 8 (oc_max_retries config) ->
  (forall p q, packet_decode (packet_encode p) = Some q -> mp_id q = mp_id p) ->
  traffic routing_decode packet_encode packet_decode (mkShared r FlushIdle []) accepted s ->
  forall id, copies id (sh_air s) <= (oc_max_retries config + 1) * copies id accepted.
Proof.
  intros r Hret Hcodec Hrun id.
  assert (shared_ok (oc_max_retries config) (oc_max_pending config) (mkShared r FlushIdle [])) as Hok
    by (split; [by apply fresh_router_ok|done]).
  destruct (traffic_account routing_decode packet_encode packet_decode _ _ Hret id Hcodec _ _ _ Hok Hrun) as [Hok' Ha].
  pose proof (account_covers packet_decode _ _ Hret id _ Hok').
  assert (account packet_decode (oc_max_retries config) id (mkShared r FlushIdle []) = 0) as E0 by reflexivity.
  enough (zsum (fun p => carries id p (oc_max_retries config + 1)) accepted = (oc_max_retries config + 1) * copies id accepted)
    by (unfold copies in *; lia).
  unfold copies, transmissions. clear. induction accepted as [|p l IH]; [cbn; lia|].
  rewrite !zsum_cons, IH. unfold carries. destruct (_ =? _); lia.
Qed.

(** A packet that is never acknowledged, with one retry: the bound is reached. *)
Module TransmitSample.
Import FlushSample.
#[local] Existing Instance canonical_order.

Definition one_retry : OutboundConfig := mkOutboundConfig 1 16 1 30 3600 7200.
Definition fresh_router : MeshRouter :=
  router_with_config (outbound_with_config one_retry) (StoreForward_new StoreForwardConfig_default) DeliveryTracker_new one_retry.
Definition call : RouterCall := CallSend (text_packet 1) true (SendOptions_with_config one_retry) 0 0 0.
Definition id_encode (p : MeshPacket) : bytes := [mp_id p].
Definition id_decode (b : bytes) : option MeshPacket := match b with [i] => Some (text_packet i) | _ => None end.
Abbreviation runs := (traffic decode_ack id_encode id_decode (mkShared fresh_router FlushIdle [])).

(** A flush that takes one message, sends and tracks it, all at time [t]. *)
Lemma flush_one accepted r air t m :
  taken r t = [m] -> runs accepted (mkShared r FlushIdle air) ->
  runs accepted (mkShared (track_sent (tick r t) m t) FlushIdle (air ++ [pm_packet m])).
Proof.
  intros Ht Hr. eapply traffic_task; [|apply sh_done]. eapply traffic_task; [|apply sh_track].
  eapply traffic_task; [|apply sh_send]. eapply traffic_task; [exact Hr|]. by apply tick_step.
Qed.

Definition sent : MeshRouter := call_router id_encode id_decode fresh_router call.
Definition first : MeshRouter := track_sent (tick sent (seconds 1)) (message 1 0) (seconds 1).
Definition second_ : MeshRouter := track_sent (tick first (seconds 40)) (message 1 1) (seconds 40).

Lemma demo_traffic : runs [text_packet 1] (mkShared second_ FlushIdle [text_packet 1; text_packet 1]).
Proof.
  apply (flush_one [text_packet 1] first [text_packet 1] (seconds 40) (message 1 1)); [vm_compute; reflexivity|].
  apply (flush_one [text_packet 1] sent [] (seconds 1) (message 1 0)); [vm_compute; reflexivity|].
  exact (traffic_call _ _ _ _ [] _ call (traffic_start _ _ _ _)).
Qed.

Lemma transmissions_bounded_witness :
  copies 1 [text_packet 1; text_packet 1] <= (1 + 1) * copies 1 [text_packet 1] /\
  copies 1 [text_packet 1; text_packet 1] = 2.
Proof.
  split; [|vm_compute; reflexivity].
  refine (transmissions_bounded decode_ack id_encode id_decode one_retry StoreForwardConfig_default [text_packet 1]
    (mkShared second_ FlushIdle [text_packet 1; text_packet 1]) _ _ demo_traffic 1).
  - split; vm_compute; [discriminate|reflexivity].
  - intros p q [= <-]. reflexivity.
Defined.
End TransmitSample.
