(* ===== verification/Bcd.v ===== *)
(** * Packed BCD frequencies (crates/syntonia/src/baofeng/bcd.rs)

    The UV-5R stores a frequency as four little-endian bytes of packed BCD in
    10 Hz steps. *)

From S2P Require Import Prelude.

Local Open Scope Z_scope.

Inductive BcdError : Type :=
| InvalidBcd (byte : Z)
| NotAligned (freq_hz : Z).

Definition NO_FREQUENCY : bytes := [0xFF; 0xFF; 0xFF; 0xFF].

(** The loop of [lbcd4_decode] over the bytes, most significant first. *)
Fixpoint lbcd_loop (acc : Z) (l : bytes) : result Z BcdError :=
  match l with
  | [] => Ok (acc * 10)
  | byte :: rest =>
      let hi := Z.land (Z.shiftr byte 4) 0x0F in
      let lo := Z.land byte 0x0F in
      if (9 <? hi) || (9 <? lo) then Err (InvalidBcd byte)
      else lbcd_loop (acc * 100 + hi * 10 + lo) rest
  end.

Definition lbcd4_decode (l : bytes) : result Z BcdError :=
  if bool_decide (l = NO_FREQUENCY) then Ok 0 else lbcd_loop 0 (rev l).

(** The loop of [lbcd4_encode]: [n] bytes, least significant first. *)
Fixpoint lbcd_digits (n : nat) (value : Z) : bytes :=
  match n with
  | O => []
  | S n =>
      let lo := value mod 10 in
      let value := value / 10 in
      let hi := value mod 10 in
      Z.lor (Z.shiftl hi 4) lo :: lbcd_digits n (value / 10)
  end.

Definition lbcd4_encode (freq_hz : Z) : result bytes BcdError :=
  if freq_hz =? 0 then Ok NO_FREQUENCY
  else if negb (freq_hz mod 10 =? 0) then Err (NotAligned freq_hz)
  else Ok (lbcd_digits 4 (freq_hz / 10)).

(** * Lemmas *)

(** Packing two decimal digits and reading them back, for all hundred pairs. *)
Lemma pack_digits hi lo :
  0 <= hi <= 9 -> 0 <= lo <= 9 ->
  Z.land (Z.shiftr (Z.lor (Z.shiftl hi 4) lo) 4) 0x0F = hi /\
  Z.land (Z.lor (Z.shiftl hi 4) lo) 0x0F = lo /\ Z.lor (Z.shiftl hi 4) lo <> 0xFF.
Proof.
  assert (forallb (fun hi => forallb (fun lo =>
    let b := Z.lor (Z.shiftl hi 4) lo in
    (Z.land (Z.shiftr b 4) 0x0F =? hi) && (Z.land b 0x0F =? lo) && negb (b =? 0xFF))
    (seqZ 0 10)) (seqZ 0 10) = true) as Hall by (vm_compute; reflexivity).
  intros Hhi Hlo. rewrite forallb_forall in Hall.
  specialize (Hall hi ltac:(apply list_elem_of_In, elem_of_seqZ; lia)).
  rewrite forallb_forall in Hall.
  specialize (Hall lo ltac:(apply list_elem_of_In, elem_of_seqZ; lia)). simpl in Hall. lia.
Qed.

(** Reading the digits of a byte and packing them again, for all bytes. *)
Lemma unpack_digits b :
  is_byte b -> Z.lor (Z.shiftl (Z.land (Z.shiftr b 4) 0x0F) 4) (Z.land b 0x0F) = b /\
  0 <= Z.land (Z.shiftr b 4) 0x0F /\ 0 <= Z.land b 0x0F.
Proof.
  assert (forallb (fun b =>
    let hi := Z.land (Z.shiftr b 4) 0x0F in let lo := Z.land b 0x0F in
    (Z.lor (Z.shiftl hi 4) lo =? b) && (0 <=? hi) && (0 <=? lo)) (seqZ 0 256) = true) as Hall
    by (vm_compute; reflexivity).
  unfold is_byte. intros Hb. rewrite forallb_forall in Hall.
  specialize (Hall b ltac:(apply list_elem_of_In, elem_of_seqZ; lia)). simpl in Hall. lia.
Qed.

Lemma lbcd_loop_digits n value acc rest :
  0 <= value ->
  lbcd_loop acc (rev (lbcd_digits n value) ++ rest)
  = lbcd_loop (acc * 100 ^ Z.of_nat n + value mod 100 ^ Z.of_nat n) rest.
Proof.
  revert value acc rest. induction n as [|n IH]; intros value acc rest Hv.
  { simpl. f_equal. change (100 ^ 0) with 1. rewrite Z.mod_1_r. lia. }
  cbn [lbcd_digits rev]. rewrite <- app_assoc. rewrite IH by (apply Z.div_pos; [apply Z.div_pos|]; lia).
  cbn [app lbcd_loop].
  pose proof (Z.mod_pos_bound value 10). pose proof (Z.mod_pos_bound (value / 10) 10).
  destruct (pack_digits ((value / 10) mod 10) (value mod 10)) as (-> & -> & _); [lia..|].
  destruct (_ || _) eqn:E; [lia|]. f_equal.
  rewrite Nat2Z.inj_succ, Z.pow_succ_r by lia. rewrite Z.div_div by lia. change (10 * 10) with 100.
  rewrite (Z.rem_mul_r value 100) by (try apply Z.pow_pos_nonneg; lia).
  assert (value mod 100 = (value / 10) mod 10 * 10 + value mod 10).
  { change 100 with (10 * 10). rewrite Z.rem_mul_r by lia. lia. }
  lia.
Qed.

Lemma length_lbcd_digits n v : length (lbcd_digits n v) = n.
Proof. revert v. induction n; intros; simpl; auto. Qed.

Lemma lbcd_digits_not_sentinel n v : 0 <= v -> (0 < n)%nat -> Forall (fun b => b <> 0xFF) (lbcd_digits n v).
Proof.
  intros Hv _. revert v Hv. induction n as [|n IH]; intros v Hv; [constructor|]. cbn [lbcd_digits].
  pose proof (Z.mod_pos_bound v 10). pose proof (Z.mod_pos_bound (v / 10) 10).
  constructor; [apply pack_digits; lia|]. apply IH. apply Z.div_pos; [apply Z.div_pos|]; lia.
Qed.

Lemma lbcd_digits_decode v : 0 <= v -> lbcd4_decode (lbcd_digits 4 v) = Ok (v mod 10 ^ 8 * 10).
Proof.
  intros Hv. unfold lbcd4_decode. rewrite bool_decide_false.
  - rewrite <- (app_nil_r (rev _)). rewrite lbcd_loop_digits by done.
    change (100 ^ Z.of_nat 4) with (10 ^ 8). simpl. f_equal.
  - intros E. pose proof (lbcd_digits_not_sentinel 4 v Hv ltac:(lia)) as F.
    rewrite E in F. inversion F; subst. done.
Qed.

(** Re-encoding what was decoded, byte by byte. *)
Lemma lbcd_loop_inv l acc r :
  bytes_ok l -> 0 <= acc -> lbcd_loop acc l = Ok r ->
  exists v, r = v * 10 /\ lbcd_digits (length l) v = rev l /\ v / 100 ^ Z.of_nat (length l) = acc /\ 0 <= v.
Proof.
  intros Hl. revert acc r. induction Hl as [|b l Hb Hl IH]; intros acc r Hacc Hr; simpl in Hr.
  { injection Hr as <-. exists acc. rewrite Z.div_1_r. done. }
  destruct (unpack_digits b Hb) as (Hpack & Hhi & Hlo).
  set (hi := Z.land (Z.shiftr b 4) 15) in *. set (lo := Z.land b 15) in *.
  destruct ((9 <? hi) || (9 <? lo)) eqn:E; [done|].
  apply IH in Hr as (v & -> & Hd & Hdiv & Hv); [|lia]. exists v. split; [done|].
  assert (forall m k, 0 <= k -> lbcd_digits (m + 1) k
            = lbcd_digits m k ++ [Z.lor (Z.shiftl ((k / 100 ^ Z.of_nat m / 10) mod 10) 4)
                                        ((k / 100 ^ Z.of_nat m) mod 10)]) as Hsnoc.
  { clear. induction m as [|m IHm]; intros k Hk; [by rewrite Z.div_1_r|].
    cbn [Nat.add lbcd_digits]. rewrite IHm by (apply Z.div_pos; [apply Z.div_pos|]; lia).
    simpl. do 2 f_equal.
    rewrite Nat2Z.inj_succ, Z.pow_succ_r by lia.
    assert (0 < 100 ^ Z.of_nat m) by (apply Z.pow_pos_nonneg; lia).
    assert (k / 10 / 10 / 100 ^ Z.of_nat m = k / (100 * 100 ^ Z.of_nat m)) as ->; [|done].
    rewrite !Z.div_div by lia. f_equal. lia. }
  cbn [length rev]. rewrite <- Nat.add_1_r, Hsnoc, Hd, Hdiv by done. split.
  { f_equal. f_equal. rewrite <- Hpack. f_equal; [f_equal|].
    - replace (acc * 100 + hi * 10 + lo) with (lo + (acc * 10 + hi) * 10) by lia.
      rewrite Z.div_add, (Z.div_small lo) by lia. rewrite Z.add_0_l.
      rewrite Z.add_comm, Z.mod_add by lia. apply Z.mod_small. lia.
    - replace (acc * 100 + hi * 10 + lo) with (lo + (acc * 10 + hi) * 10) by lia.
      rewrite Z.mod_add by lia. apply Z.mod_small. lia. }
  split; [|done]. rewrite Nat2Z.inj_add, Z.pow_add_r by lia. change (100 ^ Z.of_nat 1) with 100.
  assert (0 < 100 ^ Z.of_nat (length l)) by (apply Z.pow_pos_nonneg; lia).
  rewrite <- Z.div_div, Hdiv by lia.
  replace (acc * 100 + hi * 10 + lo) with (hi * 10 + lo + acc * 100) by lia.
  rewrite Z.div_add by lia. rewrite Z.div_small; lia.
Qed.

Lemma lbcd4_encode_decode f :
  0 <= f -> f mod 10 = 0 ->
  exists b, lbcd4_encode f = Ok b /\ length b = 4%nat /\ lbcd4_decode b = Ok (f mod 10 ^ 9).
Proof.
  intros Hf Ha. unfold lbcd4_encode. destruct (f =? 0) eqn:E0.
  { apply Z.eqb_eq in E0 as ->. by exists NO_FREQUENCY. }
  rewrite Ha. simpl negb. cbv iota. eexists. split; [done|]. split; [done|].
  rewrite lbcd_digits_decode by (apply Z.div_pos; lia). f_equal.
  change (10 ^ 9) with (10 * 10 ^ 8). rewrite (Z.rem_mul_r f) by lia. rewrite Ha. lia.
Qed.

Lemma lbcd4_decode_encode b f :
  bytes_ok b -> length b = 4%nat -> lbcd4_decode b = Ok f -> f <> 0 -> lbcd4_encode f = Ok b.
Proof.
  intros Hb Hlen Hd Hf. unfold lbcd4_decode in Hd. destruct (bool_decide _); [congruence|].
  apply lbcd_loop_inv in Hd as (v & -> & Hv & _ & Hpos); [|by apply Forall_rev|lia].
  rewrite rev_involutive, length_rev, Hlen in Hv.
  unfold lbcd4_encode. destruct (v * 10 =? 0) eqn:E0; [lia|].
  rewrite Z.mod_mul, Z.div_mul by lia. simpl negb. cbv iota. by rewrite Hv.
Qed.

(** * Properties *)

(** Frequencies survive the radio's BCD: a frequency that is a multiple of
    10 Hz encodes to four bytes that decode to it modulo 1 GHz, so exactly when
    it is below 1 GHz (at and above, the leading digits are dropped without an
    error); and any four bytes that decode to a frequency other than zero are
    the encoding of that frequency. *)
Theorem lbcd4_roundtrip :
  (forall f, 0 <= f -> f mod 10 = 0 ->
     exists b, lbcd4_encode f = Ok b /\ length b = 4%nat /\ lbcd4_decode b = Ok (f mod 10 ^ 9) /\
       (lbcd4_decode b = Ok f <-> f < 10 ^ 9)) /\
  (forall b f, bytes_ok b -> length b = 4%nat -> lbcd4_decode b = Ok f -> f <> 0 ->
     lbcd4_encode f = Ok b).
Proof.
  split; [|apply lbcd4_decode_encode].
  intros f Hf Ha. destruct (lbcd4_encode_decode f Hf Ha) as (b & H1 & H2 & H3).
  exists b. split; [done|]. split; [done|]. split; [done|]. rewrite H3. split.
  - intros <-%Ok_inj. by apply Z.mod_pos_bound.
  - intros. f_equal. by apply Z.mod_small.
Qed.

Lemma lbcd4_roundtrip_witness :
  lbcd4_encode 146520000 = Ok [0x00; 0x20; 0x65; 0x14] /\
  lbcd4_decode [0x00; 0x20; 0x65; 0x14] = Ok 146520000 /\
  exists b, lbcd4_encode 1240000000 = Ok b /\ lbcd4_decode b = Ok 240000000.
Proof.
  split; [reflexivity|]. split; [reflexivity|].
  destruct (proj1 lbcd4_roundtrip 1240000000 ltac:(lia) eq_refl) as (b & T1 & _ & T3 & _).
  exists b. split; [exact T1|exact T3].
Defined.
