(* ===== verification/Tone.v ===== *)
(** * Squelch tones (crates/syntonia/src/tone.rs,
      crates/syntonia/src/baofeng/tone_codec.rs)

    CTCSS tones and DCS codes, their validation, and the 16-bit word the UV-5R
    stores for them. *)

From S2P Require Import Prelude Float.

Local Open Scope Z_scope.

(** The 50 tones of [ALL_CTCSS_TONES], each literal given in tenths of Hz. *)
Definition ALL_CTCSS_TENTHS : list Z :=
  [670; 693; 719; 744; 770; 797; 825; 854; 885; 915; 948; 974; 1000; 1035; 1072;
   1109; 1148; 1188; 1230; 1273; 1318; 1365; 1413; 1462; 1514; 1567; 1598; 1622;
   1655; 1679; 1713; 1738; 1773; 1799; 1835; 1862; 1899; 1928; 1966; 1995; 2035;
   2065; 2107; 2181; 2257; 2291; 2336; 2418; 2503; 2541].
Definition ALL_CTCSS_TONES : list f32 := map f32_tenths ALL_CTCSS_TENTHS.

Definition ALL_DCS_CODES : list Z :=
  [23; 25; 26; 31; 32; 36; 43; 47; 51; 53; 54; 65; 71; 72; 73; 74; 114; 115; 116; 122; 125; 131;
   132; 134; 143; 145; 152; 155; 156; 162; 165; 172; 174; 205; 212; 223; 225; 226; 243; 244; 245;
   246; 251; 252; 255; 261; 263; 265; 266; 271; 274; 306; 311; 315; 325; 331; 332; 343; 346; 351;
   356; 364; 365; 371; 411; 412; 413; 423; 431; 432; 445; 446; 452; 454; 455; 462; 464; 465; 466;
   503; 506; 516; 523; 526; 532; 546; 565; 606; 612; 624; 627; 631; 632; 654; 662; 664; 703; 712;
   723; 731; 732; 734; 743; 754].

Inductive ToneError : Type :=
| InvalidCtcssTone (value : f32)
| InvalidDcsCode (value : Z).

(** [CtcssTone(f32)] and [DcsCode(u16)], built by [new] only. *)
Definition tone_tenths (value : f32) : Z := f32_as_uint 32 (f32_round (f32_mul value (f32_of_Z 10))).

Definition CtcssTone_new (value : f32) : result f32 ToneError :=
  let tenths := tone_tenths value in
  if existsb (fun t => tone_tenths t =? tenths) ALL_CTCSS_TONES
  then Ok value else Err (InvalidCtcssTone value).

Definition DcsCode_new (value : Z) : result Z ToneError :=
  if existsb (fun c => c =? value) ALL_DCS_CODES then Ok value else Err (InvalidDcsCode value).

Inductive DcsPolarity : Type := Normal | Inverted.

Inductive ToneMode : Type :=
| ToneNone
| Ctcss (hz : f32)
| Dcs (code : Z) (polarity : DcsPolarity).

#[export] Instance ToneMode_eq_dec : EqDecision ToneMode.
Proof. intros x y. unfold Decision. repeat decide equality. Defined.

(** ** The EEPROM word *)

Definition decode_dcs (raw lo hi : Z) (polarity : DcsPolarity) : option ToneMode :=
  if negb ((lo <=? raw) && (raw <=? hi)) then None
  else
    match ALL_DCS_CODES !! Z.to_nat (raw - lo) with
    | None => None
    | Some code_val =>
        match DcsCode_new code_val with
        | Ok code => Some (Dcs code polarity)
        | Err _ => None
        end
    end.

Definition decode_tone (raw : Z) : ToneMode :=
  if (raw =? 0) || (raw =? 0xFFFF) then ToneNone
  else if 600 <=? raw then
    match CtcssTone_new (f32_div (f32_of_Z raw) (f32_of_Z 10)) with
    | Ok t => Ctcss t
    | Err _ => ToneNone
    end
  else
    match decode_dcs raw 1 104 Normal with
    | Some mode => mode
    | None =>
        match decode_dcs raw 106 209 Inverted with
        | Some mode => mode
        | None => ToneNone
        end
    end.

Definition encode_tone (tone : ToneMode) : Z :=
  match tone with
  | ToneNone => 0
  | Ctcss hz => f32_as_uint 16 (f32_mul hz (f32_of_Z 10))
  | Dcs code polarity =>
      let idx := S <$> position (fun c => c =? code) ALL_DCS_CODES in
      match idx, polarity with
      | Some i, Normal => as_uint 16 (Z.of_nat i)
      | Some i, Inverted => as_uint 16 (Z.of_nat i + 105)
      | None, _ => 0
      end
  end.

(** The tones a plan can hold: a standard CTCSS tone, a standard DCS code of
    either polarity, or none. *)
Definition standard_tone (t : ToneMode) : Prop :=
  match t with
  | ToneNone => True
  | Ctcss hz => hz ∈ ALL_CTCSS_TONES
  | Dcs code _ => code ∈ ALL_DCS_CODES
  end.

(** * Lemmas *)

Lemma CtcssTone_new_tenths value :
  CtcssTone_new value =
  if existsb (fun n => n =? tone_tenths value) ALL_CTCSS_TENTHS
  then Ok value else Err (InvalidCtcssTone value).
Proof.
  unfold CtcssTone_new. cbv zeta.
  assert (map tone_tenths ALL_CTCSS_TONES = ALL_CTCSS_TENTHS) as E by (vm_compute; reflexivity).
  rewrite <- E.
  assert (forall l, existsb (fun t => tone_tenths t =? tone_tenths value) l
                    = existsb (fun n => n =? tone_tenths value) (map tone_tenths l)) as ->; [|done].
  induction l as [|t l IH]; simpl; [done|]. by rewrite IH.
Qed.

Definition reencodes (raw : Z) : bool :=
  match decode_tone raw with
  | ToneNone => true
  | t => encode_tone t =? raw
  end.

(** The words below the CTCSS range, one by one. *)
Lemma reencodes_low : forallb reencodes (seqZ 0 600) = true.
Proof. vm_compute. reflexivity. Qed.

(** The CTCSS range, decided through the table in tenths. *)
Definition ctcss_reencodes (raw : Z) : bool :=
  let v := f32_div (f32_of_Z raw) (f32_of_Z 10) in
  let tenths := tone_tenths v in
  negb (existsb (fun n => n =? tenths) ALL_CTCSS_TENTHS)
  || (f32_as_uint 16 (f32_mul v (f32_of_Z 10)) =? raw).

Lemma reencodes_ctcss : forallb ctcss_reencodes (seqZ 600 2000) = true.
Proof. vm_compute. reflexivity. Qed.

Lemma CtcssTone_new_value v t : CtcssTone_new v = Ok t -> t = v.
Proof. unfold CtcssTone_new. split_ifs; intros E; [by apply Ok_inj in E|done]. Qed.

Lemma reencodes_ok raw : 0 <= raw < 2600 -> reencodes raw = true.
Proof.
  intros Hr. destruct (decide (raw < 600)) as [Hlo|Hhi].
  - pose proof reencodes_low as H. rewrite forallb_forall in H.
    apply H, list_elem_of_In, elem_of_seqZ. lia.
  - pose proof reencodes_ctcss as H. rewrite forallb_forall in H.
    specialize (H raw ltac:(apply list_elem_of_In, elem_of_seqZ; lia)).
    unfold reencodes, decode_tone. rewrite (proj2 (Z.eqb_neq raw 0)), (proj2 (Z.eqb_neq raw 0xFFFF)) by lia.
    rewrite (proj2 (Z.leb_le 600 raw)) by lia. rewrite CtcssTone_new_tenths.
    unfold ctcss_reencodes in H. cbv zeta in H.
    destruct (existsb _ _); [|done]. exact H.
Qed.

Definition standard_tones : list ToneMode :=
  ToneNone :: map Ctcss ALL_CTCSS_TONES
  ++ map (fun c => Dcs c Normal) ALL_DCS_CODES ++ map (fun c => Dcs c Inverted) ALL_DCS_CODES.

Lemma standard_tones_roundtrip :
  forallb (fun t => bool_decide (decode_tone (encode_tone t) = t) && (encode_tone t <? 2600)
                    && (0 <=? encode_tone t)) standard_tones = true.
Proof. vm_compute. reflexivity. Qed.

Lemma standard_tone_elem t : standard_tone t -> t ∈ standard_tones.
Proof.
  unfold standard_tones. intros Ht. destruct t as [|hz|c p]; simpl in Ht; [left|right; apply elem_of_app..].
  - left. by apply (list_elem_of_fmap_2 Ctcss).
  - right. apply elem_of_app. destruct p; [left|right].
    + by apply (list_elem_of_fmap_2 (fun c => Dcs c Normal)).
    + by apply (list_elem_of_fmap_2 (fun c => Dcs c Inverted)).
Qed.

Lemma standard_tone_word t :
  standard_tone t -> decode_tone (encode_tone t) = t /\ 0 <= encode_tone t < 2600.
Proof.
  intros Ht%standard_tone_elem. pose proof standard_tones_roundtrip as H.
  rewrite forallb_forall in H. specialize (H t ltac:(by apply list_elem_of_In)).
  apply andb_true_iff in H as [[H1 H2]%andb_true_iff H3].
  apply bool_decide_eq_true in H1. split; [done|lia].
Qed.

(** * Properties *)

(** Tone words round-trip: every standard tone (each of the 50 CTCSS
    tones, the 104 DCS codes in either polarity, or none) encodes to a 16-bit
    word that decodes to it, and every word up to the end of the CTCSS range
    that decodes to a tone is the encoding of that tone. *)
Theorem tone_word_roundtrip :
  (forall t, standard_tone t -> decode_tone (encode_tone t) = t /\ is_uint 16 (encode_tone t)) /\
  (forall raw, 0 <= raw < 2600 -> decode_tone raw <> ToneNone -> encode_tone (decode_tone raw) = raw).
Proof.
  split.
  - intros t [H1 H2]%standard_tone_word. split; [done|]. unfold is_uint. lia.
  - intros raw Hr Hne. pose proof (reencodes_ok raw Hr) as H. unfold reencodes in H.
    destruct (decode_tone raw); [done|lia..].
Qed.

Lemma tone_word_roundtrip_witness :
  decode_tone (encode_tone (Dcs 23 Inverted)) = Dcs 23 Inverted /\
  encode_tone (decode_tone 885) = 885.
Proof.
  split.
  - refine (proj1 (proj1 tone_word_roundtrip (Dcs 23 Inverted) _)). left.
  - apply (proj2 tone_word_roundtrip); [lia|]. vm_compute. discriminate.
Defined.

(** A tone [CtcssTone::new] accepts can be lost on the way to the radio:
    validation rounds to tenths of Hz but the encoder truncates, so 66.96 Hz
    passes as 67.0 and is stored as 669, which decodes as no tone at all. *)
Theorem accepted_tone_lost_by_encode :
  exists hz, CtcssTone_new hz = Ok hz /\ encode_tone (Ctcss hz) = 669 /\
    decode_tone (encode_tone (Ctcss hz)) = ToneNone.
Proof.
  exists (f32_div (f32_of_Z 6696) (f32_of_Z 100)).
  split; [vm_compute; reflexivity|]. split; vm_compute; reflexivity.
Qed.
