(* ===== verification/ChannelCodec.v ===== *)
(** * UV-5R channel memory (crates/syntonia/src/baofeng/codec.rs, image.rs,
      memmap.rs; crates/syntonia/src/channel.rs, types.rs)

    The EEPROM image, the 16-byte channel and name slots in it, and the codec
    between a slot and a [Channel]. An access outside the image panics in the
    source: [None] here. A [String] is its list of code points. *)

From S2P Require Import Prelude Float Bcd Tone.

Local Open Scope Z_scope.

(** ** The data model (channel.rs, types.rs) *)

(** [stoicheion::Frequency]: hertz in a [u64]. *)
Abbreviation Frequency := Z (only parsing).

Inductive FrequencyOffset : Type :=
| OffsetNone | Plus (f : Frequency) | Minus (f : Frequency) | Split (f : Frequency).
Inductive PowerLevel : Type := High | Mid | Low.
Inductive Bandwidth : Type := Wide | Narrow.
Inductive ScanMode : Type := Include | Skip.

Record Channel : Type := mkChannel {
  ch_index : Z;
  ch_name : list Z;
  ch_rx_freq : Frequency;
  ch_tx_freq : option Frequency;
  ch_offset : FrequencyOffset;
  ch_tone : ToneMode;
  ch_power : PowerLevel;
  ch_bandwidth : Bandwidth;
  ch_scan : ScanMode;
  ch_busy_lock : bool
}.

(** ** Strings *)

Definition utf8_char (c : Z) : bytes :=
  if c <? 0x80 then [c]
  else if c <? 0x800 then [0xC0 + c / 64; 0x80 + c mod 64]
  else if c <? 0x10000 then [0xE0 + c / 4096; 0x80 + c / 64 mod 64; 0x80 + c mod 64]
  else [0xF0 + c / 262144; 0x80 + c / 4096 mod 64; 0x80 + c / 64 mod 64; 0x80 + c mod 64].

(** [str::as_bytes]. *)
Definition as_bytes (s : list Z) : bytes := concat (map utf8_char s).

(** [char::is_whitespace]: the Unicode [White_Space] property. *)
Definition is_whitespace (c : Z) : bool :=
  ((9 <=? c) && (c <=? 13)) || (c =? 32) || (c =? 0x85) || (c =? 0xA0) || (c =? 0x1680)
  || ((0x2000 <=? c) && (c <=? 0x200A)) || (c =? 0x2028) || (c =? 0x2029) || (c =? 0x202F)
  || (c =? 0x205F) || (c =? 0x3000).

Fixpoint trim_start (s : list Z) : list Z :=
  match s with
  | [] => []
  | c :: r => if is_whitespace c then trim_start r else s
  end.
Definition trim (s : list Z) : list Z := rev (trim_start (rev (trim_start s))).

(** ** The image (image.rs, memmap.rs) *)

Record MemoryImage : Type := mkImage { data : bytes }.
Definition MemoryImage_new (size : nat) : MemoryImage := mkImage (replicate size 0xFF).

Definition CHANNEL_BASE : Z := 0x0000.
Definition CHANNEL_STRIDE : Z := 16.
Definition CHANNEL_COUNT : Z := 128.
Definition NAME_BASE : Z := 0x1000.
Definition NAME_STRIDE : Z := 16.
Definition NAME_LENGTH : nat := 7.

Definition read_bytes (image : MemoryImage) (addr : Z) (len : nat) : option bytes :=
  let start := Z.to_nat addr in
  if (start + len <=? length (data image))%nat
  then Some (take len (drop start (data image))) else None.

Definition write_bytes (image : MemoryImage) (addr : Z) (d : bytes) : option MemoryImage :=
  let start := Z.to_nat addr in
  if (start + length d <=? length (data image))%nat
  then Some (mkImage (take start (data image) ++ d ++ drop (start + length d) (data image)))
  else None.

(** ** The codec (codec.rs) *)

Inductive CodecError : Type :=
| BcdDecode (index : Z) (source : BcdError)
| BcdEncode (index : Z) (source : BcdError).

Definition power_from_bits (byte14 : Z) : PowerLevel :=
  let bits := Z.land byte14 0x03 in
  if bits =? 1 then Low else if bits =? 2 then Mid else High.
Definition power_to_bits (p : PowerLevel) : Z :=
  match p with High => 0 | Low => 1 | Mid => 2 end.
Definition bandwidth_from_bit (byte15 : Z) : Bandwidth :=
  if negb (Z.land byte15 0x40 =? 0) then Wide else Narrow.
Definition scan_from_bit (byte15 : Z) : ScanMode :=
  if negb (Z.land byte15 0x04 =? 0) then Include else Skip.
Definition bcl_from_bit (byte15 : Z) : bool := negb (Z.land byte15 0x08 =? 0).

Definition byte_at (l : bytes) (i : nat) : Z := default 0 (l !! i).

Definition is_tone (t : ToneMode) : bool :=
  match t with Ctcss _ | Dcs _ _ => true | ToneNone => false end.

(** The transmit frequency and the offset the four bytes after the receive
    frequency stand for. *)
Definition decode_tx (index rx_hz : Z) (tx_bytes : bytes)
  : result (option Frequency * FrequencyOffset) CodecError :=
  if bool_decide (tx_bytes = [0xFF; 0xFF; 0xFF; 0xFF]) then Ok (None, OffsetNone)
  else
    let? tx_hz := map_err (BcdDecode index) (lbcd4_decode tx_bytes) in
    Ok (match tx_hz ?= rx_hz with
        | Eq => (Some tx_hz, OffsetNone)
        | Gt => (Some tx_hz, Plus (tx_hz - rx_hz))
        | Lt => (Some tx_hz, Minus (rx_hz - tx_hz))
        end).

Definition decode_name (name_data : bytes) : list Z :=
  trim (take_while (fun b => negb (b =? 0xFF) && negb (b =? 0x00)) name_data).

Definition decode_channel (image : MemoryImage) (index : Z)
  : option (result (option Channel) CodecError) :=
  let ch_addr := CHANNEL_BASE + index * CHANNEL_STRIDE in
  match read_bytes image ch_addr 16 with
  | None => None
  | Some ch =>
      if byte_at ch 0 =? 0xFF then Some (Ok None)
      else
        let rx_bytes := [byte_at ch 0; byte_at ch 1; byte_at ch 2; byte_at ch 3] in
        let tx_bytes := [byte_at ch 4; byte_at ch 5; byte_at ch 6; byte_at ch 7] in
        match map_err (BcdDecode index) (lbcd4_decode rx_bytes) with
        | Err e => Some (Err e)
        | Ok rx_hz =>
            match decode_tx index rx_hz tx_bytes with
            | Err e => Some (Err e)
            | Ok (tx_freq, offset) =>
                let rxtone_raw := from_le_bytes [byte_at ch 8; byte_at ch 9] in
                let txtone_raw := from_le_bytes [byte_at ch 10; byte_at ch 11] in
                let tx_tone := decode_tone txtone_raw in
                let tone :=
                  if is_tone tx_tone then tx_tone
                  else
                    let rx_tone := decode_tone rxtone_raw in
                    if is_tone rx_tone then rx_tone else ToneNone in
                let name_addr := NAME_BASE + index * NAME_STRIDE in
                match read_bytes image name_addr NAME_LENGTH with
                | None => None
                | Some name_data =>
                    Some (Ok (Some {|
                      ch_index := index; ch_name := decode_name name_data;
                      ch_rx_freq := rx_hz; ch_tx_freq := tx_freq; ch_offset := offset;
                      ch_tone := tone; ch_power := power_from_bits (byte_at ch 14);
                      ch_bandwidth := bandwidth_from_bit (byte_at ch 15);
                      ch_scan := scan_from_bit (byte_at ch 15);
                      ch_busy_lock := bcl_from_bit (byte_at ch 15) |}))
                end
            end
        end
  end.

(** The bytes [encode_channel] writes to the channel slot and the name slot. *)
Definition byte15_of (c : Channel) : Z :=
  let b := 0 in
  let b := match ch_bandwidth c with Wide => Z.lor b 0x40 | Narrow => b end in
  let b := match ch_scan c with Include => Z.lor b 0x04 | Skip => b end in
  if ch_busy_lock c then Z.lor b 0x08 else b.

Definition name_slot (c : Channel) : bytes :=
  let shown := take NAME_LENGTH (as_bytes (ch_name c)) in
  shown ++ replicate (16 - length shown) 0xFF.

Definition channel_slot (c : Channel) (index : Z) : result bytes CodecError :=
  let? rx_bytes := map_err (BcdEncode index) (lbcd4_encode (ch_rx_freq c)) in
  let? tx_bytes :=
    match ch_tx_freq c with
    | Some tx => map_err (BcdEncode index) (lbcd4_encode tx)
    | None => Ok [0xFF; 0xFF; 0xFF; 0xFF]
    end in
  let tone_bytes := to_le_bytes 2 (encode_tone (ch_tone c)) in
  Ok (rx_bytes ++ tx_bytes ++ tone_bytes ++ tone_bytes
      ++ [0; 0; power_to_bits (ch_power c); byte15_of c]).

Definition encode_channel (c : Channel) (image : MemoryImage) (index : Z)
  : option (result unit CodecError * MemoryImage) :=
  let ch_addr := CHANNEL_BASE + index * CHANNEL_STRIDE in
  match channel_slot c index with
  | Err e => Some (Err e, image)
  | Ok ch_data =>
      match write_bytes image ch_addr ch_data with
      | None => None
      | Some image =>
          let name_addr := NAME_BASE + index * NAME_STRIDE in
          match write_bytes image name_addr (name_slot c) with
          | None => None
          | Some image => Some (Ok tt, image)
          end
      end
  end.

Definition clear_channel (image : MemoryImage) (index : Z) : option MemoryImage :=
  match write_bytes image (CHANNEL_BASE + index * CHANNEL_STRIDE) (replicate 16 0xFF) with
  | None => None
  | Some image => write_bytes image (NAME_BASE + index * NAME_STRIDE) (replicate 16 0xFF)
  end.

(** The loops over the slots [i], [i + 1], ..., [i + n - 1]. *)
Fixpoint decode_slots (image : MemoryImage) (i : Z) (n : nat) : option (result (list Channel) CodecError) :=
  match n with
  | O => Some (Ok [])
  | S n =>
      match decode_channel image i with
      | None => None
      | Some (Err e) => Some (Err e)
      | Some (Ok slot) =>
          match decode_slots image (i + 1) n with
          | Some (Ok more) => Some (Ok (match slot with Some c => c :: more | None => more end))
          | other => other
          end
      end
  end.

(** [decode_all_channels]: the channels of the [FrequencyPlan] it builds. *)
Definition decode_all_channels (image : MemoryImage) : option (result (list Channel) CodecError) :=
  decode_slots image 0 (Z.to_nat CHANNEL_COUNT).

Fixpoint clear_slots (image : MemoryImage) (i : Z) (n : nat) : option MemoryImage :=
  match n with
  | O => Some image
  | S n => match clear_channel image i with None => None | Some image => clear_slots image (i + 1) n end
  end.

Fixpoint encode_channels (cs : list Channel) (image : MemoryImage)
  : option (result unit CodecError * MemoryImage) :=
  match cs with
  | [] => Some (Ok tt, image)
  | c :: more =>
      if ch_index c <? CHANNEL_COUNT then
        match encode_channel c image (as_uint 8 (ch_index c)) with
        | Some (Ok _, image) => encode_channels more image
        | other => other
        end
      else encode_channels more image
  end.

Definition encode_all_channels (cs : list Channel) (image : MemoryImage)
  : option (result unit CodecError * MemoryImage) :=
  match clear_slots image 0 (Z.to_nat CHANNEL_COUNT) with
  | None => None
  | Some image => encode_channels cs image
  end.

(** ** What a slot can represent *)

Definition freq_ok (f : Frequency) : Prop := 0 < f < 10 ^ 9 /\ f mod 10 = 0.

(** The offset the transmit frequency implies, which is what the radio stores. *)
Definition implied_offset (rx : Frequency) (tx : option Frequency) : FrequencyOffset :=
  match tx with
  | None => OffsetNone
  | Some t => match t ?= rx with Eq => OffsetNone | Gt => Plus (t - rx) | Lt => Minus (rx - t) end
  end.

Definition name_ok (s : list Z) : Prop :=
  Forall (fun c => 0 < c < 0x80) s /\ (length s <= NAME_LENGTH)%nat /\ trim s = s.

Record representable (c : Channel) : Prop := {
  rep_index : 0 <= ch_index c < CHANNEL_COUNT;
  rep_name : name_ok (ch_name c);
  rep_rx : freq_ok (ch_rx_freq c);
  rep_tx : match ch_tx_freq c with Some t => freq_ok t | None => True end;
  rep_offset : ch_offset c = implied_offset (ch_rx_freq c) (ch_tx_freq c);
  rep_tone : standard_tone (ch_tone c)
}.

(** * Lemmas *)

(** ** The image *)

Lemma write_bytes_length image addr d image' :
  write_bytes image addr d = Some image' -> length (data image') = length (data image).
Proof.
  unfold write_bytes. cbv zeta. split_ifs; intros [= <-]. simpl.
  rewrite !length_app, length_take, length_drop. lia.
Qed.

Lemma clear_slots_length n : forall i image im, clear_slots image i n = Some im -> length (data im) = length (data image).
Proof.
  induction n as [|n IH]; intros i image im; cbn [clear_slots]; [by intros [= <-]|].
  unfold clear_channel. destruct (write_bytes image _ _) as [im1|] eqn:E1; [|done].
  destruct (write_bytes im1 _ _) as [im2|] eqn:E2; [|done]. intros E%IH.
  by rewrite E, (write_bytes_length _ _ _ _ E2), (write_bytes_length _ _ _ _ E1).
Qed.

Lemma encode_channels_length cs : forall image im,
  encode_channels cs image = Some (Ok tt, im) -> length (data im) = length (data image).
Proof.
  induction cs as [|c cs IH]; intros image im; cbn [encode_channels]; [by intros [= <-]|].
  destruct (_ <? _); [|by apply IH]. unfold encode_channel. cbv zeta.
  destruct (channel_slot c _) as [slot|]; [|done].
  destruct (write_bytes image _ slot) as [im1|] eqn:E1; [|done].
  destruct (write_bytes im1 _ _) as [im2|] eqn:E2; [|done].
  intros E%IH. by rewrite E, (write_bytes_length _ _ _ _ E2), (write_bytes_length _ _ _ _ E1).
Qed.

Lemma write_bytes_ok image addr d :
  (Z.to_nat addr + length d <= length (data image))%nat -> is_Some (write_bytes image addr d).
Proof. intros. unfold write_bytes. cbv zeta. by rewrite leb_correct. Qed.

Lemma read_write_same image addr d image' n :
  write_bytes image addr d = Some image' -> (n <= length d)%nat ->
  read_bytes image' addr n = Some (take n d).
Proof.
  intros Hw Hn. pose proof (write_bytes_length _ _ _ _ Hw) as Hlen.
  unfold write_bytes in Hw. cbv zeta in Hw. split_ifs; [|done]. injection Hw as <-.
  unfold read_bytes. cbv zeta. rewrite Hlen, leb_correct by lia. simpl. f_equal.
  rewrite drop_app_length' by (rewrite length_take; lia).
  by rewrite take_app_le.
Qed.

Lemma read_write_other image addr d image' addr2 n :
  write_bytes image addr d = Some image' ->
  (Z.to_nat addr2 + n <= Z.to_nat addr \/ Z.to_nat addr + length d <= Z.to_nat addr2)%nat ->
  read_bytes image' addr2 n = read_bytes image addr2 n.
Proof.
  intros Hw Hd. pose proof (write_bytes_length _ _ _ _ Hw) as Hlen.
  unfold write_bytes in Hw. cbv zeta in Hw. split_ifs; [|done]. injection Hw as <-.
  unfold read_bytes. cbv zeta. rewrite Hlen. simpl.
  destruct (Z.to_nat addr2 + n <=? length (data image))%nat eqn:E; [|done]. f_equal. apply list_eq. intros i.
  destruct (decide (i < n)%nat) as [Hi|Hi]; [|rewrite !lookup_take_ge by lia; done].
  rewrite !lookup_take_lt, !lookup_drop by lia.
  destruct Hd as [Hd|Hd].
  - rewrite lookup_app_l by (rewrite length_take; lia). by rewrite lookup_take_lt by lia.
  - rewrite lookup_app_r by (rewrite length_take; lia). rewrite length_take.
    rewrite lookup_app_r by lia. rewrite lookup_drop. f_equal. lia.
Qed.

(** ** Slots *)

Lemma freq_ok_bytes f :
  freq_ok f -> exists b0 b1 b2 b3, lbcd4_encode f = Ok [b0; b1; b2; b3] /\
    lbcd4_decode [b0; b1; b2; b3] = Ok f /\ b0 <> 0xFF.
Proof.
  intros [Hr Ha]. destruct (lbcd4_encode_decode f) as (b & He & Hl & Hd); [lia|done|].
  destruct b as [|b0 [|b1 [|b2 [|b3 [|]]]]]; try done. exists b0, b1, b2, b3.
  split; [done|]. split; [by rewrite Hd, Z.mod_small by lia|].
  unfold lbcd4_encode in He. rewrite (proj2 (Z.eqb_neq f 0)), Ha in He by lia. simpl negb in He.
  cbv iota in He. apply Ok_inj in He.
  pose proof (lbcd_digits_not_sentinel 4 (f / 10) ltac:(apply Z.div_pos; lia) ltac:(lia)) as F.
  rewrite He in F. by inversion F.
Qed.

Lemma ascii_as_bytes s : Forall (fun c => 0 < c < 0x80) s -> as_bytes s = s.
Proof.
  unfold as_bytes. induction 1 as [|c s Hc _ IH]; simpl; [done|]. rewrite IH. unfold utf8_char.
  by rewrite (proj2 (Z.ltb_lt c 128)) by lia.
Qed.

Lemma decode_name_slot c :
  name_ok (ch_name c) -> decode_name (take NAME_LENGTH (name_slot c)) = ch_name c.
Proof.
  intros (Hascii & Hlen & Htrim). unfold decode_name, name_slot. cbv zeta.
  rewrite ascii_as_bytes by done. rewrite (take_ge (ch_name c)) by done.
  rewrite take_app_ge, (take_replicate) by done. unfold NAME_LENGTH in *.
  replace ((16 - length (ch_name c)) `min` (7 - length (ch_name c)))%nat
    with (7 - length (ch_name c))%nat by lia.
  assert (forall k, take_while (fun b => negb (b =? 255) && negb (b =? 0)) (ch_name c ++ replicate k 255)
                    = ch_name c) as ->; [|done].
  intros k. clear -Hascii. induction Hascii as [|x s Hx _ IH]; simpl.
  - by destruct k.
  - rewrite (proj2 (Z.eqb_neq x 255)), (proj2 (Z.eqb_neq x 0)) by lia. simpl. by rewrite IH.
Qed.

Lemma byte15_bits c :
  bandwidth_from_bit (byte15_of c) = ch_bandwidth c /\ scan_from_bit (byte15_of c) = ch_scan c /\
  bcl_from_bit (byte15_of c) = ch_busy_lock c.
Proof.
  unfold byte15_of. by destruct (ch_bandwidth c), (ch_scan c), (ch_busy_lock c).
Qed.

Lemma power_bits p : power_from_bits (power_to_bits p) = p.
Proof. by destruct p. Qed.

(** A slot written from a representable channel, and how it reads back. *)
Lemma representable_slot c :
  representable c -> exists slot, channel_slot c (ch_index c) = Ok slot /\ length slot = 16%nat /\
  forall image,
    read_bytes image (CHANNEL_BASE + ch_index c * CHANNEL_STRIDE) 16 = Some slot ->
    read_bytes image (NAME_BASE + ch_index c * NAME_STRIDE) NAME_LENGTH
      = Some (take NAME_LENGTH (name_slot c)) ->
    decode_channel image (ch_index c) = Some (Ok (Some c)).
Proof.
  intros [Hidx Hname Hrx Htx Hoff Htone].
  destruct (freq_ok_bytes _ Hrx) as (r0 & r1 & r2 & r3 & Hre & Hrd & Hr0).
  assert (exists t0 t1 t2 t3,
    match ch_tx_freq c with
    | Some tx => map_err (BcdEncode (ch_index c)) (lbcd4_encode tx)
    | None => Ok [0xFF; 0xFF; 0xFF; 0xFF]
    end = Ok [t0; t1; t2; t3] /\
    decode_tx (ch_index c) (ch_rx_freq c) [t0; t1; t2; t3]
      = Ok (ch_tx_freq c, implied_offset (ch_rx_freq c) (ch_tx_freq c)))
    as (t0 & t1 & t2 & t3 & Hte & Htd).
  { destruct (ch_tx_freq c) as [tx|]; [|by exists 255, 255, 255, 255].
    destruct (freq_ok_bytes tx Htx) as (t0 & t1 & t2 & t3 & He & Hd & Ht0).
    exists t0, t1, t2, t3. rewrite He. split; [done|]. unfold decode_tx.
    rewrite bool_decide_false by congruence. rewrite Hd. simpl. by destruct (tx ?= _). }
  eexists. split; [unfold channel_slot; by rewrite Hre; simpl; rewrite Hte|]. split; [done|].
  intros image Hch Hnm. unfold decode_channel. cbv zeta. rewrite Hch, Hnm.
  cbn [byte_at lookup list_lookup default app]. simpl option_map.
  destruct (standard_tone_word (ch_tone c) Htone) as [Hrt Hrng].
  assert (from_le_bytes (to_le_bytes 2 (encode_tone (ch_tone c))) = encode_tone (ch_tone c)) as Hword.
  { apply from_to_le_bytes. change (256 ^ Z.of_nat 2) with 65536. lia. }
  unfold byte_at. simpl. rewrite (proj2 (Z.eqb_neq r0 255)) by done.
  rewrite Hrd. simpl. rewrite Htd. simpl in Hword. rewrite Hword, Hrt.
  rewrite decode_name_slot by done. destruct (byte15_bits c) as (-> & -> & ->).
  rewrite power_bits, <- Hoff. destruct c as [idx nm rx tx off tone pw bw sc bl]; simpl in *.
  by destruct tone.
Qed.

(** The image covers the channel and name tables. *)
Definition image_ok (image : MemoryImage) : Prop := (0x1800 <= length (data image))%nat.

(** Slots are decoded from their own bytes. *)
Lemma decode_channel_frame image image' j :
  read_bytes image' (CHANNEL_BASE + j * CHANNEL_STRIDE) 16
    = read_bytes image (CHANNEL_BASE + j * CHANNEL_STRIDE) 16 ->
  read_bytes image' (NAME_BASE + j * NAME_STRIDE) NAME_LENGTH
    = read_bytes image (NAME_BASE + j * NAME_STRIDE) NAME_LENGTH ->
  decode_channel image' j = decode_channel image j.
Proof. intros H1 H2. unfold decode_channel. cbv zeta. by rewrite H1, H2. Qed.

(** Writing both slots of channel [i] leaves every other channel alone. *)
Lemma write_slots_frame image image1 image2 i j slot name :
  length slot = 16%nat -> length name = 16%nat ->
  write_bytes image (CHANNEL_BASE + i * CHANNEL_STRIDE) slot = Some image1 ->
  write_bytes image1 (NAME_BASE + i * NAME_STRIDE) name = Some image2 ->
  0 <= i < CHANNEL_COUNT -> 0 <= j < CHANNEL_COUNT -> j <> i ->
  decode_channel image2 j = decode_channel image j.
Proof.
  unfold CHANNEL_BASE, CHANNEL_STRIDE, NAME_BASE, NAME_STRIDE, CHANNEL_COUNT.
  intros Hs Hn H1 H2 Hi Hj Hne. apply decode_channel_frame; unfold NAME_LENGTH,
    CHANNEL_BASE, CHANNEL_STRIDE, NAME_BASE, NAME_STRIDE.
  - rewrite (read_write_other _ _ _ _ _ _ H2), (read_write_other _ _ _ _ _ _ H1); [done|lia|lia].
  - rewrite (read_write_other _ _ _ _ _ _ H2), (read_write_other _ _ _ _ _ _ H1); [done|lia|lia].
Qed.

Lemma write_slots_ok image i slot name :
  image_ok image -> 0 <= i < CHANNEL_COUNT -> length slot = 16%nat -> length name = 16%nat ->
  exists image1 image2,
    write_bytes image (CHANNEL_BASE + i * CHANNEL_STRIDE) slot = Some image1 /\
    write_bytes image1 (NAME_BASE + i * NAME_STRIDE) name = Some image2 /\ image_ok image2.
Proof.
  unfold image_ok, CHANNEL_BASE, CHANNEL_STRIDE, NAME_BASE, NAME_STRIDE, CHANNEL_COUNT.
  intros Hl Hi Hs Hn.
  destruct (write_bytes_ok image (0 + i * 16) slot) as [im1 H1]; [lia|].
  pose proof (write_bytes_length _ _ _ _ H1).
  destruct (write_bytes_ok im1 (4096 + i * 16) name) as [im2 H2]; [lia|].
  pose proof (write_bytes_length _ _ _ _ H2). exists im1, im2. split; [done|]. split; [done|]. lia.
Qed.

Lemma length_name_slot c : length (name_slot c) = 16%nat.
Proof.
  unfold name_slot. cbv zeta. rewrite length_app, length_replicate, length_take. unfold NAME_LENGTH. lia.
Qed.

Lemma encode_channel_ok c image :
  representable c -> image_ok image ->
  exists image', encode_channel c image (ch_index c) = Some (Ok tt, image') /\ image_ok image' /\
    decode_channel image' (ch_index c) = Some (Ok (Some c)) /\
    forall j, 0 <= j < CHANNEL_COUNT -> j <> ch_index c ->
      decode_channel image' j = decode_channel image j.
Proof.
  intros Hc Him. pose proof (rep_index c Hc) as Hidx.
  destruct (representable_slot c Hc) as (slot & Hslot & Hlen & Hdec).
  destruct (write_slots_ok image (ch_index c) slot (name_slot c) Him Hidx Hlen (length_name_slot c))
    as (im1 & im2 & H1 & H2 & Him2).
  exists im2. unfold encode_channel. cbv zeta. rewrite Hslot, H1, H2.
  split; [done|]. split; [done|]. split.
  - apply Hdec.
    + rewrite (read_write_other _ _ _ _ _ _ H2).
      * rewrite (read_write_same _ _ _ _ 16 H1) by lia. f_equal. apply take_ge. lia.
      * unfold CHANNEL_BASE, CHANNEL_STRIDE, NAME_BASE, NAME_STRIDE, CHANNEL_COUNT in *. lia.
    + apply (read_write_same _ _ _ _ _ H2). rewrite length_name_slot. unfold NAME_LENGTH. lia.
  - intros j Hj Hne. eapply write_slots_frame; [exact Hlen|apply (length_name_slot c)|exact H1|exact H2|done..].
Qed.

Lemma clear_channel_ok image i :
  image_ok image -> 0 <= i < CHANNEL_COUNT ->
  exists image', clear_channel image i = Some image' /\ image_ok image' /\
    decode_channel image' i = Some (Ok None) /\
    forall j, 0 <= j < CHANNEL_COUNT -> j <> i -> decode_channel image' j = decode_channel image j.
Proof.
  intros Him Hi.
  destruct (write_slots_ok image i (replicate 16 0xFF) (replicate 16 0xFF) Him Hi)
    as (im1 & im2 & H1 & H2 & Him2); [done..|].
  exists im2. unfold clear_channel. rewrite H1. split; [done|]. split; [done|]. split.
  - unfold decode_channel. cbv zeta. rewrite (read_write_other _ _ _ _ _ _ H2).
    + by rewrite (read_write_same _ _ _ _ 16 H1).
    + unfold CHANNEL_BASE, CHANNEL_STRIDE, NAME_BASE, NAME_STRIDE, CHANNEL_COUNT in *. lia.
  - intros j Hj Hne. eapply write_slots_frame; [| |exact H1|exact H2|done..]; done.
Qed.

Lemma clear_slots_ok n i image :
  image_ok image -> 0 <= i -> i + Z.of_nat n <= CHANNEL_COUNT ->
  exists image', clear_slots image i n = Some image' /\ image_ok image' /\
    (forall j, i <= j < i + Z.of_nat n -> decode_channel image' j = Some (Ok None)) /\
    (forall j, 0 <= j < i -> decode_channel image' j = decode_channel image j).
Proof.
  revert i image. induction n as [|n IH]; intros i image Him Hi Hn.
  { exists image. split; [done|]. split; [done|]. split; [intros; lia|done]. }
  destruct (clear_channel_ok image i Him ltac:(lia)) as (im1 & H1 & Him1 & Hi1 & Ho1).
  destruct (IH (i + 1) im1 Him1 ltac:(lia) ltac:(lia)) as (im2 & H2 & Him2 & Hi2 & Ho2).
  exists im2. simpl. rewrite H1. split; [done|]. split; [done|]. split.
  - intros j Hj. destruct (decide (j = i)) as [->|Hne]; [|apply Hi2; lia].
    rewrite Ho2 by lia. done.
  - intros j Hj. rewrite Ho2 by lia. apply Ho1; lia.
Qed.

Lemma encode_channels_ok cs image :
  Forall representable cs -> NoDup (map ch_index cs) -> image_ok image ->
  exists image', encode_channels cs image = Some (Ok tt, image') /\
    forall j, 0 <= j < CHANNEL_COUNT ->
      decode_channel image' j =
      match find (fun c => ch_index c =? j) cs with
      | Some c => Some (Ok (Some c))
      | None => decode_channel image j
      end.
Proof.
  intros Hcs. revert image. induction Hcs as [|c cs Hc Hcs IH]; intros image Hnd Him.
  { by exists image. }
  apply NoDup_cons in Hnd as [Hfresh Hnd].
  pose proof (rep_index c Hc) as Hidx.
  destruct (encode_channel_ok c image Hc Him) as (im1 & H1 & Him1 & Hd1 & Ho1).
  destruct (IH im1 Hnd Him1) as (im2 & H2 & Hall). exists im2. simpl.
  unfold CHANNEL_COUNT in *. rewrite (proj2 (Z.ltb_lt _ _)) by lia.
  assert (as_uint 8 (ch_index c) = ch_index c) as ->.
  { unfold as_uint. apply Z.mod_small. lia. }
  rewrite H1. split; [done|]. intros j Hj. rewrite Hall by done.
  destruct (ch_index c =? j) eqn:E.
  - apply Z.eqb_eq in E as <-. destruct (find _ cs) as [c'|] eqn:Ef; [|done].
    apply find_some in Ef as [Hin Heq]. exfalso. apply Hfresh.
    apply list_elem_of_fmap. exists c'. split; [simpl in Heq; lia|by apply list_elem_of_In].
  - destruct (find _ cs); [done|]. apply Ho1; lia.
Qed.

Lemma decode_slots_spec image f n i :
  (forall j, i <= j < i + Z.of_nat n -> decode_channel image j = Some (Ok (f j))) ->
  decode_slots image i n = Some (Ok (omap f (seqZ i (Z.of_nat n)))).
Proof.
  revert i. induction n as [|n IH]; intros i Hf; [done|]. cbn [decode_slots].
  rewrite Hf by lia. rewrite IH by (intros; apply Hf; lia).
  rewrite (seqZ_cons i) by lia. rewrite Nat2Z.inj_succ, Z.pred_succ.
  replace (Z.succ i) with (i + 1) by lia. simpl. by destruct (f i).
Qed.

(** The channels of an index-sorted list, collected by index, are the list. *)
Lemma omap_find_sorted cs n i :
  StronglySorted (fun a b => ch_index a < ch_index b) cs ->
  Forall (fun c => i <= ch_index c < i + Z.of_nat n) cs ->
  omap (fun j => find (fun c => ch_index c =? j) cs) (seqZ i (Z.of_nat n)) = cs.
Proof.
  revert i cs. induction n as [|n IH]; intros i cs Hs Hr.
  { destruct cs as [|c cs]; [done|]. inversion Hr; lia. }
  rewrite (seqZ_cons i) by lia. rewrite Nat2Z.inj_succ, Z.pred_succ.
  replace (Z.succ i) with (i + 1) by lia. simpl.
  destruct cs as [|c cs].
  { specialize (IH (i + 1) [] ltac:(constructor) ltac:(constructor)). simpl in IH. exact IH. }
  inversion Hs as [|? ? Hs' Hlt]; subst. inversion Hr as [|? ? Hc Hr']; subst. simpl.
  destruct (ch_index c =? i) eqn:E.
  - f_equal. transitivity (omap (fun j => find (fun c => ch_index c =? j) cs) (seqZ (i + 1) (Z.of_nat n))).
    + apply omap_ext_elem. intros j Hj. apply elem_of_seqZ in Hj.
      by rewrite (proj2 (Z.eqb_neq (ch_index c) j)) by lia.
    + apply IH; [done|]. apply Forall_forall. intros x Hx. rewrite Forall_forall in Hlt, Hr'.
      specialize (Hlt x Hx). specialize (Hr' x Hx). lia.
  - assert (find (fun c => ch_index c =? i) cs = None) as ->.
    { destruct (find _ cs) as [x|] eqn:Ef; [|done]. apply find_some in Ef as [Hin Heq].
      rewrite Forall_forall in Hlt. specialize (Hlt x ltac:(by apply list_elem_of_In)). simpl in Heq. lia. }
    apply (IH (i + 1) (c :: cs)); [done|]. constructor; [lia|].
    apply Forall_forall. intros x Hx. rewrite Forall_forall in Hlt, Hr'.
    specialize (Hlt x Hx). specialize (Hr' x Hx). lia.
Qed.

(** A sample channel: 146.94 MHz with a negative offset and a DCS code. *)
Definition sample_channel : Channel :=
  mkChannel 3 [82; 80; 84] 146940000 (Some 146340000) (Minus 600000) (Dcs 23 Normal) Low Wide Skip true.

Lemma sample_channel_representable : representable sample_channel.
Proof.
  constructor; simpl.
  - unfold CHANNEL_COUNT. lia.
  - split; [repeat constructor; lia|]. split; [unfold NAME_LENGTH; simpl; lia|reflexivity].
  - unfold freq_ok. split; [lia|reflexivity].
  - unfold freq_ok. split; [lia|reflexivity].
  - reflexivity.
  - left.
Qed.

Lemma blank_image_ok : image_ok (MemoryImage_new 0x1808).
Proof. unfold image_ok, MemoryImage_new. cbn [data]. rewrite length_replicate. lia. Qed.

(** * Properties *)

(** A channel survives the EEPROM: encoding a representable channel into
    its slot succeeds without panicking, decoding the slot gives the channel
    back in every field, and every other slot decodes as it did before. *)
Theorem channel_slot_roundtrip (c : Channel) (image : MemoryImage) :
  representable c -> image_ok image ->
  exists image', encode_channel c image (ch_index c) = Some (Ok tt, image') /\
    length (data image') = length (data image) /\
    decode_channel image' (ch_index c) = Some (Ok (Some c)) /\
    forall j, 0 <= j < CHANNEL_COUNT -> j <> ch_index c ->
      decode_channel image' j = decode_channel image j.
Proof.
  intros Hc Him. destruct (encode_channel_ok c image Hc Him) as (image' & H1 & _ & H3 & H4).
  exists image'. split; [done|]. split; [|done].
  revert H1. unfold encode_channel. cbv zeta. repeat case_match; try done. intros [= <-].
  match goal with
  | A : write_bytes _ _ _ = Some ?x, B : write_bytes ?x _ _ = Some _ |- _ =>
      apply write_bytes_length in A, B; congruence
  end.
Qed.

Lemma channel_slot_roundtrip_witness :
  exists image',
    encode_channel sample_channel (MemoryImage_new 0x1808) 3 = Some (Ok tt, image') /\
    decode_channel image' 3 = Some (Ok (Some sample_channel)).
Proof.
  destruct (channel_slot_roundtrip sample_channel (MemoryImage_new 0x1808)
              sample_channel_representable blank_image_ok) as (image' & T1 & _ & T3 & _).
  exists image'. split; [exact T1|exact T3].
Defined.

(** A whole plan survives the EEPROM: encoding representable channels in
    ascending index order into any image that covers the tables succeeds, and
    decoding all 128 slots of the result gives exactly those channels, whatever
    the image held before. *)
Theorem plan_roundtrip (cs : list Channel) (image : MemoryImage) :
  Forall representable cs -> StronglySorted (fun a b => ch_index a < ch_index b) cs ->
  image_ok image ->
  exists image', encode_all_channels cs image = Some (Ok tt, image') /\
    decode_all_channels image' = Some (Ok cs).
Proof.
  intros Hcs Hs Him. unfold encode_all_channels.
  destruct (clear_slots_ok (Z.to_nat CHANNEL_COUNT) 0 image Him) as (im1 & -> & Him1 & Hclr & _);
    [lia|unfold CHANNEL_COUNT; lia|].
  assert (NoDup (map ch_index cs)) as Hnd.
  { clear -Hs. induction Hs as [|c cs Hs IH Hlt]; simpl; [constructor|]. constructor; [|done].
    intros Hin. apply list_elem_of_fmap in Hin as (x & Hx & Hin). rewrite Forall_forall in Hlt.
    specialize (Hlt x Hin). lia. }
  destruct (encode_channels_ok cs im1 Hcs Hnd Him1) as (im2 & -> & Hall). exists im2. split; [done|].
  unfold decode_all_channels.
  rewrite (decode_slots_spec im2 (fun j => find (fun c => ch_index c =? j) cs)).
  - rewrite omap_find_sorted; [done|done|]. eapply Forall_impl; [exact Hcs|].
    intros c [Hi _ _ _ _ _]. unfold CHANNEL_COUNT in *. lia.
  - intros j Hj. rewrite Hall by (unfold CHANNEL_COUNT in *; lia).
    destruct (find _ cs); [done|]. apply Hclr. lia.
Qed.

Lemma plan_roundtrip_witness :
  exists image', encode_all_channels [sample_channel] (MemoryImage_new 0x1808) = Some (Ok tt, image') /\
    decode_all_channels image' = Some (Ok [sample_channel]).
Proof.
  apply (plan_roundtrip [sample_channel] (MemoryImage_new 0x1808)).
  - constructor; [exact sample_channel_representable|constructor].
  - repeat constructor.
  - exact blank_image_ok.
Defined.
