(* ===== verification/Validate.v ===== *)
(** * Plan validation (crates/syntonia/src/validate.rs)

    The constraints of a radio model and the issues a channel or a plan raises
    against them. An issue's text is kept as what it reports. *)

From S2P Require Import Prelude Bcd Tone ChannelCodec.

Local Open Scope Z_scope.

Inductive IssueText : Type :=
| RxOutsideBands (index : Z) (f : Frequency)
| TxOutsideBands (index : Z) (f : Frequency)
| NameTooLong (index : Z) (name : list Z) (limit : nat)
| PowerUnsupported (index : Z) (p : PowerLevel)
| IndexTooLarge (index max : Z)
| TooManyChannels (count : nat) (max : Z)
| DuplicateRx (index : Z) (f : Frequency).

Inductive ValidationIssue : Type :=
| VError (t : IssueText)
| VWarning (t : IssueText).

#[export] Instance PowerLevel_eq_dec : EqDecision PowerLevel.
Proof. solve_decision. Defined.

Record RadioConstraints : Type := mkConstraints {
  max_name_length : nat;
  valid_bands : list (Frequency * Frequency);
  power_levels : list PowerLevel;
  max_channels : Z
}.

Definition mhz (n : Z) : Frequency := n * 1000000.

Definition baofeng_uv5r_constraints : RadioConstraints :=
  mkConstraints 7 [(mhz 136, mhz 174); (mhz 400, mhz 520)] [High; Low] 128.
Definition baofeng_f8hp_constraints : RadioConstraints :=
  mkConstraints 7 [(mhz 136, mhz 174); (mhz 400, mhz 520)] [High; Mid; Low] 128.

Definition allows_frequency (k : RadioConstraints) (freq : Frequency) : bool :=
  existsb (fun '(lo, hi) => (lo <=? freq) && (freq <=? hi)) (valid_bands k).
Definition allows_power_level (k : RadioConstraints) (level : PowerLevel) : bool :=
  existsb (fun p => bool_decide (p = level)) (power_levels k).

Definition validate_channel (c : Channel) (k : RadioConstraints) : list ValidationIssue :=
  (if negb (allows_frequency k (ch_rx_freq c))
   then [VError (RxOutsideBands (ch_index c) (ch_rx_freq c))] else [])
  ++ (match ch_tx_freq c with
      | Some tx => if negb (allows_frequency k tx) then [VError (TxOutsideBands (ch_index c) tx)] else []
      | None => []
      end)
  ++ (if (max_name_length k <? length (as_bytes (ch_name c)))%nat
      then [VWarning (NameTooLong (ch_index c) (ch_name c) (max_name_length k))] else [])
  ++ (if negb (allows_power_level k (ch_power c))
      then [VError (PowerUnsupported (ch_index c) (ch_power c))] else [])
  ++ (if max_channels k <=? ch_index c
      then [VError (IndexTooLarge (ch_index c) (max_channels k - 1))] else []).

(** The loop of the duplicate check, with the frequencies already seen. *)
Fixpoint duplicate_rx (seen : gset Z) (cs : list Channel) : list ValidationIssue :=
  match cs with
  | [] => []
  | c :: more =>
      if bool_decide (ch_rx_freq c ∈ seen)
      then VWarning (DuplicateRx (ch_index c) (ch_rx_freq c)) :: duplicate_rx seen more
      else duplicate_rx ({[ch_rx_freq c]} ∪ seen) more
  end.

(** [validate_plan] of a plan's channels. *)
Definition validate_plan (cs : list Channel) (k : RadioConstraints) : list ValidationIssue :=
  (if max_channels k <? Z.of_nat (length cs)
   then [VError (TooManyChannels (length cs) (max_channels k))] else [])
  ++ concat (map (fun c => validate_channel c k) cs)
  ++ duplicate_rx ∅ cs.

Definition is_error (i : ValidationIssue) : bool := match i with VError _ => true | VWarning _ => false end.
Definition accepted (cs : list Channel) (k : RadioConstraints) : Prop :=
  forallb (fun i => negb (is_error i)) (validate_plan cs k) = true.

(** * Lemmas *)

Lemma uv5r_frequency f :
  allows_frequency baofeng_uv5r_constraints f = true <->
  136000000 <= f <= 174000000 \/ 400000000 <= f <= 520000000.
Proof. unfold allows_frequency. simpl. lia. Qed.

Lemma accepted_channel cs k c :
  accepted cs k -> c ∈ cs ->
  allows_frequency k (ch_rx_freq c) = true /\
  match ch_tx_freq c with Some tx => allows_frequency k tx = true | None => True end /\
  ch_index c < max_channels k.
Proof.
  unfold accepted, validate_plan. intros Ha Hc. rewrite forallb_forall in Ha.
  assert (forall i, In i (validate_channel c k) -> is_error i = false) as Hno.
  { intros i Hi. apply negb_true_iff, Ha. apply in_or_app. right. apply in_or_app. left.
    apply in_concat. exists (validate_channel c k). split; [|done].
    apply (in_map (fun c => validate_channel c k)). by apply list_elem_of_In. }
  unfold validate_channel in Hno. setoid_rewrite in_app_iff in Hno.
  setoid_rewrite in_app_iff in Hno. setoid_rewrite in_app_iff in Hno. setoid_rewrite in_app_iff in Hno.
  split; [|split].
  - destruct (allows_frequency k (ch_rx_freq c)); [done|].
    assert (true = false); [|done]. apply (Hno (VError (RxOutsideBands (ch_index c) (ch_rx_freq c)))).
    simpl. tauto.
  - destruct (ch_tx_freq c) as [tx|]; [|done]. destruct (allows_frequency k tx); [done|].
    assert (true = false); [|done]. apply (Hno (VError (TxOutsideBands (ch_index c) tx))). simpl. tauto.
  - destruct (max_channels k <=? ch_index c) eqn:E; [|lia].
    assert (true = false); [|done].
    apply (Hno (VError (IndexTooLarge (ch_index c) (max_channels k - 1)))). simpl. tauto.
Qed.

Lemma aligned_slot c index :
  0 < ch_rx_freq c -> ch_rx_freq c mod 10 = 0 ->
  match ch_tx_freq c with Some tx => 0 < tx /\ tx mod 10 = 0 | None => True end ->
  exists slot, channel_slot c index = Ok slot /\ length slot = 16%nat.
Proof.
  intros Hr Ha Ht. unfold channel_slot.
  destruct (lbcd4_encode_decode (ch_rx_freq c)) as (b & -> & Hb & _); [lia|done|]. simpl.
  destruct (ch_tx_freq c) as [tx|].
  - destruct Ht as [Ht1 Ht2]. destruct (lbcd4_encode_decode tx) as (b' & -> & Hb' & _); [lia|done|].
    simpl. eexists. split; [done|]. rewrite !length_app, Hb, Hb'. done.
  - simpl. eexists. split; [done|]. rewrite !length_app, Hb. done.
Qed.

Lemma encode_channels_aligned cs image :
  image_ok image ->
  Forall (fun c => 0 <= ch_index c < CHANNEL_COUNT /\ 0 < ch_rx_freq c /\ ch_rx_freq c mod 10 = 0 /\
            match ch_tx_freq c with Some tx => 0 < tx /\ tx mod 10 = 0 | None => True end) cs ->
  exists image', encode_channels cs image = Some (Ok tt, image').
Proof.
  intros Him Hcs. revert image Him. induction Hcs as [|c cs (Hi & Hr & Ha & Ht) Hcs IH]; intros image Him.
  { by exists image. }
  simpl. unfold CHANNEL_COUNT in Hi |- *. rewrite (proj2 (Z.ltb_lt _ _)) by lia.
  assert (as_uint 8 (ch_index c) = ch_index c) as ->.
  { unfold as_uint. apply Z.mod_small. lia. }
  destruct (aligned_slot c (ch_index c) Hr Ha Ht) as (slot & Hslot & Hlen).
  destruct (write_slots_ok image (ch_index c) slot (name_slot c) Him) as (im1 & im2 & H1 & H2 & Him2);
    [unfold CHANNEL_COUNT; lia|done|apply length_name_slot|].
  unfold encode_channel. cbv zeta. rewrite Hslot, H1, H2. by apply IH.
Qed.

(** * Properties *)

(** A plan the validator accepts for the UV-5R can be written to it: with
    no validation error and every frequency a multiple of 10 Hz (which the
    validator does not check), encoding the plan neither fails nor panics. *)
Theorem accepted_plan_encodes (cs : list Channel) (image : MemoryImage) :
  accepted cs baofeng_uv5r_constraints -> image_ok image ->
  Forall (fun c => 0 <= ch_index c /\ ch_rx_freq c mod 10 = 0 /\
            match ch_tx_freq c with Some tx => tx mod 10 = 0 | None => True end) cs ->
  exists image', encode_all_channels cs image = Some (Ok tt, image').
Proof.
  intros Hacc Him Hal. unfold encode_all_channels.
  destruct (clear_slots_ok (Z.to_nat CHANNEL_COUNT) 0 image Him) as (im1 & -> & Him1 & _ & _);
    [lia|unfold CHANNEL_COUNT; lia|].
  apply encode_channels_aligned; [done|]. apply Forall_forall. intros c Hc.
  rewrite Forall_forall in Hal. destruct (Hal c Hc) as (Hi & Ha & Ht).
  destruct (accepted_channel _ _ _ Hacc Hc) as (Hrx & Htx & Hidx).
  apply uv5r_frequency in Hrx. unfold CHANNEL_COUNT. simpl in Hidx.
  split; [lia|]. split; [lia|]. split; [done|].
  destruct (ch_tx_freq c); [|done]. apply uv5r_frequency in Htx. split; [lia|done].
Qed.

Lemma accepted_plan_encodes_witness :
  accepted [sample_channel; sample_channel] baofeng_uv5r_constraints /\
  exists image', encode_all_channels [sample_channel; sample_channel] (MemoryImage_new 0x1808)
                 = Some (Ok tt, image').
Proof.
  assert (accepted [sample_channel; sample_channel] baofeng_uv5r_constraints) as Ha by reflexivity.
  split; [exact Ha|].
  apply (accepted_plan_encodes [sample_channel; sample_channel] (MemoryImage_new 0x1808) Ha blank_image_ok).
  repeat constructor; simpl; lia.
Defined.
