(* ===== verification/CsvPlan.v ===== *)
(** * Frequency plans as CHIRP CSV (crates/syntonia/src/import/csv.rs,
      export/csv.rs, csv_formula.rs, plan.rs)

    A plan is written as one record of nineteen cells per channel, and read back
    with warnings for what cannot be represented. The CSV syntax itself is the
    [csv] crate's, the class [CsvFormat]. Text is a list of code points. *)

From Stdlib Require Import SpecFloat.
From S2P Require Import Prelude Float Decimal FloatRound Signal Bcd Tone ChannelCodec Validate.

Local Open Scope Z_scope.

Abbreviation text := (list Z) (only parsing).

(** The reader yields the records after the header; what the writer wrote reads
    back. A record has at least one field. *)
Class CsvFormat (E : Type) : Type := {
  csv_document : list (list text) -> text;
  csv_records : text -> list (result (list text) E);
  csv_reads_back header rows :
    header <> [] -> Forall (fun r => r <> []) rows ->
    csv_records (csv_document (header :: rows)) = map Ok rows }.

(** ** Formula markers (csv_formula.rs) *)

Definition FORMULA_LEADERS : list Z := [61; 43; 45; 64; 9; 13].
Definition GUARD : Z := 39.

Definition needs_guard (first : Z) : bool := (first =? GUARD) || existsb (Z.eqb first) FORMULA_LEADERS.

Definition neutralize (value : text) : text :=
  match value with
  | first :: _ => if needs_guard first then GUARD :: value else value
  | [] => value
  end.

Definition restore (value : text) : text :=
  match value with
  | g :: (c :: _) as rest => if (g =? GUARD) && needs_guard c then tail value else value
  | _ => value
  end.

(** ** Plans (plan.rs) *)

Record FrequencyPlan : Type := mkPlan {
  fp_name : text; fp_radio_model : option text; fp_channels : list Channel; fp_created : option text }.

Definition plan_channel (plan : FrequencyPlan) (index : Z) : option Channel :=
  find (fun ch => ch_index ch =? index) (fp_channels plan).
Definition channel_count (plan : FrequencyPlan) : nat := length (fp_channels plan).

(** ** Export (export/csv.rs) *)

Definition format_mhz (f : Frequency) : text := format_fixed 6 (Signal.as_mhz_f64 (Signal.Hz f)).

Definition csv_header : list text :=
  map byte_str ["Location"; "Name"; "Frequency"; "Duplex"; "Offset"; "Tone"; "rToneFreq"; "cToneFreq";
    "DtcsCode"; "DtcsPolarity"; "Mode"; "TStep"; "Skip"; "Power"; "Comment"; "URCALL"; "RPT1CALL";
    "RPT2CALL"; "DVCODE"]%string.

Definition duplex_cells (ch : Channel) : text * text :=
  match ch_offset ch with
  | OffsetNone =>
      match ch_tx_freq ch with
      | None => (byte_str "off", byte_str "0.000000")
      | Some _ => ([], byte_str "0.000000")
      end
  | Plus off => (byte_str "+", format_mhz off)
  | Minus off => (byte_str "-", format_mhz off)
  | Split tx => (byte_str "split", format_mhz tx)
  end.

Definition tone_cells (tone : ToneMode) : list text :=
  match tone with
  | ToneNone => map byte_str [""; "88.5"; "88.5"; "023"; "NN"]%string
  | Ctcss hz =>
      [byte_str "Tone"; format_fixed 1 hz; format_fixed 1 hz; byte_str "023"; byte_str "NN"]
  | Dcs code polarity =>
      [byte_str "DTCS"; byte_str "88.5"; byte_str "88.5"; pad_zero 3 (show_uint code);
       match polarity with Normal => byte_str "NN" | Inverted => byte_str "RN" end]
  end.

Definition channel_to_record (ch : Channel) : list text :=
  let '(duplex, offset) := duplex_cells ch in
  [show_uint (ch_index ch); neutralize (ch_name ch); format_mhz (ch_rx_freq ch); duplex; offset]
  ++ tone_cells (ch_tone ch)
  ++ [match ch_bandwidth ch with Wide => byte_str "FM" | Narrow => byte_str "NFM" end;
      byte_str "5.00";
      match ch_scan ch with Include => [] | Skip => byte_str "S" end;
      match ch_power ch with High => byte_str "High" | Mid => byte_str "Mid" | Low => byte_str "Low" end;
      []; []; []; []; []].

Definition export_chirp_csv {E} `{CsvFormat E} (plan : FrequencyPlan) : text :=
  csv_document (csv_header :: map channel_to_record (fp_channels plan)).

(** ** Import (import/csv.rs) *)

Inductive ImportWarning : Type :=
| UnsupportedField (row : nat) (field value : text)
| InvalidFrequency (row : nat) (freq : text)
| InvalidOffset (row : nat) (offset : text)
| InvalidLocation (row : nat) (value : text)
| UnknownToneMode (row : nat) (mode : text)
| UnknownPowerLevel (row : nat) (level : text)
| SkippedEmptyRow (row : nat).

Inductive CsvImportError (E : Type) : Type := ReadFile | CsvParse (source : E).
Arguments ReadFile {E}.
Arguments CsvParse {E} _.

(** A value with the warnings pushed while computing it. *)
Definition Warned (A : Type) : Type := A * list ImportWarning.
Definition warned_bind {A B} (m : Warned A) (f : A -> Warned B) : Warned B :=
  let '(a, w) := m in let '(b, w') := f a in (b, w ++ w').
Notation "'let+' x ':=' m 'in' k" := (warned_bind m (fun x => k))
  (at level 10, x pattern, k at level 200) : akroasis_scope.

(** [record.get(idx).unwrap_or(default).trim()]. *)
Definition cell (record : list text) (idx : nat) (dflt : text) : text := trim (default dflt (record !! idx)).
Definition col (record : list text) (idx : nat) : text := cell record idx [].

Definition MAX_FREQ_MHZ : f64 := f64_of_Z 10000.

Definition mhz_to_hz (mhz : f64) : Z := f32_as_uint 64 (f64_mul mhz (f64_of_Z 1000000)).

Definition parse_location (location_str : text) (row : nat) : Warned Z :=
  match parse_uint 16 location_str with
  | Some n => (n, [])
  | None => (0, [InvalidLocation row location_str])
  end.

Definition parse_offset_hz (offset_str : text) (row : nat) : Warned Z :=
  match offset_str with
  | [] => (0, [])
  | _ =>
      match parse_f64 offset_str with
      | Some offset =>
          if f64_leb (f64_abs offset) MAX_FREQ_MHZ then (mhz_to_hz (f64_abs offset), [])
          else (0, [InvalidOffset row offset_str])
      | None => (0, [InvalidOffset row offset_str])
      end
  end.

Definition is_text (s : string) (t : text) : bool := bool_decide (t = byte_str s).

Definition parse_duplex (duplex : text) (rx_freq : Frequency) (offset_hz : Z)
  : option Frequency * FrequencyOffset :=
  if is_text "+" duplex then (Some (saturating_add 64 rx_freq offset_hz), Plus offset_hz)
  else if is_text "-" duplex then (Some (saturating_sub rx_freq offset_hz), Minus offset_hz)
  else if is_text "split" duplex then (Some offset_hz, Split offset_hz)
  else if is_text "off" duplex then (None, OffsetNone)
  else (Some rx_freq, OffsetNone).

Definition parse_ctcss (freq_str : text) (label : string) (row : nat) : Warned ToneMode :=
  let freq := default f32_zero (parse_f32 freq_str) in
  match CtcssTone_new freq with
  | Ok t => (Ctcss t, [])
  | Err _ => (ToneNone, [UnknownToneMode row (byte_str label ++ byte_str " with invalid freq " ++ freq_str)])
  end.

Definition parse_dcs_polarity (pol : text) : DcsPolarity :=
  match pol with 82 :: _ => Inverted | _ => Normal end.

Definition parse_tone (mode rtone ctone dtcs_code dtcs_pol : text) (row : nat) : Warned ToneMode :=
  if is_text "" mode || is_text "none" mode then (ToneNone, [])
  else if is_text "Tone" mode then parse_ctcss rtone "Tone" row
  else if is_text "TSQL" mode then parse_ctcss ctone "TSQL" row
  else if is_text "DTCS" mode then
    let code_val := default 0 (parse_uint 16 dtcs_code) in
    match DcsCode_new code_val with
    | Err _ => (ToneNone, [UnknownToneMode row (byte_str "DTCS with invalid code " ++ dtcs_code)])
    | Ok code => (Dcs code (parse_dcs_polarity dtcs_pol), [])
    end
  else (ToneNone, [UnknownToneMode row mode]).

Definition parse_mode (mode : text) (row : nat) : Warned Bandwidth :=
  if is_text "NFM" mode then (Narrow, [])
  else if is_text "FM" mode then (Wide, [])
  else (Wide, [UnsupportedField row (byte_str "Mode") mode]).

(** [trim_end_matches('w')]. *)
Fixpoint drop_w (l : text) : text :=
  match l with 119 :: r => drop_w r | _ => l end.
Definition trim_end_w (l : text) : text := rev (drop_w (rev l)).

(** No letter outside ASCII lowercases to a text that the match or the number
    parser accepts. *)
Definition parse_power (power : text) (row : nat) : Warned PowerLevel :=
  let lower := map ascii_lower power in
  if is_text "high" lower then (High, [])
  else if is_text "mid" lower || is_text "medium" lower then (Mid, [])
  else if is_text "low" lower then (Low, [])
  else
    match parse_f64 (trim_end_w lower) with
    | Some watts =>
        if f64_leb (f64_of_Z 4) watts then (High, [])
        else if f64_leb (f64_of_Z 2) watts then (Mid, [])
        else (Low, [])
    | None => (High, [UnknownPowerLevel row power])
    end.

Definition dstar_warnings (record : list text) (row : nat) : list ImportWarning :=
  omap (fun '(field_col, field_name) =>
          match col record field_col with
          | [] => None
          | val => Some (UnsupportedField row (byte_str field_name) val)
          end)
    [(15%nat, "URCALL"); (16%nat, "RPT1CALL"); (17%nat, "RPT2CALL"); (18%nat, "DVCODE")]%string.

Definition parse_record (record : list text) (row : nat) : Warned (option Channel) :=
  let freq_str := col record 2 in
  if is_text "" freq_str || is_text "0.000000" freq_str then (None, [SkippedEmptyRow row])
  else
    match parse_f64 freq_str with
    | None => (None, [InvalidFrequency row freq_str])
    | Some freq_mhz =>
        if negb (f64_ltb f64_zero freq_mhz && f64_leb freq_mhz MAX_FREQ_MHZ)
        then (None, [InvalidFrequency row freq_str])
        else
          let rx_freq := mhz_to_hz freq_mhz in
          let+ location := parse_location (col record 0) row in
          let name := restore (col record 1) in
          let duplex := col record 3 in
          let+ offset_hz := parse_offset_hz (col record 4) row in
          let '(tx_freq, offset) := parse_duplex duplex rx_freq offset_hz in
          let+ tone := parse_tone (col record 5) (cell record 6 (byte_str "88.5")) (cell record 7 (byte_str "88.5"))
                         (cell record 8 (byte_str "023")) (cell record 9 (byte_str "NN")) row in
          let+ bandwidth := parse_mode (cell record 10 (byte_str "FM")) row in
          let scan := if is_text "S" (cell record 12 []) then Skip else Include in
          let+ power := parse_power (cell record 13 (byte_str "High")) row in
          (Some (mkChannel location name rx_freq tx_freq offset tone power bandwidth scan false),
           dstar_warnings record row)
    end.

(** The loop over the records: it stops at the first one that does not parse. *)
Fixpoint import_records {E} (row : nat) (records : list (result (list text) E))
  : result (Warned (list Channel)) (CsvImportError E) :=
  match records with
  | [] => Ok ([], [])
  | Err e :: _ => Err (CsvParse e)
  | Ok record :: rest =>
      let '(channel, w) := parse_record record row in
      let? (channels, w') := import_records (S row) rest in
      Ok (match channel with Some ch => ch :: channels | None => channels end, w ++ w')
  end.

Definition import_chirp_csv_reader {E} `{CsvFormat E} (reader : text)
  : result (FrequencyPlan * list ImportWarning) (CsvImportError E) :=
  let? (channels, warnings) := import_records 2 (csv_records reader) in
  Ok (mkPlan [] None channels None, warnings).

(** [None] is a file that cannot be opened. *)
Definition import_chirp_csv {E} `{CsvFormat E} (file : option text)
  : result (FrequencyPlan * list ImportWarning) (CsvImportError E) :=
  match file with
  | None => Err ReadFile
  | Some reader => import_chirp_csv_reader reader
  end.

(** * Lemmas *)

(** ** Cells *)

Lemma trim_start_visible s : Forall (fun c => is_whitespace c = false) s -> trim_start s = s.
Proof. intros [|c l Hc _]; [done|]. cbn. by rewrite Hc. Qed.

Lemma trim_visible s : Forall (fun c => is_whitespace c = false) s -> trim s = s.
Proof.
  intros Hs. unfold trim. rewrite (trim_start_visible s) by done.
  rewrite trim_start_visible by (by apply Forall_rev). apply rev_involutive.
Qed.

Lemma digits_visible s : Forall (fun c => is_digit c = true) s -> Forall (fun c => is_whitespace c = false) s.
Proof. intros Hs. apply (Forall_impl _ _ _ Hs). intros c Hc. unfold is_digit, is_whitespace in *. lia. Qed.

Lemma trim_digits s : Forall (fun c => is_digit c = true) s -> trim s = s.
Proof. intros Hs. by apply trim_visible, digits_visible. Qed.

(** ** Frequencies in megahertz *)

(** A frequency or offset of at most 10 GHz that scales back exactly. *)
Definition mhz_exact (n : Z) : bool := (n <=? 10000 * MILLION) && scales_back n.

Definition mhz_text (n : Z) : text := show_uint (n / MILLION) ++ [46] ++ pad_zero 6 (show_uint (n mod MILLION)).

Lemma mhz_text_visible n : 0 <= n -> trim (mhz_text n) = mhz_text n.
Proof.
  intros Hn. apply trim_visible. pose proof (Z.mod_pos_bound n MILLION ltac:(done)).
  apply Forall_app. split; [apply digits_visible, show_uint_digits, Z.div_pos; done|].
  apply Forall_app. split; [by constructor|]. apply digits_visible, pad_zero_digits, show_uint_digits. lia.
Qed.

Lemma parse_mhz_text n :
  0 <= n -> parse_f64 (mhz_text n) = Some (float_ratio f64_prec f64_emax false n MILLION).
Proof. intros Hn. exact (parse_fixed f64_prec f64_emax 6 n Hn ltac:(done)). Qed.

Lemma format_mhz_text n : 0 < n <= 10000 * MILLION -> format_mhz n = mhz_text n.
Proof.
  intros Hn. unfold format_mhz, as_mhz_f64. apply format_nearest_million; [unfold MILLION in *; lia|].
  apply f64_div_nearest; unfold MILLION in *; cbn [as_hz]; lia.
Qed.

Lemma normal_lt_compare q1 e1 q2 e2 :
  2 ^ 52 <= q1 < 2 ^ 53 -> 2 ^ 52 <= q2 < 2 ^ 53 -> e1 < e2 \/ e1 = e2 /\ q1 <= q2 ->
  SFleb (S754_finite false (Z.to_pos q1) e1) (S754_finite false (Z.to_pos q2) e2) = true.
Proof.
  intros H1 H2 H. unfold SFleb, SFcompare.
  destruct H as [He|[-> Hq]].
  - by rewrite (proj2 (Z.compare_lt_iff _ _) He).
  - rewrite Z.compare_refl. destruct (Pos.compare_cont _ _ _) eqn:E; try done.
    change (Z.pos (Z.to_pos q1) ?= Z.pos (Z.to_pos q2) = Gt) in E.
    rewrite !Z2Pos.id, Z.compare_gt_iff in E by lia. lia.
Qed.

(** A nearest quotient of a number up to ten thousand million is in the accepted
    range. *)
Lemma nearest_million_range x n :
  0 < n <= 10000 * MILLION -> nearest_ratio x n MILLION ->
  f64_ltb f64_zero x = true /\ f64_leb x MAX_FREQ_MHZ = true /\ f64_abs x = x.
Proof.
  intros Hn (q & e & -> & Hq & He & Hnear & Hb).
  assert (MAX_FREQ_MHZ = S754_finite false (Z.to_pos (10000 * 2 ^ 39)) (-39)) as -> by (vm_compute; reflexivity).
  assert (q <= 10000 * 2 ^ (- e)) as Hq10 by (unfold MILLION in *; nia).
  assert (e < -39 \/ e = -39 /\ q < 2 ^ 53) as Hcase.
  { destruct (decide (-38 <= e)) as [Hge|]; [|destruct (decide (e = -39)) as [->|]; [right; lia|left; lia]].
    exfalso. assert (2 ^ (- e) <= 2 ^ 38) by (apply Z.pow_le_mono_r; lia). lia. }
  unfold normal. destruct (q =? 2 ^ 53) eqn:E; split_and!; try done.
  - apply normal_lt_compare; lia.
  - apply normal_lt_compare; [lia|lia|]. destruct Hcase as [?|[-> ?]]; [by left|right; lia].
Qed.

Lemma mhz_exact_spec n : 0 < n -> mhz_exact n = true -> 0 < n <= 10000 * MILLION /\ scales_back n = true.
Proof. unfold mhz_exact. intros Hn H. apply andb_true_iff in H as [H1 H2]. split; [lia|done]. Qed.

Lemma mhz_to_hz_ratio n :
  0 < n -> mhz_exact n = true -> mhz_to_hz (float_ratio f64_prec f64_emax false n MILLION) = n.
Proof.
  intros Hn H. apply mhz_exact_spec in H as [Hr Hs]; [|done]. unfold MILLION in Hr.
  apply million_roundtrip; [lia|apply float_ratio_nearest; unfold MILLION; lia|done].
Qed.

Lemma parse_offset_exact n row :
  0 <= n -> mhz_exact n = true \/ n = 0 -> parse_offset_hz (trim (format_mhz n)) row = (n, []).
Proof.
  intros Hn H. destruct (decide (n = 0)) as [->|Hne]; [vm_compute; reflexivity|].
  destruct H as [H|]; [|done]. destruct (mhz_exact_spec n ltac:(lia) H) as [Hr Hs].
  rewrite format_mhz_text, mhz_text_visible by lia.
  unfold parse_offset_hz. destruct (mhz_text n) as [|c l] eqn:E.
  { exfalso. pose proof (parse_mhz_text n Hn) as Hp. rewrite E in Hp. done. }
  rewrite <- E, parse_mhz_text by done.
  destruct (nearest_million_range (float_ratio f64_prec f64_emax false n MILLION) n) as (_ & Hle & ->);
    [done|apply float_ratio_nearest; unfold MILLION in *; lia|].
  rewrite Hle, mhz_to_hz_ratio by (done || lia). done.
Qed.

(** ** Tones *)

Lemma csv_tone_table :
  forallb (fun n => match parse_tone (byte_str "Tone") (trim (format_fixed 1 (f32_tenths n))) [] [] [] 0 with
                    | (Ctcss t, []) => bool_decide (t = f32_tenths n)
                    | _ => false
                    end) ALL_CTCSS_TENTHS = true.
Proof. vm_compute. reflexivity. Qed.

Lemma csv_code_table :
  forallb (fun c => bool_decide (parse_uint 16 (trim (pad_zero 3 (show_uint c))) = Some c)) ALL_DCS_CODES = true.
Proof. vm_compute. reflexivity. Qed.

Lemma DcsCode_new_standard code : code ∈ ALL_DCS_CODES -> DcsCode_new code = Ok code.
Proof.
  intros Hc. unfold DcsCode_new. replace (existsb _ _) with true; [done|]. symmetry.
  apply existsb_exists. exists code. split; [by apply list_elem_of_In|lia].
Qed.

Lemma parse_tone_cells tone row :
  standard_tone tone ->
  exists mode rtone ctone code pol, tone_cells tone = [mode; rtone; ctone; code; pol] /\
    parse_tone (trim mode) (trim rtone) (trim ctone) (trim code) (trim pol) row = (tone, []).
Proof.
  intros Ht. unfold tone_cells. destruct tone as [|hz|code pol].
  - do 5 eexists. split; [reflexivity|]. vm_compute. reflexivity.
  - do 5 eexists. split; [reflexivity|]. cbn [standard_tone] in Ht.
    apply list_elem_of_fmap in Ht as (n & -> & Hn). apply list_elem_of_In in Hn.
    pose proof (proj1 (forallb_forall _ _) csv_tone_table n Hn) as H. cbv beta in H.
    change (trim (byte_str "Tone")) with (byte_str "Tone").
    unfold parse_tone in *. change (is_text "" (byte_str "Tone") || is_text "none" (byte_str "Tone")) with false in *.
    change (is_text "Tone" (byte_str "Tone")) with true in *. cbv iota in H |- *.
    unfold parse_ctcss in *. destruct (CtcssTone_new _) as [t|e]; [|done]. case_bool_decide; [by subst|done].
  - do 5 eexists. split; [reflexivity|]. cbn [standard_tone] in Ht.
    pose proof (proj1 (forallb_forall _ _) csv_code_table code (proj1 (list_elem_of_In _ _) Ht)) as H.
    apply bool_decide_eq_true in H.
    change (trim (byte_str "DTCS")) with (byte_str "DTCS"). unfold parse_tone.
    change (is_text "" (byte_str "DTCS") || is_text "none" (byte_str "DTCS")) with false.
    change (is_text "Tone" (byte_str "DTCS")) with false. change (is_text "TSQL" (byte_str "DTCS")) with false.
    change (is_text "DTCS" (byte_str "DTCS")) with true. cbv iota zeta.
    rewrite H. cbn [default]. unfold default, from_option, id. rewrite DcsCode_new_standard by done.
    by destruct pol.
Qed.

(** ** Names *)

Lemma restore_neutralize name : restore (neutralize name) = name.
Proof.
  destruct name as [|c r]; [done|]. cbn [neutralize]. destruct (needs_guard c) eqn:E.
  - cbn [restore]. by rewrite E, Z.eqb_refl.
  - destruct r as [|c' r]; [done|]. cbn [restore]. destruct (c =? GUARD) eqn:Eg; [|done].
    unfold needs_guard in E. by rewrite Eg in E.
Qed.

Lemma neutralize_inert name c r : neutralize name = c :: r -> c ∉ FORMULA_LEADERS.
Proof.
  destruct name as [|d name]; [done|]. cbn [neutralize]. intros H.
  destruct (needs_guard d) eqn:E; injection H as <- <-.
  - unfold FORMULA_LEADERS, GUARD. set_solver by lia.
  - intros Hin. unfold needs_guard in E. apply orb_false_iff in E as [_ E].
    apply not_true_iff_false in E. apply E, existsb_exists. exists d. split; [by apply list_elem_of_In|lia].
Qed.

(** ** Channels *)

(** The channels the format represents: a slot number of sixteen bits, a name
    without blanks at its ends, frequencies that scale back, a transmit frequency
    that agrees with the offset, a standard tone, no busy lock. *)
Record csv_channel (ch : Channel) : Prop := mkCsvChannel {
  cc_index : is_uint 16 (ch_index ch);
  cc_name : trim (neutralize (ch_name ch)) = neutralize (ch_name ch);
  cc_rx : 0 < ch_rx_freq ch /\ mhz_exact (ch_rx_freq ch) = true;
  cc_offset :
    match ch_offset ch with
    | OffsetNone => ch_tx_freq ch = None \/ ch_tx_freq ch = Some (ch_rx_freq ch)
    | Plus f => (0 <= f /\ (mhz_exact f = true \/ f = 0)) /\ ch_tx_freq ch = Some (ch_rx_freq ch + f)
    | Minus f => (0 <= f /\ (mhz_exact f = true \/ f = 0)) /\ ch_tx_freq ch = Some (saturating_sub (ch_rx_freq ch) f)
    | Split f => (0 <= f /\ (mhz_exact f = true \/ f = 0)) /\ ch_tx_freq ch = Some f
    end;
  cc_tone : standard_tone (ch_tone ch);
  cc_busy : ch_busy_lock ch = false }.

Lemma parse_duplex_cells ch row :
  csv_channel ch ->
  exists hz, parse_offset_hz (trim (duplex_cells ch).2) row = (hz, []) /\
    parse_duplex (trim (duplex_cells ch).1) (ch_rx_freq ch) hz = (ch_tx_freq ch, ch_offset ch).
Proof.
  intros [_ _ [Hrx0 Hrx] Hoff _ _]. destruct (mhz_exact_spec _ Hrx0 Hrx) as [Hr _]. unfold duplex_cells.
  destruct (ch_offset ch) as [|f|f|f].
  - exists 0. destruct Hoff as [-> | ->]; split; vm_compute; reflexivity.
  - destruct Hoff as [[Hf He] ->]. exists f. cbn [fst snd]. split; [by apply parse_offset_exact|].
    unfold parse_duplex. change (is_text "+" (trim (byte_str "+"))) with true. cbv iota.
    unfold saturating_add, uint_max, mhz_exact, MILLION in *. do 2 f_equal. lia.
  - destruct Hoff as [[Hf He] ->]. exists f. cbn [fst snd]. split; [by apply parse_offset_exact|]. reflexivity.
  - destruct Hoff as [[Hf He] ->]. exists f. cbn [fst snd]. split; [by apply parse_offset_exact|]. reflexivity.
Qed.

Lemma not_zero_text n : 0 < n <= 10000 * MILLION -> is_text "" (mhz_text n) || is_text "0.000000" (mhz_text n) = false.
Proof.
  intros Hn. pose proof (parse_mhz_text n ltac:(lia)) as Hp.
  destruct (float_ratio_nearest n MILLION) as (q & e & Hx & _); [unfold MILLION in *; lia..|].
  apply orb_false_iff. split; unfold is_text; apply bool_decide_eq_false; intros E; rewrite E in Hp;
    rewrite Hx in Hp; unfold normal in Hp; destruct (q =? 2 ^ 53); vm_compute in Hp; discriminate.
Qed.

Lemma parse_channel_record ch row : csv_channel ch -> parse_record (channel_to_record ch) row = (Some ch, []).
Proof.
  intros Hch. destruct Hch as [Hidx Hname [Hrx0 Hrx] Hoff Htone Hbusy] eqn:HC. clear HC.
  destruct (mhz_exact_spec _ Hrx0 Hrx) as [Hr _].
  destruct (parse_tone_cells (ch_tone ch) row Htone) as (mode & rtone & ctone & code & pol & Hcells & Hpt).
  destruct (parse_duplex_cells ch row Hch) as (hz & Hpo & Hpd).
  unfold channel_to_record. destruct (duplex_cells ch) as [duplex offset]. cbn [fst snd] in Hpo, Hpd.
  rewrite Hcells. unfold parse_record, col, cell, dstar_warnings, col, cell.
  cbn [app lookup list_lookup default from_option id omap list_omap].
  rewrite format_mhz_text, mhz_text_visible by lia.
  rewrite not_zero_text, parse_mhz_text by lia.
  destruct (nearest_million_range (float_ratio f64_prec f64_emax false (ch_rx_freq ch) MILLION) (ch_rx_freq ch))
    as (Hlt & Hle & _); [done|apply float_ratio_nearest; unfold MILLION in *; lia|].
  rewrite Hlt, Hle, mhz_to_hz_ratio by done. cbn [andb negb].
  unfold parse_location. rewrite trim_digits by (apply show_uint_digits; destruct Hidx; lia).
  rewrite parse_show_uint by done. rewrite Hpo. cbn [warned_bind]. rewrite Hpd, Hpt, Hname, restore_neutralize.
  destruct ch as [idx name rx tx off tone power bw scan busy]. cbn in *. subst busy.
  by destruct power, bw, scan.
Qed.

Lemma import_channel_records {E} row chs :
  Forall csv_channel chs ->
  import_records (E := E) row (map Ok (map channel_to_record chs)) = Ok (chs, []).
Proof.
  intros H. revert row. induction H as [|ch chs Hch _ IH]; intros row; [done|].
  cbn [map import_records]. by rewrite parse_channel_record, IH.
Qed.

(** * Theorems *)

Section Csv.
Context {E : Type} `{CsvFormat E}.

(** C35. CSV round trip: a plan whose channels the format can represent, and whose
    frequencies scale back from megahertz, is read back channel by channel as it was
    exported, without a warning. *)
Theorem csv_plan_roundtrip plan :
  Forall csv_channel (fp_channels plan) ->
  import_chirp_csv_reader (export_chirp_csv plan) = Ok (mkPlan [] None (fp_channels plan) None, []).
Proof.
  intros Hch. unfold import_chirp_csv_reader, export_chirp_csv. rewrite csv_reads_back; [|done|].
  - by rewrite import_channel_records.
  - apply Forall_forall. intros r Hr. apply list_elem_of_fmap in Hr as (ch & -> & _).
    unfold channel_to_record. by destruct (duplex_cells ch).
Qed.

(** Two plans that differ in a name are exported differently, and no name cell
    begins with a character that starts a formula. *)
Theorem exported_names_inert name1 name2 :
  (neutralize name1 = neutralize name2 -> name1 = name2) /\
  (forall c r, neutralize name1 = c :: r -> c ∉ FORMULA_LEADERS).
Proof.
  split; [|apply neutralize_inert]. intros Heq.
  by rewrite <- (restore_neutralize name1), Heq, restore_neutralize.
Qed.

End Csv.

(** The frequencies of the UV-5R's bands below 512 MHz scale back. *)
Lemma band_frequency_exact n :
  136 * MILLION <= n <= 174 * MILLION \/ 400 * MILLION <= n < 512 * MILLION -> mhz_exact n = true.
Proof.
  unfold mhz_exact, scales_back, MILLION. intros [Hn|Hn].
  - replace (Z.log2 n) with 27 by (symmetry; apply Z.log2_unique; lia). lia.
  - replace (Z.log2 n) with 28 by (symmetry; apply Z.log2_unique; lia). lia.
Qed.

Definition simplex_channel (hz : Z) : Channel :=
  mkChannel 1 (byte_str "=UHF") hz (Some hz) OffsetNone (Ctcss (f32_tenths 1035)) High Narrow Include false.

(** The import truncates: a plan with a channel at 512.035 MHz is accepted for the
    UV-5R and encodes, but after export and import the channel is one hertz low,
    without a warning, and no longer encodes. *)
Theorem csv_import_loses_hertz {E} `{CsvFormat E} :
  let plan hz := mkPlan [] None [simplex_channel hz] None in
  accepted (fp_channels (plan 512035000)) baofeng_uv5r_constraints /\
  (exists image, encode_all_channels (fp_channels (plan 512035000)) (MemoryImage_new 0x1808) = Some (Ok tt, image)) /\
  import_chirp_csv_reader (export_chirp_csv (plan 512035000)) = Ok (plan 512034999, []) /\
  exists image, encode_all_channels (fp_channels (plan 512034999)) (MemoryImage_new 0x1808)
                = Some (Err (BcdEncode 1 (NotAligned 512034999)), image).
Proof.
  cbv zeta. split; [reflexivity|]. split; [eexists; vm_compute; reflexivity|].
  split; [|eexists; vm_compute; reflexivity].
  unfold import_chirp_csv_reader, export_chirp_csv. cbn [fp_channels map].
  rewrite csv_reads_back; [|done|by repeat constructor]. vm_compute. reflexivity.
Qed.

(** * RFC 4180 as an instance of the format *)

Module Rfc4180.

Definition COMMA : Z := 44.
Definition QUOTE : Z := 34.
Definition LF : Z := 10.

Definition special (c : Z) : bool := (c =? COMMA) || (c =? QUOTE) || (c =? LF) || (c =? 13).

Definition escape (f : text) : text := concat (map (fun c => if c =? QUOTE then [QUOTE; QUOTE] else [c]) f).
Definition write_field (f : text) : text :=
  if existsb special f then [QUOTE] ++ escape f ++ [QUOTE] else f.

Fixpoint write_record (r : list text) : text :=
  match r with
  | [] => []
  | [f] => write_field f ++ [LF]
  | f :: r => write_field f ++ [COMMA] ++ write_record r
  end.

Inductive ReadState : Type := Plain | Quoted | Closing.

(** [field] is the field read so far and [row] the fields before it. *)
Fixpoint read (st : ReadState) (field : text) (row : list text) (l : text) : list (list text) :=
  match l with
  | [] => match row, field with [], [] => [] | _, _ => [row ++ [field]] end
  | c :: l =>
      match st with
      | Quoted => if c =? QUOTE then read Closing field row l else read Quoted (field ++ [c]) row l
      | _ =>
          if c =? COMMA then read Plain [] (row ++ [field]) l
          else if c =? LF then (row ++ [field]) :: read Plain [] [] l
          else if c =? QUOTE then
            match st, field with
            | Closing, _ => read Quoted (field ++ [QUOTE]) row l
            | _, [] => read Quoted field row l
            | _, _ => read st (field ++ [c]) row l
            end
          else read st (field ++ [c]) row l
      end
  end.

Lemma read_plain f : forall acc row l, existsb special f = false ->
  read Plain acc row (f ++ l) = read Plain (acc ++ f) row l.
Proof.
  induction f as [|c f IH]; intros acc row l Hf; [by rewrite app_nil_r|].
  cbn [existsb] in Hf. apply orb_false_iff in Hf as [Hc Hf]. unfold special in Hc.
  cbn [app read]. replace (c =? COMMA) with false by lia. replace (c =? LF) with false by lia.
  replace (c =? QUOTE) with false by lia. rewrite IH by done. by rewrite <- app_assoc.
Qed.

Lemma read_quoted f : forall acc row l,
  read Quoted acc row (escape f ++ QUOTE :: l) = read Closing (acc ++ f) row l.
Proof.
  induction f as [|c f IH]; intros acc row l; [by rewrite app_nil_r|].
  unfold escape. cbn [map concat]. fold (escape f). destruct (c =? QUOTE) eqn:Ec.
  - replace c with QUOTE by lia. cbn [app read]. change (QUOTE =? QUOTE) with true. cbv iota.
    change (QUOTE =? COMMA) with false. change (QUOTE =? LF) with false. cbv iota.
    rewrite IH. by rewrite <- app_assoc.
  - cbn [app read]. rewrite Ec, IH. by rewrite <- app_assoc.
Qed.

Lemma read_field f row l c :
  c = COMMA \/ c = LF ->
  read Plain [] row (write_field f ++ c :: l)
  = if c =? COMMA then read Plain [] (row ++ [f]) l else (row ++ [f]) :: read Plain [] [] l.
Proof.
  intros Hc. unfold write_field. destruct (existsb special f) eqn:E.
  - cbn [app read]. change (QUOTE =? COMMA) with false. change (QUOTE =? LF) with false.
    change (QUOTE =? QUOTE) with true. cbv iota. rewrite <- app_assoc. cbn [app]. rewrite read_quoted.
    by destruct Hc as [-> | ->].
  - rewrite read_plain by done. cbn [app]. by destruct Hc as [-> | ->].
Qed.

Lemma read_record r : forall row l, r <> [] ->
  read Plain [] row (write_record r ++ l) = (row ++ r) :: read Plain [] [] l.
Proof.
  induction r as [|f r IH]; intros row l Hr; [done|]. destruct r as [|g r].
  - cbn [write_record]. rewrite <- app_assoc. cbn [app]. by rewrite read_field by auto.
  - change (write_record (f :: g :: r)) with (write_field f ++ [COMMA] ++ write_record (g :: r)).
    rewrite <- !app_assoc. cbn [app]. rewrite read_field by auto. change (COMMA =? COMMA) with true. cbv iota.
    rewrite IH by done. by rewrite <- app_assoc.
Qed.

Lemma read_document rows : Forall (fun r => r <> []) rows ->
  read Plain [] [] (concat (map write_record rows)) = rows.
Proof.
  induction 1 as [|r rows Hr _ IH]; [done|]. cbn [map concat]. rewrite read_record by done. by rewrite IH.
Qed.

Lemma reads_back header rows :
  header <> [] -> Forall (fun r => r <> []) rows ->
  map (Ok (E := Empty_set)) (tail (read Plain [] [] (concat (map write_record (header :: rows))))) = map Ok rows.
Proof. intros Hh Hr. rewrite read_document; [done|by constructor]. Qed.

#[local] Instance rfc4180 : CsvFormat Empty_set := {
  csv_document rows := concat (map write_record rows);
  csv_records l := map Ok (tail (read Plain [] [] l));
  csv_reads_back := reads_back }.

Definition repeater : Channel :=
  mkChannel 12 [65; 44; 34; 66; 34] 146940000 (Some 146340000) (Minus 600000) (Dcs 23 Inverted) Low Wide Skip false.

Lemma csv_plan_roundtrip_witness :
  Forall csv_channel [simplex_channel 446006250; repeater] /\
  import_chirp_csv_reader (E := Empty_set) (export_chirp_csv (mkPlan [] None [simplex_channel 446006250; repeater] None))
  = Ok (mkPlan [] None [simplex_channel 446006250; repeater] None, []).
Proof.
  assert (Forall csv_channel [simplex_channel 446006250; repeater]) as H.
  { constructor; [|constructor; [|constructor]]; constructor.
    all: try (vm_compute; reflexivity).
    all: try (apply (bool_decide_unpack _); vm_compute; exact I).
    all: unfold is_uint; cbn; split; try lia; try (vm_compute; reflexivity).
  }
  split; [exact H|]. exact (csv_plan_roundtrip (mkPlan [] None [simplex_channel 446006250; repeater] None) H).
Defined.

End Rfc4180.
