(* ===== verification/ImgImport.v ===== *)
(** * Image files (crates/syntonia/src/import/img.rs)

    Importing a CHIRP [.img] file: an eight byte header and the EEPROM of a radio with
    or without the auxiliary block. The file system gives the size of a file and its
    contents, each or an I/O error. *)

From S2P Require Import Prelude Bcd Tone ChannelCodec CsvPlan.

Local Open Scope Z_scope.

Abbreviation text := (list Z) (only parsing).

Definition UV5R_STANDARD_SIZE : nat := Z.to_nat 0x1808.
Definition UV5R_AUX_SIZE : nat := Z.to_nat 0x1C08.
Definition IDENT_HEADER_LEN : nat := 8.

Inductive ImgImportError (IoErr : Type) : Type :=
| ImgReadFile (path : text) (source : IoErr)
| UnsupportedImageSize (size : Z)
| ImgCodec (source : CodecError).
Arguments ImgReadFile {IoErr} _ _.
Arguments UnsupportedImageSize {IoErr} _.
Arguments ImgCodec {IoErr} _.

Section ImageFiles.
Context {IoErr : Type}.

(** [None] is a panic. *)
Definition import_img_bytes (d : bytes) : option (result FrequencyPlan (ImgImportError IoErr)) :=
  let decode model :=
    match decode_all_channels (mkImage (drop IDENT_HEADER_LEN d)) with
    | None => None
    | Some r => Some (let? channels := map_err ImgCodec r in Ok (mkPlan [] (Some (byte_str model)) channels None))
    end in
  if (length d =? UV5R_STANDARD_SIZE)%nat then decode "UV-5R"%string
  else if (length d =? UV5R_AUX_SIZE)%nat then decode "UV-5R (aux)"%string
  else Some (Err (UnsupportedImageSize (Z.of_nat (length d)))).

(** [metadata] is the length the directory entry gives, [read] the bytes read after it;
    a [u64] that is no [usize] counts as the largest. *)
Definition import_img (path : text) (metadata : result Z IoErr) (read : result bytes IoErr)
  : option (result FrequencyPlan (ImgImportError IoErr)) :=
  match metadata with
  | Err e => Some (Err (ImgReadFile path e))
  | Ok size =>
      if negb (size =? Z.of_nat UV5R_STANDARD_SIZE) && negb (size =? Z.of_nat UV5R_AUX_SIZE)
      then Some (Err (UnsupportedImageSize size))
      else
        match read with
        | Err e => Some (Err (ImgReadFile path e))
        | Ok d => import_img_bytes d
        end
  end.

(** * Lemmas *)

Lemma decode_channel_total image i : image_ok image -> 0 <= i < CHANNEL_COUNT -> is_Some (decode_channel image i).
Proof.
  unfold image_ok, CHANNEL_COUNT. intros Him Hi. unfold decode_channel. cbv zeta.
  assert (forall addr n, 0 <= addr -> (Z.to_nat addr + n <= length (data image))%nat -> is_Some (read_bytes image addr n)) as Hr.
  { intros addr n _ Hl. unfold read_bytes. cbv zeta. rewrite leb_correct by done. by eexists. }
  destruct (Hr (CHANNEL_BASE + i * CHANNEL_STRIDE) 16%nat) as [ch ->];
    [unfold CHANNEL_BASE, CHANNEL_STRIDE; lia..|].
  destruct (Hr (NAME_BASE + i * NAME_STRIDE) NAME_LENGTH) as [nm ->];
    [unfold NAME_BASE, NAME_STRIDE, NAME_LENGTH; lia..|].
  destruct (byte_at ch 0 =? 0xFF); [by eexists|]. destruct (map_err _ _) as [rx|]; [|by eexists].
  destruct (decode_tx _ _ _) as [[tx off]|]; by eexists.
Qed.

Lemma decode_slots_total image : image_ok image -> forall n i,
  0 <= i -> i + Z.of_nat n <= CHANNEL_COUNT -> is_Some (decode_slots image i n).
Proof.
  intros Him. induction n as [|n IH]; intros i Hi Hn; cbn [decode_slots]; [by eexists|].
  destruct (decode_channel_total image i Him) as [[[slot|]|e] ->]; [lia| | |by eexists];
    destruct (IH (i + 1)) as [[more|e] ->]; try lia; by eexists.
Qed.

Lemma img_size_ok d : length d = UV5R_STANDARD_SIZE \/ length d = UV5R_AUX_SIZE -> image_ok (mkImage (drop IDENT_HEADER_LEN d)).
Proof.
  unfold image_ok. cbn [data]. rewrite length_drop. unfold UV5R_STANDARD_SIZE, UV5R_AUX_SIZE, IDENT_HEADER_LEN. lia.
Qed.

Lemma decode_supported d : length d = UV5R_STANDARD_SIZE \/ length d = UV5R_AUX_SIZE ->
  is_Some (decode_all_channels (mkImage (drop IDENT_HEADER_LEN d))).
Proof. intros Hd%img_size_ok. by apply decode_slots_total. Qed.

(** The outcome for every file, also one that changes between the two reads. *)
Lemma import_img_outcome path metadata read :
  exists r, import_img path metadata read = Some r /\
    match r with
    | Ok plan => exists size d channels, metadata = Ok size /\ read = Ok d /\
        (length d = UV5R_STANDARD_SIZE \/ length d = UV5R_AUX_SIZE) /\
        decode_all_channels (mkImage (drop IDENT_HEADER_LEN d)) = Some (Ok channels) /\ fp_channels plan = channels
    | Err (ImgReadFile p e) => p = path /\ (metadata = Err e \/ read = Err e)
    | Err (UnsupportedImageSize size) => size <> Z.of_nat UV5R_STANDARD_SIZE /\ size <> Z.of_nat UV5R_AUX_SIZE
    | Err (ImgCodec e) => exists d, read = Ok d /\ decode_all_channels (mkImage (drop IDENT_HEADER_LEN d)) = Some (Err e)
    end.
Proof.
  unfold import_img. destruct metadata as [size|e]; [|eexists; split; [done|]; cbn; auto].
  destruct (negb _ && negb _) eqn:Es.
  { apply andb_true_iff in Es as [E1%negb_true_iff%Z.eqb_neq E2%negb_true_iff%Z.eqb_neq]. by eexists. }
  destruct read as [d|e]; [|eexists; split; [done|]; cbn; auto]. unfold import_img_bytes.
  destruct (length d =? UV5R_STANDARD_SIZE)%nat eqn:E1; [|destruct (length d =? UV5R_AUX_SIZE)%nat eqn:E2].
  3: { apply Nat.eqb_neq in E1, E2. eexists. split; [done|]. cbn beta iota. lia. }
  all: destruct (decode_supported d) as [[channels|e] E]; rewrite ?Nat.eqb_eq in *; [by auto| |];
    rewrite E; cbn [map_err result_bind]; eexists; (split; [done|]); cbn beta iota; eauto 10.
Qed.
End ImageFiles.

(** * Properties *)

(** C34. A plan survives an image file: encoding representable channels in ascending
    order into the memory of a radio, whatever it held, and importing the file of any
    eight byte header and that memory gives exactly those channels and names the
    radio by the size; and importing never panics, on any file. *)
Theorem img_file_roundtrip {IoErr : Type} (cs : list Channel) (image : MemoryImage) (header : bytes) (aux : bool) :
  Forall representable cs -> StronglySorted (fun a b => ch_index a < ch_index b) cs ->
  length (data image) = Z.to_nat (if aux then 0x1C00 else 0x1800) -> length header = IDENT_HEADER_LEN ->
  (exists image', encode_all_channels cs image = Some (Ok tt, image') /\
     import_img_bytes (IoErr := IoErr) (header ++ data image') =
     Some (Ok (mkPlan [] (Some (byte_str (if aux then "UV-5R (aux)" else "UV-5R")%string)) cs None))) /\
  forall path metadata read, is_Some (import_img (IoErr := IoErr) path metadata read).
Proof.
  intros Hcs Hs Hl Hh. split; [|intros; destruct (import_img_outcome path metadata read) as (r & -> & _); by eexists].
  assert (image_ok image) as Him by (unfold image_ok; rewrite Hl; destruct aux; lia).
  destruct (plan_roundtrip cs image Hcs Hs Him) as (image' & He & Hd). exists image'. split; [done|].
  assert (length (data image') = length (data image)) as Hl'.
  { unfold encode_all_channels in He. destruct (clear_slots _ _ _) as [im|] eqn:Ec; [|done].
    by rewrite (encode_channels_length _ _ _ He), (clear_slots_length _ _ _ _ Ec). }
  unfold import_img_bytes. rewrite length_app, Hh, Hl', Hl.
  replace (drop IDENT_HEADER_LEN (header ++ data image')) with (data image') by (by rewrite <- Hh, drop_app_length).
  destruct image' as [m]. cbn [data] in *. rewrite Hd. by destruct aux.
Qed.

Lemma img_file_roundtrip_witness :
  exists image', encode_all_channels [sample_channel] (MemoryImage_new 0x1C00) = Some (Ok tt, image') /\
    import_img_bytes (IoErr := unit) (repeat 0xAA 8 ++ data image') =
    Some (Ok (mkPlan [] (Some (byte_str "UV-5R (aux)")) [sample_channel] None)).
Proof.
  refine (proj1 (img_file_roundtrip (IoErr := unit) [sample_channel] (MemoryImage_new 0x1C00) (repeat 0xAA 8) true _ _ _ _)).
  - constructor; [exact sample_channel_representable|constructor].
  - repeat constructor.
  - apply length_replicate.
  - reflexivity.
Defined.
