(* ===== verification/Variant.v ===== *)
(** * Radio variants (crates/syntonia/src/baofeng/variant.rs, ident.rs)

    The identification response of a UV-5R family radio and the configuration
    chosen from it. *)

From S2P Require Import Prelude Float ChannelCodec.

Local Open Scope Z_scope.

(** ** Identification (ident.rs) *)

Record RadioIdent : Type := mkIdent {
  raw_bytes : bytes;
  normalized : bytes;
  firmware_prefix : list Z
}.

(** [u8::is_ascii_graphic]; ['?'] stands for anything else. *)
Definition display_char (b : Z) : Z := if (33 <=? b) && (b <=? 126) then b else 63.

Definition from_raw (raw : bytes) : option RadioIdent :=
  let mk n := Some (mkIdent raw n (map display_char (take 6 n))) in
  if (length raw =? 8)%nat then mk raw
  else if (length raw =? 12)%nat then
    mk [byte_at raw 0; byte_at raw 3; byte_at raw 5; byte_at raw 7;
        byte_at raw 8; byte_at raw 9; byte_at raw 10; byte_at raw 11]
  else None.

(** ** Variants (variant.rs) *)

Definition MAGIC_UV5R_291 : bytes := [0x50; 0xBB; 0xFF; 0x20; 0x12; 0x04; 0x11].
Definition MAGIC_UV5R_ORIG : bytes := [0x50; 0xBB; 0xFF; 0x20; 0x12; 0x01; 0x11].
Definition MAGIC_BF_F8HP : bytes := [0x50; 0xBB; 0xFF; 0x20; 0x14; 0x04; 0x13].
Definition MAGIC_SETS : list bytes := [MAGIC_UV5R_291; MAGIC_BF_F8HP; MAGIC_UV5R_ORIG].

Inductive RadioVariant : Type := Uv5r | Uv5rOriginal | BfF8hp | Uv5rmPlus.

Record PowerMapping : Type := mkPower { pw_level : PowerLevel; pw_watts : f32; pw_bits : Z }.

Record VariantConfig : Type := mkVariant {
  variant : RadioVariant;
  magic : bytes;
  variant_power_levels : list PowerMapping;
  has_aux_block : bool;
  needs_aux_warmup : bool;
  channel_count : Z;
  variant_max_name_length : nat;
  baud_rate : Z
}.

Definition power_eqb (a b : PowerLevel) : bool :=
  match a, b with High, High | Mid, Mid | Low, Low => true | _, _ => false end.

Definition variant_power_from_bits (c : VariantConfig) (bits : Z) : option PowerLevel :=
  pw_level <$> find (fun m => pw_bits m =? bits) (variant_power_levels c).
Definition bits_from_power (c : VariantConfig) (level : PowerLevel) : option Z :=
  pw_bits <$> find (fun m => power_eqb (pw_level m) level) (variant_power_levels c).

Definition uv5r_config : VariantConfig :=
  mkVariant Uv5r MAGIC_UV5R_291
    [mkPower High (f32_of_Z 4) 0; mkPower Low (f32_of_Z 1) 1; mkPower High (f32_of_Z 4) 2]
    false false 128 7 9600.

Definition uv5r_original_config : VariantConfig :=
  mkVariant Uv5rOriginal MAGIC_UV5R_ORIG (variant_power_levels uv5r_config)
    (has_aux_block uv5r_config) (needs_aux_warmup uv5r_config) (channel_count uv5r_config)
    (variant_max_name_length uv5r_config) (baud_rate uv5r_config).

Definition bf_f8hp_config : VariantConfig :=
  mkVariant BfF8hp MAGIC_BF_F8HP
    [mkPower High (f32_of_Z 8) 0; mkPower Low (f32_of_Z 1) 1; mkPower Mid (f32_of_Z 4) 2]
    true true 128 7 9600.

Definition uv5rm_plus_config : VariantConfig :=
  mkVariant Uv5rmPlus MAGIC_BF_F8HP
    [mkPower High (f32_of_Z 10) 0; mkPower Low (f32_of_Z 1) 1; mkPower Mid (f32_of_Z 5) 2]
    true true 128 7 9600.

(** The bytes of an ASCII string literal. *)
Fixpoint ascii_bytes (s : string) : bytes :=
  match s with
  | EmptyString => []
  | String a r => Z.of_nat (Ascii.nat_of_ascii a) :: ascii_bytes r
  end.

Definition UV5R_PREFIXES : list bytes :=
  map ascii_bytes ["BFB"; "BFS"; "N5R-2"; "N5R2"; "N5RV"; "BTS"; "D5R2"; "B5R2"]%string.
Definition BF_F8HP_PREFIXES : list bytes :=
  map ascii_bytes ["BFP3V3 F"; "N5R-3"; "N5R3"; "F5R3"; "BFT"; "BFF"]%string.

Definition starts_with (prefix l : bytes) : bool := bool_decide (take (length prefix) l = prefix).

Inductive VariantError : Type := UnknownVariant (raw : bytes).

Definition identify_variant (ident : RadioIdent) : result VariantConfig VariantError :=
  if existsb (fun pfx => starts_with pfx (normalized ident)) BF_F8HP_PREFIXES then Ok bf_f8hp_config
  else if existsb (fun pfx => starts_with pfx (normalized ident)) UV5R_PREFIXES then Ok uv5r_config
  else Err (UnknownVariant (raw_bytes ident)).

(** No identification can match the prefixes of both variants, so the order in
    which the tables are consulted does not matter. *)
Lemma prefixes_disjoint l p q :
  p ∈ BF_F8HP_PREFIXES -> q ∈ UV5R_PREFIXES ->
  starts_with p l = true -> starts_with q l = true -> False.
Proof.
  intros Hp Hq Hsp Hsq. unfold starts_with in *. apply bool_decide_eq_true in Hsp, Hsq.
  assert (forall k, take k p = take k (take (length p) l)) as Ep by (intros; by rewrite Hsp).
  assert (forall k, take k q = take k (take (length q) l)) as Eq by (intros; by rewrite Hsq).
  assert (forall k, (k <= length p)%nat -> (k <= length q)%nat -> take k p = take k q) as E.
  { intros k Hkp Hkq. rewrite Ep, Eq, !take_take. f_equal. lia. }
  clear -Hp Hq E.
  assert (forallb (fun p => forallb (fun q =>
    negb (bool_decide (take (Nat.min (length p) (length q)) p = take (Nat.min (length p) (length q)) q)))
    UV5R_PREFIXES) BF_F8HP_PREFIXES = true) as Hall by (vm_compute; reflexivity).
  rewrite forallb_forall in Hall. specialize (Hall p ltac:(by apply list_elem_of_In)).
  rewrite forallb_forall in Hall. specialize (Hall q ltac:(by apply list_elem_of_In)).
  apply negb_true_iff, bool_decide_eq_false in Hall. apply Hall, E; lia.
Qed.
