(* ===== verification/CloneProtocol.v ===== *)
(** * The EEPROM clone protocol (crates/syntonia/src/baofeng/protocol.rs,
      constants.rs; crates/syntonia/src/serial.rs)

    Block planning and the serial driver. The port is the class [SerialPort]:
    whatever it does, the driver's code is the definitions below. Sleeps are
    not modelled; a panic is an outcome of its own. *)

From S2P Require Import Prelude ChannelCodec Variant.

Local Open Scope Z_scope.

(** ** Constants *)

Definition ACK : Z := 0x06.
Definition CMD_IDENT : Z := 0x02.
Definition CMD_READ : Z := 0x53.
Definition CMD_READ_RESPONSE : Z := 0x58.
Definition CMD_WRITE : Z := 0x58.
Definition IDENT_TERMINATOR : Z := 0xDD.
Definition MAIN_BLOCK_START : Z := 0x0000.
Definition MAIN_BLOCK_END : Z := 0x1800.
Definition AUX_BLOCK_START : Z := 0x1E80.
Definition AUX_BLOCK_END : Z := 0x2000.
Definition READ_BLOCK_SIZE : Z := 0x40.
Definition AUX_READ_BLOCK_SIZE : Z := 0x10.
Definition WRITE_BLOCK_SIZE : Z := 0x10.
Definition MAX_RETRIES : Z := 3.
Definition FORBIDDEN_RANGES : list (Z * Z) :=
  [(0x1F00, 0x1F60); (0x1F70, 0x1F80); (0x1F90, 0x1FC0); (0x1FD0, 0x2000)].
Definition UPLOAD_RANGES_MAIN : list (Z * Z) :=
  [(0x0000, 0x0CF0); (0x0D00, 0x0DF0); (0x0E00, 0x1800)].
Definition UPLOAD_RANGES_AUX : list (Z * Z) :=
  [(0x1EE0, 0x1EF0); (0x1F60, 0x1F70); (0x1F80, 0x1F90); (0x1FC0, 0x1FD0)].

Definition BLOCK_SIZE : Z := 16.
Definition DROPPED_BYTE_ADDR : Z := 0x1FCF.

(** The addresses of [while addr < end { ..; addr += step }]. *)
Definition block_addrs (start end_ step : Z) : list Z :=
  map (fun i => start + i * step) (seqZ 0 ((end_ - start + step - 1) / step)).

(** ** Block plans *)

Record BlockOp : Type := mkOp { op_addr : Z; op_size : Z; is_warmup : bool }.

Definition download_plan (config : VariantConfig) : list BlockOp :=
  map (fun a => mkOp a BLOCK_SIZE false) (block_addrs MAIN_BLOCK_START MAIN_BLOCK_END BLOCK_SIZE)
  ++ (if has_aux_block config then
        (if needs_aux_warmup config then [mkOp AUX_BLOCK_START BLOCK_SIZE true] else [])
        ++ concat (map (fun aux_addr =>
             let block_end := aux_addr + BLOCK_SIZE in
             if (aux_addr <=? DROPPED_BYTE_ADDR) && (DROPPED_BYTE_ADDR <? block_end) then
               let before_size := DROPPED_BYTE_ADDR - aux_addr in
               let after_start := DROPPED_BYTE_ADDR + 1 in
               let after_size := block_end - after_start in
               (if 0 <? before_size then [mkOp aux_addr before_size false] else [])
               ++ [mkOp DROPPED_BYTE_ADDR 1 false]
               ++ (if 0 <? after_size then [mkOp after_start after_size false] else [])
             else [mkOp aux_addr BLOCK_SIZE false])
           (block_addrs AUX_BLOCK_START AUX_BLOCK_END BLOCK_SIZE))
      else []).

Definition upload_plan (config : VariantConfig) : list BlockOp :=
  map (fun a => mkOp a BLOCK_SIZE false) (block_addrs MAIN_BLOCK_START MAIN_BLOCK_END BLOCK_SIZE)
  ++ (if has_aux_block config
      then map (fun a => mkOp a BLOCK_SIZE false) (block_addrs AUX_BLOCK_START AUX_BLOCK_END BLOCK_SIZE)
      else []).

(** ** Outcomes and the port *)

(** [io::ErrorKind], as far as the sources tell kinds apart. *)
Inductive IoError : Type := TimedOut | UnexpectedEof | WouldBlock | OtherIo.

Inductive ProtocolError : Type :=
| SerialIo (source : IoError)
| PTimeout
| BadAck (expected got : Z)
| BadResponseHeader (addr : Z)
| IdentFailed
| ForbiddenAddress (addr : Z)
| RetryExhausted (addr attempts : Z) (source : ProtocolError)
| ImageTooShort (required actual : nat).

Inductive outcome (A : Type) : Type :=
| Done (a : A)
| Fail (e : ProtocolError)
| Panic.
Arguments Done {A} _.
Arguments Fail {A} _.
Arguments Panic {A}.

(** The trait [SerialPort]: [read_exact] fills the buffer or fails. *)
Class SerialPort (P : Type) : Type := {
  write_all : bytes -> P -> result unit IoError * P;
  read_exact : nat -> P -> result bytes IoError * P;
  set_timeout : P -> result unit IoError * P;
  flush : P -> result unit IoError * P;
  read_exact_length : forall n p b p', read_exact n p = (Ok b, p') -> length b = n
}.

(** A computation of the driver: it threads the port. *)
Definition driver (P A : Type) : Type := P -> outcome A * P.

Definition ret {P A} (a : A) : driver P A := fun p => (Done a, p).
Definition fail {P A} (e : ProtocolError) : driver P A := fun p => (Fail e, p).
Definition bind {P A B} (m : driver P A) (k : A -> driver P B) : driver P B := fun p =>
  match m p with
  | (Done a, p) => k a p
  | (Fail e, p) => (Fail e, p)
  | (Panic, p) => (Panic, p)
  end.
Notation "'let!' x ':=' m 'in' k" := (bind m (fun x => k))
  (at level 10, x pattern, k at level 200) : akroasis_scope.

(** An index out of bounds in [MemoryImage] panics. *)
Definition or_panic {P A} (o : option A) : driver P A := fun p =>
  match o with Some a => (Done a, p) | None => (Panic, p) end.

(** [map_err(|source| SerialIo { source })?]. *)
Definition io {P A} (m : P -> result A IoError * P) : driver P A := fun p =>
  match m p with
  | (Ok a, p) => (Done a, p)
  | (Err e, p) => (Fail (SerialIo e), p)
  end.

(** The match that maps a timeout to [Timeout]. *)
Definition io_timeout {P A} (m : P -> result A IoError * P) : driver P A := fun p =>
  match m p with
  | (Ok a, p) => (Done a, p)
  | (Err TimedOut, p) => (Fail PTimeout, p)
  | (Err e, p) => (Fail (SerialIo e), p)
  end.

(** [is_forbidden]: whether a write overlaps a calibration range. *)
Definition is_forbidden (addr : Z) (len : nat) : bool :=
  let end_ := saturating_add 16 addr (default (uint_max 16) (try_uint 16 (Z.of_nat len))) in
  existsb (fun '(f_start, f_end) => (addr <? f_end) && (f_start <? end_)) FORBIDDEN_RANGES.

Section Driver.
Context {P : Type} `{SerialPort P}.

Definition read_ack : driver P unit :=
  let! b := io_timeout (read_exact 1) in
  let got := byte_at b 0 in
  if negb (got =? ACK) then fail (BadAck ACK got) else ret tt.

Definition send_ack : driver P unit := io (write_all [ACK]).

Fixpoint send_each (l : bytes) : driver P unit :=
  match l with
  | [] => ret tt
  | b :: rest => let! _ := io (write_all [b]) in send_each rest
  end.

Definition enter_programming_mode (magic : bytes) : driver P unit :=
  let! _ := io set_timeout in
  let! _ := send_each magic in
  let! _ := io flush in
  read_ack.

(** The loop of [identify]: the length guard ends it after 17 bytes, which is
    the fuel it is started with. *)
Fixpoint ident_loop (fuel : nat) (buf : bytes) : driver P bytes :=
  match fuel with
  | O => fail IdentFailed
  | S fuel =>
      let! byte := io_timeout (read_exact 1) in
      let b := byte_at byte 0 in
      if b =? IDENT_TERMINATOR then ret buf
      else
        let buf := buf ++ [b] in
        if (16 <? length buf)%nat then fail IdentFailed else ident_loop fuel buf
  end.

Definition identify : driver P RadioIdent :=
  let! _ := io (write_all [CMD_IDENT]) in
  let! buf := ident_loop 17 [] in
  match from_raw buf with
  | None => fail IdentFailed
  | Some ident =>
      let! _ := send_ack in
      let! _ := read_ack in
      ret ident
  end.

Definition addr_high (addr : Z) : Z := as_uint 8 (Z.shiftr addr 8).
Definition addr_low (addr : Z) : Z := as_uint 8 (Z.land addr 0xFF).

Definition read_block (addr len : Z) : driver P bytes :=
  let addr_h := addr_high addr in
  let addr_l := addr_low addr in
  let! _ := io (write_all [CMD_READ; addr_h; addr_l; len]) in
  let! header := io_timeout (read_exact 4) in
  if negb (byte_at header 0 =? CMD_READ_RESPONSE) || negb (byte_at header 1 =? addr_h)
     || negb (byte_at header 2 =? addr_l) || negb (byte_at header 3 =? len)
  then fail (BadResponseHeader addr)
  else
    let! data := io_timeout (read_exact (Z.to_nat len)) in
    let! _ := send_ack in
    ret data.

(** The packet [write_block] sends. *)
Definition write_packet (addr : Z) (d : bytes) : bytes :=
  [CMD_WRITE; addr_high addr; addr_low addr; as_uint 8 (Z.of_nat (length d))] ++ d.

Definition write_block (addr : Z) (d : bytes) : driver P unit :=
  if is_forbidden addr (length d) then fail (ForbiddenAddress addr)
  else
    let! _ := io (write_all (write_packet addr d)) in
    read_ack.

(** The retry loop: [attempts_left] counts from [MAX_RETRIES] down. *)
Fixpoint read_block_retry (attempts_left : nat) (addr len : Z) : driver P bytes := fun p =>
  match attempts_left with
  | O => (Panic, p)
  | S remaining =>
      match read_block addr len p with
      | (Done data, p) => (Done data, p)
      | (Fail err, p) =>
          match remaining with
          | O => (Fail (RetryExhausted addr MAX_RETRIES err), p)
          | S _ => read_block_retry remaining addr len p
          end
      | (Panic, p) => (Panic, p)
      end
  end.
Definition read_block_with_retry (addr len : Z) : driver P bytes :=
  read_block_retry (Z.to_nat MAX_RETRIES) addr len.

Fixpoint write_block_retry (attempts_left : nat) (addr : Z) (d : bytes) : driver P unit := fun p =>
  match attempts_left with
  | O => (Panic, p)
  | S remaining =>
      match write_block addr d p with
      | (Done _, p) => (Done tt, p)
      | (Fail (ForbiddenAddress _), p) => (Fail (ForbiddenAddress addr), p)
      | (Fail err, p) =>
          match remaining with
          | O => (Fail (RetryExhausted addr MAX_RETRIES err), p)
          | S _ => write_block_retry remaining addr d p
          end
      | (Panic, p) => (Panic, p)
      end
  end.
Definition write_block_with_retry (addr : Z) (d : bytes) : driver P unit :=
  write_block_retry (Z.to_nat MAX_RETRIES) addr d.

(** Reading the blocks at [addrs] into the image. *)
Fixpoint read_into (image : MemoryImage) (addrs : list Z) (len : Z) : driver P MemoryImage :=
  match addrs with
  | [] => ret image
  | addr :: rest =>
      let! data := read_block_with_retry addr len in
      let! image := or_panic (write_bytes image addr data) in
      read_into image rest len
  end.

Definition download_image (config : VariantConfig) : driver P MemoryImage :=
  let image_size := if has_aux_block config then AUX_BLOCK_END else MAIN_BLOCK_END in
  let image := MemoryImage_new (Z.to_nat image_size) in
  let! image := read_into image (block_addrs MAIN_BLOCK_START MAIN_BLOCK_END READ_BLOCK_SIZE)
                  READ_BLOCK_SIZE in
  if negb (has_aux_block config) then ret image
  else
    let! image :=
      if needs_aux_warmup config then
        let! warmup := read_block_with_retry AUX_BLOCK_START AUX_READ_BLOCK_SIZE in
        or_panic (write_bytes image AUX_BLOCK_START warmup)
      else ret image in
    let addr := if needs_aux_warmup config then AUX_BLOCK_START + AUX_READ_BLOCK_SIZE
                else AUX_BLOCK_START in
    read_into image (block_addrs addr AUX_BLOCK_END AUX_READ_BLOCK_SIZE) AUX_READ_BLOCK_SIZE.

(** Writing the blocks at [addrs] from the image, reporting progress. *)
Fixpoint write_from (image : MemoryImage) (addrs : list Z) (written total : nat)
    (progress : list (nat * nat)) : driver P (list (nat * nat)) :=
  match addrs with
  | [] => ret progress
  | addr :: rest =>
      let! data := or_panic (read_bytes image addr (Z.to_nat WRITE_BLOCK_SIZE)) in
      let! _ := write_block_with_retry addr data in
      write_from image rest (S written) total (progress ++ [(S written, total)])
  end.

Definition upload_ranges (config : VariantConfig) : list (Z * Z) :=
  if has_aux_block config then UPLOAD_RANGES_MAIN ++ UPLOAD_RANGES_AUX else UPLOAD_RANGES_MAIN.

Definition upload_addrs (config : VariantConfig) : list Z :=
  concat (map (fun '(s, e) => block_addrs s e WRITE_BLOCK_SIZE) (upload_ranges config)).

(** [upload_image]: the calls of the progress callback are the result. *)
Definition upload_image (config : VariantConfig) (image : MemoryImage) : driver P (list (nat * nat)) :=
  let ranges := upload_ranges config in
  let required := Z.to_nat (default 0 (snd <$> min_by_key (fun r => - snd r) ranges)) in
  if (length (data image) <? required)%nat
  then fail (ImageTooShort required (length (data image)))
  else
    let total_blocks :=
      sum_list (map (fun '(s, e) => Z.to_nat ((e - s) / WRITE_BLOCK_SIZE)) ranges) in
    write_from image (upload_addrs config) 0 total_blocks [].

Definition exit_programming_mode : driver P unit := send_ack.
End Driver.

(** ** Observing a port: every buffer written is logged *)

Record Logged (P : Type) : Type := mkLogged { log : list bytes; inner : P }.
Arguments mkLogged {P} _ _.
Arguments log {P} _.
Arguments inner {P} _.

Definition through {P A} (m : P -> result A IoError * P) (l : Logged P) : result A IoError * Logged P :=
  let (r, p) := m (inner l) in (r, mkLogged (log l) p).

#[export] Instance Logged_port {P} `{SerialPort P} : SerialPort (Logged P).
Proof.
  refine {| write_all b l := let (r, p) := write_all b (inner l) in (r, mkLogged (log l ++ [b]) p);
            read_exact n l := through (read_exact n) l;
            set_timeout l := through set_timeout l;
            flush l := through flush l |}.
  intros n l b l'. unfold through. destruct (read_exact n (inner l)) as [r p] eqn:E.
  intros [= -> _]. by eapply read_exact_length.
Defined.

(** ** A radio that answers: the EEPROM and the bytes on their way to the host *)

Record Radio : Type := mkRadio { mem : bytes; rx_queue : bytes }.

Definition splice (m : bytes) (start : nat) (d : bytes) : bytes :=
  take start m ++ d ++ drop (start + length d) m.

(** What the radio does with a command packet. *)
Definition radio_receive (b : bytes) (r : Radio) : Radio :=
  match b with
  | c :: h :: l :: len :: d =>
      let addr := Z.to_nat (256 * h + l) in
      if (c =? CMD_READ) && (length d =? 0)%nat then
        mkRadio (mem r) (rx_queue r ++ [CMD_READ_RESPONSE; h; l; len]
                         ++ take (Z.to_nat len) (drop addr (mem r)))
      else if (c =? CMD_WRITE) && (length d =? Z.to_nat len)%nat then
        mkRadio (splice (mem r) addr d) (rx_queue r ++ [ACK])
      else r
  | _ => r
  end.

#[export] Instance Radio_port : SerialPort Radio.
Proof.
  refine {| write_all b r := (Ok tt, radio_receive b r);
            read_exact n r :=
              if (n <=? length (rx_queue r))%nat
              then (Ok (take n (rx_queue r)), mkRadio (mem r) (drop n (rx_queue r)))
              else (Err TimedOut, r);
            set_timeout r := (Ok tt, r);
            flush r := (Ok tt, r) |}.
  intros n r b r'. destruct (n <=? length (rx_queue r))%nat eqn:E; [|done].
  intros [= <- _]. rewrite length_take. lia.
Defined.

(** * Lemmas *)

(** ** Addresses *)

Lemma addr_bytes addr : 0 <= addr < 65536 -> 256 * addr_high addr + addr_low addr = addr.
Proof.
  intros Ha. unfold addr_high, addr_low, as_uint. rewrite Z.shiftr_div_pow2 by lia.
  change 0xFF with (Z.ones 8). rewrite Z.land_ones by lia.
  change (2 ^ 8) with 256. rewrite Z.mod_mod by lia. rewrite (Z.mod_small (addr / 256)).
  - pose proof (Z.div_mod addr 256). lia.
  - split; [apply Z.div_pos; lia|]. apply Z.div_lt_upper_bound; lia.
Qed.

Lemma block_addrs_elem s e step a :
  0 < step -> (step | e - s) -> s <= e ->
  a ∈ block_addrs s e step <-> (step | a - s) /\ s <= a < e.
Proof.
  intros Hs [n Hn] Hle. unfold block_addrs.
  assert ((e - s + step - 1) / step = n) as ->.
  { rewrite Hn. replace (n * step + step - 1) with (step - 1 + n * step) by lia.
    rewrite Z.div_add by lia. rewrite Z.div_small by lia. lia. }
  change (map ?f) with (fmap (M := list) f). rewrite list_elem_of_fmap.
  setoid_rewrite elem_of_seqZ. split.
  - intros (i & -> & Hi). split; [exists i; lia|nia].
  - intros [[i Hi] Hr]. exists i. split; [lia|]. nia.
Qed.

(** The blocks of a region cover exactly the region. *)
Lemma block_addrs_cover s e step i :
  0 < step -> (step | e - s) -> s <= e ->
  existsb (fun a => (a <=? i) && (i <? a + step)) (block_addrs s e step) = (s <=? i) && (i <? e).
Proof.
  intros Hs Hd Hle. apply eq_true_iff_eq. rewrite existsb_exists. split.
  - intros (a & Ha & Hi). apply list_elem_of_In, block_addrs_elem in Ha as [[k Hk] Hr]; [|done..].
    destruct Hd as [n Hn]. assert (k < n) by nia. nia.
  - intros Hi. exists (s + (i - s) / step * step).
    pose proof (Z.div_mod (i - s) step). pose proof (Z.mod_pos_bound (i - s) step).
    assert (0 <= (i - s) / step) by (apply Z.div_pos; lia). split.
    + apply list_elem_of_In, block_addrs_elem; [done..|]. split; [exists ((i - s) / step); lia|].
      split; [nia|]. nia.
    + nia.
Qed.

(** ** Forbidden ranges *)

Definition forbidden_addr (a : Z) : bool :=
  existsb (fun '(s, e) => (s <=? a) && (a <? e)) FORBIDDEN_RANGES.

(** The guard is sound for any write that fits the address space. *)
Lemma is_forbidden_sound addr len a :
  0 <= addr -> addr + Z.of_nat len < 65536 ->
  is_forbidden addr len = false -> addr <= a < addr + Z.of_nat len -> forbidden_addr a = false.
Proof.
  intros Ha Hl Hf Hr. unfold is_forbidden, try_uint, saturating_add, uint_max in Hf. simpl in Hf.
  change (2 ^ 16) with 65536 in Hf. rewrite (proj2 (Z.ltb_lt (Z.of_nat len) 65536)) in Hf by lia.
  rewrite (proj2 (Z.leb_le 0 (Z.of_nat len))) in Hf by lia. simpl in Hf.
  unfold forbidden_addr. simpl. lia.
Qed.

(** The upload plan, unlike the driver, includes calibration blocks. *)
Lemma upload_plan_includes_calibration :
  existsb (fun op => is_forbidden (op_addr op) (Z.to_nat (op_size op))) (upload_plan bf_f8hp_config) = true.
Proof. vm_compute. reflexivity. Qed.

(** ** What a computation writes *)

Section Writes.
Context {P : Type} `{SerialPort P} (Q : bytes -> Prop).

(** [m] writes only buffers that satisfy [Q]. *)
Definition writes_only {A} (m : driver (Logged P) A) : Prop :=
  forall l r l', m l = (r, l') -> exists new, log l' = log l ++ new /\ Forall Q new.

Lemma writes_nothing {A} (m : driver (Logged P) A) :
  (forall l, log (m l).2 = log l) -> writes_only m.
Proof. intros Hm l r l' E. exists []. rewrite app_nil_r. split; [|done]. rewrite <- (Hm l). by rewrite E. Qed.

Lemma writes_ret {A} (a : A) : writes_only (ret a).
Proof. by apply writes_nothing. Qed.
Lemma writes_fail {A} e : writes_only (fail (A := A) e).
Proof. by apply writes_nothing. Qed.
Lemma writes_or_panic {A} (o : option A) : writes_only (or_panic o).
Proof. apply writes_nothing. intros l. by destruct o. Qed.

Lemma writes_bind {A B} (m : driver (Logged P) A) (k : A -> driver (Logged P) B) :
  writes_only m -> (forall a, writes_only (k a)) -> writes_only (bind m k).
Proof.
  intros Hm Hk l r l' E. unfold bind in E. destruct (m l) as [[a|e|] l1] eqn:Em;
    apply Hm in Em as (n1 & E1 & F1).
  - apply Hk in E as (n2 & E2 & F2). exists (n1 ++ n2). rewrite E2, E1, app_assoc.
    split; [done|]. by apply Forall_app.
  - injection E as _ <-. by exists n1.
  - injection E as _ <-. by exists n1.
Qed.

Lemma writes_write b : Q b -> writes_only (io (write_all b)).
Proof.
  intros Hb l r l' E. unfold io in E. simpl in E. destruct (write_all b (inner l)) as [[u|e] p];
    injection E as _ <-; exists [b]; auto.
Qed.

Lemma writes_read n : writes_only (io_timeout (read_exact n)).
Proof.
  apply writes_nothing. intros l. unfold io_timeout. simpl. unfold through.
  destruct (read_exact n (inner l)) as [[b|[]] p]; done.
Qed.

Lemma writes_read_ack : writes_only read_ack.
Proof.
  unfold read_ack. apply writes_bind; [apply writes_read|]. intros b. cbv beta zeta.
  destruct (negb (byte_at b 0 =? ACK)); [apply writes_fail|apply writes_ret].
Qed.

Lemma writes_write_block addr d :
  (is_forbidden addr (length d) = false -> Q (write_packet addr d)) -> writes_only (write_block addr d).
Proof.
  intros HQ. unfold write_block. destruct (is_forbidden addr (length d)); [apply writes_fail|].
  apply writes_bind; [by apply writes_write, HQ|]. intros _. apply writes_read_ack.
Qed.

Lemma writes_retry n addr d :
  (is_forbidden addr (length d) = false -> Q (write_packet addr d)) ->
  writes_only (write_block_retry n addr d).
Proof.
  intros HQ. induction n as [|n IH]; [by apply writes_nothing|].
  intros l r l' E. cbn [write_block_retry] in E.
  destruct (write_block addr d l) as [o l1] eqn:Ew.
  pose proof (writes_write_block addr d HQ _ _ _ Ew) as (n1 & E1 & F1).
  assert (l' = l1 \/ exists l2 r2, write_block_retry n addr d l1 = (r2, l2) /\ l' = l2) as [->|Hre].
  { destruct o as [u|e|]; [injection E as _ <-; by left| |injection E as _ <-; by left].
    destruct e; try (injection E as _ <-; by left); (destruct n; [injection E as _ <-; by left|right; eauto]). }
  - by exists n1.
  - destruct Hre as (l2 & r2 & E2 & ->). apply IH in E2 as (n2 & E3 & F3).
    exists (n1 ++ n2). rewrite E3, E1, app_assoc. split; [done|]. by apply Forall_app.
Qed.

Lemma writes_from image addrs w t pr :
  (forall a d, a ∈ addrs -> read_bytes image a (Z.to_nat WRITE_BLOCK_SIZE) = Some d ->
     is_forbidden a (length d) = false -> Q (write_packet a d)) ->
  writes_only (write_from image addrs w t pr).
Proof.
  revert w pr. induction addrs as [|a addrs IH]; intros w pr HQ; [apply writes_ret|].
  cbn [write_from]. intros l r l' E. unfold bind at 1, or_panic in E.
  destruct (read_bytes image a _) as [d|] eqn:Ed; [|injection E as _ <-; exists []; by rewrite app_nil_r].
  revert E. apply writes_bind.
  - apply writes_retry. apply (HQ a d); [left|done].
  - intros _. apply IH. intros a' d' Ha'. apply HQ. by right.
Qed.
End Writes.

(** ** Against the answering radio *)

Lemma radio_read_block m addr len :
  0 <= addr < 65536 -> 0 <= len -> (Z.to_nat addr + Z.to_nat len <= length m)%nat ->
  read_block addr len (mkRadio m []) = (Done (take (Z.to_nat len) (drop (Z.to_nat addr) m)), mkRadio m []).
Proof.
  intros Ha Hl Hm. unfold read_block, bind, io, io_timeout, send_ack, ret. simpl.
  rewrite addr_bytes by done. set (slice := take _ (drop _ m)).
  assert (length slice = Z.to_nat len) as Hs.
  { unfold slice. rewrite length_take, length_drop. lia. }
  unfold byte_at. simpl. rewrite !Z.eqb_refl. simpl. rewrite drop_0, leb_correct by lia.
  by rewrite take_ge, drop_ge by lia.
Qed.

Lemma radio_read_retry m addr len :
  0 <= addr < 65536 -> 0 <= len -> (Z.to_nat addr + Z.to_nat len <= length m)%nat ->
  read_block_with_retry addr len (mkRadio m [])
  = (Done (take (Z.to_nat len) (drop (Z.to_nat addr) m)), mkRadio m []).
Proof.
  intros Ha Hl Hm. unfold read_block_with_retry. change (Z.to_nat MAX_RETRIES) with 3%nat.
  cbn [read_block_retry]. by rewrite radio_read_block.
Qed.

Lemma radio_write_retry m addr d :
  0 <= addr < 65536 -> Z.of_nat (length d) < 256 -> is_forbidden addr (length d) = false ->
  write_block_with_retry addr d (mkRadio m []) = (Done tt, mkRadio (splice m (Z.to_nat addr) d) []).
Proof.
  intros Ha Hd Hf. unfold write_block_with_retry. change (Z.to_nat MAX_RETRIES) with 3%nat.
  cbn [write_block_retry]. unfold write_block. rewrite Hf.
  unfold bind, io, io_timeout, read_ack, write_packet. simpl.
  rewrite addr_bytes by done.
  assert (as_uint 8 (Z.of_nat (length d)) = Z.of_nat (length d)) as ->.
  { unfold as_uint. apply Z.mod_small. lia. }
  by rewrite Nat2Z.id, Nat.eqb_refl.
Qed.

Lemma lookup_splice m start d i :
  (start + length d <= length m)%nat ->
  splice m start d !! i =
  if (start <=? i)%nat && (i <? start + length d)%nat then d !! (i - start)%nat else m !! i.
Proof.
  intros Hl. unfold splice. destruct (decide (i < start)%nat).
  - rewrite lookup_app_l, lookup_take_lt by (rewrite ?length_take; lia).
    by rewrite (leb_correct_conv i start) by lia.
  - rewrite lookup_app_r, length_take by (rewrite length_take; lia).
    replace (Nat.min start (length m)) with start by lia.
    rewrite (leb_correct start i) by lia. simpl.
    destruct (i <? start + length d)%nat eqn:E.
    + by rewrite lookup_app_l by lia.
    + rewrite lookup_app_r, lookup_drop by lia. f_equal. lia.
Qed.

Lemma length_splice m start d :
  (start + length d <= length m)%nat -> length (splice m start d) = length m.
Proof. intros. unfold splice. rewrite !length_app, length_take, length_drop. lia. Qed.

Lemma write_bytes_splice image addr d :
  (Z.to_nat addr + length d <= length (data image))%nat ->
  write_bytes image addr d = Some (mkImage (splice (data image) (Z.to_nat addr) d)).
Proof. intros. unfold write_bytes. cbv zeta. by rewrite leb_correct. Qed.

(** Whether position [i] lies in one of the blocks. *)
Definition covered (addrs : list Z) (len : Z) (i : nat) : bool :=
  existsb (fun a => (a <=? Z.of_nat i) && (Z.of_nat i <? a + len)) addrs.

(** Reading blocks copies exactly the covered positions. *)
Lemma radio_read_into m len addrs image :
  0 <= len -> Forall (fun a => 0 <= a < 65536 /\ (Z.to_nat a + Z.to_nat len <= length m)%nat /\
                      (Z.to_nat a + Z.to_nat len <= length (data image))%nat) addrs ->
  exists image', read_into image addrs len (mkRadio m []) = (Done image', mkRadio m []) /\
    length (data image') = length (data image) /\
    forall i, data image' !! i = if covered addrs len i then m !! i else data image !! i.
Proof.
  intros Hl. revert image. induction addrs as [|a addrs IH]; intros image Hall.
  { exists image. by split; [|split]. }
  inversion Hall as [|? ? (Ha & Hm & Hi) Hrest]; subst.
  set (d := take (Z.to_nat len) (drop (Z.to_nat a) m)).
  assert (length d = Z.to_nat len) as Hd.
  { unfold d. rewrite length_take, length_drop. lia. }
  cbn [read_into]. unfold bind at 1. rewrite radio_read_retry by done. fold d.
  unfold bind at 1, or_panic. rewrite write_bytes_splice by lia.
  set (im1 := mkImage _).
  assert (length (data im1) = length (data image)) as Hl1 by (apply length_splice; lia).
  destruct (IH im1) as (image' & E & Hlen & Hlk).
  { eapply Forall_impl; [exact Hrest|]. intros x (H1 & H2 & H3). rewrite Hl1. done. }
  exists image'. split; [done|]. split; [lia|]. intros i. rewrite Hlk.
  unfold covered. cbn [existsb]. fold (covered addrs len i).
  destruct (covered addrs len i); [by rewrite orb_true_r|]. rewrite orb_false_r.
  unfold im1. cbn [data]. rewrite lookup_splice by lia.
  destruct ((a <=? Z.of_nat i) && (Z.of_nat i <? a + len)) eqn:Ec.
  - rewrite (leb_correct (Z.to_nat a) i), (proj2 (Nat.ltb_lt i _)) by lia. simpl.
    unfold d. rewrite lookup_take_lt, lookup_drop by lia. f_equal. lia.
  - destruct ((Z.to_nat a <=? i)%nat && (i <? Z.to_nat a + length d)%nat) eqn:Ec2; [lia|done].
Qed.

(** Writing blocks changes exactly the covered positions, to the image's bytes. *)
Lemma radio_write_from image addrs w t pr m :
  Forall (fun a => 0 <= a < 65536 /\ is_forbidden a 16 = false /\
     (Z.to_nat a + 16 <= length m)%nat /\ (Z.to_nat a + 16 <= length (data image))%nat) addrs ->
  exists m', write_from image addrs w t pr (mkRadio m [])
      = (Done (pr ++ map (fun k => (k, t)) (seq (S w) (length addrs))), mkRadio m' []) /\
    length m' = length m /\
    forall i, m' !! i = if covered addrs 16 i then data image !! i else m !! i.
Proof.
  revert w pr m. induction addrs as [|a addrs IH]; intros w pr m Hall.
  { exists m. simpl. by rewrite app_nil_r. }
  inversion Hall as [|? ? (Ha & Hf & Hm & Hi) Hrest]; subst.
  cbn [write_from]. unfold bind at 1, or_panic, read_bytes. cbv zeta.
  change (Z.to_nat WRITE_BLOCK_SIZE) with 16%nat. rewrite leb_correct by done.
  set (d := take 16 (drop (Z.to_nat a) (data image))).
  assert (length d = 16%nat) as Hd by (unfold d; rewrite length_take, length_drop; lia).
  unfold bind at 1. rewrite radio_write_retry by (rewrite ?Hd; done || lia).
  destruct (IH (S w) (pr ++ [(S w, t)]) (splice m (Z.to_nat a) d)) as (m' & E & Hlen & Hlk).
  { eapply Forall_impl; [exact Hrest|]. intros x (H1 & H2 & H3 & H4).
    by rewrite length_splice by lia. }
  exists m'. rewrite E. split; [by rewrite <- app_assoc|].
  rewrite length_splice in Hlen by lia. split; [done|]. intros i. rewrite Hlk.
  unfold covered. cbn [existsb]. fold (covered addrs 16 i).
  destruct (covered addrs 16 i); [by rewrite orb_true_r|]. rewrite orb_false_r.
  rewrite lookup_splice by lia. rewrite Hd.
  destruct ((a <=? Z.of_nat i) && (Z.of_nat i <? a + 16)) eqn:Ec.
  - rewrite (leb_correct (Z.to_nat a) i), (proj2 (Nat.ltb_lt i _)) by lia. simpl.
    unfold d. rewrite lookup_take_lt, lookup_drop by lia. f_equal. lia.
  - destruct ((Z.to_nat a <=? i)%nat && (i <? Z.to_nat a + 16)%nat) eqn:Ec2; [lia|done].
Qed.

(** Every upload block is inside an upload range, clear of calibration data. *)
Definition in_ranges (ranges : list (Z * Z)) (a : Z) : bool :=
  existsb (fun '(s, e) => (s <=? a) && (a <? e)) ranges.

Lemma upload_addrs_ok config a :
  a ∈ upload_addrs config ->
  0 <= a < 0x2000 /\ is_forbidden a 16 = false /\ a + 16 <= (if has_aux_block config then 0x1FD0 else 0x1800) /\
  in_ranges (upload_ranges config) a = true /\ in_ranges (upload_ranges config) (a + 15) = true.
Proof.
  assert (forall c, c = uv5r_config \/ c = bf_f8hp_config ->
    forallb (fun a => (0 <=? a) && (a <? 0x2000) && negb (is_forbidden a 16)
      && (a + 16 <=? (if has_aux_block c then 0x1FD0 else 0x1800))
      && in_ranges (upload_ranges c) a && in_ranges (upload_ranges c) (a + 15)) (upload_addrs c) = true) as Hall.
  { intros c [->| ->]; vm_compute; reflexivity. }
  assert (exists c, (c = uv5r_config \/ c = bf_f8hp_config) /\ has_aux_block c = has_aux_block config)
    as (c & Hc & Heq).
  { destruct (has_aux_block config); [exists bf_f8hp_config|exists uv5r_config]; auto. }
  specialize (Hall c Hc). unfold upload_addrs, upload_ranges in *. rewrite Heq in Hall.
  intros Ha. rewrite forallb_forall in Hall. specialize (Hall a ltac:(by apply list_elem_of_In)).
  rewrite !andb_true_iff in Hall. destruct Hall as [[[[[H1 H2] H3] H4] H5] H6].
  apply negb_true_iff in H3. repeat split; try done; try lia.
Qed.

Lemma existsb_concat_map {A B} (f : B -> bool) (g : A -> list B) l :
  existsb f (concat (map g l)) = existsb (fun x => existsb f (g x)) l.
Proof. induction l as [|a l IH]; simpl; [done|]. by rewrite existsb_app, IH. Qed.

Lemma existsb_ext_elem {A} (f g : A -> bool) l :
  (forall x, x ∈ l -> f x = g x) -> existsb f l = existsb g l.
Proof.
  induction l as [|a l IH]; intros E; simpl; [done|].
  rewrite (E a) by left. rewrite IH; [done|]. intros x Hx. apply E. by right.
Qed.

Lemma upload_covered config i :
  covered (upload_addrs config) 16 i = in_ranges (upload_ranges config) (Z.of_nat i).
Proof.
  unfold covered, upload_addrs, in_ranges. rewrite existsb_concat_map.
  apply existsb_ext_elem. intros [s e] Hr. apply block_addrs_cover; [unfold WRITE_BLOCK_SIZE; lia| |].
  - assert (forallb (fun r => (snd r - fst r) mod 16 =? 0) (upload_ranges config) = true) as Hall.
    { unfold upload_ranges. by destruct (has_aux_block config). }
    rewrite forallb_forall in Hall. specialize (Hall (s, e) ltac:(by apply list_elem_of_In)).
    simpl in Hall. apply Z.mod_divide; unfold WRITE_BLOCK_SIZE; lia.
  - assert (forallb (fun r => fst r <=? snd r) (upload_ranges config) = true) as Hall.
    { unfold upload_ranges. by destruct (has_aux_block config). }
    rewrite forallb_forall in Hall. specialize (Hall (s, e) ltac:(by apply list_elem_of_In)).
    simpl in Hall. lia.
Qed.

(** The length an image needs to hold every upload range. *)
Definition upload_end (config : VariantConfig) : nat :=
  Z.to_nat (if has_aux_block config then 0x1FD0 else 0x1800).

Lemma upload_required config :
  Z.to_nat (default 0 (snd <$> min_by_key (fun r => - snd r) (upload_ranges config))) = upload_end config.
Proof. unfold upload_ranges, upload_end. by destruct (has_aux_block config). Qed.

(** Blocks of a region of the EEPROM satisfy the side conditions of reading. *)
Lemma region_blocks_ok s e step n k :
  0 <= s -> 0 < step -> (step | e - s) -> s <= e -> e <= 0x2000 ->
  (Z.to_nat e <= n)%nat -> (Z.to_nat e <= k)%nat ->
  Forall (fun a => 0 <= a < 65536 /\ (Z.to_nat a + Z.to_nat step <= n)%nat /\
                   (Z.to_nat a + Z.to_nat step <= k)%nat) (block_addrs s e step).
Proof.
  intros Hs Hst Hd Hle He Hn Hk. apply Forall_forall. intros a Ha.
  apply block_addrs_elem in Ha as [[q Hq] Hr]; [|done..]. destruct Hd as [w Hw].
  assert (q < w) by nia.
  assert ((q + 1) * step <= w * step) by (apply Z.mul_le_mono_nonneg_r; lia). lia.
Qed.

(** With or without the warm-up read, whose data is stored, the auxiliary
    blocks are read once each, in order. *)
Lemma aux_reads_in_order {P} `{SerialPort P} (warmup : bool) image (p : P) :
  bind (if warmup
        then bind (read_block_with_retry AUX_BLOCK_START AUX_READ_BLOCK_SIZE)
               (fun w => or_panic (write_bytes image AUX_BLOCK_START w))
        else ret image)
    (fun image => read_into image
       (block_addrs (if warmup then AUX_BLOCK_START + AUX_READ_BLOCK_SIZE else AUX_BLOCK_START)
          AUX_BLOCK_END AUX_READ_BLOCK_SIZE) AUX_READ_BLOCK_SIZE) p
  = read_into image (block_addrs AUX_BLOCK_START AUX_BLOCK_END AUX_READ_BLOCK_SIZE)
      AUX_READ_BLOCK_SIZE p.
Proof.
  destruct warmup; [|done].
  change (block_addrs AUX_BLOCK_START AUX_BLOCK_END AUX_READ_BLOCK_SIZE)
    with (AUX_BLOCK_START
          :: block_addrs (AUX_BLOCK_START + AUX_READ_BLOCK_SIZE) AUX_BLOCK_END AUX_READ_BLOCK_SIZE).
  cbn [read_into]. unfold bind at 1 2 3.
  destruct (read_block_with_retry AUX_BLOCK_START AUX_READ_BLOCK_SIZE p) as [[d|e|] p']; [|done..].
  unfold bind, or_panic. by destruct (write_bytes image AUX_BLOCK_START d).
Qed.

(** * Properties *)

(** C37. Calibration data is never written: whatever the port and the radio do,
    and whatever the image holds, every buffer [upload_image] sends is a write
    packet of 16 bytes taken from the image at the packet's address, all of
    whose addresses lie in the variant's upload ranges and none in a forbidden
    calibration range. *)
Theorem upload_spares_calibration {P} `{SerialPort P} config image (l : Logged P) r l' :
  upload_image config image l = (r, l') ->
  exists sent, log l' = log l ++ sent /\
    Forall (fun b => exists addr d, b = write_packet addr d /\ length d = 16%nat /\
              read_bytes image addr 16 = Some d /\
              forall a, addr <= a < addr + 16 ->
                in_ranges (upload_ranges config) a = true /\ forbidden_addr a = false) sent.
Proof.
  unfold upload_image. cbv zeta. destruct (_ <? _)%nat; [apply writes_fail|].
  apply writes_from. intros a d Ha Hd Hf.
  change (Z.to_nat WRITE_BLOCK_SIZE) with 16%nat in Hd. exists a, d.
  assert (length d = 16%nat) as Hlen.
  { unfold read_bytes in Hd. cbv zeta in Hd. split_ifs; [|done]. injection Hd as <-.
    rewrite length_take, length_drop. lia. }
  split; [done|]. split; [done|]. split; [done|]. intros x Hx.
  pose proof (upload_addrs_ok _ _ Ha) as (Hr & Hfb & Hend & _). split.
  - rewrite <- (Z2Nat.id x), <- upload_covered by lia. apply existsb_exists. exists a.
    split; [by apply list_elem_of_In|lia].
  - apply (is_forbidden_sound a 16); [lia|lia|done|lia].
Qed.

(** The whole upload of an image to a BF-F8HP: 386 packets, each within its ranges. *)
Lemma upload_spares_calibration_witness :
  let radio := mkLogged [] (mkRadio (replicate (Z.to_nat 0x2000) 0) []) in
  let image := MemoryImage_new (Z.to_nat 0x2000) in
  length (log (upload_image bf_f8hp_config image radio).2) = 386%nat /\
  exists sent, log (upload_image bf_f8hp_config image radio).2 = [] ++ sent /\
    Forall (fun b => exists addr d, b = write_packet addr d /\
      forall a, addr <= a < addr + 16 ->
        in_ranges (upload_ranges bf_f8hp_config) a = true /\ forbidden_addr a = false) sent.
Proof.
  intros radio image. split; [vm_compute; reflexivity|].
  destruct (upload_spares_calibration bf_f8hp_config image radio
              (upload_image bf_f8hp_config image radio).1
              (upload_image bf_f8hp_config image radio).2
              (surjective_pairing _)) as (sent & T1 & T2).
  exists sent. split; [exact T1|]. eapply Forall_impl; [exact T2|].
  intros b (addr & d & Hb & _ & _ & Ha). exists addr, d. split; [exact Hb|exact Ha].
Defined.

(** An image that holds the radio's main and auxiliary blocks and is erased elsewhere. *)
Lemma downloaded_image m image :
  length m = Z.to_nat 0x2000 ->
  (forall i, data image !! i =
     if (i <? Z.to_nat 0x1800)%nat
        || covered (block_addrs AUX_BLOCK_START AUX_BLOCK_END AUX_READ_BLOCK_SIZE) AUX_READ_BLOCK_SIZE i
     then m !! i else replicate (Z.to_nat 0x2000) 0xFF !! i) ->
  data image = take (Z.to_nat 0x1800) m ++ replicate (Z.to_nat 0x680) 0xFF ++ drop (Z.to_nat 0x1E80) m.
Proof.
  intros Hm Hk. apply list_eq. intros i. rewrite Hk. unfold covered.
  rewrite block_addrs_cover; unfold AUX_BLOCK_START, AUX_BLOCK_END, AUX_READ_BLOCK_SIZE; [|lia|by exists 24|lia].
  destruct (decide (i < Z.to_nat 0x1800)%nat).
  { rewrite (proj2 (Nat.ltb_lt i _)) by lia. simpl.
    by rewrite lookup_app_l, lookup_take_lt by (rewrite ?length_take; lia). }
  rewrite (proj2 (Nat.ltb_ge i _)) by lia. cbn [orb].
  rewrite lookup_app_r by (rewrite length_take; lia).
  rewrite length_take, Hm. replace (Nat.min (Z.to_nat 0x1800) (Z.to_nat 0x2000)) with (Z.to_nat 0x1800) by lia.
  destruct (decide (i < Z.to_nat 0x1E80)%nat).
  { rewrite lookup_app_l by (rewrite length_replicate; lia).
    rewrite (lookup_replicate_2 (Z.to_nat 0x680)), lookup_replicate_2 by lia.
    destruct (_ && _) eqn:Ej; [lia|done]. }
  rewrite lookup_app_r by (rewrite length_replicate; lia). rewrite length_replicate, lookup_drop.
  replace (Z.to_nat 0x1E80 + (i - Z.to_nat 0x1800 - Z.to_nat 0x680))%nat with i by lia.
  destruct (_ && _) eqn:Ej; [done|].
  rewrite !lookup_ge_None_2; [done|lia|rewrite length_replicate; lia].
Qed.

(** A download is faithful: from a radio that answers the read commands,
    [download_image] returns an image of the variant's size whose main block,
    and whose auxiliary block if the variant has one, are the radio's EEPROM
    byte for byte, the gap between them being erased; the radio's memory and
    the line are left as they were. *)
Theorem download_faithful config m :
  length m = Z.to_nat 0x2000 ->
  exists image, download_image config (mkRadio m []) = (Done image, mkRadio m []) /\
    data image =
      if has_aux_block config
      then take (Z.to_nat 0x1800) m ++ replicate (Z.to_nat 0x680) 0xFF ++ drop (Z.to_nat 0x1E80) m
      else take (Z.to_nat 0x1800) m.
Proof.
  intros Hm. unfold download_image. cbv zeta. unfold bind at 1.
  set (n := Z.to_nat _). assert (Z.to_nat 0x1800 <= n)%nat as Hn.
  { unfold n, AUX_BLOCK_END, MAIN_BLOCK_END. destruct (has_aux_block config); lia. }
  destruct (radio_read_into m READ_BLOCK_SIZE
    (block_addrs MAIN_BLOCK_START MAIN_BLOCK_END READ_BLOCK_SIZE) (MemoryImage_new n))
    as (im1 & -> & Hl1 & Hk1).
  { unfold READ_BLOCK_SIZE. lia. }
  { apply region_blocks_ok; unfold MAIN_BLOCK_START, MAIN_BLOCK_END, READ_BLOCK_SIZE; try lia.
    - by exists 96.
    - unfold MemoryImage_new. simpl. rewrite length_replicate. lia. }
  assert (forall i, data im1 !! i = if (i <? Z.to_nat 0x1800)%nat then m !! i else data (MemoryImage_new n) !! i) as Hk.
  { intros i. rewrite Hk1. unfold covered. rewrite block_addrs_cover;
      unfold MAIN_BLOCK_START, MAIN_BLOCK_END, READ_BLOCK_SIZE; [|lia|by exists 96|lia].
    destruct (i <? Z.to_nat 0x1800)%nat eqn:Ei; destruct (_ && _) eqn:Ej; try done; lia. }
  cbn [MemoryImage_new data] in Hl1, Hk. rewrite length_replicate in Hl1.
  destruct (has_aux_block config) eqn:Haux; cbn [negb].
  2: { exists im1. split; [done|]. apply list_eq. intros i. rewrite Hk.
       destruct (i <? Z.to_nat 0x1800)%nat eqn:Ei; [by rewrite lookup_take_lt by lia|].
       rewrite !lookup_ge_None_2; [done|rewrite length_take; lia|].
       unfold n. rewrite length_replicate. unfold MAIN_BLOCK_END. lia. }
  assert (n = Z.to_nat 0x2000) as Hn2 by (unfold n, AUX_BLOCK_END; lia). clearbody n. subst n.
  match goal with |- exists image, ?t = _ /\ _ =>
    assert (t = read_into im1 (block_addrs AUX_BLOCK_START AUX_BLOCK_END AUX_READ_BLOCK_SIZE)
                  AUX_READ_BLOCK_SIZE (mkRadio m [])) as -> end.
  { apply (aux_reads_in_order (needs_aux_warmup config)). }
  destruct (radio_read_into m AUX_READ_BLOCK_SIZE
    (block_addrs AUX_BLOCK_START AUX_BLOCK_END AUX_READ_BLOCK_SIZE) im1) as (im2 & -> & Hl2 & Hk2).
  { unfold AUX_READ_BLOCK_SIZE. lia. }
  { apply region_blocks_ok; unfold AUX_BLOCK_START, AUX_BLOCK_END, AUX_READ_BLOCK_SIZE; try lia.
    by exists 24. }
  exists im2. split; [done|]. apply downloaded_image; [done|]. intros i. rewrite Hk2, Hk.
  destruct (covered _ _ _); [by rewrite orb_true_r|]. by rewrite orb_false_r, Hn2.
Qed.

Lemma download_faithful_witness :
  exists image, download_image bf_f8hp_config (mkRadio (replicate (Z.to_nat 0x2000) 7) [])
                = (Done image, mkRadio (replicate (Z.to_nat 0x2000) 7) []).
Proof.
  destruct (download_faithful bf_f8hp_config (replicate (Z.to_nat 0x2000) 7) (length_replicate _ _)) as (image & T & _).
  exists image. exact T.
Defined.

(** An upload writes what it should: to a radio that answers, an image
    that covers the variant's ranges is transferred completely, every address
    of an upload range then holding the image's byte and every other address
    what it held before, with progress reported once per block up to the
    total; an image that is too short is refused before anything is sent. *)
Theorem upload_exact config image m :
  length m = Z.to_nat 0x2000 ->
  if decide (upload_end config <= length (data image))%nat
  then exists m' total,
    upload_image config image (mkRadio m []) =
      (Done (map (fun k => (k, total)) (seq 1 total)), mkRadio m' []) /\
    length m' = length m /\
    forall i, m' !! i = if in_ranges (upload_ranges config) (Z.of_nat i) then data image !! i else m !! i
  else upload_image config image (mkRadio m []) =
       (Fail (ImageTooShort (upload_end config) (length (data image))), mkRadio m []).
Proof.
  intros Hm. unfold upload_image. cbv zeta. rewrite upload_required. case_decide as Hlen.
  2: { by rewrite (proj2 (Nat.ltb_lt _ _)) by lia. }
  rewrite (proj2 (Nat.ltb_ge _ _)) by lia. set (total := sum_list _).
  destruct (radio_write_from image (upload_addrs config) 0 total [] m) as (m' & E & Hl & Hk).
  { apply Forall_forall. intros a (H1 & H2 & H3 & _)%upload_addrs_ok. unfold upload_end in Hlen.
    split; [lia|]. split; [done|]. destruct (has_aux_block config); lia. }
  assert (length (upload_addrs config) = total) as Ht.
  { unfold total, upload_addrs, upload_ranges. by destruct (has_aux_block config). }
  exists m', total. rewrite E, Ht. split; [done|]. split; [done|].
  intros i. by rewrite Hk, upload_covered.
Qed.

Lemma upload_exact_witness :
  let m := replicate (Z.to_nat 0x2000) 0 in
  upload_image uv5r_config (MemoryImage_new 16) (mkRadio m []) = (Fail (ImageTooShort (Z.to_nat 0x1800) 16), mkRadio m []).
Proof.
  intros m. pose proof (upload_exact uv5r_config (MemoryImage_new 16) m (length_replicate _ _)) as T.
  destruct (decide _) as [Hc|Hc]; [exfalso; vm_compute in Hc; lia|exact T].
Defined.
