(* ===== verification/Settings.v ===== *)
(** * Radio tuning (crates/syntonia/src/config.rs)

    The timing and retry settings of the radio drivers with their defaults. The
    drivers do not take them: each default equals the constant that its driver uses
    instead (baofeng/constants.rs, hardware/detect.rs). *)

From S2P Require Import Prelude CloneProtocol.

Local Open Scope Z_scope.

(** ** The constants of the drivers *)

Definition INTER_BYTE_DELAY : Duration := duration_from_millis 10.
Definition POST_ACK_DELAY : Duration := duration_from_millis 50.
Definition IDENT_RETRY_DELAY : Duration := duration_from_secs 2.
Definition READ_TIMEOUT : Duration := duration_from_millis 1500.
Definition PROBE_TIMEOUT : Duration := duration_from_millis 500.

(** ** The settings *)

Record BaofengTimingConfig : Type := mkTiming {
  inter_byte_delay_ms : Z; post_ack_delay_ms : Z; ident_retry_delay_ms : Z; read_timeout_ms : Z; timing_max_retries : Z }.
Definition BaofengTimingConfig_default : BaofengTimingConfig := mkTiming 10 50 2000 1500 3.
Definition inter_byte_delay (c : BaofengTimingConfig) : Duration := duration_from_millis (inter_byte_delay_ms c).
Definition post_ack_delay (c : BaofengTimingConfig) : Duration := duration_from_millis (post_ack_delay_ms c).
Definition ident_retry_delay (c : BaofengTimingConfig) : Duration := duration_from_millis (ident_retry_delay_ms c).
Definition read_timeout (c : BaofengTimingConfig) : Duration := duration_from_millis (read_timeout_ms c).

Record HardwareProbeConfig : Type := mkProbe { probe_timeout_ms : Z }.
Definition HardwareProbeConfig_default : HardwareProbeConfig := mkProbe 500.
Definition probe_timeout (c : HardwareProbeConfig) : Duration := duration_from_millis (probe_timeout_ms c).

Record SyntoniaConfig : Type := mkSyntonia { baofeng_timing : BaofengTimingConfig; hardware_probe : HardwareProbeConfig }.
Definition SyntoniaConfig_default : SyntoniaConfig := mkSyntonia BaofengTimingConfig_default HardwareProbeConfig_default.

(** The default settings describe what the drivers do. *)
Lemma defaults_are_the_constants :
  let t := baofeng_timing SyntoniaConfig_default in
  inter_byte_delay t = INTER_BYTE_DELAY /\ post_ack_delay t = POST_ACK_DELAY /\ ident_retry_delay t = IDENT_RETRY_DELAY /\
  read_timeout t = READ_TIMEOUT /\ timing_max_retries t = MAX_RETRIES /\
  probe_timeout (hardware_probe SyntoniaConfig_default) = PROBE_TIMEOUT.
Proof. repeat split. Qed.
