(* ===== verification/Yaesu.v ===== *)
(** * Yaesu FTM-510DR (crates/syntonia/src/yaesu/{codec,protocol,variant}.rs)

    The radio's constraints, and the entry points whose protocol is not yet known:
    each refuses, and touches neither the port nor the image. *)

From S2P Require Import Prelude ChannelCodec Validate CloneProtocol.

Local Open Scope Z_scope.

Definition BAUD_RATE : Z := 38400.
Definition MAX_NAME_LEN : nat := 6.
Definition CHANNEL_COUNT : Z := 900.
Definition IMAGE_SIZE : Z := 65536.

Definition ftm510dr_constraints : RadioConstraints :=
  mkConstraints MAX_NAME_LEN [(mhz 144, mhz 148); (mhz 430, mhz 450)] [High; Mid; Low] CHANNEL_COUNT.

Inductive YaesuCodecError : Type :=
| IndexOutOfRange (index : Z) | ImageTooSmall (size expected : Z) | NotYetImplemented.
Inductive YaesuProtocolError : Type := ProtocolNotYetReversed | SerialIo (message : list Z) | HandshakeFailed.

Definition yaesu_decode_channel (image : bytes) (index : Z) : result Channel YaesuCodecError := Err NotYetImplemented.
(** The image is mutable in the source: it is returned. *)
Definition yaesu_encode_channel (image : bytes) (index : Z) (channel : Channel) : result unit YaesuCodecError * bytes :=
  (Err NotYetImplemented, image).

Section Session.
Context {P : Type} `{SerialPort P}.

Record YaesuSession : Type := mkYaesu { ys_port : P }.
Definition yaesu_open (port : P) : result YaesuSession YaesuProtocolError * P := (Err ProtocolNotYetReversed, port).
Definition yaesu_download (s : YaesuSession) : result bytes YaesuProtocolError * YaesuSession :=
  (Err ProtocolNotYetReversed, s).
Definition yaesu_upload (s : YaesuSession) (image : bytes) : result unit YaesuProtocolError * YaesuSession :=
  (Err ProtocolNotYetReversed, s).

(** No session exists: whatever the port, opening refuses and leaves it alone. *)
Lemma yaesu_open_refuses port : exists e, yaesu_open port = (Err e, port).
Proof. by eexists. Qed.
End Session.

(** Its two bands lie within those of the Baofeng radios. *)
Lemma ftm510dr_bands f :
  allows_frequency ftm510dr_constraints f = true <-> mhz 144 <= f <= mhz 148 \/ mhz 430 <= f <= mhz 450.
Proof. unfold allows_frequency. cbn [existsb valid_bands ftm510dr_constraints]. lia. Qed.
Lemma ftm510dr_within_baofeng f :
  allows_frequency ftm510dr_constraints f = true -> allows_frequency baofeng_f8hp_constraints f = true.
Proof.
  rewrite ftm510dr_bands. unfold allows_frequency, baofeng_f8hp_constraints, mhz. cbn [existsb valid_bands]. lia.
Qed.
