(* ===== verification/AutoDetect.v ===== *)
(** * Auto-detection (crates/syntonia/src/baofeng/detect.rs)

    Trying the programming handshake with every magic sequence on one port. The port
    has the trait of that module, whose errors are detection errors: the class
    [DetectPort]. *)

From S2P Require Import Prelude Float ChannelCodec Variant CloneProtocol.

Local Open Scope Z_scope.

(** [baofeng::detect::DetectError]. *)
Inductive AutoDetectError : Type :=
| DetectSerialIo (message : bytes)
| DetectTimeout
| UnexpectedAck (got : Z)
| NoMagicAnswered
| VariantIdentification (source : VariantError)
| IdentFailed (len : Z).

(** [read_exact] fills the buffer or fails. *)
Class DetectPort (P : Type) : Type := {
  dp_write_all : bytes -> P -> result unit AutoDetectError * P;
  dp_read_exact : nat -> P -> result bytes AutoDetectError * P;
  dp_flush : P -> result unit AutoDetectError * P;
  dp_read_length : forall n p b p', dp_read_exact n p = (Ok b, p') -> length b = n;
  dp_read_bytes : forall n p b p', dp_read_exact n p = (Ok b, p') -> Forall (is_uint 8) b }.

Section Detect.
Context {P : Type} `{DetectPort P}.

Definition dp_bind {A B} (m : P -> result A AutoDetectError * P) (k : A -> P -> result B AutoDetectError * P)
  : P -> result B AutoDetectError * P := fun p =>
  match m p with
  | (Ok a, p) => k a p
  | (Err e, p) => (Err e, p)
  end.
Definition dp_result {A} (r : result A AutoDetectError) (p : P) : result A AutoDetectError * P := (r, p).

Definition transmit (b : bytes) : P -> result unit AutoDetectError * P :=
  dp_bind (dp_write_all b) (fun _ => dp_flush).

Definition try_magic (sequence : bytes) : P -> result (RadioIdent * VariantConfig) AutoDetectError * P :=
  dp_bind (transmit sequence) (fun _ =>
  dp_bind (dp_read_exact 1) (fun ack =>
  let got := byte_at ack 0 in
  if negb (got =? ACK) then dp_result (Err (UnexpectedAck got))
  else
    dp_bind (transmit [CMD_IDENT]) (fun _ =>
    dp_bind (dp_read_exact 1) (fun len_buf =>
    let ident_len := byte_at len_buf 0 in
    dp_bind (dp_read_exact (Z.to_nat ident_len)) (fun ident_data =>
    match from_raw ident_data with
    | None => dp_result (Err (IdentFailed ident_len))
    | Some ident =>
        match identify_variant ident with
        | Err e => dp_result (Err (VariantIdentification e))
        | Ok config => dp_result (Ok (ident, config))
        end
    end))))).

(** The errors after which the next sequence is tried. *)
Definition try_next (e : AutoDetectError) : bool :=
  match e with DetectTimeout | UnexpectedAck _ => true | _ => false end.

Fixpoint try_sets (sets : list bytes) (p : P) : result (RadioIdent * VariantConfig) AutoDetectError * P :=
  match sets with
  | [] => (Err NoMagicAnswered, p)
  | sequence :: sets =>
      match try_magic sequence p with
      | (Ok found, p) => (Ok found, p)
      | (Err e, p) => if try_next e then try_sets sets p else (Err e, p)
      end
  end.

Definition auto_detect : P -> result (RadioIdent * VariantConfig) AutoDetectError * P := try_sets MAGIC_SETS.

(** * Lemmas *)

Lemma dp_bind_Ok {A B} (m : P -> result A AutoDetectError * P) (k : A -> P -> result B AutoDetectError * P) p b p' :
  dp_bind m k p = (Ok b, p') -> exists a p1, m p = (Ok a, p1) /\ k a p1 = (Ok b, p').
Proof. unfold dp_bind. destruct (m p) as [[a|e] p1]; [|done]. intros E. by exists a, p1. Qed.

(** What a successful handshake read: an identification of the length the radio
    announced, 8 or 12 bytes, that the tables know. *)
Lemma try_magic_Ok sequence p ident config p' :
  try_magic sequence p = (Ok (ident, config), p') ->
  (length (raw_bytes ident) = 8%nat \/ length (raw_bytes ident) = 12%nat) /\ from_raw (raw_bytes ident) = Some ident /\
  identify_variant ident = Ok config.
Proof.
  unfold try_magic. intros (u & p1 & _ & E)%dp_bind_Ok. apply dp_bind_Ok in E as (ack & p2 & _ & E).
  cbv zeta in E. destruct (negb _); [done|].
  apply dp_bind_Ok in E as (v & p3 & _ & E). apply dp_bind_Ok in E as (lb & p4 & _ & E).
  apply dp_bind_Ok in E as (raw & p5 & _ & E). destruct (from_raw raw) as [id|] eqn:Ef; [|done].
  destruct (identify_variant id) as [c|] eqn:Ei; [|done]. injection E as <- <- _.
  assert (raw_bytes id = raw) as Hraw by (unfold from_raw in Ef; cbv zeta in Ef; repeat case_match; simplify_eq; done).
  rewrite Hraw. split; [|done]. unfold from_raw in Ef. cbv zeta in Ef.
  destruct (length raw =? 8)%nat eqn:E8; [left; by apply Nat.eqb_eq|].
  destruct (length raw =? 12)%nat eqn:E12; [right; by apply Nat.eqb_eq|done].
Qed.

(** Sequences that were all passed over, and the port after them. *)
Inductive passed_over : list bytes -> P -> P -> Prop :=
| passed_none p : passed_over [] p p
| passed_one sequence sets p p1 e p' :
    try_magic sequence p = (Err e, p1) -> try_next e = true -> passed_over sets p1 p' ->
    passed_over (sequence :: sets) p p'.

Lemma try_sets_cases sets : forall p r p', try_sets sets p = (r, p') ->
  (exists skipped sequence rest p1, sets = skipped ++ sequence :: rest /\ passed_over skipped p p1 /\
     try_magic sequence p1 = (r, p') /\ match r with Ok _ => True | Err e => try_next e = false end) \/
  (r = Err NoMagicAnswered /\ passed_over sets p p').
Proof.
  induction sets as [|sequence sets IH]; intros p r p'; cbn [try_sets].
  - intros [= <- <-]. right. split; [done|constructor].
  - destruct (try_magic sequence p) as [[found|e] p1] eqn:E.
    + intros [= <- <-]. left. exists [], sequence, sets, p. split_and!; [done|constructor|done|done].
    + destruct (try_next e) eqn:En.
      * intros [(sk & s & rest & p2 & -> & Hsk & Hm & Hr)|[-> Hp]]%IH.
        -- left. exists (sequence :: sk), s, rest, p2. split_and!; [done|by econstructor|done|done].
        -- right. split; [done|by econstructor].
      * intros [= <- <-]. left. exists [], sequence, sets, p. split_and!; [done|constructor|done|done].
Qed.
End Detect.

(** * Properties *)

(** Detection tries the sequences in order, passes over those that time out or are
    answered wrongly, and stops at the first other outcome: a radio whose
    identification of 8 or 12 bytes the tables know, or an error that is neither; it
    reports that no radio answered only when every sequence was passed over. *)
Theorem auto_detect_first_answer {P : Type} `{DetectPort P} (p p' : P) r :
  auto_detect p = (r, p') ->
  (exists skipped sequence rest p1, MAGIC_SETS = skipped ++ sequence :: rest /\ passed_over skipped p p1 /\
     try_magic sequence p1 = (r, p') /\
     match r with
     | Ok (ident, config) => (length (raw_bytes ident) = 8%nat \/ length (raw_bytes ident) = 12%nat) /\
         identify_variant ident = Ok config
     | Err e => try_next e = false
     end) \/
  (r = Err NoMagicAnswered /\ passed_over MAGIC_SETS p p').
Proof.
  intros [(sk & s & rest & p1 & E & Hsk & Hm & Hr)|?]%try_sets_cases; [left|by right].
  exists sk, s, rest, p1. split_and!; [done..|]. destruct r as [[ident config]|e]; [|done].
  by apply try_magic_Ok in Hm as (? & _ & ?).
Qed.
