(* ===== verification/Text.v ===== *)
(** * Text: UTF-8

    What the components use of the standard library's strings. A string is a list of
    code points ([text]) or its UTF-8 bytes. *)

From S2P Require Import Prelude ChannelCodec.

Local Open Scope Z_scope.

Abbreviation text := (list Z) (only parsing).

(** ** UTF-8 *)

(** [String::from_utf8_lossy]: the length of the character at the head and its code
    point, or the length of the invalid sequence. *)
Definition in_bytes (lo hi b : Z) : bool := (lo <=? b) && (b <=? hi).
Definition is_cont : Z -> bool := in_bytes 0x80 0xBF.

Definition utf8_head (l : bytes) : nat * option Z :=
  let b0 := byte_at l 0 in let b1 := byte_at l 1 in let b2 := byte_at l 2 in let b3 := byte_at l 3 in
  if b0 <? 0x80 then (1%nat, Some b0)
  else if in_bytes 0xC2 0xDF b0 then
    if is_cont b1 then (2%nat, Some ((b0 - 0xC0) * 64 + (b1 - 0x80))) else (1%nat, None)
  else if in_bytes 0xE0 0xEF b0 then
    if in_bytes (if b0 =? 0xE0 then 0xA0 else 0x80) (if b0 =? 0xED then 0x9F else 0xBF) b1 then
      if is_cont b2 then (3%nat, Some ((b0 - 0xE0) * 4096 + (b1 - 0x80) * 64 + (b2 - 0x80))) else (2%nat, None)
    else (1%nat, None)
  else if in_bytes 0xF0 0xF4 b0 then
    if in_bytes (if b0 =? 0xF0 then 0x90 else 0x80) (if b0 =? 0xF4 then 0x8F else 0xBF) b1 then
      if is_cont b2 then
        if is_cont b3
        then (4%nat, Some ((b0 - 0xF0) * 262144 + (b1 - 0x80) * 4096 + (b2 - 0x80) * 64 + (b3 - 0x80)))
        else (3%nat, None)
      else (2%nat, None)
    else (1%nat, None)
  else (1%nat, None).

Fixpoint utf8_lossy (fuel : nat) (l : bytes) : text :=
  match fuel, l with
  | S fuel, _ :: _ => let '(n, c) := utf8_head l in default 0xFFFD c :: utf8_lossy fuel (drop n l)
  | _, _ => []
  end.
Definition from_utf8_lossy (l : bytes) : text := utf8_lossy (length l) l.

(** [str::from_utf8]: the bytes, if they are UTF-8. *)
Fixpoint utf8_valid (fuel : nat) (l : bytes) : bool :=
  match l, fuel with
  | [], _ => true
  | _ :: _, S fuel => match utf8_head l with (n, Some _) => utf8_valid fuel (drop n l) | (_, None) => false end
  | _ :: _, O => false
  end.
Definition from_utf8 (l : bytes) : option bytes := if utf8_valid (length l) l then Some l else None.

(** * Lemmas *)

(** Encoding a character and reading it back, surrogates apart. *)
Definition is_char (c : Z) : Prop := 0 <= c < 0xD800 \/ 0xE000 <= c < 0x110000.


(** Decides every condition of the goal by arithmetic. *)
Ltac decide_conds :=
  repeat match goal with
  | |- context [if ?b then ?x else ?y] =>
      first [replace b with true by (symmetry; lia) | replace b with false by (symmetry; lia)]; cbv beta iota
  end.

Lemma utf8_head_char c r : is_char c -> utf8_head (utf8_char c ++ r) = (length (utf8_char c), Some c).
Proof.
  intros Hc. unfold is_char in Hc. unfold utf8_char.
  pose proof (Z.div_mod c 64 ltac:(lia)) as E1. pose proof (Z.mod_pos_bound c 64 ltac:(lia)) as B1.
  destruct (c <? 0x80) eqn:E; [|destruct (c <? 0x800) eqn:E'; [|destruct (c <? 0x10000) eqn:E'']].
  - unfold utf8_head. cbn [app]. change (byte_at _ 0) with c. cbv zeta. by rewrite E.
  - remember (c / 64) as q. remember (c mod 64) as m. unfold utf8_head, is_cont, in_bytes.
    cbv zeta. cbn [app]. change (byte_at _ 0) with (0xC0 + q). change (byte_at _ 1) with (0x80 + m).
    decide_conds. cbn [length]. do 2 f_equal. lia.
  - assert (c / 4096 = c / 64 / 64) as -> by (rewrite Z.div_div by lia; done).
    remember (c / 64) as q. remember (c mod 64) as m.
    pose proof (Z.div_mod q 64 ltac:(lia)) as E2. pose proof (Z.mod_pos_bound q 64 ltac:(lia)) as B2.
    remember (q / 64) as q2. remember (q mod 64) as m2. unfold utf8_head, is_cont, in_bytes. cbv zeta. cbn [app].
    change (byte_at _ 0) with (0xE0 + q2). change (byte_at _ 1) with (0x80 + m2). change (byte_at _ 2) with (0x80 + m).
    destruct (Z.eq_dec q2 0) as [->|]; [|destruct (Z.eq_dec q2 13) as [->|]]; decide_conds; cbn [length]; do 2 f_equal; lia.
  - assert (c / 4096 = c / 64 / 64) as -> by (rewrite Z.div_div by lia; done).
    assert (c / 262144 = c / 64 / 64 / 64) as -> by (rewrite !Z.div_div by lia; done).
    remember (c / 64) as q. remember (c mod 64) as m.
    pose proof (Z.div_mod q 64 ltac:(lia)) as E2. pose proof (Z.mod_pos_bound q 64 ltac:(lia)) as B2.
    remember (q / 64) as q2. remember (q mod 64) as m2.
    pose proof (Z.div_mod q2 64 ltac:(lia)) as E3. pose proof (Z.mod_pos_bound q2 64 ltac:(lia)) as B3.
    remember (q2 / 64) as q3. remember (q2 mod 64) as m3. unfold utf8_head, is_cont, in_bytes. cbv zeta. cbn [app].
    change (byte_at _ 0) with (0xF0 + q3). change (byte_at _ 1) with (0x80 + m3). change (byte_at _ 2) with (0x80 + m2).
    change (byte_at _ 3) with (0x80 + m).
    destruct (Z.eq_dec q3 0) as [->|]; [|destruct (Z.eq_dec q3 4) as [->|]]; decide_conds; cbn [length]; do 2 f_equal; lia.
Qed.

Lemma utf8_char_cons c : exists b l, utf8_char c = b :: l.
Proof. unfold utf8_char. repeat case_match; eauto. Qed.

(** A string's bytes are UTF-8, and decoding them gives the string back. *)
Lemma utf8_roundtrip s : Forall is_char s ->
  from_utf8 (as_bytes s) = Some (as_bytes s) /\ from_utf8_lossy (as_bytes s) = s.
Proof.
  intros Hs. assert (forall fuel, (length (as_bytes s) <= fuel)%nat ->
    utf8_valid fuel (as_bytes s) = true /\ utf8_lossy fuel (as_bytes s) = s) as H.
  { induction Hs as [|c s Hc Hs IH]; intros fuel Hf; [by destruct fuel|].
    change (as_bytes (c :: s)) with (utf8_char c ++ as_bytes s) in *. rewrite length_app in Hf.
    destruct (utf8_char_cons c) as (b & l & E). pose proof (utf8_head_char c (as_bytes s) Hc) as Hh.
    rewrite E in *. cbn [length app] in *. destruct fuel as [|fuel]; [lia|]. cbn [utf8_valid utf8_lossy].
    rewrite Hh. cbn [default]. cbn [drop].
    rewrite drop_app_length. destruct (IH fuel ltac:(lia)) as [Hv Hl]. by rewrite Hv, Hl. }
  unfold from_utf8, from_utf8_lossy. destruct (H _ (Nat.le_refl _)) as [-> ->]. done.
Qed.
