(* ===== verification/RadioDetect.v ===== *)
(** * Radio detection (crates/syntonia/src/hardware)

    USB programming cables (cables.rs, usb.rs), the probe that identifies the radio
    behind a serial port (detect.rs) and the warnings about cables (warnings.rs).
    The host's serial and USB devices are the class [SerialSystem]; an open port is
    a [SerialPort] of the clone protocol. *)

From S2P Require Import Prelude Decimal ChannelCodec Text Variant CloneProtocol.

Local Open Scope Z_scope.

Abbreviation text := (list Z) (only parsing).

(** ** Text *)

(** [trim_end_matches('\0')]. *)
Fixpoint drop_nul (l : text) : text :=
  match l with 0 :: r => drop_nul r | _ => l end.
Definition trim_end_nul (l : text) : text := rev (drop_nul (rev l)).

(** [{:04X}]. *)
Definition hex_digit (d : Z) : Z := if d <? 10 then 48 + d else 55 + d.
Definition hex4 (n : Z) : text :=
  map (fun k => hex_digit (n / 16 ^ k mod 16)) [3; 2; 1; 0].

(** ** Cables (cables.rs) *)

Inductive CableChip : Type := Pl2303 | Ch340 | Cp2102 | Ftdi | UnknownChip (vid pid : Z).

#[export] Instance CableChip_eq_dec : EqDecision CableChip.
Proof. solve_decision. Defined.

Definition CableChip_display (chip : CableChip) : text :=
  match chip with
  | Pl2303 => byte_str "PL2303"
  | Ch340 => byte_str "CH340"
  | Cp2102 => byte_str "CP2102"
  | Ftdi => byte_str "FT232R"
  | UnknownChip vid pid => byte_str "Unknown (" ++ hex4 vid ++ byte_str ":" ++ hex4 pid ++ byte_str ")"
  end.

Record KnownCable : Type := mkCable { kc_vid : Z; kc_pid : Z; kc_chip : CableChip; kc_name : string }.

Definition KNOWN_CABLES : list KnownCable :=
  [mkCable 0x067B 0x2303 Pl2303 "Prolific PL2303";
   mkCable 0x1A86 0x7523 Ch340 "WinChipHead CH340";
   mkCable 0x10C4 0xEA60 Cp2102 "Silicon Labs CP2102";
   mkCable 0x0403 0x6001 Ftdi "FTDI FT232R"].

Definition lookup_cable (vid pid : Z) : option KnownCable :=
  find (fun c => (kc_vid c =? vid) && (kc_pid c =? pid)) KNOWN_CABLES.

Definition classify_cable (vid pid : Z) : CableChip :=
  match find (fun c => (kc_vid c =? vid) && (kc_pid c =? pid)) KNOWN_CABLES with
  | Some c => kc_chip c
  | None => UnknownChip vid pid
  end.

(** ** The host's serial ports and USB devices *)

Record UsbPortInfo : Type := mkUsbPort {
  up_vid : Z; up_pid : Z; up_serial_number : option text; up_manufacturer : option text; up_product : option text }.
Inductive SerialPortType : Type := UsbPort (info : UsbPortInfo) | OtherPort.
Record SerialPortInfo : Type := mkPortInfo { port_name : text; port_type : SerialPortType }.

(** A USB device whose descriptor was read: its identifiers and [bcdDevice] version. *)
Record UsbDescriptor : Type := mkDescriptor { ud_vid : Z; ud_pid : Z; ud_version : Z * Z * Z }.

(** A [serialport::Error] is its text. [usb_devices] is [rusb::devices], with [None]
    for a device whose descriptor cannot be read. Dropping a port closes it. *)
Class SerialSystem (W P : Type) `{SerialPort P} : Type := {
  available_ports : W -> result (list SerialPortInfo) text;
  usb_devices : W -> option (list (option UsbDescriptor));
  open_port : text -> Z -> W -> result P text * W;
  close_port : P -> W -> W }.

(** ** Scanning for cables (usb.rs) *)

Record UsbCable : Type := mkUsbCable {
  uc_vid : Z; uc_pid : Z; uc_chip : CableChip; uc_serial_port : text; uc_manufacturer : option text;
  uc_product : option text; uc_serial_number : option text; uc_is_clone : option bool }.

Inductive ScanError : Type := EnumeratePorts (source : text).

Definition usb_cable (name : text) (info : UsbPortInfo) : UsbCable :=
  mkUsbCable (up_vid info) (up_pid info) (classify_cable (up_vid info) (up_pid info)) name
    (up_manufacturer info) (up_product info) (up_serial_number info) None.

Definition cables_from_ports (ports : list SerialPortInfo) : list UsbCable :=
  omap (fun port => match port_type port with
                    | UsbPort info => Some (usb_cable (port_name port) info)
                    | OtherPort => None
                    end) ports.

(** [Version(a, b, c) < Version(x, y, z)]: the derived lexicographic order. *)
Definition version_ltb (v w : Z * Z * Z) : bool :=
  let '(a, b, c) := v in let '(x, y, z) := w in
  (a <? x) || ((a =? x) && ((b <? y) || ((b =? y) && (c <? z)))).

Fixpoint is_pl2303_clone (devices : list (option UsbDescriptor)) (vid pid : Z) : bool :=
  match devices with
  | [] => false
  | None :: rest => is_pl2303_clone rest vid pid
  | Some desc :: rest =>
      if (ud_vid desc =? vid) && (ud_pid desc =? pid) then version_ltb (ud_version desc) (0, 4, 0)
      else is_pl2303_clone rest vid pid
  end.

Definition set_is_clone (cable : UsbCable) (v : option bool) : UsbCable :=
  mkUsbCable (uc_vid cable) (uc_pid cable) (uc_chip cable) (uc_serial_port cable) (uc_manufacturer cable)
    (uc_product cable) (uc_serial_number cable) v.

Definition check_pl2303_clones (devices : option (list (option UsbDescriptor))) (cables : list UsbCable)
  : list UsbCable :=
  match devices with
  | None => cables
  | Some devices =>
      map (fun cable =>
             if bool_decide (uc_chip cable = Pl2303)
             then set_is_clone cable (Some (is_pl2303_clone devices (uc_vid cable) (uc_pid cable)))
             else cable) cables
  end.

(** ** Probing a port (detect.rs) *)

Inductive RadioKind : Type := BaofengUv5r | BaofengBfF8hp | BaofengUv5rmPlus | YaesuFtm510dr.

Record VariantConfig : Type := mkDetectConfig { vc_kind : RadioKind; vc_baud_rate : Z; vc_memory_size : Z }.
Record RadioIdent : Type := mkDetectIdent { ri_firmware : text; ri_raw_response : bytes }.

Inductive DetectError : Type :=
| ScanPorts (source : ScanError)
| OpenPort (port source : text)
| DetectIo (port : text) (source : IoError)
| EnumerateForLookup (source : text).

Definition IDENT_REQUEST : Z := 0x02.
Definition IDENT_LENGTH : nat := 8.
Definition BAUD_RATE : Z := 9600.
Definition MAGIC_UV5R_PROBE : bytes := [0x50; 0xBB; 0xFF; 0x20; 0x12; 0x07; 0x25].
Definition UV5RM_PLUS_PREFIXES : list bytes := map ascii_bytes ["BFU"]%string.

Definition classify_ident (ident : bytes) : option RadioKind :=
  let matches table := existsb (fun prefix => starts_with prefix ident) table in
  if matches BF_F8HP_PREFIXES then Some BaofengBfF8hp
  else if matches UV5R_PREFIXES then Some BaofengUv5r
  else if matches UV5RM_PLUS_PREFIXES then Some BaofengUv5rmPlus
  else None.

Definition parse_uv5r_ident (ident : bytes) : option VariantConfig :=
  kind ← classify_ident ident; Some (mkDetectConfig kind BAUD_RATE 0x1808).

Record MagicSequence : Type := mkMagic { ms_magic : bytes; ms_parse : bytes -> option VariantConfig }.
Definition MAGIC_SEQUENCES : list MagicSequence := [mkMagic MAGIC_UV5R_PROBE parse_uv5r_ident].

Definition is_silence (err : IoError) : bool :=
  match err with TimedOut | UnexpectedEof | WouldBlock => true | OtherIo => false end.

(** [io::Result] code on a port. *)
Definition port_io (P A : Type) : Type := P -> result A IoError * P.
Definition io_bind {P A B} (m : port_io P A) (k : A -> port_io P B) : port_io P B := fun p =>
  match m p with
  | (Ok a, p) => k a p
  | (Err e, p) => (Err e, p)
  end.
Definition io_ret {P A} (a : A) : port_io P A := fun p => (Ok a, p).
Notation "'let~' x ':=' m 'in' k" := (io_bind m (fun x => k))
  (at level 10, x pattern, k at level 200) : akroasis_scope.

(** A failure that is only logged. *)
Definition io_ignore {P} (m : port_io P unit) : port_io P unit := fun p => (Ok tt, (m p).2).

Section Probe.
Context {P : Type} `{SerialPort P}.

Definition try_magic_sequence (seq : MagicSequence) : port_io P (option (VariantConfig * RadioIdent)) :=
  let~ _ := write_all (ms_magic seq) in
  let~ ack := read_exact 1 in
  if negb (byte_at ack 0 =? ACK) then io_ret None
  else
    let~ _ := write_all [IDENT_REQUEST] in
    let~ ident_buf := read_exact IDENT_LENGTH in
    let~ _ := io_ignore (write_all [ACK]) in
    match ms_parse seq ident_buf with
    | None => io_ret None
    | Some variant =>
        io_ret (Some (variant, mkDetectIdent (trim_end_nul (from_utf8_lossy ident_buf)) ident_buf))
    end.

Fixpoint probe_sequences (seqs : list MagicSequence) (port_path : text) (p : P)
  : result (option (VariantConfig * RadioIdent)) DetectError * P :=
  match seqs with
  | [] => (Ok None, p)
  | seq :: rest =>
      match try_magic_sequence seq p with
      | (Ok (Some r), p) => (Ok (Some r), p)
      | (Ok None, p) => probe_sequences rest port_path p
      | (Err err, p) =>
          if is_silence err then probe_sequences rest port_path p
          else (Err (DetectIo port_path err), p)
      end
  end.

Definition probe_port : text -> P -> result (option (VariantConfig * RadioIdent)) DetectError * P :=
  probe_sequences MAGIC_SEQUENCES.
End Probe.

(** ** Detecting radios *)

Record DetectedRadio : Type := mkDetected { dr_cable : UsbCable; dr_variant : VariantConfig; dr_ident : RadioIdent }.

(** The trait [RadioProber]. *)
Class RadioProber (W : Type) : Type := {
  probe : text -> W -> result (option (VariantConfig * RadioIdent)) DetectError * W }.

(** A probe that fails or finds nothing is only logged. *)
Fixpoint detect_radios_impl {W} `{RadioProber W} (cables : list UsbCable) (w : W) : list DetectedRadio * W :=
  match cables with
  | [] => ([], w)
  | cable :: rest =>
      let '(r, w) := probe (uc_serial_port cable) w in
      let '(detected, w) := detect_radios_impl rest w in
      (match r with
       | Ok (Some (variant, ident)) => mkDetected cable variant ident :: detected
       | _ => detected
       end, w)
  end.

(** The loop over the ports: a port of that name that is not a USB port does not end it. *)
Fixpoint cable_among (ports : list SerialPortInfo) (port_path : text) : UsbCable :=
  match ports with
  | [] => mkUsbCable 0 0 (UnknownChip 0 0) port_path None None None None
  | port :: rest =>
      if bool_decide (port_name port = port_path) then
        match port_type port with
        | UsbPort info => usb_cable port_path info
        | OtherPort => cable_among rest port_path
        end
      else cable_among rest port_path
  end.

Section System.
Context {W P : Type} `{SerialSystem W P}.

Definition scan_usb_cables (w : W) : result (list UsbCable) ScanError :=
  let? ports := map_err EnumeratePorts (available_ports w) in
  Ok (check_pl2303_clones (usb_devices w) (cables_from_ports ports)).

(** [DefaultProber]: the port is closed when the probe returns. *)
#[export] Instance DefaultProber : RadioProber W := {
  probe port_path w :=
    match open_port port_path BAUD_RATE w with
    | (Err e, w) => (Err (OpenPort port_path e), w)
    | (Ok port, w) => let '(r, port) := probe_port port_path port in (r, close_port port w)
    end }.

Definition find_cable_for_port (port_path : text) (w : W) : result UsbCable DetectError :=
  let? ports := map_err EnumerateForLookup (available_ports w) in
  Ok (cable_among ports port_path).

Definition detect_radio_on_port_impl `{RadioProber W} (port_path : text) (w : W)
  : result (option DetectedRadio) DetectError * W :=
  match find_cable_for_port port_path w with
  | Err e => (Err e, w)
  | Ok cable =>
      match probe port_path w with
      | (Err e, w) => (Err e, w)
      | (Ok (Some (variant, ident)), w) => (Ok (Some (mkDetected cable variant ident)), w)
      | (Ok None, w) => (Ok None, w)
      end
  end.

Definition detect_radios (w : W) : result (list DetectedRadio) DetectError * W :=
  match scan_usb_cables w with
  | Err e => (Err (ScanPorts e), w)
  | Ok cables => let '(detected, w) := detect_radios_impl cables w in (Ok detected, w)
  end.

Definition detect_radio_on_port (port_path : text) (w : W) : result (option DetectedRadio) DetectError * W :=
  detect_radio_on_port_impl port_path w.
End System.

(** ** Warnings (warnings.rs) *)

Inductive HardwareWarning : Type :=
| Pl2303Clone (port : text)
| MultipleRadiosDetected (count : nat)
| PortAccessDenied (port : text)
| UnknownCable (vid pid : Z) (port : text).

Definition HardwareWarning_display (w : HardwareWarning) : text :=
  match w with
  | Pl2303Clone port =>
      byte_str "PL2303 clone detected on " ++ port ++ byte_str ". Works on Linux but may fail on Windows."
  | MultipleRadiosDetected count =>
      byte_str "Multiple radios detected (" ++ show_uint (Z.of_nat count) ++ byte_str "). Use --port to specify which one."
  | PortAccessDenied port =>
      byte_str "Cannot access " ++ port ++ byte_str ". Add your user to the 'dialout' GROUP: `sudo usermod -aG dialout $USER`"
  | UnknownCable vid pid port =>
      byte_str "Unknown USB serial device " ++ hex4 vid ++ byte_str ":" ++ hex4 pid ++ byte_str " on " ++ port
      ++ byte_str ". It might work " ++ [0xE2; 0x80; 0x94] ++ byte_str " try --port " ++ port
      ++ byte_str " to use it directly."
  end.

Definition scan_warnings_of (cable : UsbCable) : list HardwareWarning :=
  (if bool_decide (uc_is_clone cable = Some true) then [Pl2303Clone (uc_serial_port cable)] else [])
  ++ match uc_chip cable with
     | UnknownChip vid pid => [UnknownCable vid pid (uc_serial_port cable)]
     | _ => []
     end.

Definition collect_scan_warnings (cables : list UsbCable) : list HardwareWarning :=
  concat (map scan_warnings_of cables).

Definition collect_detection_warnings (detected : list DetectedRadio) : list HardwareWarning :=
  if (1 <? length detected)%nat then [MultipleRadiosDetected (length detected)] else [].

Definition port_access_denied (port : text) : HardwareWarning := PortAccessDenied port.

(** * Lemmas *)

(** The prefixes of the UV-5RM Plus match no identification of another table. *)
Lemma plus_prefix_disjoint ident :
  existsb (fun p => starts_with p ident) UV5RM_PLUS_PREFIXES = true ->
  existsb (fun p => starts_with p ident) BF_F8HP_PREFIXES = false /\
  existsb (fun p => starts_with p ident) UV5R_PREFIXES = false.
Proof.
  cbn [UV5RM_PLUS_PREFIXES map existsb]. rewrite orb_false_r. unfold starts_with at 1.
  intros Hu%bool_decide_eq_true. destruct ident as [|a [|b [|c ident]]]; try discriminate.
  injection Hu as -> -> ->. split; reflexivity.
Qed.

(** The kind of radio a session configured for a variant drives. *)
Definition variant_kind (v : RadioVariant) : RadioKind :=
  match v with
  | Uv5r | Uv5rOriginal => BaofengUv5r
  | BfF8hp => BaofengBfF8hp
  | Uv5rmPlus => BaofengUv5rmPlus
  end.

Lemma from_raw_8 raw : length raw = 8%nat -> exists ident, from_raw raw = Some ident /\ normalized ident = raw.
Proof. intros Hl. unfold from_raw. rewrite Hl. eexists. split; reflexivity. Qed.

(** ** What probing sends *)

Section Sends.
Context {P : Type} `{SerialPort P} (Q : bytes -> Prop).

Definition sends_only {A} (m : port_io (Logged P) A) : Prop :=
  forall l, exists new, log (m l).2 = log l ++ new /\ Forall Q new.

Lemma sends_ret {A} (a : A) : sends_only (io_ret a).
Proof. intros l. exists []. by rewrite app_nil_r. Qed.

Lemma sends_read n : sends_only (read_exact n).
Proof.
  intros l. exists []. rewrite app_nil_r. split; [|done].
  cbn. unfold through. by destruct (read_exact n (inner l)).
Qed.

Lemma sends_write b : Q b -> sends_only (write_all b).
Proof.
  intros Hb l. exists [b]. split; [|by constructor]. cbn. by destruct (write_all b (inner l)).
Qed.

Lemma sends_ignore m : sends_only m -> sends_only (io_ignore m).
Proof. intros Hm l. apply Hm. Qed.

Lemma sends_bind {A B} (m : port_io (Logged P) A) (k : A -> port_io (Logged P) B) :
  sends_only m -> (forall a, sends_only (k a)) -> sends_only (io_bind m k).
Proof.
  intros Hm Hk l. unfold io_bind. destruct (Hm l) as (n1 & E1 & F1).
  destruct (m l) as [[a|e] l1]; cbn [snd] in *; [|by exists n1].
  destruct (Hk a l1) as (n2 & E2 & F2). exists (n1 ++ n2).
  rewrite E2, E1, app_assoc. split; [done|]. by apply Forall_app.
Qed.
End Sends.

Create HintDb radio.
#[export] Hint Resolve sends_ret sends_read sends_ignore : radio.

(** What a probe may send: the magic sequence, the identification request, the
    acknowledgement. *)
Definition probe_buffer (b : bytes) : Prop := b = MAGIC_UV5R_PROBE \/ b = [IDENT_REQUEST] \/ b = [ACK].

Lemma probe_buffer_no_write b addr d : probe_buffer b -> b <> write_packet addr d.
Proof. by intros [-> | [-> | ->]]. Qed.

Lemma sends_try_magic {P} `{SerialPort P} :
  sends_only (P := P) probe_buffer (try_magic_sequence (mkMagic MAGIC_UV5R_PROBE parse_uv5r_ident)).
Proof.
  assert (forall b, probe_buffer b -> sends_only (P := P) probe_buffer (write_all b)) as Hw by (intros; by apply sends_write).
  unfold probe_buffer in *. unfold try_magic_sequence. cbn [ms_magic ms_parse].
  apply sends_bind; [auto|]. intros _. apply sends_bind; [auto with radio|]. intros ack.
  destruct (negb _); [auto with radio|]. apply sends_bind; [auto|]. intros _.
  apply sends_bind; [auto with radio|]. intros buf. apply sends_bind; [auto with radio|]. intros _.
  destruct (parse_uv5r_ident buf); auto with radio.
Qed.

Lemma try_magic_identified {P} `{SerialPort P} (p p' : P) v i :
  try_magic_sequence (mkMagic MAGIC_UV5R_PROBE parse_uv5r_ident) p = (Ok (Some (v, i)), p') ->
  length (ri_raw_response i) = 8%nat /\ classify_ident (ri_raw_response i) = Some (vc_kind v).
Proof.
  unfold try_magic_sequence, io_bind, io_ignore, io_ret. cbn [ms_magic ms_parse].
  destruct (write_all _ p) as [[[]|e] p1]; [|done]. destruct (read_exact 1 p1) as [[ack|e] p2]; [|done].
  destruct (negb _); [done|]. destruct (write_all _ p2) as [[[]|e] p3]; [|done].
  destruct (read_exact IDENT_LENGTH p3) as [[buf|e] p4] eqn:E; [|done].
  apply read_exact_length in E. unfold parse_uv5r_ident.
  destruct (classify_ident buf) as [kind|] eqn:Hk; cbn; [|done]. intros [= <- <- _]. by split.
Qed.

(** * Properties *)

(** Probing is harmless and honest: whatever the port answers, a probe sends only
    the magic sequence, the identification request and an acknowledgement, so never a
    write command; it fails only with an I/O error that is not silence, and a radio
    it reports is one whose eight identification bytes the prefix tables name. *)
Theorem probe_harmless {P} `{SerialPort P} path (l : Logged P) :
  let '(r, l') := probe_port path l in
  (exists sent, log l' = log l ++ sent /\
     Forall (fun b => probe_buffer b /\ forall addr d, b <> write_packet addr d) sent) /\
  match r with
  | Ok None => True
  | Ok (Some (v, i)) => length (ri_raw_response i) = 8%nat /\ classify_ident (ri_raw_response i) = Some (vc_kind v)
  | Err e => exists err, e = DetectIo path err /\ is_silence err = false
  end.
Proof.
  unfold probe_port, MAGIC_SEQUENCES. cbn [probe_sequences].
  destruct (sends_try_magic l) as (sent & Hlog & Hsent).
  assert (Forall (fun b => probe_buffer b /\ forall addr d, b <> write_packet addr d) sent) as Hall.
  { apply (Forall_impl _ _ _ Hsent). eauto using probe_buffer_no_write. }
  destruct (try_magic_sequence _ l) as [[[[v i]|]|err] l'] eqn:E; cbn [snd] in Hlog; [|by eauto|].
  - split; [by eauto|]. exact (try_magic_identified l l' v i E).
  - destruct (is_silence err) eqn:Es; split; eauto.
Qed.

(** Detection and the programming session agree: on the eight bytes of an
    identification the probe names the kind of the variant the session configures
    itself for, and where the session knows no variant the probe still names exactly
    the UV-5RM Plus. *)
Theorem detection_agrees_with_session raw ident :
  length raw = 8%nat -> from_raw raw = Some ident ->
  classify_ident raw =
    match identify_variant ident with
    | Ok config => Some (variant_kind (variant config))
    | Err _ => if existsb (fun p => starts_with p raw) UV5RM_PLUS_PREFIXES then Some BaofengUv5rmPlus else None
    end.
Proof.
  intros Hl Hf. destruct (from_raw_8 raw Hl) as (ident' & Hf' & Hn). assert (ident' = ident) by congruence. subst.
  unfold classify_ident, identify_variant.
  destruct (existsb _ BF_F8HP_PREFIXES) eqn:E1; [done|].
  destruct (existsb _ UV5R_PREFIXES) eqn:E2; done.
Qed.

Lemma detection_agrees_with_session_witness :
  from_raw (ascii_bytes "BFP3V3 F") <> None /\
  classify_ident (ascii_bytes "BFP3V3 F") = Some BaofengBfF8hp.
Proof.
  split; [vm_compute; discriminate|].
  exact (detection_agrees_with_session (ascii_bytes "BFP3V3 F") _ eq_refl eq_refl).
Defined.
