(* ===== verification/Registry.v ===== *)
(** * The hardware inventory (crates/stoicheion/src/hardware.rs)

    The devices Akroasis knows, by identifier, with their kind, connection and status.
    A [BTreeMap] is a [gmap] read in ascending key order; a device identifier is a
    ULID, a number. *)

From stdpp Require Import sorting.
From S2P Require Import Prelude Decimal CsvPlan RadioDetect.

Local Open Scope Z_scope.

Abbreviation text := (list Z) (only parsing).
Abbreviation DeviceId := Z (only parsing).

Record UsbId : Type := mkUsbId { usb_vid : Z; usb_pid : Z }.

Inductive SdrKind : Type := RtlSdrV4 | HackRfOne.
Inductive MeshNodeKind : Type := TEcho | TDeckPlus | Rak2245 | WisBlock.
Inductive HardwareKind : Type :=
| HwRadio (k : RadioKind) | HwSdr (k : SdrKind) | HwMeshNode (k : MeshNodeKind)
| HwAntenna | HwGps | HwNetworkAdapter | HwSensor.

Inductive AssetStatus : Type := AsOffline | AsAvailable | AsInUse | AsError.
#[export] Instance AssetStatus_eq_dec : EqDecision AssetStatus.
Proof. solve_decision. Defined.

(** A socket address is its text. *)
Inductive ConnectionType : Type :=
| CtUsbSerial (vid pid baud : Z)
| CtTcp (addr : text)
| CtBle (b0 b1 b2 b3 b4 b5 : Z)
| CtI2c (bus addr : Z)
| CtSpi (bus cs : Z)
| CtUsbDirect (vid pid : Z).

Record HardwareAsset : Type := mkAsset {
  ha_device_id : DeviceId; ha_kind : HardwareKind; ha_name : text; ha_serial_number : option text;
  ha_usb_vid_pid : option UsbId; ha_connection : ConnectionType; ha_status : AssetStatus }.

(** ** Display *)

Definition RadioKind_display (k : RadioKind) : string :=
  match k with
  | BaofengUv5r => "Baofeng UV-5R" | BaofengBfF8hp => "Baofeng BF-F8HP"
  | BaofengUv5rmPlus => "Baofeng UV-5RM Plus" | YaesuFtm510dr => "Yaesu FTM-510DR"
  end%string.
Definition SdrKind_display (k : SdrKind) : string :=
  match k with RtlSdrV4 => "RTL-SDR Blog V4" | HackRfOne => "HackRF One" end%string.
Definition MeshNodeKind_display (k : MeshNodeKind) : string :=
  match k with TEcho => "T-Echo" | TDeckPlus => "T-Deck Plus" | Rak2245 => "RAK2245" | WisBlock => "WisBlock" end%string.
Definition HardwareKind_display (k : HardwareKind) : string :=
  match k with
  | HwRadio k => RadioKind_display k
  | HwSdr k => SdrKind_display k
  | HwMeshNode k => MeshNodeKind_display k
  | HwAntenna => "Antenna" | HwGps => "GPS" | HwNetworkAdapter => "Network Adapter" | HwSensor => "Sensor"
  end%string.
Definition AssetStatus_display (s : AssetStatus) : string :=
  match s with AsOffline => "Offline" | AsAvailable => "Available" | AsInUse => "In Use" | AsError => "Error" end%string.

(** [{:02X}]. *)
Definition hex2 (n : Z) : text := map (fun k => hex_digit (n / 16 ^ k mod 16)) [1; 0].

Definition ConnectionType_display (c : ConnectionType) : text :=
  match c with
  | CtUsbSerial vid pid baud =>
      byte_str "USB serial " ++ hex4 vid ++ byte_str ":" ++ hex4 pid ++ byte_str " @ " ++ show_uint baud ++ byte_str " baud"
  | CtTcp addr => byte_str "TCP " ++ addr
  | CtBle b0 b1 b2 b3 b4 b5 =>
      byte_str "BLE " ++ hex2 b0 ++ byte_str ":" ++ hex2 b1 ++ byte_str ":" ++ hex2 b2 ++ byte_str ":" ++ hex2 b3
        ++ byte_str ":" ++ hex2 b4 ++ byte_str ":" ++ hex2 b5
  | CtI2c bus addr => byte_str "I2C bus " ++ show_uint bus ++ byte_str " addr 0x" ++ hex2 addr
  | CtSpi bus cs => byte_str "SPI bus " ++ show_uint bus ++ byte_str " CS " ++ show_uint cs
  | CtUsbDirect vid pid => byte_str "USB direct " ++ hex4 vid ++ byte_str ":" ++ hex4 pid
  end.

(** ** Known USB devices *)

Record KnownUsbDevice : Type := mkUsbDevice {
  kd_vid : Z; kd_pid : Z; kd_name : string; kd_chip : string; kd_is_clone_risk : bool }.

Definition KNOWN_USB_DEVICES : list KnownUsbDevice :=
  [mkUsbDevice 0x067B 0x2303 "Prolific PL2303" "PL2303" true;
   mkUsbDevice 0x1A86 0x7523 "QinHeng CH340" "CH340" false;
   mkUsbDevice 0x10C4 0xEA60 "Silicon Labs CP2102" "CP2102" false;
   mkUsbDevice 0x0403 0x6001 "FTDI FT232R" "FT232R" false;
   mkUsbDevice 0x0BDA 0x2838 "RTL-SDR" "RTL2832U" false;
   mkUsbDevice 0x303A 0x1001 "Espressif ESP32-S3" "ESP32-S3" false].

Definition lookup_usb_device (vid pid : Z) : option KnownUsbDevice :=
  find (fun d => (kd_vid d =? vid) && (kd_pid d =? pid)) KNOWN_USB_DEVICES.

(** ** The registry *)

Inductive RegistryError : Type := AlreadyRegistered (device_id : DeviceId) | RegistryNotFound (device_id : DeviceId).

Record AssetRegistry : Type := mkRegistry { assets : gmap Z HardwareAsset }.
Definition AssetRegistry_new : AssetRegistry := mkRegistry ∅.

Definition register (r : AssetRegistry) (asset : HardwareAsset) : result unit RegistryError * AssetRegistry :=
  if bool_decide (is_Some (assets r !! ha_device_id asset)) then (Err (AlreadyRegistered (ha_device_id asset)), r)
  else (Ok tt, mkRegistry (<[ha_device_id asset := asset]> (assets r))).

Definition unregister (r : AssetRegistry) (device_id : DeviceId) : option HardwareAsset * AssetRegistry :=
  (assets r !! device_id, mkRegistry (delete device_id (assets r))).

Definition registry_get (r : AssetRegistry) (device_id : DeviceId) : option HardwareAsset := assets r !! device_id.

(** [get_mut] followed by a change [f] of the asset it lends. *)
Definition registry_get_mut (r : AssetRegistry) (device_id : DeviceId) (f : HardwareAsset -> HardwareAsset) : AssetRegistry :=
  mkRegistry (alter f device_id (assets r)).

Definition by_key (a b : Z * HardwareAsset) : Prop := a.1 <= b.1.
#[export] Instance by_key_dec a b : Decision (by_key a b).
Proof. unfold by_key. apply _. Defined.

(** [values()]: ascending identifiers. *)
Definition all_assets (r : AssetRegistry) : list HardwareAsset := map snd (merge_sort by_key (map_to_list (assets r))).

(** [std::mem::discriminant] of a kind. *)
Definition kind_discriminant (k : HardwareKind) : Z :=
  match k with
  | HwRadio _ => 0 | HwSdr _ => 1 | HwMeshNode _ => 2 | HwAntenna => 3 | HwGps => 4 | HwNetworkAdapter => 5 | HwSensor => 6
  end.

Definition find_by_kind (r : AssetRegistry) (kind_filter : HardwareKind) : list HardwareAsset :=
  List.filter (fun a => kind_discriminant (ha_kind a) =? kind_discriminant kind_filter) (all_assets r).
Definition find_by_usb (r : AssetRegistry) (vid pid : Z) : list HardwareAsset :=
  List.filter (fun a => match ha_usb_vid_pid a with
                        | Some u => (usb_vid u =? vid) && (usb_pid u =? pid) | None => false end) (all_assets r).
Definition find_by_status (r : AssetRegistry) (status : AssetStatus) : list HardwareAsset :=
  List.filter (fun a => bool_decide (ha_status a = status)) (all_assets r).
Definition count (r : AssetRegistry) : nat := size (assets r).

Definition with_status (s : AssetStatus) (a : HardwareAsset) : HardwareAsset :=
  mkAsset (ha_device_id a) (ha_kind a) (ha_name a) (ha_serial_number a) (ha_usb_vid_pid a) (ha_connection a) s.

Definition set_status (r : AssetRegistry) (device_id : DeviceId) (status : AssetStatus)
  : result unit RegistryError * AssetRegistry :=
  match assets r !! device_id with
  | Some asset => (Ok tt, mkRegistry (<[device_id := with_status status asset]> (assets r)))
  | None => (Err (RegistryNotFound device_id), r)
  end.

Definition detect_usb_stub : list UsbId := [].

(** * Lemmas *)

(** Every asset is under its own identifier. *)
Definition registry_ok (r : AssetRegistry) : Prop := map_Forall (fun id a => ha_device_id a = id) (assets r).

Inductive RegistryOp : Type :=
| RRegister (asset : HardwareAsset) | RUnregister (id : DeviceId) | RSetStatus (id : DeviceId) (s : AssetStatus).
Definition run_registry (r : AssetRegistry) (op : RegistryOp) : AssetRegistry :=
  match op with
  | RRegister asset => (register r asset).2
  | RUnregister id => (unregister r id).2
  | RSetStatus id s => (set_status r id s).2
  end.

Lemma run_registry_ok r op : registry_ok r -> registry_ok (run_registry r op).
Proof.
  intros Hr. destruct op as [asset|id|id s]; cbn.
  - unfold register. case_bool_decide; [done|]. cbn. by apply map_Forall_insert_2.
  - by apply map_Forall_delete.
  - unfold set_status. destruct (assets r !! id) as [a|] eqn:E; [|done]. cbn.
    apply map_Forall_insert_2; [|done]. by apply Hr in E.
Qed.

(** The borrow [get_mut] lends can change the identifier of an asset in place. *)
Lemma get_mut_breaks_index :
  exists r f, registry_ok r /\ ~ registry_ok (registry_get_mut r 1 f).
Proof.
  set (a := mkAsset 1 HwGps [] None None (CtI2c 0 0) AsOffline).
  exists (mkRegistry {[1 := a]}), (fun a => mkAsset 2 (ha_kind a) [] None None (ha_connection a) AsOffline).
  split; [by apply map_Forall_singleton|]. intros Hr. specialize (Hr 1). cbn in Hr.
  rewrite lookup_alter_eq, lookup_singleton_eq in Hr. by specialize (Hr _ eq_refl).
Qed.

Lemma all_assets_elem r a : registry_ok r -> a ∈ all_assets r <-> registry_get r (ha_device_id a) = Some a.
Proof.
  intros Hr. unfold all_assets. rewrite list_elem_of_fmap. setoid_rewrite merge_sort_Permutation. split.
  - intros ([id a'] & -> & Hin%elem_of_map_to_list). pose proof (Hr _ _ Hin) as <-. exact Hin.
  - intros Hg. exists (ha_device_id a, a). split; [done|]. by apply elem_of_map_to_list.
Qed.

#[export] Instance by_key_total : Total by_key.
Proof. intros a b. unfold by_key. lia. Qed.
#[export] Instance by_key_trans : Transitive by_key.
Proof. intros a b c. unfold by_key. lia. Qed.

Lemma sorted_ids (l : list (Z * HardwareAsset)) :
  StronglySorted by_key l -> NoDup (map fst l) -> (forall x, In x l -> ha_device_id x.2 = x.1) ->
  StronglySorted Z.lt (map ha_device_id (map snd l)).
Proof.
  induction 1 as [|[id a] l Hs IH Hall]; intros Hnd Hid; [constructor|]. cbn in Hnd |- *.
  apply NoDup_cons in Hnd as [Hni Hnd]. constructor; [apply IH; [done|intros; apply Hid; by right]|].
  rewrite map_map. apply List.Forall_forall. intros x ([id' a'] & <- & Hy)%in_map_iff.
  pose proof (Hid (id, a) ltac:(by left)) as E1. pose proof (Hid (id', a') ltac:(by right)) as E2. cbn in *.
  rewrite List.Forall_forall in Hall. specialize (Hall _ Hy). unfold by_key in Hall. cbn in Hall.
  assert (id <> id'); [|lia]. intros ->. apply Hni, list_elem_of_In, in_map_iff. by exists (id', a').
Qed.

Lemma all_assets_sorted r : registry_ok r -> StronglySorted Z.lt (map ha_device_id (all_assets r)).
Proof.
  intros Hr. apply sorted_ids; [apply StronglySorted_merge_sort; apply _| |].
  - rewrite merge_sort_Permutation. apply NoDup_fst_map_to_list.
  - intros [id a]. rewrite <- list_elem_of_In, merge_sort_Permutation, elem_of_map_to_list. apply Hr.
Qed.

Lemma sorted_filter p (l : list HardwareAsset) :
  StronglySorted Z.lt (map ha_device_id l) -> StronglySorted Z.lt (map ha_device_id (List.filter p l)).
Proof.
  induction l as [|a l IH]; intros Hs; cbn in *; [constructor|]. inversion Hs as [|? ? Hs' Hall]; subst.
  destruct (p a); [|by apply IH]. constructor; [by apply IH|]. apply List.Forall_forall.
  intros x (y & <- & [Hy _]%filter_In)%in_map_iff. rewrite List.Forall_forall in Hall. by apply Hall, in_map.
Qed.

(** A search of the registry: what [find_by_kind], [find_by_usb], [find_by_status] and
    [all] share. It returns exactly the assets the predicate selects, once each and
    in ascending order of identifiers. *)
Theorem registry_search_exact r p :
  registry_ok r ->
  let found := List.filter p (all_assets r) in
  (forall a, a ∈ found <-> registry_get r (ha_device_id a) = Some a /\ p a = true) /\
  StronglySorted Z.lt (map ha_device_id found) /\ (length found <= count r)%nat.
Proof.
  intros Hr. cbv zeta. split; [|split].
  - intros a. rewrite list_elem_of_In, filter_In, <- list_elem_of_In, all_assets_elem by done. done.
  - by apply sorted_filter, all_assets_sorted.
  - etransitivity; [apply filter_length_le|]. unfold all_assets, count. rewrite length_map.
    rewrite merge_sort_Permutation, length_map_to_list. done.
Qed.

(** The two tables of USB serial adapters agree on the chips. *)
Lemma known_cables_registered :
  forallb (fun c => match lookup_usb_device (kc_vid c) (kc_pid c) with
                    | Some d => bool_decide (byte_str (kd_chip d) = CableChip_display (kc_chip c)) | None => false
                    end) KNOWN_CABLES = true.
Proof. vm_compute. reflexivity. Qed.
