(* ===== verification/ChirpCli.v ===== *)
(** * Plan files of the radio command (crates/akroasis/src/radio/import.rs,
      export.rs, errors.rs)

    The command has a CSV reader and writer of its own, apart from the library's
    ([CsvPlan]): twenty columns, fields escaped by hand, numbers rounded. Reading
    CSV syntax is the [csv] crate's, the class [CsvReader]; JSON and TOML are the
    class [PlanSerde]. *)

From Stdlib Require Import SpecFloat.
From S2P Require Import Prelude Float Decimal FloatRound Signal Bcd Tone ChannelCodec Validate CsvPlan Variant CloneProtocol RadioDetect.

Local Open Scope Z_scope.

Abbreviation text := (list Z) (only parsing).

(** ** Errors (errors.rs) *)

(** Text, where a message is built from another error's. *)
Inductive Detail : Type :=
| Words (t : text)
| OfProtocol (before : text) (e : ProtocolError)
| OfCodec (e : CodecError)
| OfVariant (e : VariantError)
| OfUnmapped (v : RadioVariant)
| OfPrompt (e : text).

(** The errors of syntonia's error.rs that plan files raise; a serde error is its text. *)
Inductive SyntoniaError : Type := Json (source : text) | TomlSerialize (source : text) | TomlDeserialize (source : text).

(** A path, with what [extension().and_then(to_str)] and [display()] give. *)
Record Path : Type := mkPath { path_display : text; path_extension : option text }.

Inductive RadioError : Type :=
| NoRadioDetected
| MultipleRadios
| SerialTimeout (port : Detail)
| PermissionDenied (port : text)
| WrongBaudRate (port : text)
| RefusedAddress (addr : Z)
| ImageSizeMismatch (size : nat)
| ReadPlanFile (path : Path) (source : IoError)
| WriteFile (path : Path) (source : IoError)
| UnsupportedFormat (ext : text)
| ValidationFailed (message : text)
| PlanError (message : Detail)
| Syntonia (source : SyntoniaError)
| JsonReport (source : text)
| WriteAborted
| VerificationFailed (message : Detail)
| CsvParseAt (line : Z) (message : text)
| HardwareNotAvailable
| HardwareDetect (source : DetectError)
| UnrecognizedRadio (port : text) (message : Detail)
| Io (source : IoError).

(** ** CSV syntax *)

Record CsvRecord : Type := mkRecord { cells : list text; position : option Z }.
Record CsvError : Type := mkCsvError { err_position : option Z; err_display : text }.

(** A written field and the value it stands for: as it is, or quoted. *)
Inductive field_syntax : text -> text -> Prop :=
| syntax_plain f : existsb Rfc4180.special f = false -> field_syntax f f
| syntax_quoted f : field_syntax ([Rfc4180.QUOTE] ++ Rfc4180.escape f ++ [Rfc4180.QUOTE]) f.

Fixpoint join_fields (fields : list text) : text :=
  match fields with
  | [] => []
  | [f] => f
  | f :: r => f ++ [Rfc4180.COMMA] ++ join_fields r
  end.
Definition csv_line (fields : list text) : text := join_fields fields ++ [Rfc4180.LF].

Definition cells_of (r : result CsvRecord CsvError) : option (list text) :=
  match r with Ok record => Some (cells record) | Err _ => None end.

(** The reader built with [has_headers(true).flexible(true).trim(Trim::All)]: the
    records after the first, each field trimmed. It reads lines of well-formed fields,
    and what the crate's own writer wrote. A line of one empty field is not a record. *)
Class CsvReader (E : Type) `{CsvFormat E} : Type := {
  csv_trimmed : text -> list (result CsvRecord CsvError);
  csv_trimmed_lines header rows values :
    (1 < length header)%nat -> Forall2 field_syntax header header ->
    Forall (fun r => 1 < length r)%nat rows -> Forall2 (Forall2 field_syntax) rows values ->
    map cells_of (csv_trimmed (concat (map csv_line (header :: rows)))) = map (fun r => Some (map trim r)) values;
  csv_trimmed_document header rows :
    (1 < length header)%nat -> Forall (fun r => 1 < length r)%nat rows ->
    map cells_of (csv_trimmed (csv_document (header :: rows))) = map (fun r => Some (map trim r)) rows }.

(** ** Import (import.rs) *)

(** [Display] of [Frequency] (crates/stoicheion/src/frequency.rs). *)
Definition frequency_display (f : Frequency) : text :=
  if 1000000000 <=? f then format_fixed 3 (as_ghz_f64 (Hz f)) ++ byte_str " GHz"
  else if 1000000 <=? f then format_fixed 3 (as_mhz_f64 (Hz f)) ++ byte_str " MHz"
  else if 1000 <=? f then format_fixed 3 (as_khz_f64 (Hz f)) ++ byte_str " kHz"
  else show_uint f ++ byte_str " Hz".

(** [(mhz * 1_000_000.0).round() as u64]. *)
Definition round_mhz (mhz : f64) : Z := f32_as_uint 64 (f64_round (f64_mul mhz (f64_of_Z 1000000))).

Definition checked_sub (a b : Z) : option Z := if a <? b then None else Some (a - b).

Definition parse_chirp_tone (tone_mode r_tone dtcs_code dtcs_pol : text) : ToneMode :=
  if is_text "Tone" tone_mode || is_text "TSQL" tone_mode then
    let freq := default (f32_tenths 885) (parse_f32 r_tone) in
    match CtcssTone_new freq with Ok t => Ctcss t | Err _ => ToneNone end
  else if is_text "DTCS" tone_mode then
    let code := default 23 (parse_uint 16 dtcs_code) in
    let polarity := if is_text "RR" dtcs_pol || is_text "RN" dtcs_pol then Inverted else Normal in
    match DcsCode_new code with Ok c => Dcs c polarity | Err _ => ToneNone end
  else ToneNone.

Definition get (cols : list text) (i : nat) : text := default [] (cols !! i).

(** The offset and the transmit frequency of the duplex column. *)
Definition parse_chirp_duplex (line_num : Z) (duplex : text) (rx_freq offset_freq : Frequency)
  : result (FrequencyOffset * option Frequency) RadioError :=
  if is_text "+" duplex then
    match checked_add 64 rx_freq offset_freq with
    | None => Err (CsvParseAt line_num (byte_str "frequency offset overflow: " ++ frequency_display rx_freq
                                        ++ byte_str " + " ++ frequency_display offset_freq))
    | Some tx_hz => Ok (Plus offset_freq, Some tx_hz)
    end
  else if is_text "-" duplex then
    match checked_sub rx_freq offset_freq with
    | None => Err (CsvParseAt line_num (byte_str "frequency offset underflow: " ++ frequency_display rx_freq
                                        ++ byte_str " - " ++ frequency_display offset_freq))
    | Some tx_hz => Ok (Minus offset_freq, Some tx_hz)
    end
  else if is_text "split" duplex then Ok (Split offset_freq, Some offset_freq)
  else Ok (OffsetNone, None).

Definition ok_or {A E} (o : option A) (e : E) : result A E := match o with Some a => Ok a | None => Err e end.

Definition parse_chirp_cols (line_num : Z) (cols : list text) : result Channel RadioError :=
  if (length cols <? 15)%nat
  then Err (CsvParseAt line_num (byte_str "expected at least 15 columns, got " ++ show_uint (Z.of_nat (length cols))))
  else
    let? index := ok_or (parse_uint 16 (get cols 0))
                    (CsvParseAt line_num (byte_str "invalid location: '" ++ get cols 0 ++ byte_str "'")) in
    let name := get cols 1 in
    let? rx_mhz := ok_or (parse_f64 (get cols 2))
                     (CsvParseAt line_num (byte_str "invalid frequency: '" ++ get cols 2 ++ byte_str "'")) in
    let rx_freq := round_mhz rx_mhz in
    let duplex := get cols 3 in
    let offset_mhz := default f64_zero (parse_f64 (get cols 4)) in
    let offset_freq := round_mhz offset_mhz in
    let? (offset, tx_freq) := parse_chirp_duplex line_num duplex rx_freq offset_freq in
    let tone := parse_chirp_tone (get cols 5) (get cols 6) (get cols 8) (get cols 9) in
    let bandwidth := if bool_decide (cols !! 11%nat = Some (byte_str "NFM")) then Narrow else Wide in
    let scan := if bool_decide (cols !! 13%nat = Some (byte_str "S")) then Skip else Include in
    let power := if bool_decide (cols !! 14%nat = Some (byte_str "Low")) then Low
                 else if bool_decide (cols !! 14%nat = Some (byte_str "Mid")) then Mid else High in
    Ok (mkChannel index name rx_freq tx_freq offset tone power bandwidth scan false).

Definition csv_error_line (err : CsvError) : Z := default 0 (err_position err).

(** A record of empty fields is skipped. *)
Fixpoint parse_chirp_records (records : list (result CsvRecord CsvError)) : result (list Channel) RadioError :=
  match records with
  | [] => Ok []
  | Err e :: _ => Err (CsvParseAt (csv_error_line e) (err_display e))
  | Ok record :: rest =>
      if forallb (fun c => bool_decide (c = [])) (cells record) then parse_chirp_records rest
      else
        let? ch := parse_chirp_cols (default 0 (position record)) (cells record) in
        let? channels := parse_chirp_records rest in
        Ok (ch :: channels)
  end.

Definition parse_chirp_csv {E} `{CsvReader E} (content : text) : result FrequencyPlan RadioError :=
  let? channels := parse_chirp_records (csv_trimmed content) in
  Ok (mkPlan (byte_str "CHIRP Import") None channels None).

Inductive FileFormat : Type := Toml | JsonFile | ChirpCsv | BinaryImage.

Definition FileFormat_as_str (f : FileFormat) : string :=
  match f with Toml => "toml" | JsonFile => "json" | ChirpCsv => "chirp-csv" | BinaryImage => "binary-image" end.

Definition detect_format (path : Path) : result FileFormat RadioError :=
  let ext := default [] (path_extension path) in
  if is_text "toml" ext then Ok Toml
  else if is_text "json" ext then Ok JsonFile
  else if is_text "csv" ext then Ok ChirpCsv
  else if is_text "img" ext then Ok BinaryImage
  else Err (UnsupportedFormat ext).

(** serde_json and toml on a plan. *)
Class PlanSerde : Type := {
  json_to_string : FrequencyPlan -> result text text;
  json_from_str : text -> result FrequencyPlan text;
  toml_to_string : FrequencyPlan -> result text text;
  toml_from_str : text -> result FrequencyPlan text }.

Section Formats.
Context {E : Type} `{CsvReader E} `{PlanSerde}.

Definition to_json (plan : FrequencyPlan) : result text SyntoniaError := map_err Json (json_to_string plan).
Definition from_json (s : text) : result FrequencyPlan SyntoniaError := map_err Json (json_from_str s).
Definition to_toml (plan : FrequencyPlan) : result text SyntoniaError := map_err TomlSerialize (toml_to_string plan).
Definition from_toml (s : text) : result FrequencyPlan SyntoniaError := map_err TomlDeserialize (toml_from_str s).

Definition import_from_string (content : text) (format : FileFormat) (source_path : Path)
  : result FrequencyPlan RadioError :=
  match format with
  | Toml => map_err Syntonia (from_toml content)
  | JsonFile => map_err Syntonia (from_json content)
  | ChirpCsv => parse_chirp_csv content
  | BinaryImage => Err (UnsupportedFormat (default (byte_str "img") (path_extension source_path)))
  end.

(** [file] is what reading the path gives. *)
Definition import_plan (path : Path) (file : result text IoError) (format : FileFormat)
  : result FrequencyPlan RadioError :=
  match format with
  | BinaryImage => Err HardwareNotAvailable
  | _ =>
      let? content := map_err (ReadPlanFile path) file in
      import_from_string content format path
  end.
End Formats.

Definition empty_channel_slots (plan : FrequencyPlan) : nat :=
  length (List.filter (fun ch => ch_rx_freq ch =? 0) (fp_channels plan)).

(** ** Export (export.rs) *)

Definition csv_escape (s : text) : text :=
  if existsb (fun c => c =? Rfc4180.COMMA) s || existsb (fun c => c =? Rfc4180.QUOTE) s
     || existsb (fun c => c =? Rfc4180.LF) s
  then [Rfc4180.QUOTE] ++ Rfc4180.escape s ++ [Rfc4180.QUOTE]
  else s.

Definition format_power_csv (power : PowerLevel) : text :=
  match power with Mid => byte_str "Mid" | Low => byte_str "Low" | High => byte_str "High" end.

Definition format_tone_csv (tone : ToneMode) : text :=
  match tone with
  | Ctcss t => format_fixed 1 t ++ byte_str " Hz"
  | Dcs code _ => byte_str "DCS " ++ pad_zero 3 (show_uint code)
  | ToneNone => []
  end.

Definition chirp_duplex_offset (ch : Channel) : text * f64 :=
  match ch_offset ch with
  | Plus f => (byte_str "+", as_mhz_f64 (Hz f))
  | Minus f => (byte_str "-", as_mhz_f64 (Hz f))
  | Split _ => (byte_str "split", as_mhz_f64 (Hz (default (ch_rx_freq ch) (ch_tx_freq ch))))
  | OffsetNone => ([], f64_zero)
  end.

Definition chirp_tone_fields (ch : Channel) : text * text * text * text * text :=
  match ch_tone ch with
  | Ctcss tone => (byte_str "Tone", format_fixed 1 tone, format_fixed 1 tone, byte_str "023", byte_str "NN")
  | Dcs code polarity =>
      (byte_str "DTCS", byte_str "88.5", byte_str "88.5", pad_zero 3 (show_uint code),
       match polarity with Inverted => byte_str "RR" | Normal => byte_str "NN" end)
  | ToneNone => ([], byte_str "88.5", byte_str "88.5", byte_str "023", byte_str "NN")
  end.

Definition CHIRP_HEADER : list text :=
  map byte_str ["Location"; "Name"; "Frequency"; "Duplex"; "Offset"; "Tone"; "rToneFreq"; "cToneFreq"; "DtcsCode";
    "DtcsPolarity"; "RxDtcsCode"; "Mode"; "TStep"; "Skip"; "Power"; "Comment"; "URCALL"; "RPT1CALL"; "RPT2CALL";
    "DVCODE"]%string.

(** The twenty fields of a line. *)
Definition chirp_fields (ch : Channel) : list text :=
  let '(duplex, offset_mhz) := chirp_duplex_offset ch in
  let '(tone_mode, r_tone, c_tone, dtcs_code, dtcs_polarity) := chirp_tone_fields ch in
  let mode := match ch_bandwidth ch with Narrow => byte_str "NFM" | Wide => byte_str "FM" end in
  let skip := match ch_scan ch with Skip => byte_str "S" | Include => [] end in
  let power := format_power_csv (ch_power ch) in
  [show_uint (ch_index ch); csv_escape (ch_name ch); format_fixed 6 (as_mhz_f64 (Hz (ch_rx_freq ch))); duplex;
   format_fixed 6 offset_mhz; tone_mode; r_tone; c_tone; dtcs_code; dtcs_polarity; dtcs_code; mode;
   byte_str "5.00"; skip; power; []; []; []; []; []].

Definition export_chirp_csv (plan : FrequencyPlan) : text :=
  csv_line CHIRP_HEADER ++ concat (map (fun ch => csv_line (chirp_fields ch)) (fp_channels plan)).

Definition native_fields (ch : Channel) : list text :=
  let tx := default (ch_rx_freq ch) (ch_tx_freq ch) in
  [show_uint (ch_index ch); csv_escape (ch_name ch); format_fixed 6 (as_mhz_f64 (Hz (ch_rx_freq ch)));
   format_fixed 6 (as_mhz_f64 (Hz tx)); format_tone_csv (ch_tone ch); format_power_csv (ch_power ch)].

Definition export_native_csv (plan : FrequencyPlan) : text :=
  byte_str "Index,Name,RX Freq (MHz),TX Freq (MHz),Tone,Power" ++ [Rfc4180.LF]
  ++ concat (map (fun ch => csv_line (native_fields ch)) (fp_channels plan)).

Inductive ExportFormat : Type := ExToml | ExJson | ExCsv | ExChirpCsv.

Definition ExportFormat_as_str (f : ExportFormat) : string :=
  match f with ExToml => "toml" | ExJson => "json" | ExCsv => "csv" | ExChirpCsv => "chirp-csv" end.

Definition serialize_plan `{PlanSerde} (plan : FrequencyPlan) (format : ExportFormat) : result text RadioError :=
  match format with
  | ExToml => map_err Syntonia (to_toml plan)
  | ExJson => map_err Syntonia (to_json plan)
  | ExCsv => Ok (export_native_csv plan)
  | ExChirpCsv => Ok (export_chirp_csv plan)
  end.

(** * Lemmas *)

(** ** Fields that need no quotes *)

Definition plain (f : text) : bool := forallb (fun c => negb (Rfc4180.special c)) f.

Lemma plain_syntax f : plain f = true -> field_syntax f f.
Proof.
  intros Hf. constructor. apply not_true_iff_false. intros (c & Hc & Hs)%existsb_exists.
  unfold plain in Hf. rewrite forallb_forall in Hf. specialize (Hf c Hc). by rewrite Hs in Hf.
Qed.

Lemma plain_app a b : plain (a ++ b) = plain a && plain b.
Proof. apply forallb_app. Qed.

Lemma plain_digits f : Forall (fun c => is_digit c = true) f -> plain f = true.
Proof.
  intros Hf. apply forallb_forall. intros c Hc. rewrite Forall_forall in Hf.
  specialize (Hf c (proj2 (list_elem_of_In _ _) Hc)). unfold Rfc4180.special, Rfc4180.COMMA, Rfc4180.QUOTE, Rfc4180.LF.
  unfold is_digit in Hf. lia.
Qed.

Lemma plain_mhz_text n : 0 <= n -> plain (mhz_text n) = true.
Proof.
  intros Hn. unfold mhz_text. rewrite !plain_app.
  pose proof (Z.mod_pos_bound n MILLION ltac:(done)).
  rewrite (plain_digits (show_uint (n / MILLION))) by (apply show_uint_digits, Z.div_pos; done).
  rewrite (plain_digits (pad_zero _ _)) by (apply pad_zero_digits, show_uint_digits; lia). done.
Qed.

Lemma csv_escape_syntax name : 13 ∉ name \/ csv_escape name <> name -> field_syntax (csv_escape name) name.
Proof.
  intros Hcr. unfold csv_escape in *. destruct (_ || _) eqn:E; [constructor|].
  destruct Hcr as [Hcr|]; [|done]. apply orb_false_iff in E as [E1 E3]. apply orb_false_iff in E1 as [E1 E2].
  constructor. apply not_true_iff_false. intros (c & Hc & Hs)%existsb_exists.
  assert (forall x, existsb (fun c => c =? x) name = false -> c <> x) as Hne.
  { intros x Hx ->. apply not_true_iff_false in Hx. apply Hx, existsb_exists. exists x. split; [done|lia]. }
  apply Hne in E1, E2, E3. unfold Rfc4180.special in Hs.
  assert (c = 13) as -> by lia. by apply Hcr, list_elem_of_In.
Qed.

(** ** Frequencies *)

Lemma mhz_cell n :
  0 <= n < 2 ^ 34 ->
  exists x, format_fixed 6 (as_mhz_f64 (Hz n)) = mhz_text n /\ parse_f64 (trim (mhz_text n)) = Some x /\ round_mhz x = n.
Proof.
  intros Hn. destruct (decide (n = 0)) as [->|Hne]; [exists f64_zero; split_and!; vm_compute; reflexivity|].
  exists (float_ratio f64_prec f64_emax false n MILLION). split_and!.
  - unfold as_mhz_f64. apply format_nearest_million; [lia|].
    apply f64_div_nearest; unfold MILLION in *; cbn [as_hz]; lia.
  - rewrite mhz_text_visible by lia. apply parse_mhz_text. lia.
  - apply million_round_roundtrip; [lia|]. apply float_ratio_nearest; unfold MILLION; lia.
Qed.

Lemma zero_offset_cell : default f64_zero (parse_f64 (trim (format_fixed 6 f64_zero))) = f64_zero.
Proof. vm_compute. reflexivity. Qed.

(** ** Tones *)

(** The fields of every standard tone are plain and read back. *)
Lemma chirp_tone_table :
  forallb (fun t =>
    let '(mode, r, c, code, pol) :=
      chirp_tone_fields (mkChannel 0 [] 0 None OffsetNone t High Wide Include false) in
    forallb plain [mode; r; c; code; pol]
    && bool_decide (parse_chirp_tone (trim mode) (trim r) (trim code) (trim pol) = t)) standard_tones = true.
Proof. vm_compute. reflexivity. Qed.

Lemma chirp_tone_cells ch :
  standard_tone (ch_tone ch) ->
  exists mode r c code pol, chirp_tone_fields ch = (mode, r, c, code, pol) /\
    forallb plain [mode; r; c; code; pol] = true /\
    parse_chirp_tone (trim mode) (trim r) (trim code) (trim pol) = ch_tone ch.
Proof.
  intros Ht%standard_tone_elem. pose proof chirp_tone_table as H. rewrite forallb_forall in H.
  specialize (H _ (proj1 (list_elem_of_In _ _) Ht)). cbv beta in H.
  change (chirp_tone_fields (mkChannel 0 [] 0 None OffsetNone (ch_tone ch) High Wide Include false))
    with (chirp_tone_fields ch) in H.
  destruct (chirp_tone_fields ch) as [[[[mode r] c] code] pol]. apply andb_true_iff in H as [Hp H].
  apply bool_decide_eq_true in H. eauto 10.
Qed.

(** ** Channels *)

(** The channels the command's CSV represents: any frequency below [2^34] Hz; a
    carriage return only in a name that is quoted for another reason. *)
Record chirp_channel (ch : Channel) : Prop := mkChirpChannel {
  hc_index : is_uint 16 (ch_index ch);
  hc_name : trim (ch_name ch) = ch_name ch;
  hc_cr : 13 ∉ ch_name ch \/ csv_escape (ch_name ch) <> ch_name ch;
  hc_rx : 0 <= ch_rx_freq ch < 2 ^ 34;
  hc_offset :
    match ch_offset ch with
    | OffsetNone => ch_tx_freq ch = None
    | Plus f => 0 <= f < 2 ^ 34 /\ ch_tx_freq ch = Some (ch_rx_freq ch + f)
    | Minus f => 0 <= f <= ch_rx_freq ch /\ ch_tx_freq ch = Some (ch_rx_freq ch - f)
    | Split f => 0 <= f < 2 ^ 34 /\ ch_tx_freq ch = Some f
    end;
  hc_tone : standard_tone (ch_tone ch);
  hc_busy : ch_busy_lock ch = false }.

Lemma chirp_duplex_cells ch line :
  chirp_channel ch ->
  exists duplex offset_mhz x, chirp_duplex_offset ch = (duplex, offset_mhz) /\
    plain duplex = true /\ plain (format_fixed 6 offset_mhz) = true /\
    default f64_zero (parse_f64 (trim (format_fixed 6 offset_mhz))) = x /\
    parse_chirp_duplex line (trim duplex) (ch_rx_freq ch) (round_mhz x) = Ok (ch_offset ch, ch_tx_freq ch).
Proof.
  intros [_ _ _ Hrx Hoff _ _]. unfold chirp_duplex_offset.
  assert (forall f, 0 <= f < 2 ^ 34 -> exists x,
    plain (format_fixed 6 (as_mhz_f64 (Hz f))) = true /\
    default f64_zero (parse_f64 (trim (format_fixed 6 (as_mhz_f64 (Hz f))))) = x /\ round_mhz x = f) as Hcell.
  { intros f Hf. destruct (mhz_cell f Hf) as (x & -> & Hx & Hr). exists x. rewrite Hx.
    split_and!; [apply plain_mhz_text; lia|done|done]. }
  destruct (ch_offset ch) as [|f|f|f].
  - exists [], f64_zero, f64_zero. rewrite Hoff. split_and!; reflexivity.
  - destruct Hoff as [Hf ->]. destruct (Hcell f Hf) as (x & Hp & Hx & Hr).
    do 3 eexists. split; [reflexivity|]. split_and!; [done|done|done|]. rewrite Hr. unfold parse_chirp_duplex.
    change (is_text "+" (trim (byte_str "+"))) with true. cbv iota. unfold checked_add.
    replace (_ <? _) with true by lia. done.
  - destruct Hoff as [Hf ->]. destruct (Hcell f ltac:(lia)) as (x & Hp & Hx & Hr).
    do 3 eexists. split; [reflexivity|]. split_and!; [done|done|done|]. rewrite Hr. unfold parse_chirp_duplex.
    change (is_text "+" (trim (byte_str "-"))) with false. change (is_text "-" (trim (byte_str "-"))) with true.
    cbv iota. unfold checked_sub. replace (_ <? f) with false by lia. done.
  - destruct Hoff as [Hf ->]. destruct (Hcell f Hf) as (x & Hp & Hx & Hr). cbn [default].
    do 3 eexists. split; [reflexivity|]. split_and!; [done|done|done|]. by rewrite Hr.
Qed.

(** What a line of a channel stands for, trimmed. *)
Definition chirp_values (ch : Channel) : list text := <[1%nat := ch_name ch]> (chirp_fields ch).

Lemma trim_show_uint n : 0 <= n -> trim (show_uint n) = show_uint n.
Proof. intros Hn. by apply trim_digits, show_uint_digits. Qed.

Lemma parse_chirp_values ch line :
  chirp_channel ch -> parse_chirp_cols line (map trim (chirp_values ch)) = Ok ch.
Proof.
  intros Hch. destruct (chirp_duplex_cells ch line Hch) as (duplex & off & x & Hd & _ & _ & Hx & Hpd).
  destruct Hch as [Hidx Hname _ Hrx _ Htone Hbusy].
  destruct (chirp_tone_cells ch Htone) as (mode & r & c & code & pol & Ht & _ & Hpt).
  destruct (mhz_cell _ Hrx) as (y & Hf & Hy & Hr).
  unfold chirp_values, chirp_fields. rewrite Hd, Ht, Hf. unfold parse_chirp_cols, get.
  change (1%nat) with (S 0). cbn [insert list_insert list_alter map length Nat.ltb Nat.leb lookup list_lookup default
    from_option id].
  rewrite trim_show_uint by (destruct Hidx; lia). rewrite parse_show_uint by done. cbn [ok_or result_bind].
  rewrite Hy. cbn [ok_or result_bind]. rewrite Hr.
  change (match parse_f64 (trim (format_fixed 6 off)) with Some z => z | None => f64_zero end)
    with (default f64_zero (parse_f64 (trim (format_fixed 6 off)))).
  rewrite Hx, Hpd. cbn [result_bind]. rewrite Hpt, Hname.
  destruct ch as [idx name rx tx offset tone power bw scan busy]. cbn in *. subst busy.
  by destruct power, bw, scan.
Qed.

Lemma chirp_values_syntax ch : chirp_channel ch -> Forall2 field_syntax (chirp_fields ch) (chirp_values ch).
Proof.
  intros Hch. destruct (chirp_duplex_cells ch 0 Hch) as (duplex & off & x & Hd & Hpl & Hpo & _).
  destruct Hch as [Hidx Hname Hcr Hrx _ Htone Hbusy].
  destruct (chirp_tone_cells ch Htone) as (mode & r & c & code & pol & Ht & Hpt & _).
  destruct (mhz_cell _ Hrx) as (y & Hf & _).
  unfold chirp_values, chirp_fields. rewrite Hd, Ht, Hf. cbn [insert list_insert list_alter].
  cbn [forallb] in Hpt. rewrite !andb_true_iff in Hpt. destruct_and! Hpt.
  repeat apply List.Forall2_cons; try apply List.Forall2_nil;
    try (by apply csv_escape_syntax); apply plain_syntax; try done.
  - apply plain_digits, show_uint_digits. destruct Hidx. lia.
  - apply plain_mhz_text. lia.
  - by destruct (ch_bandwidth ch).
  - by destruct (ch_scan ch).
  - by destruct (ch_power ch).
Qed.

(** Records whose fields are the values of channels parse to the channels. *)
Lemma parse_channel_records {A} (value : A -> list text) (read : A -> Channel) records l :
  map cells_of records = map (fun a => Some (map trim (value a))) l ->
  (forall a line, a ∈ l -> parse_chirp_cols line (map trim (value a)) = Ok (read a)) ->
  (forall a, a ∈ l -> forallb (fun c => bool_decide (c = [])) (map trim (value a)) = false) ->
  parse_chirp_records records = Ok (map read l).
Proof.
  revert records. induction l as [|a l IH]; intros [|r records] Hm Hp He; try discriminate; [done|].
  cbn [map] in Hm. injection Hm as Hr Hm. destruct r as [[cs pos]|e]; [|done]. cbn [cells_of cells] in Hr.
  injection Hr as ->. cbn [parse_chirp_records cells position]. rewrite He by left. rewrite Hp by left.
  cbn [result_bind]. rewrite (IH records); [done|done|intros; apply Hp; by right|intros; apply He; by right].
Qed.

Lemma show_uint_nonempty n : show_uint n <> [].
Proof. destruct (decimal_digits_cons (S (Z.to_nat (Z.log2 n))) n ltac:(done)) as (c & r & E). unfold show_uint. by rewrite E. Qed.

Lemma row_not_blank n rest : 0 <= n ->
  forallb (fun c : text => bool_decide (c = [])) (map trim (show_uint n :: rest)) = false.
Proof.
  intros Hn. cbn [map forallb]. rewrite trim_show_uint by done.
  by rewrite bool_decide_eq_false_2 by apply show_uint_nonempty.
Qed.

Lemma header_syntax : Forall2 field_syntax CHIRP_HEADER CHIRP_HEADER.
Proof. repeat apply List.Forall2_cons; try apply List.Forall2_nil; by apply plain_syntax. Qed.

(** ** Reading what the library wrote *)

Lemma library_tone_table :
  forallb (fun t =>
    match tone_cells t with
    | [mode; r; c; code; pol] => bool_decide (parse_chirp_tone (trim mode) (trim r) (trim code) (trim pol) = t)
    | _ => false
    end) standard_tones = true.
Proof. vm_compute. reflexivity. Qed.

Lemma library_tone_cells t :
  standard_tone t ->
  exists mode r c code pol, tone_cells t = [mode; r; c; code; pol] /\
    parse_chirp_tone (trim mode) (trim r) (trim code) (trim pol) = t.
Proof.
  intros Ht%standard_tone_elem. pose proof library_tone_table as H. rewrite forallb_forall in H.
  specialize (H _ (proj1 (list_elem_of_In _ _) Ht)). cbv beta in H.
  destruct (tone_cells t) as [|mode [|r [|c [|code [|pol [|]]]]]]; try discriminate.
  apply bool_decide_eq_true in H. eauto 10.
Qed.

(** What the command makes of a channel of the library's export. *)
Definition misread (ch : Channel) : Channel :=
  mkChannel (ch_index ch) (neutralize (ch_name ch)) (ch_rx_freq ch)
    (match ch_offset ch with OffsetNone => None | _ => ch_tx_freq ch end)
    (ch_offset ch) (ch_tone ch) High Wide Include false.

(** A negative offset no larger than the frequency it applies to. *)
Definition offset_fits (ch : Channel) : Prop :=
  match ch_offset ch with Minus f => f <= ch_rx_freq ch | _ => True end.

Lemma mhz_exact_range f : 0 <= f -> mhz_exact f = true \/ f = 0 -> 0 <= f < 2 ^ 34.
Proof. unfold mhz_exact, MILLION. lia. Qed.

Lemma library_duplex_cells ch line :
  csv_channel ch -> offset_fits ch ->
  exists x, default f64_zero (parse_f64 (trim (duplex_cells ch).2)) = x /\
    parse_chirp_duplex line (trim (duplex_cells ch).1) (ch_rx_freq ch) (round_mhz x)
    = Ok (ch_offset ch, ch_tx_freq (misread ch)).
Proof.
  intros [_ _ [Hrx0 Hrx] Hoff _ _] Hfit. pose proof (mhz_exact_range _ (Z.lt_le_incl _ _ Hrx0) (or_introl Hrx)) as Hr.
  unfold duplex_cells, misread, offset_fits in *. cbn [ch_tx_freq].
  assert (forall f, 0 <= f < 2 ^ 34 ->
    exists x, default f64_zero (parse_f64 (trim (format_mhz f))) = x /\ round_mhz x = f) as Hcell.
  { intros f Hf. destruct (mhz_cell f Hf) as (x & Hfx & Hx & Hro). exists x. unfold format_mhz. by rewrite Hfx, Hx. }
  destruct (ch_offset ch) as [|f|f|f].
  - exists f64_zero. destruct Hoff as [-> | ->]; split; reflexivity.
  - destruct Hoff as [[Hf He] ->]. destruct (Hcell f (mhz_exact_range f Hf He)) as (x & Hx & Hr').
    exists x. split; [done|]. rewrite Hr'. unfold parse_chirp_duplex. cbn [fst].
    change (is_text "+" (trim (byte_str "+"))) with true. cbv iota. unfold checked_add.
    pose proof (mhz_exact_range f Hf He). replace (_ <? _) with true by lia. done.
  - destruct Hoff as [[Hf He] ->]. destruct (Hcell f (mhz_exact_range f Hf He)) as (x & Hx & Hr').
    exists x. split; [done|]. rewrite Hr'. unfold parse_chirp_duplex. cbn [fst].
    change (is_text "+" (trim (byte_str "-"))) with false. change (is_text "-" (trim (byte_str "-"))) with true.
    cbv iota. unfold checked_sub, saturating_sub. replace (_ <? f) with false by lia. do 3 f_equal. lia.
  - destruct Hoff as [[Hf He] ->]. destruct (Hcell f (mhz_exact_range f Hf He)) as (x & Hx & Hr').
    exists x. split; [done|]. by rewrite Hr'.
Qed.

Lemma parse_library_record ch line :
  csv_channel ch -> offset_fits ch ->
  parse_chirp_cols line (map trim (channel_to_record ch)) = Ok (misread ch).
Proof.
  intros Hch Hfit. destruct (library_duplex_cells ch line Hch Hfit) as (x & Hx & Hpd).
  destruct Hch as [Hidx Hname [Hrx0 Hrx] _ Htone _].
  destruct (library_tone_cells (ch_tone ch) Htone) as (mode & r & c & code & pol & Ht & Hpt).
  destruct (mhz_cell (ch_rx_freq ch)) as (y & Hf & Hy & Hr); [by apply mhz_exact_range; [lia|left]|].
  unfold channel_to_record. destruct (duplex_cells ch) as [duplex off]. cbn [fst snd] in Hx, Hpd.
  unfold format_mhz. rewrite Ht, Hf. cbn [app]. unfold parse_chirp_cols, get.
  cbn [map length Nat.ltb Nat.leb lookup list_lookup default from_option id].
  rewrite trim_show_uint by (destruct Hidx; lia). rewrite parse_show_uint by done. cbn [ok_or result_bind].
  rewrite Hy. cbn [ok_or result_bind]. rewrite Hr.
  change (match parse_f64 (trim off) with Some z => z | None => f64_zero end)
    with (default f64_zero (parse_f64 (trim off))).
  rewrite Hx, Hpd. cbn [result_bind]. rewrite Hpt, Hname.
  by destruct (ch_power ch).
Qed.

(** * Properties *)

Section Cli.
Context {E : Type} `{CsvReader E}.

(** C36. The command's CSV round trip: a plan whose channels the format can represent,
    at any frequencies below [2^34] Hz, is read back channel by channel as it was
    exported. *)
Theorem cli_plan_roundtrip plan :
  Forall chirp_channel (fp_channels plan) ->
  parse_chirp_csv (export_chirp_csv plan) = Ok (mkPlan (byte_str "CHIRP Import") None (fp_channels plan) None).
Proof.
  intros Hch. unfold parse_chirp_csv, export_chirp_csv. rewrite Forall_forall in Hch.
  pose proof (csv_trimmed_lines CHIRP_HEADER (map chirp_fields (fp_channels plan)) (map chirp_values (fp_channels plan)))
    as Hread. cbn [map concat] in Hread. rewrite !map_map in Hread.
  rewrite (parse_channel_records chirp_values id _ (fp_channels plan)).
  - cbn [result_bind]. by rewrite map_id.
  - apply Hread; [cbn; lia|exact header_syntax| |].
    + apply Forall_fmap, Forall_forall. intros ch _. unfold compose, chirp_fields.
      destruct (chirp_duplex_offset ch), (chirp_tone_fields ch) as [[[[? ?] ?] ?] ?]. cbn. lia.
    + apply Forall2_fmap_2. apply Forall_Forall2_diag. apply Forall_forall. intros ch Hin.
      by apply chirp_values_syntax, Hch.
  - intros ch line Hin. by apply parse_chirp_values, Hch.
  - intros ch Hin. destruct (Hch ch Hin) as [Hidx _ _ _ _ _ _]. unfold chirp_values, chirp_fields.
    destruct (chirp_duplex_offset ch), (chirp_tone_fields ch) as [[[[? ?] ?] ?] ?]. cbn [insert list_insert list_alter].
    apply row_not_blank. destruct Hidx. lia.
Qed.

(** The two CSV formats are not interchangeable: a plan exported by the library is
    imported by the command without an error or a warning, but every channel comes
    out at high power, wide and in the scan, with the formula guard left in its name
    and without the transmit frequency of a simplex channel. *)
Theorem library_export_misread plan :
  Forall (fun ch => csv_channel ch /\ offset_fits ch) (fp_channels plan) ->
  parse_chirp_csv (CsvPlan.export_chirp_csv plan)
  = Ok (mkPlan (byte_str "CHIRP Import") None (map misread (fp_channels plan)) None).
Proof.
  intros Hch. unfold parse_chirp_csv, CsvPlan.export_chirp_csv. rewrite Forall_forall in Hch.
  rewrite (parse_channel_records channel_to_record misread _ (fp_channels plan)); [done| | |].
  - rewrite csv_trimmed_document; [by rewrite map_map|cbn; lia|].
    apply Forall_fmap, Forall_forall. intros ch _. unfold compose, channel_to_record.
    destruct (duplex_cells ch). cbn. lia.
  - intros ch line Hin. by apply parse_library_record; apply Hch.
  - intros ch Hin. destruct (Hch ch Hin) as [[Hidx _ _ _ _ _] _]. unfold channel_to_record.
    destruct (duplex_cells ch). cbn [app]. apply row_not_blank. destruct Hidx. lia.
Qed.
End Cli.

(** * RFC 4180 as an instance of the reader *)

Module TrimmedRfc4180.
Import Rfc4180.

Lemma read_syntax s v row l c :
  field_syntax s v -> c = COMMA \/ c = LF ->
  read Plain [] row (s ++ c :: l)
  = if c =? COMMA then read Plain [] (row ++ [v]) l else (row ++ [v]) :: read Plain [] [] l.
Proof.
  intros Hs Hc. destruct Hs as [f Hf|f].
  - rewrite read_plain by done. cbn [app]. by destruct Hc as [-> | ->].
  - cbn [app read]. change (QUOTE =? COMMA) with false. change (QUOTE =? LF) with false.
    change (QUOTE =? QUOTE) with true. cbv iota. rewrite <- app_assoc. cbn [app]. rewrite read_quoted.
    by destruct Hc as [-> | ->].
Qed.

Lemma read_line r vs : Forall2 field_syntax r vs -> r <> [] -> forall row l,
  read Plain [] row (csv_line r ++ l) = (row ++ vs) :: read Plain [] [] l.
Proof.
  unfold csv_line. induction 1 as [|s v r vs Hs Hr IH]; intros Hne row l; [done|].
  destruct Hr as [|s' v' r vs Hs' Hr].
  - cbn [join_fields]. rewrite <- app_assoc. cbn [app]. by rewrite (read_syntax s v) by auto.
  - cbn [join_fields] in *. rewrite <- !app_assoc. cbn [app].
    rewrite (read_syntax s v) by auto. change (COMMA =? COMMA) with true. cbv iota.
    specialize (IH ltac:(done) (row ++ [v]) l). rewrite <- app_assoc in IH. cbn [app] in IH.
    by rewrite IH, <- app_assoc.
Qed.

Lemma read_lines rows values :
  Forall2 (Forall2 field_syntax) rows values -> Forall (fun r => r <> []) rows ->
  read Plain [] [] (concat (map csv_line rows)) = values.
Proof.
  induction 1 as [|r v rows values Hr _ IH]; intros Hne; [done|]. inversion_clear Hne.
  cbn [map concat]. rewrite (read_line r v) by done. by rewrite IH.
Qed.

Definition trimmed (l : text) : list (result CsvRecord CsvError) :=
  map (fun r => Ok (mkRecord (map trim r) None)) (tail (read Plain [] [] l)).

Lemma trimmed_cells l : map cells_of (trimmed l) = map (fun r => Some (map trim r)) (tail (read Plain [] [] l)).
Proof. unfold trimmed. by rewrite map_map. Qed.

Lemma longer_nonempty (rows : list (list text)) :
  Forall (fun r => 1 < length r)%nat rows -> Forall (fun r => r <> []) rows.
Proof. intros Hr. apply (Forall_impl _ _ _ Hr). by intros []; [cbn; lia|]. Qed.

#[local] Existing Instance rfc4180.

#[local] Instance rfc4180_reader : CsvReader Empty_set.
Proof.
  refine {| csv_trimmed := trimmed |}.
  - intros header rows values Hh Hhs Hr Hs. rewrite trimmed_cells.
    rewrite (read_lines (header :: rows) (header :: values)); [done|by constructor|].
    apply longer_nonempty. by constructor.
  - intros header rows Hh Hr. rewrite trimmed_cells. cbn [csv_document rfc4180].
    rewrite read_document; [done|]. apply longer_nonempty. by constructor.
Defined.

Definition sample_plan : FrequencyPlan := mkPlan [] None [simplex_channel 446006250; repeater] None.

Definition quoted_plan : FrequencyPlan :=
  mkPlan [] None
    [mkChannel 7 [65; 44; 13; 34; 66] 512035000 (Some 512635000) (Plus 600000) (Ctcss (f32_tenths 1035)) Low Narrow Skip false;
     mkChannel 8 (byte_str "=UHF") 1296100003 None OffsetNone (Dcs 23 Inverted) Mid Wide Include false] None.

Lemma cli_plan_roundtrip_witness :
  Forall chirp_channel (fp_channels quoted_plan) /\
  parse_chirp_csv (export_chirp_csv quoted_plan)
  = Ok (mkPlan (byte_str "CHIRP Import") None (fp_channels quoted_plan) None).
Proof.
  assert (Forall chirp_channel (fp_channels quoted_plan)) as H.
  { constructor; [|constructor; [|constructor]]; constructor.
    all: try (apply (bool_decide_unpack _); vm_compute; exact I).
    all: try (unfold is_uint; cbn; split; try lia; vm_compute; reflexivity). }
  split; [exact H|exact (cli_plan_roundtrip quoted_plan H)].
Defined.

Lemma library_export_misread_witness :
  parse_chirp_csv (CsvPlan.export_chirp_csv sample_plan)
  = Ok (mkPlan (byte_str "CHIRP Import") None
      [mkChannel 1 (byte_str "'=UHF") 446006250 None OffsetNone (Ctcss (f32_tenths 1035)) High Wide Include false;
       mkChannel 12 [65; 44; 34; 66; 34] 146940000 (Some 146340000) (Minus 600000) (Dcs 23 Inverted) High Wide Include false]
      None).
Proof.
  apply (library_export_misread sample_plan).
  constructor; [|constructor; [|constructor]]; (split; [constructor|unfold offset_fits; cbn; lia]).
  all: try (vm_compute; reflexivity).
  all: try (apply (bool_decide_unpack _); vm_compute; exact I).
  all: unfold is_uint; cbn; split; try lia; try (vm_compute; reflexivity).
Defined.

End TrimmedRfc4180.
