(* ===== verification/RadioCli.v ===== *)
(** * The radio command (crates/akroasis/src/radio)

    Detecting, reading, programming, exporting and importing (mod.rs, detect.rs,
    read.rs, program.rs, export.rs, import.rs) over the serial back end
    (serial_hardware.rs). The terminal, the file system and the serial devices are
    capability classes of a world; a panic ends a command with [None]. The progress
    bar is left out. *)

From S2P Require Import Prelude Float Decimal Signal Bcd Tone ChannelCodec Validate CsvPlan Variant CloneProtocol RadioDetect ChirpCli.

Local Open Scope Z_scope.

Abbreviation text := (list Z) (only parsing).

(** ** Commands over a world *)

Definition cli (W A : Type) : Type := W -> option (result A RadioError) * W.
Definition cli_ret {W A} (a : A) : cli W A := fun w => (Some (Ok a), w).
Definition cli_err {W A} (e : RadioError) : cli W A := fun w => (Some (Err e), w).
Definition cli_bind {W A B} (m : cli W A) (k : A -> cli W B) : cli W B := fun w =>
  match m w with
  | (Some (Ok a), w) => k a w
  | (Some (Err e), w) => (Some (Err e), w)
  | (None, w) => (None, w)
  end.
Notation "'let*' x ':=' m 'in' k" := (cli_bind m (fun x => k))
  (at level 10, x pattern, k at level 200) : akroasis_scope.
Definition cli_result {W A} (r : result A RadioError) : cli W A := fun w => (Some r, w).

(** ** Variants and descriptors (mod.rs) *)

Inductive CliVariant : Type := CliUv5r | CliBfF8hp | CliUv5rmPlus.

Definition display_name (v : CliVariant) : text :=
  match v with
  | CliUv5r => byte_str "Baofeng UV-5R"
  | CliBfF8hp => byte_str "Baofeng BF-F8HP"
  | CliUv5rmPlus => byte_str "Baofeng UV-5RM Plus"
  end.

Definition constraints (v : CliVariant) : RadioConstraints :=
  match v with
  | CliUv5r | CliUv5rmPlus => baofeng_uv5r_constraints
  | CliBfF8hp => baofeng_f8hp_constraints
  end.

Definition variant_max_channels (v : CliVariant) : Z := max_channels (constraints v).

Record CliRadio : Type := mkCliRadio {
  cr_variant : CliVariant; cr_port : text; cr_firmware : text; cr_warnings : list text }.

(** ** What the commands write *)

Record DetectedRadioReport : Type := mkRadioReport {
  rr_variant : text; rr_port : text; rr_firmware : text; rr_warnings : list text }.

(** The JSON reports, each with its schema version and command name. *)
Inductive Report : Type :=
| DetectReport (schema_version : Z) (command : string) (radio_count : nat) (radios : list DetectedRadioReport)
| ImportReport (schema_version : Z) (command : string) (source : text) (format : string) (channel_count : nat)
    (empty_channel_slots : nat) (plan : FrequencyPlan)
| ExportReport (schema_version : Z) (command : string) (port : text) (variant : text) (firmware : text)
    (format : string) (output : text) (channel_count : nat) (plan : FrequencyPlan).

Inductive Output : Type :=
| Line (t : text)
| Raw (t : text)
| IssueLine (label : string) (issue : ValidationIssue)
| TableLine (header : list text) (rows : list (list text)).

(** [write_json] is [serde_json::to_writer_pretty]; [confirm] is the prompt. *)
Class Terminal (W : Type) : Type := {
  write_out : Output -> W -> result unit IoError * W;
  write_json : Report -> W -> result unit text * W;
  confirm : text -> W -> result bool text * W }.

Class Files (W : Type) : Type := {
  read_to_string : Path -> W -> result text IoError;
  write_file : Path -> text -> W -> result unit IoError * W }.

(** ** Hardware (mod.rs): the traits [Hardware] and [Session] *)

(** An operation of a session changes the session. *)
Class Session (S : Type) : Type := {
  session_variant : S -> CliVariant;
  session_download : cli S bytes;
  session_upload : bytes -> cli S unit;
  session_decode : S -> bytes -> option (result (list Channel) RadioError);
  session_encode : S -> list Channel -> option (result bytes RadioError) }.

(** A session is dropped at the end of the command. *)
Class Hardware (W S : Type) `{Session S} : Type := {
  hw_detect_radios : cli W (list CliRadio);
  hw_detect_on_port : text -> cli W (option CliRadio);
  hw_open : text -> cli W S;
  hw_drop : S -> W -> W }.

(** The default [detect_radio_on_port]. *)
Definition detect_on_port_default {W} (detect : cli W (list CliRadio)) (port : text) : cli W (option CliRadio) :=
  let* radios := detect in
  cli_ret (find (fun radio => bool_decide (cr_port radio = port)) radios).

(** Running a command's part on the session it opened. *)
Definition lift {W S A} (m : cli W A) : cli (S * W) A := fun '(s, w) =>
  let '(r, w) := m w in (r, (s, w)).
Definition on_session {W S A} (m : cli S A) : cli (S * W) A := fun '(s, w) =>
  let '(r, s) := m s in (r, (s, w)).
Definition of_session {W S A} (f : S -> option (result A RadioError)) : cli (S * W) A := fun '(s, w) => (f s, (s, w)).

Definition with_session {W S A} `{Hardware W S} (s : S) (body : cli (S * W) A) : cli W A := fun w =>
  let '(r, (s, w)) := body (s, w) in (r, hw_drop s w).

(** The stub back end of a build without serial support. *)
Definition stub_detect_radios {W} : cli W (list CliRadio) := cli_err HardwareNotAvailable.
Definition stub_open {W S} (port : text) : cli W S := cli_err HardwareNotAvailable.

Section Commands.
Context {W S E : Type} `{Hardware W S} `{Terminal W} `{Files W} `{CsvReader E} `{PlanSerde}.

Definition writeln (o : Output) : cli W unit := fun w =>
  let '(r, w) := write_out o w in (Some (map_err Io r), w).

Definition write_report (r : Report) : cli W unit :=
  let* _ := fun w => let '(res, w) := write_json r w in (Some (map_err JsonReport res), w) in
  writeln (Line []).

Fixpoint write_all_out (l : list Output) : cli W unit :=
  match l with
  | [] => cli_ret tt
  | o :: rest => let* _ := writeln o in write_all_out rest
  end.

(** ** Resolving the target (mod.rs) *)

Definition resolve_target (port : option text) : cli W CliRadio :=
  match port with
  | Some port =>
      let* found := hw_detect_on_port port in
      cli_ret (match found with Some radio => radio | None => mkCliRadio CliUv5r port [] [] end)
  | None =>
      let* radios := hw_detect_radios in
      match radios with
      | [] => cli_err NoRadioDetected
      | [radio] => cli_ret radio
      | _ => cli_err MultipleRadios
      end
  end.

(** ** Detect (detect.rs) *)

Definition radio_report (radio : CliRadio) : DetectedRadioReport :=
  mkRadioReport (display_name (cr_variant radio)) (cr_port radio) (cr_firmware radio) (cr_warnings radio).

Definition write_detect_report (radios : list CliRadio) : cli W unit :=
  write_report (DetectReport 1 "radio detect" (length radios) (map radio_report radios)).

Definition detected_line (i : nat) (radio : CliRadio) : text :=
  let firmware_info :=
    match cr_firmware radio with [] => [] | f => byte_str " (firmware: " ++ f ++ byte_str ")" end in
  byte_str "  " ++ show_uint (Z.of_nat (i + 1)) ++ byte_str ". " ++ display_name (cr_variant radio)
  ++ byte_str " on " ++ cr_port radio ++ firmware_info.

Definition print_detected (radios : list CliRadio) : cli W unit :=
  let* _ := writeln (Line (byte_str "Detected radios:")) in
  let* _ := write_all_out (imap (fun i radio => Line (detected_line i radio)) radios) in
  write_all_out (map (fun warning => Line ([10; 0x26A0; 32] ++ warning)) (concat (map cr_warnings radios))).

Definition detect_run (port : option text) (json : bool) : cli W unit :=
  let* radios :=
    match port with
    | Some port => let* found := hw_detect_on_port port in cli_ret (option_list found)
    | None => hw_detect_radios
    end in
  if json then write_detect_report radios
  else
    match radios with
    | [] => writeln (Line (byte_str "No radios detected. Check that the radio is on and the programming cable is connected."))
    | _ => print_detected radios
    end.

(** ** Read (read.rs) *)

Definition format_tone (tone : ToneMode) : text :=
  match tone with
  | ToneNone => [0x2014]
  | Ctcss t => format_fixed 1 t ++ byte_str " Hz"
  | Dcs code _ => byte_str "DCS " ++ pad_zero 3 (show_uint code)
  end.
Definition format_power (power : PowerLevel) : text :=
  match power with High => byte_str "High" | Mid => byte_str "Mid" | Low => byte_str "Low" end.
Definition format_bandwidth (bw : Bandwidth) : text :=
  match bw with Wide => byte_str "Wide" | Narrow => byte_str "Narrow" end.
Definition format_scan (scan : ScanMode) : text :=
  match scan with Include => [0x2713] | Skip => [0x2014] end.

Definition channel_row (ch : Channel) : list text :=
  [pad_zero 3 (show_uint (ch_index ch + 1)); ch_name ch; frequency_display (ch_rx_freq ch);
   frequency_display (default (ch_rx_freq ch) (ch_tx_freq ch)); format_tone (ch_tone ch);
   format_power (ch_power ch); format_bandwidth (ch_bandwidth ch); format_scan (ch_scan ch)].

Definition print_channel_table (channels : list Channel) : cli W unit :=
  writeln (TableLine (map byte_str ["Ch"; "Name"; "RX Freq"; "TX Freq"; "Tone"; "Pwr"; "BW"; "Scan"]%string)
             (map channel_row channels)).

Definition read_run (port : option text) : cli W unit :=
  let* target := resolve_target port in
  let* session := hw_open (cr_port target) in
  with_session session
    (let* image := on_session session_download in
     let* channels := of_session (fun s => session_decode s image) in
     let programmed := List.filter (fun ch => 0 <? ch_rx_freq ch) channels in
     let* _ := lift (print_channel_table programmed) in
     let* variant := of_session (fun s => Some (Ok (session_variant s))) in
     lift (writeln (Line (show_uint (Z.of_nat (length programmed)) ++ byte_str " channels programmed (of "
                          ++ show_uint (variant_max_channels variant) ++ byte_str " slots)")))).

(** ** Program (program.rs) *)

Definition load_plan (path : Path) : cli W FrequencyPlan := fun w =>
  (Some (let? content := map_err (ReadPlanFile path) (read_to_string path w) in
         let ext := default [] (path_extension path) in
         if is_text "toml" ext then map_err Syntonia (from_toml content)
         else if is_text "json" ext then map_err Syntonia (from_json content)
         else Err (UnsupportedFormat ext)), w).

Definition ask (prompt : text) : cli W bool := fun w =>
  let '(r, w) := confirm prompt w in (Some (map_err (fun e => PlanError (OfPrompt e)) r), w).

(** The session's part: encode, upload, read back, compare. *)
Definition program_session (plan : FrequencyPlan) : cli (S * W) unit :=
  let* image := of_session (fun s => session_encode s (fp_channels plan)) in
  let* _ := on_session (session_upload image) in
  let* _ := lift (writeln (Line (byte_str "Verifying..."))) in
  let* readback := on_session session_download in
  if negb (bool_decide (readback = image))
  then cli_err (VerificationFailed (Words (byte_str "readback does not match uploaded image")))
  else lift (writeln (Line (byte_str "Programming complete. " ++ show_uint (Z.of_nat (CsvPlan.channel_count plan))
                            ++ byte_str " channels written."))).

Definition program_run (port : option text) (plan_path : Path) : cli W unit :=
  let* plan := load_plan plan_path in
  let* target := resolve_target port in
  let variant := cr_variant target in
  let issues := validate_plan (fp_channels plan) (constraints variant) in
  let errors := List.filter is_error issues in
  let warnings := List.filter (fun i => negb (is_error i)) issues in
  match errors with
  | _ :: _ =>
      let* _ := write_all_out (map (IssueLine "error: ") errors) in
      cli_err (ValidationFailed (show_uint (Z.of_nat (length errors)) ++ byte_str " validation errors"))
  | [] =>
      let* _ := write_all_out (map (IssueLine "warning: ") warnings) in
      let* _ := writeln (Line (byte_str "About to program " ++ display_name variant ++ byte_str " on " ++ cr_port target
                               ++ byte_str ". " ++ show_uint (Z.of_nat (CsvPlan.channel_count plan)) ++ byte_str " channels.")) in
      let* confirmed := ask (byte_str "Continue?") in
      if negb confirmed then cli_err WriteAborted
      else
        let* session := hw_open (cr_port target) in
        with_session session (program_session plan)
  end.

(** ** Export (export.rs) *)

Definition export_run (port : option text) (json : bool) (format : ExportFormat) (output : option Path) : cli W unit :=
  let* target := resolve_target port in
  let* session := hw_open (cr_port target) in
  with_session session
    (let* image := on_session session_download in
     let* channels := of_session (fun s => session_decode s image) in
     let plan := mkPlan (display_name (cr_variant target) ++ byte_str " export")
                   (Some (display_name (cr_variant target))) channels None in
     let* content := cli_result (serialize_plan plan format) in
     lift (match output with
           | Some path =>
               let* _ := fun w => let '(r, w) := write_file path content w in (Some (map_err (WriteFile path) r), w) in
               if json then
                 write_report (ExportReport 1 "radio export" (cr_port target) (display_name (cr_variant target))
                                 (cr_firmware target) (ExportFormat_as_str format) (path_display path)
                                 (CsvPlan.channel_count plan) plan)
               else
                 writeln (Line (byte_str "Exported " ++ show_uint (Z.of_nat (CsvPlan.channel_count plan))
                                ++ byte_str " channels to " ++ path_display path))
           | None => writeln (Raw content)
           end)).

(** ** Import (import.rs) *)

Definition import_run (file : Path) (json : bool) : cli W unit :=
  let* format := cli_result (detect_format file) in
  let* plan := fun w => (Some (import_plan file (read_to_string file w) format), w) in
  if json then
    write_report (ImportReport 1 "radio import" (path_display file) (FileFormat_as_str format)
                    (CsvPlan.channel_count plan) (empty_channel_slots plan) plan)
  else
    let* _ := print_channel_table (fp_channels plan) in
    let warning_count := length (List.filter (fun ch => ch_rx_freq ch =? 0) (fp_channels plan)) in
    let* _ :=
      if (0 <? warning_count)%nat
      then writeln (Line ([0x26A0; 32] ++ show_uint (Z.of_nat warning_count) ++ byte_str " empty channel slots skipped"))
      else cli_ret tt in
    writeln (Line (byte_str "Imported " ++ show_uint (Z.of_nat (CsvPlan.channel_count plan)) ++ byte_str " channels FROM "
                   ++ path_display file)).

(** ** Dispatch (mod.rs) *)

Inductive RadioCommand : Type :=
| Detect (port : option text) (json : bool)
| Read (port : option text)
| Program (port : option text) (plan : Path)
| ExportCmd (port : option text) (json : bool) (format : ExportFormat) (output : option Path)
| ImportCmd (json : bool) (file : Path).

Definition dispatch_with (cmd : RadioCommand) : cli W unit :=
  match cmd with
  | Detect port json => detect_run port json
  | Read port => read_run port
  | Program port plan => program_run port plan
  | ExportCmd port json format output => export_run port json format output
  | ImportCmd json file => import_run file json
  end.
End Commands.

(** ** The serial back end (serial_hardware.rs) *)

Definition to_cli_variant (kind : RadioKind) : option CliVariant :=
  match kind with
  | BaofengUv5r => Some CliUv5r
  | BaofengBfF8hp => Some CliBfF8hp
  | BaofengUv5rmPlus => Some CliUv5rmPlus
  | YaesuFtm510dr => None
  end.

Definition cable_warnings (cable : UsbCable) : list text :=
  (if bool_decide (uc_is_clone cable = Some true)
   then [byte_str "PL2303 clone detected on " ++ uc_serial_port cable
         ++ byte_str ". Works on Linux but may fail on Windows."] else [])
  ++ match uc_chip cable with
     | UnknownChip vid pid =>
         [byte_str "Unknown USB serial device " ++ hex4 vid ++ byte_str ":" ++ hex4 pid ++ byte_str " on "
          ++ uc_serial_port cable ++ byte_str ". It might work; try --port " ++ uc_serial_port cable
          ++ byte_str " to use it directly."]
     | _ => []
     end.

Definition to_cli_radio (detected : DetectedRadio) : option CliRadio :=
  v ← to_cli_variant (vc_kind (dr_variant detected));
  Some (mkCliRadio v (uc_serial_port (dr_cable detected)) (ri_firmware (dr_ident detected))
          (cable_warnings (dr_cable detected))).

Definition variant_from_config (config : Variant.VariantConfig) : option CliVariant :=
  match variant config with
  | Uv5r | Uv5rOriginal => Some CliUv5r
  | BfF8hp => Some CliBfF8hp
  | Uv5rmPlus => Some CliUv5rmPlus
  end.

Record BaofengProtocolSession (P : Type) : Type := mkSession {
  bs_protocol : P; bs_config : Variant.VariantConfig; bs_variant : CliVariant }.
Arguments mkSession {P} _ _ _.
Arguments bs_protocol {P} _.
Arguments bs_config {P} _.
Arguments bs_variant {P} _.

Definition IMAGE_SIZE : nat := Z.to_nat 0x2000.

Section Serial.
Context {W P : Type} `{SerialSystem W P}.

(** The loop over the magic sequences; a sequence that fails is only logged. *)
Fixpoint try_magics (magics : list bytes) (p : P) : option (option Variant.RadioIdent) * P :=
  match magics with
  | [] => (Some None, p)
  | magic :: rest =>
      match enter_programming_mode magic p with
      | (Fail _, p) => try_magics rest p
      | (Panic, p) => (None, p)
      | (Done _, p) =>
          match identify p with
          | (Done id, p) => (Some (Some id), p)
          | (Fail _, p) => try_magics rest p
          | (Panic, p) => (None, p)
          end
      end
  end.

(** Whatever fails after the port is open closes it. *)
Definition session_open (port_path : text) : cli W (BaofengProtocolSession P) := fun w =>
  match open_port port_path 9600 w with
  | (Err e, w) => (Some (Err (PermissionDenied (port_path ++ byte_str ": " ++ e))), w)
  | (Ok hw_port, w) =>
      match try_magics MAGIC_SETS hw_port with
      | (None, p) => (None, close_port p w)
      | (Some None, p) => (Some (Err (SerialTimeout (Words port_path))), close_port p w)
      | (Some (Some ident), p) =>
          match identify_variant ident with
          | Err source => (Some (Err (UnrecognizedRadio port_path (OfVariant source))), close_port p w)
          | Ok config =>
              match variant_from_config config with
              | None => (Some (Err (UnrecognizedRadio port_path (OfUnmapped (variant config)))), close_port p w)
              | Some v => (Some (Ok (mkSession p config v)), w)
              end
          end
      end
  end.

Definition serial_download : cli (BaofengProtocolSession P) bytes := fun s =>
  let '(r, p) := download_image (bs_config s) (bs_protocol s) in
  (match r with
   | Done image => Some (Ok (data image))
   | Fail e => Some (Err (SerialTimeout (OfProtocol (byte_str "download failed: ") e)))
   | Panic => None
   end, mkSession p (bs_config s) (bs_variant s)).

Definition serial_upload (d : bytes) : cli (BaofengProtocolSession P) unit := fun s =>
  let '(r, p) := upload_image (bs_config s) (mkImage d) (bs_protocol s) in
  (match r with
   | Done _ => Some (Ok tt)
   | Fail e => Some (Err (VerificationFailed (OfProtocol [] e)))
   | Panic => None
   end, mkSession p (bs_config s) (bs_variant s)).

Definition serial_decode (image : bytes) : option (result (list Channel) RadioError) :=
  map_err (fun e => PlanError (OfCodec e)) <$> decode_all_channels (mkImage image).

Definition encoded_image (r : result unit CodecError * MemoryImage) : result bytes RadioError :=
  match r with
  | (Err e, _) => Err (PlanError (OfCodec e))
  | (Ok _, image) => Ok (data image)
  end.

Definition serial_encode (channels : list Channel) : option (result bytes RadioError) :=
  encoded_image <$> encode_all_channels channels (MemoryImage_new IMAGE_SIZE).

#[export] Instance serial_session : Session (BaofengProtocolSession P) := {
  session_variant := bs_variant;
  session_download := serial_download;
  session_upload := serial_upload;
  session_decode _ := serial_decode;
  session_encode _ := serial_encode }.

Definition serial_detect_radios : cli W (list CliRadio) := fun w =>
  let '(r, w) := detect_radios w in
  (Some (match r with
         | Ok detected => Ok (omap to_cli_radio detected)
         | Err source => Err (HardwareDetect source)
         end), w).

Definition serial_detect_on_port (port : text) : cli W (option CliRadio) := fun w =>
  let '(r, w) := detect_radio_on_port port w in
  (Some (match r with
         | Ok detected => Ok (detected ≫= to_cli_radio)
         | Err source => Err (HardwareDetect source)
         end), w).

#[export] Instance SerialHardware : Hardware W (BaofengProtocolSession P) := {
  hw_detect_radios := serial_detect_radios;
  hw_detect_on_port := serial_detect_on_port;
  hw_open := session_open;
  hw_drop s w := close_port (bs_protocol s) w }.
End Serial.

(** * Lemmas *)

(** ** Sizes of images *)

Section Sizes.
Context {P : Type} `{SerialPort P}.

Lemma read_into_length addrs len : forall image p im p',
  read_into image addrs len p = (Done im, p') -> length (data im) = length (data image).
Proof.
  induction addrs as [|a addrs IH]; intros image p im p'; cbn [read_into].
  - by intros [= <- _].
  - unfold bind. destruct (read_block_with_retry a len p) as [[d|e|] p1]; [|done..].
    unfold or_panic. destruct (write_bytes image a d) as [im1|] eqn:Ew; [|done].
    intros E%IH. by rewrite E, (write_bytes_length _ _ _ _ Ew).
Qed.

(** A download has the variant's size, whatever the port does. *)
Lemma download_length config (p : P) im p' :
  download_image config p = (Done im, p') ->
  length (data im) = Z.to_nat (if has_aux_block config then AUX_BLOCK_END else MAIN_BLOCK_END).
Proof.
  unfold download_image. cbv zeta. unfold bind at 1.
  destruct (read_into _ _ READ_BLOCK_SIZE p) as [[im1|e|] p1] eqn:E1; [|done..].
  apply read_into_length in E1. cbn [MemoryImage_new data] in E1. rewrite length_replicate in E1.
  destruct (has_aux_block config); cbn [negb]; [|by intros [= <- _]].
  match goal with |- ?t = _ -> _ =>
    change t with ((bind (if needs_aux_warmup config
        then bind (read_block_with_retry AUX_BLOCK_START AUX_READ_BLOCK_SIZE)
               (fun w => or_panic (write_bytes im1 AUX_BLOCK_START w))
        else ret im1)
      (fun image => read_into image
       (block_addrs (if needs_aux_warmup config then AUX_BLOCK_START + AUX_READ_BLOCK_SIZE else AUX_BLOCK_START)
          AUX_BLOCK_END AUX_READ_BLOCK_SIZE) AUX_READ_BLOCK_SIZE)) p1) end.
  rewrite aux_reads_in_order. intros E2%read_into_length. by rewrite E2, E1.
Qed.
End Sizes.

(** ** What encoding leaves alone *)

Definition in_tables (i : nat) : bool :=
  (i <? Z.to_nat 0x800)%nat || ((Z.to_nat 0x1000 <=? i)%nat && (i <? Z.to_nat 0x1800)%nat).

Lemma write_bytes_outside image addr d im i :
  write_bytes image addr d = Some im -> (i < Z.to_nat addr \/ Z.to_nat addr + length d <= i)%nat ->
  data im !! i = data image !! i.
Proof.
  unfold write_bytes. cbv zeta. destruct (_ <=? _)%nat eqn:E; [|done]. intros [= <-] Hi. cbn [data].
  change (splice (data image) (Z.to_nat addr) d !! i = data image !! i).
  rewrite lookup_splice by lia. destruct (_ && _) eqn:Ei; [lia|done].
Qed.

(** [im] agrees with [image] outside the channel and name tables. *)
Definition same_outside (image im : MemoryImage) : Prop :=
  length (data im) = length (data image) /\ forall i, in_tables i = false -> data im !! i = data image !! i.

#[export] Instance same_outside_refl : Reflexive same_outside.
Proof. by split. Qed.
#[export] Instance same_outside_trans : Transitive same_outside.
Proof. intros a b c [L1 H1] [L2 H2]. split; [congruence|]. intros i Hi. by rewrite H2, H1. Qed.

Lemma slot_write_outside image im1 im2 index slot name :
  0 <= index < CHANNEL_COUNT -> length slot = 16%nat -> length name = 16%nat ->
  write_bytes image (CHANNEL_BASE + index * CHANNEL_STRIDE) slot = Some im1 ->
  write_bytes im1 (NAME_BASE + index * NAME_STRIDE) name = Some im2 -> same_outside image im2.
Proof.
  unfold CHANNEL_COUNT, CHANNEL_BASE, CHANNEL_STRIDE, NAME_BASE, NAME_STRIDE. intros Hi Hs Hn H1 H2. split.
  - by rewrite (write_bytes_length _ _ _ _ H2), (write_bytes_length _ _ _ _ H1).
  - intros i Ht. unfold in_tables in Ht.
    rewrite (write_bytes_outside _ _ _ _ i H2), (write_bytes_outside _ _ _ _ i H1); [done| |]; lia.
Qed.

Lemma clear_slots_outside n : forall i image im,
  0 <= i -> i + Z.of_nat n <= CHANNEL_COUNT -> clear_slots image i n = Some im -> same_outside image im.
Proof.
  induction n as [|n IH]; intros i image im Hi Hn; cbn [clear_slots]; [by intros [= <-]|].
  unfold clear_channel. destruct (write_bytes image _ _) as [im1|] eqn:E1; [|done].
  destruct (write_bytes im1 _ _) as [im2|] eqn:E2; [|done]. intros E%IH; [|lia|lia].
  transitivity im2; [|done]. by apply (slot_write_outside image im1 im2 i (replicate 16 0xFF) (replicate 16 0xFF)); [lia|..].
Qed.

Lemma lbcd4_encode_length f b : lbcd4_encode f = Ok b -> length b = 4%nat.
Proof. unfold lbcd4_encode. intros H. repeat case_match; try done; by injection H as <-. Qed.

Lemma channel_slot_length c index slot : channel_slot c index = Ok slot -> length slot = 16%nat.
Proof.
  unfold channel_slot. destruct (lbcd4_encode (ch_rx_freq c)) as [rx|] eqn:Er; cbn [map_err result_bind]; [|done].
  apply lbcd4_encode_length in Er. destruct (ch_tx_freq c) as [t|].
  - destruct (lbcd4_encode t) as [tx|] eqn:Et; cbn [map_err result_bind]; [|done]. apply lbcd4_encode_length in Et.
    intros [= <-]. rewrite !length_app, Er, Et. done.
  - cbn [result_bind]. intros [= <-]. rewrite !length_app, Er. done.
Qed.

Lemma encode_channels_outside cs : forall image im,
  Forall (fun c => 0 <= ch_index c) cs -> encode_channels cs image = Some (Ok tt, im) -> same_outside image im.
Proof.
  induction cs as [|c cs IH]; intros image im Hcs; cbn [encode_channels]; [by intros [= <-]|].
  inversion_clear Hcs as [|? ? Hc Hrest]. destruct (ch_index c <? CHANNEL_COUNT) eqn:Ei; [|by apply IH].
  unfold CHANNEL_COUNT in Ei. assert (as_uint 8 (ch_index c) = ch_index c) as ->.
  { unfold as_uint. apply Z.mod_small. lia. }
  unfold encode_channel. cbv zeta. destruct (channel_slot c _) as [slot|] eqn:Es; [|done].
  destruct (write_bytes image _ slot) as [im1|] eqn:E1; [|done].
  destruct (write_bytes im1 _ _) as [im2|] eqn:E2; [|done]. intros E. transitivity im2; [|by apply IH].
  eapply (slot_write_outside image im1 im2 (ch_index c)); [unfold CHANNEL_COUNT; lia|by eapply channel_slot_length|
    apply length_name_slot|exact E1|exact E2].
Qed.

(** The image of a plan: erased outside the tables. *)
Lemma encoded_plan_image cs image :
  Forall (fun c => 0 <= ch_index c) cs ->
  encode_all_channels cs (MemoryImage_new IMAGE_SIZE) = Some (Ok tt, image) ->
  length (data image) = IMAGE_SIZE /\
  forall i, (i < IMAGE_SIZE)%nat -> in_tables i = false -> data image !! i = Some 0xFF.
Proof.
  intros Hcs. unfold encode_all_channels. destruct (clear_slots _ _ _) as [im1|] eqn:E1; [|done].
  intros E2%encode_channels_outside; [|done].
  apply clear_slots_outside in E1; [|lia|unfold CHANNEL_COUNT; lia].
  assert (same_outside (MemoryImage_new IMAGE_SIZE) image) as [Hl Hk] by by transitivity im1.
  cbn [MemoryImage_new data] in Hl, Hk. rewrite length_replicate in Hl. split; [done|].
  intros i Hi Ht. by rewrite Hk, lookup_replicate_2.
Qed.

(** ** The verdict *)

(** The addresses a download of a radio with an auxiliary block reads. *)
Definition downloaded (i : nat) : bool :=
  (i <? Z.to_nat 0x1800)%nat || ((Z.to_nat 0x1E80 <=? i)%nat && (i <? Z.to_nat 0x2000)%nat).

Lemma unwritten_outside_tables config i :
  in_ranges (upload_ranges config) (Z.of_nat i) = false -> downloaded i = true -> in_tables i = false.
Proof.
  unfold in_ranges, upload_ranges, downloaded, in_tables, UPLOAD_RANGES_MAIN, UPLOAD_RANGES_AUX.
  intros H. assert (in_ranges UPLOAD_RANGES_MAIN (Z.of_nat i) = false) as Hm.
  { unfold in_ranges, UPLOAD_RANGES_MAIN. destruct (has_aux_block config); [|done].
    rewrite existsb_app in H. by apply orb_false_iff in H as [H _]. }
  unfold in_ranges, UPLOAD_RANGES_MAIN in Hm. cbn [existsb] in Hm. lia.
Qed.

Lemma readback_lookup m i :
  length m = Z.to_nat 0x2000 ->
  (take (Z.to_nat 0x1800) m ++ replicate (Z.to_nat 0x680) 0xFF ++ drop (Z.to_nat 0x1E80) m) !! i
  = if downloaded i then m !! i else if (i <? Z.to_nat 0x2000)%nat then Some 0xFF else None.
Proof.
  intros Hm. unfold downloaded. destruct (decide (i < Z.to_nat 0x1800)%nat).
  { rewrite (proj2 (Nat.ltb_lt i _)) by lia. cbn [orb].
    by rewrite lookup_app_l, lookup_take_lt by (rewrite ?length_take; lia). }
  rewrite (proj2 (Nat.ltb_ge i (Z.to_nat 0x1800))) by lia. cbn [orb].
  rewrite lookup_app_r by (rewrite length_take; lia). rewrite length_take, Hm.
  replace (Nat.min (Z.to_nat 0x1800) (Z.to_nat 0x2000)) with (Z.to_nat 0x1800) by lia.
  destruct (decide (i < Z.to_nat 0x1E80)%nat).
  { rewrite lookup_app_l by (rewrite length_replicate; lia). rewrite lookup_replicate_2 by lia.
    replace (Z.to_nat 0x1E80 <=? i)%nat with false by lia. replace (i <? Z.to_nat 0x2000)%nat with true by lia. done. }
  rewrite lookup_app_r by (rewrite length_replicate; lia). rewrite length_replicate, lookup_drop.
  replace (Z.to_nat 0x1E80 + (i - Z.to_nat 0x1800 - Z.to_nat 0x680))%nat with i by lia.
  replace (Z.to_nat 0x1E80 <=? i)%nat with true by lia. cbn [andb].
  destruct (i <? Z.to_nat 0x2000)%nat eqn:Ei; [done|]. apply lookup_ge_None_2. lia.
Qed.

(** The readback equals the image exactly when every address that was read but not
    written was erased before. *)
Lemma readback_matches config cs image m m' :
  has_aux_block config = true -> length m = Z.to_nat 0x2000 -> length m' = length m ->
  Forall (fun c => 0 <= ch_index c) cs ->
  encode_all_channels cs (MemoryImage_new IMAGE_SIZE) = Some (Ok tt, image) ->
  (forall i, m' !! i = if in_ranges (upload_ranges config) (Z.of_nat i) then data image !! i else m !! i) ->
  take (Z.to_nat 0x1800) m' ++ replicate (Z.to_nat 0x680) 0xFF ++ drop (Z.to_nat 0x1E80) m' = data image <->
  (forall i, downloaded i = true -> in_ranges (upload_ranges config) (Z.of_nat i) = false -> m !! i = Some 0xFF).
Proof.
  intros Haux Hm Hm' Hcs Henc Hk. destruct (encoded_plan_image cs image Hcs Henc) as [Hl Hff].
  assert (forall i, downloaded i = true -> (i < IMAGE_SIZE)%nat) as Hin by (unfold downloaded, IMAGE_SIZE; lia).
  split.
  - intros Heq i Hd Hr. pose proof (readback_lookup m' i ltac:(lia)) as Hi. rewrite Heq, Hd, Hk, Hr in Hi.
    rewrite <- Hi. apply Hff; [by apply Hin|]. by eapply unwritten_outside_tables.
  - intros Hblank. apply list_eq. intros i. rewrite readback_lookup by lia.
    destruct (downloaded i) eqn:Hd.
    + rewrite Hk. destruct (in_ranges _ _) eqn:Hr; [done|]. rewrite Hblank by done.
      symmetry. apply Hff; [by apply Hin|]. by eapply unwritten_outside_tables.
    + destruct (i <? Z.to_nat 0x2000)%nat eqn:Ei.
      * symmetry. apply Hff; [unfold IMAGE_SIZE; lia|]. unfold downloaded in Hd. unfold in_tables. lia.
      * symmetry. apply lookup_ge_None_2. unfold IMAGE_SIZE in Hl. lia.
Qed.

Lemma readback_verdict config cs image m m' image' :
  length m = Z.to_nat 0x2000 -> length m' = length m ->
  Forall (fun c => 0 <= ch_index c) cs ->
  encode_all_channels cs (MemoryImage_new IMAGE_SIZE) = Some (Ok tt, image) ->
  (forall i, m' !! i = if in_ranges (upload_ranges config) (Z.of_nat i) then data image !! i else m !! i) ->
  data image' =
    (if has_aux_block config
     then take (Z.to_nat 0x1800) m' ++ replicate (Z.to_nat 0x680) 0xFF ++ drop (Z.to_nat 0x1E80) m'
     else take (Z.to_nat 0x1800) m') ->
  data image' = data image <-> has_aux_block config = true /\
    forall i, downloaded i = true -> in_ranges (upload_ranges config) (Z.of_nat i) = false -> m !! i = Some 0xFF.
Proof.
  intros Hm Hm' Hcs Henc Hk ->. destruct (has_aux_block config) eqn:Haux.
  - rewrite (readback_matches config _ image m m' Haux Hm Hm' Hcs Henc Hk).
    split; [intros Hx; split; [reflexivity|exact Hx]|intros [_ Hx]; exact Hx].
  - split; [|intros [Hx _]; discriminate Hx]. intros E. exfalso. apply (f_equal length) in E.
    rewrite length_take, (proj1 (encoded_plan_image cs image Hcs Henc)) in E. unfold IMAGE_SIZE in E. lia.
Qed.

(** ** Commands that succeed *)

Lemma session_encode_serial {P} `{SerialPort P} (s : BaofengProtocolSession P) cs :
  session_encode s cs = serial_encode cs.
Proof. reflexivity. Qed.

Lemma cli_bind_ok {W A B} (m : cli W A) (k : A -> cli W B) w b w' :
  cli_bind m k w = (Some (Ok b), w') -> exists a w1, m w = (Some (Ok a), w1) /\ k a w1 = (Some (Ok b), w').
Proof. unfold cli_bind. destruct (m w) as [[[a|e]|] w1]; try done. eauto. Qed.

Section Parts.
Context {W S A : Type}.

Lemma of_session_ok (f : S -> option (result A RadioError)) s (w : W) a sw :
  of_session f (s, w) = (Some (Ok a), sw) -> f s = Some (Ok a) /\ sw = (s, w).
Proof. unfold of_session. generalize (f s). intros o [= -> <-]. done. Qed.

Lemma on_session_ok (m : cli S A) s (w : W) a sw :
  on_session m (s, w) = (Some (Ok a), sw) -> exists s', m s = (Some (Ok a), s') /\ sw = (s', w).
Proof. unfold on_session. destruct (m s) as [r s']. intros [= -> <-]. eauto. Qed.

Lemma lift_ok (m : cli W A) (s : S) (w : W) a sw :
  lift m (s, w) = (Some (Ok a), sw) -> exists w', m w = (Some (Ok a), w') /\ sw = (s, w').
Proof. unfold lift. destruct (m w) as [r w']. intros [= -> <-]. eauto. Qed.

Lemma with_session_ok `{Hardware W S} s (body : cli (S * W) A) (w : W) a w' :
  with_session s body w = (Some (Ok a), w') -> exists sw, body (s, w) = (Some (Ok a), sw).
Proof. unfold with_session. destruct (body (s, w)) as [r [s' w1]]. intros [= -> _]. eauto. Qed.
End Parts.

Lemma serial_encode_length cs b : serial_encode cs = Some (Ok b) -> length b = IMAGE_SIZE.
Proof.
  unfold serial_encode, encode_all_channels. remember (MemoryImage_new IMAGE_SIZE) as blank eqn:Hb.
  assert (length (data blank) = IMAGE_SIZE) as Hl by (subst blank; apply length_replicate). clear Hb.
  destruct (clear_slots blank _ _) as [im1|] eqn:E1; [|discriminate].
  destruct (encode_channels cs im1) as [[[[]|e] im]|] eqn:E2; [|discriminate..].
  intros Hbytes. injection Hbytes as <-.
  by rewrite (encode_channels_length _ _ _ E2), (clear_slots_length _ _ _ _ E1).
Qed.

Section Success.
Context {W P : Type} `{SerialSystem W P} `{Terminal W}.

(** A verified transfer: the session's radio has an auxiliary block. *)
Lemma program_session_aux plan (s : BaofengProtocolSession P) (w : W) sw :
  program_session plan (s, w) = (Some (Ok tt), sw) -> has_aux_block (bs_config s) = true.
Proof.
  unfold program_session. intros (image & sw1 & (Hen & ->)%of_session_ok & E)%cli_bind_ok.
  rewrite session_encode_serial in Hen. apply serial_encode_length in Hen.
  apply cli_bind_ok in E as ([] & sw2 & (s2 & Hup & ->)%on_session_ok & E).
  assert (bs_config s2 = bs_config s) as Hc.
  { change (serial_upload image s = (Some (Ok tt), s2)) in Hup. unfold serial_upload in Hup.
    destruct (upload_image _ _ _) as [ru p2]. by injection Hup as _ <-. }
  apply cli_bind_ok in E as ([] & sw3 & (w3 & _ & ->)%lift_ok & E).
  apply cli_bind_ok in E as (readback & sw4 & (s4 & Hdn & ->)%on_session_ok & E).
  change (serial_download s2 = (Some (Ok readback), s4)) in Hdn. unfold serial_download in Hdn. rewrite Hc in Hdn.
  destruct (download_image _ _) as [[im|e|] p4] eqn:Ed; try discriminate. injection Hdn as <- _.
  apply download_length in Ed. destruct (bool_decide (data im = image)) eqn:Eb; [|discriminate].
  apply bool_decide_eq_true in Eb. subst image. destruct (has_aux_block (bs_config s)); [done|].
  rewrite Ed in Hen. unfold IMAGE_SIZE, MAIN_BLOCK_END in Hen. lia.
Qed.

(** A session is configured for a UV-5R or a BF-F8HP. *)
Lemma session_open_config path (w : W) (s : BaofengProtocolSession P) w' :
  session_open path w = (Some (Ok s), w') ->
  (bs_config s = bf_f8hp_config /\ bs_variant s = CliBfF8hp) \/ (bs_config s = uv5r_config /\ bs_variant s = CliUv5r).
Proof.
  unfold session_open. destruct (open_port _ _ _) as [[p|e] w1]; [|done].
  destruct (try_magics _ p) as [[[ident|]|] p1]; try done.
  unfold identify_variant. destruct (existsb _ BF_F8HP_PREFIXES); [intros [= <- _]; by left|].
  destruct (existsb _ UV5R_PREFIXES); [|done]. intros [= <- _]. by right.
Qed.
End Success.

(** * Properties *)

(** The message of a failed verification. *)
Definition readback_mismatch : RadioError :=
  VerificationFailed (Words (byte_str "readback does not match uploaded image")).

(** A terminal that accepts what is written. *)
Definition writes_succeed {W} `{Terminal W} : Prop := forall o (w : W), (write_out o w).1 = Ok tt.

Lemma writeln_ok {W} `{Terminal W} o (w : W) : writes_succeed (W := W) -> writeln o w = (Some (Ok tt), (write_out o w).2).
Proof. intros Hw. unfold writeln. pose proof (Hw o w) as E. destruct (write_out o w) as [r w']. cbn in E. by subst r. Qed.

Section Programming.
Context {W : Type} `{Terminal W}.

(** C38. What programming does to a radio that answers every command: the whole of the
    upload ranges is replaced by the image, so everything in them outside the channel
    and name tables, the radio's settings included, is erased; and the command then
    reports success exactly when the radio has an auxiliary block and every address it
    reads back but did not write, calibration data included, was erased before. *)
Theorem program_outcome plan image config v m (w : W) :
  writes_succeed (W := W) -> length m = Z.to_nat 0x2000 ->
  Forall (fun c => 0 <= ch_index c) (fp_channels plan) ->
  encode_all_channels (fp_channels plan) (MemoryImage_new IMAGE_SIZE) = Some (Ok tt, image) ->
  exists r m' w',
    program_session plan (mkSession (mkRadio m []) config v, w) = (Some r, (mkSession (mkRadio m' []) config v, w')) /\
    length m' = length m /\
    (forall i, m' !! i = if in_ranges (upload_ranges config) (Z.of_nat i) then data image !! i else m !! i) /\
    (forall i, in_ranges (upload_ranges config) (Z.of_nat i) = true -> in_tables i = false -> m' !! i = Some 0xFF) /\
    (r = Ok tt \/ r = Err readback_mismatch) /\
    (r = Ok tt <-> has_aux_block config = true /\
       forall i, downloaded i = true -> in_ranges (upload_ranges config) (Z.of_nat i) = false -> m !! i = Some 0xFF).
Proof.
  intros Hw Hm Hcs Henc. destruct (encoded_plan_image _ _ Hcs Henc) as [Hl Hff].
  pose proof (upload_exact config image m Hm) as Hup.
  destruct (decide _) as [Hlen|Hlen].
  2: { exfalso. apply Hlen. rewrite Hl. unfold upload_end, IMAGE_SIZE. destruct (has_aux_block config); lia. }
  destruct Hup as (m' & total & Hup & Hm' & Hk).
  destruct (download_faithful config m' ltac:(lia)) as (image' & Hdown & Hread).
  assert (forall i, in_ranges (upload_ranges config) (Z.of_nat i) = true -> in_tables i = false ->
            m' !! i = Some 0xFF) as Herased.
  { intros i Hr Ht. rewrite Hk, Hr. apply Hff; [|done].
    unfold in_ranges, upload_ranges in Hr. destruct (has_aux_block config); cbn in Hr; unfold IMAGE_SIZE; lia. }
  assert (session_encode (mkSession (mkRadio m []) config v) (fp_channels plan) = Some (Ok (data image))) as He.
  { rewrite session_encode_serial. unfold serial_encode. rewrite Henc. reflexivity. }
  assert (session_upload (data image) (mkSession (mkRadio m []) config v)
          = (Some (Ok tt), mkSession (mkRadio m' []) config v)) as Hu.
  { cbn. unfold serial_upload. cbn [bs_config bs_protocol bs_variant].
    replace (mkImage (data image)) with image by by destruct image. by rewrite Hup. }
  assert (session_download (mkSession (mkRadio m' []) config v)
          = (Some (Ok (data image')), mkSession (mkRadio m' []) config v)) as Hd.
  { cbn. unfold serial_download. cbn [bs_config bs_protocol bs_variant]. by rewrite Hdown. }
  unfold program_session, cli_bind, of_session, on_session, lift. rewrite He, Hu, writeln_ok, Hd by done.
  pose proof (readback_verdict config _ image m m' image' Hm Hm' Hcs Henc Hk Hread) as Hiff.
  destruct (bool_decide (data image' = data image)) eqn:Eb; cbn [negb].
  - apply bool_decide_eq_true in Eb. rewrite writeln_ok by done. eexists (Ok tt), m', _.
    split; [reflexivity|]. split; [exact Hm'|]. split; [exact Hk|]. split; [exact Herased|].
    split; [left; reflexivity|]. split; [intros _; exact (proj1 Hiff Eb)|intros _; reflexivity].
  - apply bool_decide_eq_false in Eb. eexists (Err readback_mismatch), m', _.
    split; [reflexivity|]. split; [exact Hm'|]. split; [exact Hk|]. split; [exact Herased|].
    split; [right; reflexivity|]. split; [intros Hx; discriminate Hx|intros Hx; destruct (Eb (proj2 Hiff Hx))].
Qed.
End Programming.

(** Programming succeeds only on a BF-F8HP: if the command returns without an error,
    whatever the radio, the terminal and the files did, then the plan was loaded and
    the validator found no error in it for the target's variant, and the session was
    one with a radio that has an auxiliary block; the image is 8192 bytes and the
    readback of a UV-5R 6144, so a UV-5R never verifies. *)
Theorem program_success_requires {W P} `{SerialSystem W P} `{Terminal W} `{Files W} `{PlanSerde} port path (w w' : W) :
  program_run (S := BaofengProtocolSession P) port path w = (Some (Ok tt), w') ->
  exists plan target w1 w2 w3 (s : BaofengProtocolSession P),
    load_plan path w = (Some (Ok plan), w) /\
    resolve_target (S := BaofengProtocolSession P) port w = (Some (Ok target), w1) /\
    accepted (fp_channels plan) (constraints (cr_variant target)) /\
    session_open (cr_port target) w2 = (Some (Ok s), w3) /\
    bs_variant s = CliBfF8hp /\ has_aux_block (bs_config s) = true.
Proof.
  unfold program_run. intros (plan & w0 & Hload & E)%cli_bind_ok. assert (w0 = w) as -> by by injection Hload.
  apply cli_bind_ok in E as (target & w1 & Hres & E). cbv zeta in E.
  destruct (List.filter is_error _) as [|i errors] eqn:Ef.
  2: { apply cli_bind_ok in E as (? & ? & _ & E). discriminate E. }
  apply cli_bind_ok in E as ([] & wa & _ & E). apply cli_bind_ok in E as ([] & wb & _ & E).
  apply cli_bind_ok in E as (yes & wc & _ & E). destruct yes; [|discriminate E]. cbn [negb] in E.
  apply cli_bind_ok in E as (s & wd & Hopen & E). cbn [hw_open SerialHardware] in Hopen.
  apply with_session_ok in E as [sw Ep]. apply program_session_aux in Ep.
  exists plan, target, w1, wc, wd, s. split; [done|]. split; [done|]. split; [|split; [done|]].
  - unfold accepted. apply forallb_forall. intros x Hx. apply negb_true_iff.
    destruct (is_error x) eqn:Ex; [|done]. exfalso.
    assert (In x (List.filter is_error (validate_plan (fp_channels plan) (constraints (cr_variant target)))))
      as Hin by by apply filter_In. by rewrite Ef in Hin.
  - destruct (session_open_config _ _ _ _ Hopen) as [[Hc Hv]|[Hc _]]; [by split|]. rewrite Hc in Ep. discriminate Ep.
Qed.

(** * A radio on the bench

    A simulated BF-F8HP behind one serial port: it enters programming mode on its
    magic sequence, identifies itself and then answers the clone commands. *)

Module Bench.

(** [phase]: 0 idle, 1 programming mode, 2 identified, 3 cloning; [seen] is the tail
    of the bytes received while idle. *)
Record SimRadio : Type := mkSim { phase : Z; seen : bytes; radio : Radio }.

Definition queue_reply (b : bytes) (r : Radio) : Radio := mkRadio (mem r) (rx_queue r ++ b).

Definition sim_receive (b : bytes) (s : SimRadio) : SimRadio :=
  match b with
  | [x] =>
      if phase s =? 0 then
        let seen' := drop (length (seen s) - 6) (seen s) ++ [x] in
        if bool_decide (seen' = MAGIC_BF_F8HP) then mkSim 1 [] (queue_reply [ACK] (radio s))
        else mkSim 0 seen' (radio s)
      else if (phase s =? 1) && (x =? CMD_IDENT)
      then mkSim 2 [] (queue_reply (ascii_bytes "BFP3V3 F" ++ [IDENT_TERMINATOR]) (radio s))
      else if (phase s =? 2) && (x =? ACK) then mkSim 3 [] (queue_reply [ACK] (radio s))
      else s
  | _ => if phase s =? 3 then mkSim 3 [] (radio_receive b (radio s)) else s
  end.

#[local] Instance sim_port : SerialPort SimRadio.
Proof.
  refine {| write_all b s := (Ok tt, sim_receive b s);
            read_exact n s :=
              let '(r, radio) := read_exact n (radio s) in (r, mkSim (phase s) (seen s) radio);
            set_timeout s := (Ok tt, s);
            flush s := (Ok tt, s) |}.
  intros n s b s'. destruct (read_exact n (radio s)) as [r p] eqn:E. intros [= -> _]. by eapply read_exact_length.
Defined.

Record Host : Type := mkHost { device : SimRadio; printed : list Output }.

#[local] Instance host_serial : SerialSystem Host SimRadio := {
  available_ports _ := Ok [mkPortInfo (byte_str "ttyUSB0") (UsbPort (mkUsbPort 0x067B 0x2303 None None None))];
  usb_devices _ := None;
  open_port path _ h := if is_text "ttyUSB0" path then (Ok (device h), h) else (Err [], h);
  close_port p h := mkHost p (printed h) }.

#[local] Instance host_terminal : Terminal Host := {
  write_out o h := (Ok tt, mkHost (device h) (printed h ++ [o]));
  write_json _ h := (Ok tt, h);
  confirm _ h := (Ok true, h) }.

#[local] Instance host_files : Files Host := {
  read_to_string _ _ := Ok [];
  write_file _ _ h := (Ok tt, h) }.

(** A plan file holds the sample plan. *)
Definition bench_plan : FrequencyPlan := mkPlan [] None [sample_channel] None.
#[local] Instance bench_serde : PlanSerde := {
  json_to_string _ := Err []; json_from_str _ := Ok bench_plan;
  toml_to_string _ := Err []; toml_from_str _ := Ok bench_plan }.

Definition plan_path : Path := mkPath (byte_str "plan.toml") (Some (byte_str "toml")).

(** A radio whose memory is all [b]. *)
Definition bench (b : Z) : Host := mkHost (mkSim 0 [] (mkRadio (replicate (Z.to_nat 0x2000) b) [])) [].

Definition bench_run (b : Z) : option (result unit RadioError) * Host :=
  program_run (S := BaofengProtocolSession SimRadio) (Some (byte_str "ttyUSB0")) plan_path (bench b).

Lemma pair_eta {A B} (x : A * B) a : x.1 = a -> x = (a, x.2).
Proof. destruct x. by intros <-. Qed.

Lemma program_success_requires_witness :
  (bench_run 0xFF).1 = Some (Ok tt) /\
  exists w2 w3 (s : BaofengProtocolSession SimRadio),
    session_open (byte_str "ttyUSB0") w2 = (Some (Ok s), w3) /\ bs_variant s = CliBfF8hp.
Proof.
  assert ((bench_run 0xFF).1 = Some (Ok tt)) as Hok by (vm_compute; reflexivity).
  split; [exact Hok|].
  destruct (program_success_requires (Some (byte_str "ttyUSB0")) plan_path (bench 0xFF) (bench_run 0xFF).2
              (pair_eta _ _ Hok)) as (plan & target & w1 & w2 & w3 & s & _ & Htarget & _ & Hopen & Hv & _).
  assert (target = mkCliRadio CliUv5r (byte_str "ttyUSB0") [] []) as ->.
  { assert ((resolve_target (S := BaofengProtocolSession SimRadio) (Some (byte_str "ttyUSB0")) (bench 0xFF)).1
            = Some (Ok (mkCliRadio CliUv5r (byte_str "ttyUSB0") [] []))) as E by (vm_compute; reflexivity).
    rewrite Htarget in E. by injection E as ->. }
  exists w2, w3, s. split; [exact Hopen|exact Hv].
Defined.

(** A radio that holds calibration data is programmed and reported as failed. *)
Example calibrated_radio_fails : (bench_run 0).1 = Some (Err readback_mismatch).
Proof. vm_compute. reflexivity. Qed.

Definition sample_image : MemoryImage :=
  match encode_all_channels [sample_channel] (MemoryImage_new IMAGE_SIZE) with
  | Some (_, image) => image
  | None => MemoryImage_new 0
  end.

Lemma program_outcome_witness :
  exists m' w', program_session bench_plan (mkSession (mkRadio (replicate (Z.to_nat 0x2000) 0xFF) []) uv5r_config CliUv5r, bench 0)
    = (Some (Err readback_mismatch), (mkSession (mkRadio m' []) uv5r_config CliUv5r, w')).
Proof.
  destruct (program_outcome bench_plan sample_image uv5r_config CliUv5r (replicate (Z.to_nat 0x2000) 0xFF) (bench 0))
    as (r & m' & w' & Hrun & _ & _ & _ & Hr & Hiff).
  - intros o w. reflexivity.
  - apply length_replicate.
  - constructor; [cbn; lia|constructor].
  - vm_compute. reflexivity.
  - exists m', w'. destruct Hr as [-> | ->]; [|exact Hrun].
    destruct (proj1 Hiff eq_refl) as [Hx _]. discriminate Hx.
Defined.

End Bench.
