(* ===== verification/MeshCli.v ===== *)
(** * The mesh command (crates/akroasis/src/mesh/mod.rs)

    The reports of the command line, which is not connected to a mesh, and the tables
    built from a live node database and gateway bridge. A table is its header and
    rows; the rendering of a timestamp is a parameter. *)

From stdpp Require Import sorting.
From S2P Require Import Prelude Float Decimal MeshTypes NodeDb Topology Bridge Mqtt CsvPlan CloneProtocol RadioDetect ChirpCli RadioCli.

Local Open Scope Z_scope.

Abbreviation text := (list Z) (only parsing).

Inductive MeshError : Type := NodeNotFound (identifier : text) | MeshJsonReport (source : text) | MeshIo (source : IoError).

Definition MESH_JSON_SCHEMA : Z := 1.
Definition CLI_STATUS : text := byte_str "not_connected_cli_mode".
Definition LIVE_TRANSPORT_MESSAGE : text := byte_str "Live mesh transport is not wired in this CLI build.".
Definition LIVE_NODES_MESSAGE : text := byte_str "No live connection. Live node collection is not wired yet.".
Definition LIVE_TOPOLOGY_MESSAGE : text := byte_str "No live connection. Live topology collection is not wired yet.".

Record NodeReport : Type := mkNodeReport {
  nr_node : text; nr_long_name : option text; nr_short_name : option text; nr_hardware_model : option text;
  nr_battery_percent : option Z; nr_snr_db : option f32; nr_hop_count : option Z; nr_last_heard : option text }.
Record TopologyEdgeReport : Type := mkEdgeReport {
  er_from : text; er_to : text; er_snr_db : option f32; er_hops : option Z }.

Inductive MeshReport : Type :=
| StatusReport (schema_version : Z) (command : string) (collector : string) (status : text) (active_connections : Z)
    (gateway : option text) (known_nodes : Z) (message : text)
| NodesReport (schema_version : Z) (command : string) (status : text) (node_count : nat) (nodes : list NodeReport)
    (message : text)
| TopologyReport (schema_version : Z) (command : string) (status : text) (node_count edge_count : nat)
    (edges : list TopologyEdgeReport) (message : text).

Inductive MeshCommand : Type := MeshStatus (json : bool) | MeshNodes (json : bool) | MeshTopologyCmd (json : bool).

(** The writer the command prints to. *)
Class MeshTerminal (W : Type) : Type := {
  mesh_write_out : Output -> W -> result unit IoError * W;
  mesh_write_json : MeshReport -> W -> result unit text * W }.

Section Command.
Context {W : Type} `{MeshTerminal W}.

Definition mcli (A : Type) : Type := W -> result A MeshError * W.
Definition mcli_bind {A B} (m : mcli A) (k : A -> mcli B) : mcli B := fun w =>
  match m w with
  | (Ok a, w) => k a w
  | (Err e, w) => (Err e, w)
  end.
Definition mesh_writeln (o : Output) : mcli unit := fun w =>
  let (r, w) := mesh_write_out o w in (map_err MeshIo r, w).

Definition mesh_write_json_report (report : MeshReport) : mcli unit :=
  mcli_bind (fun w => let (r, w) := mesh_write_json report w in (map_err MeshJsonReport r, w))
            (fun _ => mesh_writeln (Line [])).

Fixpoint mesh_write_lines (l : list Output) : mcli unit :=
  match l with
  | [] => fun w => (Ok tt, w)
  | o :: l => mcli_bind (mesh_writeln o) (fun _ => mesh_write_lines l)
  end.

Definition NODE_HEADER : list text :=
  map byte_str ["Node"; "Long Name"; "Short"; "HW Model"; "Battery"; "SNR"; "Hops"; "Last Heard"]%string.
Definition STATUS_HEADER : list text := map byte_str ["Property"; "Value"]%string.
Definition property_row (name value : string) : list text := [byte_str name; byte_str value].

Definition print_status (json : bool) : mcli unit :=
  if json then
    mesh_write_json_report (StatusReport MESH_JSON_SCHEMA "mesh status" "kerykeion" CLI_STATUS 0 None 0 LIVE_TRANSPORT_MESSAGE)
  else
    mesh_write_lines
      [TableLine STATUS_HEADER
         [property_row "Collector" "kerykeion"; property_row "Status" "not connected (CLI mode)";
          property_row "Active connections" "0"; property_row "Gateway" "none"; property_row "Known nodes" "0"];
       Line []; Line LIVE_TRANSPORT_MESSAGE].

Definition print_nodes (json : bool) : mcli unit :=
  if json then mesh_write_json_report (NodesReport MESH_JSON_SCHEMA "mesh nodes" CLI_STATUS 0 [] LIVE_NODES_MESSAGE)
  else mesh_write_lines [TableLine NODE_HEADER []; Line []; Line LIVE_NODES_MESSAGE].

Definition print_topology (json : bool) : mcli unit :=
  if json then mesh_write_json_report (TopologyReport MESH_JSON_SCHEMA "mesh topology" CLI_STATUS 0 0 [] LIVE_TOPOLOGY_MESSAGE)
  else
    mesh_write_lines
      [Line (byte_str "Mesh Topology"); Line (repeat 0x2500 13); Line LIVE_TOPOLOGY_MESSAGE; Line [];
       Line (byte_str "When running, topology shows:"); Line (byte_str "  NodeA -> NodeB (SNR: -5.2 dB, hops: 1)");
       Line (byte_str "  NodeB -> NodeC (SNR: -8.1 dB, hops: 1)")].

Definition mesh_dispatch (command : MeshCommand) : mcli unit :=
  match command with
  | MeshStatus json => print_status json
  | MeshNodes json => print_nodes json
  | MeshTopologyCmd json => print_topology json
  end.
End Command.

(** ** Tables of a live mesh *)

Definition format_gateway_health (h : GatewayHealth) : text :=
  match h with
  | Healthy => byte_str "healthy"
  | Degraded _ => byte_str "degraded"
  | GwOffline _ => byte_str "offline"
  end.

Section Tables.
Context `{HashOrder} (timestamp_display : Timestamp -> text).

Definition DASH : text := [0x2014].

Definition format_node_row (node : MeshNode) : list text :=
  [NodeNum_display (mn_num node);
   match mn_user node with Some u => byte_str (ui_long_name u) | None => DASH end;
   match mn_user node with Some u => byte_str (ui_short_name u) | None => DASH end;
   match mn_user node with Some u => show_uint (ui_hw_model u) | None => DASH end;
   match m ← mn_metrics node; dm_battery_level m with Some b => show_uint b ++ byte_str "%" | None => DASH end;
   match mn_snr node with Some s => format_fixed 1 s ++ byte_str " dB" | None => DASH end;
   match mn_hop_count node with Some h => show_uint h | None => DASH end;
   match mn_last_heard node with Some t => timestamp_display t | None => DASH end].

Definition build_status_table (db : NodeDb) (bridge : GatewayBridge) : list (list text) :=
  let gw_health :=
    active ← active_gateway bridge;
    g ← find (fun g => gw_node g =? active) (gateways bridge);
    Some (format_gateway_health (gw_health g)) in
  [property_row "Collector" "kerykeion"; property_row "Status" "connected";
   [byte_str "Active gateway"; match active_gateway bridge with Some n => NodeNum_display n | None => byte_str "none" end];
   [byte_str "Gateway health"; default DASH gw_health];
   [byte_str "Known nodes"; show_uint (Z.of_nat (db_len db))];
   [byte_str "Online nodes";
    show_uint (Z.of_nat (length (List.filter (fun kv => bool_decide (is_Some (mn_last_heard kv.2))) (hm_iter (nodes db)))))]].

Definition num_le (a b : MeshNode) : Prop := mn_num a <= mn_num b.
#[export] Instance num_le_dec a b : Decision (num_le a b).
Proof. unfold num_le. apply _. Defined.

(** [sort_by_key] is a stable sort. *)
Definition build_nodes_table (db : NodeDb) : list (list text) :=
  map format_node_row (merge_sort num_le (map snd (hm_iter (nodes db)))).

(** * Lemmas *)

#[export] Instance num_le_total : Total num_le.
Proof. intros a b. unfold num_le. lia. Qed.
#[export] Instance num_le_trans : Transitive num_le.
Proof. intros a b c. unfold num_le. lia. Qed.

(** The table has one row per node of the database, in ascending node numbers,
    whatever order the hash map is iterated in. *)
Theorem nodes_table_complete db :
  db_ok db ->
  exists sorted, build_nodes_table db = map format_node_row sorted /\
    StronglySorted Z.lt (map mn_num sorted) /\ sorted ≡ₚ map snd (map_to_list (nodes db)).
Proof.
  intros [_ Hnum]. exists (merge_sort num_le (map snd (hm_iter (nodes db)))). split; [done|].
  assert (merge_sort num_le (map snd (hm_iter (nodes db))) ≡ₚ map snd (map_to_list (nodes db))) as Hp
    by (rewrite merge_sort_Permutation; by rewrite hm_iter_perm).
  split; [|done].
  assert (NoDup (map mn_num (merge_sort num_le (map snd (hm_iter (nodes db)))))) as Hnd.
  { rewrite Hp, map_map. replace (map (fun x => mn_num x.2) (map_to_list (nodes db))) with (map fst (map_to_list (nodes db))).
    - apply NoDup_fst_map_to_list.
    - apply map_ext_in. intros [n node] Hin. apply list_elem_of_In, elem_of_map_to_list in Hin. cbn. by apply Hnum in Hin. }
  pose proof (StronglySorted_merge_sort num_le (map snd (hm_iter (nodes db)))) as Hs. clear Hp. revert Hnd.
  induction Hs as [|a l Hs IH Hall]; intros Hnd; [constructor|]. cbn in Hnd |- *. apply NoDup_cons in Hnd as [Hni Hnd].
  constructor; [by apply IH|]. apply List.Forall_forall. intros x (b & <- & Hb)%in_map_iff.
  rewrite List.Forall_forall in Hall. specialize (Hall b Hb). unfold num_le in Hall.
  assert (mn_num a <> mn_num b); [|lia]. intros E. apply Hni. rewrite E. by apply list_elem_of_In, in_map.
Qed.
End Tables.
