(* ===== verification/ServerApi.v ===== *)
(** * The HTTP API (crates/akroasis-server/src/{error,radio,mesh,router}.rs)

    Requests run the commands of the application on a buffer and answer with the JSON
    they wrote; errors are classified so that nothing of the server's state reaches
    the caller. serde_json is the class [JsonOut]; routing, body limits, timeouts
    and the concurrency limit of the router are a step relation. *)

From S2P Require Import Prelude Decimal Text CloneProtocol CsvPlan RadioDetect ChirpCli RadioCli MeshCli.

Local Open Scope Z_scope.

Abbreviation text := (list Z) (only parsing).

(** ** Errors (error.rs) *)

(** What is logged of a failure, never sent. *)
Inductive ApiDetail : Type := OfRadio (e : RadioError) | OfMesh (e : MeshError) | JsonParse (source : text) | OfMiddleware (source : text).

Record ApiError : Type := mkApiError { api_status : Z; api_message : text; api_detail : option ApiDetail }.

Definition INTERNAL_MESSAGE : text := byte_str "internal server error".
Definition internal (detail : ApiDetail) : ApiError := mkApiError 500 INTERNAL_MESSAGE (Some detail).
Definition client (status : Z) (message : text) : ApiError := mkApiError status message None.
Definition bad_request (message : text) : ApiError := client 400 message.
Definition not_found (message : text) : ApiError := client 404 message.

(** The response: its status and the [error] member of its body. *)
Definition into_response (e : ApiError) : Z * text := (api_status e, api_message e).

(** ** The radio endpoint (radio.rs) *)

Definition MAX_PORT_LEN : nat := 64.
Definition INVALID_PORT_MESSAGE : text := byte_str "`port` must be a serial device path such as /dev/ttyUSB0".

Definition is_ascii_alphanumeric (b : Z) : bool :=
  ((48 <=? b) && (b <=? 57)) || ((65 <=? b) && (b <=? 90)) || ((97 <=? b) && (b <=? 122)).

(** A string is its UTF-8 bytes here. *)
Definition is_serial_device_path (port : text) : bool :=
  if (MAX_PORT_LEN <? length port)%nat then false
  else
    match strip_prefix (byte_str "/dev/") port with
    | None => false
    | Some name =>
        if existsb (fun b => b =? 47) name then false
        else
          match strip_prefix (byte_str "tty") name with
          | None => false
          | Some suffix => negb (bool_decide (suffix = [])) && forallb is_ascii_alphanumeric suffix
          end
    end.

Definition validated_port (port : option text) : result (option text) ApiError :=
  match port with
  | None => Ok None
  | Some port => if is_serial_device_path port then Ok (Some port) else Err (bad_request INVALID_PORT_MESSAGE)
  end.

Definition classify_radio (err : RadioError) : ApiError :=
  match err with
  | NoRadioDetected =>
      not_found (byte_str "no radio detected; check that the radio is on and the programming cable is connected")
  | MultipleRadios => bad_request (byte_str "multiple radios detected; set the `port` query parameter")
  | PermissionDenied _ => client 403 (byte_str "the server is not permitted to open the requested serial port")
  | HardwareNotAvailable => client 503 (byte_str "radio hardware support is not available in this build")
  | _ => internal (OfRadio err)
  end.

(** ** The mesh endpoints (mesh.rs) *)

Definition classify_mesh (err : MeshError) : ApiError :=
  match err with
  | NodeNotFound identifier => not_found (byte_str "node not found: " ++ identifier)
  | _ => internal (OfMesh err)
  end.

(** ** Running a command on a buffer *)

Inductive Chunk : Type := RadioJson (r : Report) | MeshJson (r : MeshReport) | Plain (o : Output).

(** [serde_json::Value] of a report, and [from_slice], which reads back what
    [to_writer_pretty] and the newline after it wrote. *)
Class JsonOut (V : Type) : Type := {
  value_of_radio : Report -> V;
  value_of_mesh : MeshReport -> V;
  from_slice : list Chunk -> result V text;
  from_slice_radio : forall r, from_slice [RadioJson r; Plain (Line [])] = Ok (value_of_radio r);
  from_slice_mesh : forall r, from_slice [MeshJson r; Plain (Line [])] = Ok (value_of_mesh r) }.

Record Request (W : Type) : Type := mkRequest { rq_world : W; rq_out : list Chunk }.
Arguments mkRequest {W} _ _.
Arguments rq_world {W} _.
Arguments rq_out {W} _.

Definition push_chunk {W} (c : Chunk) (r : Request W) : Request W := mkRequest (rq_world r) (rq_out r ++ [c]).
Definition on_world {W A} (m : cli W A) : cli (Request W) A := fun r =>
  let (a, w) := m (rq_world r) in (a, mkRequest w (rq_out r)).

(** Writing to a [Vec<u8>] does not fail; nobody answers a prompt. *)
#[export] Instance request_terminal {W} : Terminal (Request W) := {
  write_out o r := (Ok tt, push_chunk (Plain o) r);
  write_json rep r := (Ok tt, push_chunk (RadioJson rep) r);
  confirm _ r := (Err [], r) }.
#[export] Instance request_mesh_terminal {W} : MeshTerminal (Request W) := {
  mesh_write_out o r := (Ok tt, push_chunk (Plain o) r);
  mesh_write_json rep r := (Ok tt, push_chunk (MeshJson rep) r) }.
#[export] Instance request_files {W} `{Files W} : Files (Request W) := {
  read_to_string p r := read_to_string p (rq_world r);
  write_file p t r := let (res, w) := write_file p t (rq_world r) in (res, mkRequest w (rq_out r)) }.
#[export] Instance request_hardware {W S} `{Hardware W S} : Hardware (Request W) S := {
  hw_detect_radios := on_world hw_detect_radios;
  hw_detect_on_port p := on_world (hw_detect_on_port p);
  hw_open p := on_world (hw_open p);
  hw_drop s r := mkRequest (hw_drop s (rq_world r)) (rq_out r) }.

Section Handlers.
Context {W S E V : Type} `{Hardware W S} `{Files W} `{CsvReader E} `{PlanSerde} `{JsonOut V}.

(** A handler's answer, [None] for a panic, and the world after it. *)
Definition api_detect (port : option text) (w : W) : option (result V ApiError) * W :=
  match validated_port port with
  | Err e => (Some (Err e), w)
  | Ok port =>
      match dispatch_with (S := S) (E := E) (Detect port true) (mkRequest w []) with
      | (Some (Ok _), r) => (Some (map_err (fun e => internal (JsonParse e)) (from_slice (rq_out r))), rq_world r)
      | (Some (Err e), r) => (Some (Err (classify_radio e)), rq_world r)
      | (None, r) => (None, rq_world r)
      end
  end.

Definition api_mesh (cmd : MeshCommand) : result V ApiError :=
  match mesh_dispatch cmd (mkRequest tt []) with
  | (Ok _, r) => map_err (fun e => internal (JsonParse e)) (from_slice (rq_out r))
  | (Err e, _) => Err (classify_mesh e)
  end.
Definition api_status_report : result V ApiError := api_mesh (MeshStatus true).
Definition api_nodes : result V ApiError := api_mesh (MeshNodes true).
Definition api_topology : result V ApiError := api_mesh (MeshTopologyCmd true).

(** ** Routes (router.rs) *)

Inductive Handler : Type := HDetect | HStatus | HNodes | HTopology.

Definition build_routes : list (text * Handler) :=
  map (fun '(p, h) => (byte_str "/api/v1" ++ byte_str p, h))
    [("/radio/detect", HDetect); ("/mesh/status", HStatus); ("/mesh/nodes", HNodes); ("/mesh/topology", HTopology)]%string.

Definition route (path : text) : option Handler :=
  snd <$> find (fun '(p, _) => bool_decide (p = path)) build_routes.

Definition handle (h : Handler) (port : option text) (w : W) : option (result V ApiError) * W :=
  match h with
  | HDetect => api_detect port w
  | HStatus => (Some api_status_report, w)
  | HNodes => (Some api_nodes, w)
  | HTopology => (Some api_topology, w)
  end.
End Handlers.

(** ** Limits (router.rs) *)

Definition MAX_BODY_BYTES : Z := 10 * 1024 * 1024.
Definition MAX_CONCURRENT_REQUESTS : nat := 64.

Definition timed_out : ApiError := client 408 (byte_str "request timed out").
Definition handle_middleware_error (elapsed : bool) (source : text) : ApiError :=
  if elapsed then timed_out else internal (OfMiddleware source).

(** Requests that wait for a permit of the semaphore, that hold one, and the
    statuses sent. *)
Record Server : Type := mkServer { waiting : list nat; running : list nat; answered : list (nat * Z) }.

(** One step: a request arrives, refused for its body or queued; the first in the
    queue is admitted; one that runs answers; one that waits or runs times out. *)
Inductive server_step : Server -> Server -> Prop :=
| step_arrive id body wt rn an :
    id ∉ wt ++ rn ++ map fst an ->
    server_step (mkServer wt rn an)
      (if MAX_BODY_BYTES <? body then mkServer wt rn (an ++ [(id, 413)]) else mkServer (wt ++ [id]) rn an)
| step_admit id wt rn an :
    (length rn < MAX_CONCURRENT_REQUESTS)%nat ->
    server_step (mkServer (id :: wt) rn an) (mkServer wt (rn ++ [id]) an)
| step_answer id status wt r1 r2 an :
    server_step (mkServer wt (r1 ++ id :: r2) an) (mkServer wt (r1 ++ r2) (an ++ [(id, status)]))
| step_expire_waiting id w1 w2 rn an :
    server_step (mkServer (w1 ++ id :: w2) rn an) (mkServer (w1 ++ w2) rn (an ++ [(id, api_status timed_out)]))
| step_expire_running id wt r1 r2 an :
    server_step (mkServer wt (r1 ++ id :: r2) an) (mkServer wt (r1 ++ r2) (an ++ [(id, api_status timed_out)])).

Definition server_start : Server := mkServer [] [] [].

(** ** The listener (server.rs) *)

Inductive ServeError (IoErr : Type) : Type := Bind (addr : text) (source : IoErr) | Serve (source : IoErr).
Arguments Bind {IoErr} addr source.
Arguments Serve {IoErr} source.

(** tokio's listener and [axum::serve] of the router's application, which runs until a
    fatal error, so that it may never return. *)
Class Listening (W L IoErr : Type) : Type := {
  tcp_bind : text -> W -> result L IoErr * W;
  axum_serve : L -> W -> option (result unit IoErr) * W
}.

Definition serve {W L IoErr} `{Listening W L IoErr} (addr : text) (w : W) : option (result unit (ServeError IoErr)) * W :=
  match tcp_bind addr w with
  | (Err e, w) => (Some (Err (Bind addr e)), w)
  | (Ok listener, w) => let (r, w) := axum_serve listener w in (map_err Serve <$> r, w)
  end.

(** A server that could not bind has served nothing; any other error is the one that
    ended a server that was running. *)
Lemma serve_error {W L IoErr} `{Listening W L IoErr} addr (w w' : W) e :
  serve addr w = (Some (Err e), w') <->
  (exists source, e = Bind addr source /\ tcp_bind addr w = (Err source, w')) \/
  (exists source l w1, e = Serve source /\ tcp_bind addr w = (Ok l, w1) /\ axum_serve l w1 = (Some (Err source), w')).
Proof.
  unfold serve. destruct (tcp_bind addr w) as [[l|source] w1]; [destruct (axum_serve l w1) as [[[u|source]|] w2] eqn:E|].
  all: cbn; split; [intros [=]; subst|intros [(? & ? & [=])|(? & ? & ? & ? & [=] & Hs)]; subst; try congruence].
  - right. by exists source, l, w1.
  - left. by exists source.
Qed.

(** * Lemmas *)

(** A serial device path: a device node directly under /dev whose name is [tty] and
    letters or digits. *)
Definition serial_path (p : text) : Prop :=
  exists suffix, p = byte_str "/dev/tty" ++ suffix /\ suffix <> [] /\
    Forall (fun b => is_ascii_alphanumeric b = true) suffix /\ (length p <= MAX_PORT_LEN)%nat.

Lemma is_serial_device_path_iff p : is_serial_device_path p = true <-> serial_path p.
Proof.
  unfold is_serial_device_path, serial_path. split.
  - destruct (MAX_PORT_LEN <? length p)%nat eqn:El; [done|]. apply Nat.ltb_ge in El.
    destruct (strip_prefix (byte_str "/dev/") p) as [name|] eqn:E1; [|done]. apply strip_prefix_Some in E1 as ->.
    destruct (existsb _ name); [done|].
    destruct (strip_prefix (byte_str "tty") name) as [suffix|] eqn:E2; [|done]. apply strip_prefix_Some in E2 as ->.
    intros [Hne Hall]%andb_true_iff. exists suffix. split; [done|].
    split; [by apply negb_true_iff, bool_decide_eq_false in Hne|]. split; [|done].
    apply List.Forall_forall, forallb_forall, Hall.
  - intros (suffix & -> & Hne & Hall & Hl). rewrite (proj2 (Nat.ltb_ge _ _) Hl).
    rewrite (proj2 (strip_prefix_Some (byte_str "/dev/") (byte_str "/dev/tty" ++ suffix) (byte_str "tty" ++ suffix)) eq_refl).
    replace (existsb (fun b => b =? 47) (byte_str "tty" ++ suffix)) with false.
    2: { symmetry. apply not_true_iff_false. intros (b & Hb & ->%Z.eqb_eq)%existsb_exists.
         apply in_app_or in Hb as [Hb|Hb]; [cbn in Hb; intuition discriminate|].
         rewrite List.Forall_forall in Hall. by specialize (Hall _ Hb). }
    rewrite (proj2 (strip_prefix_Some (byte_str "tty") (byte_str "tty" ++ suffix) suffix) eq_refl).
    rewrite bool_decide_false by done. cbn. apply forallb_forall. by apply List.Forall_forall.
Qed.

(** Every text an error answer of the radio endpoint can carry. *)
Definition public_messages : list text :=
  [INTERNAL_MESSAGE; INVALID_PORT_MESSAGE;
   byte_str "no radio detected; check that the radio is on and the programming cable is connected";
   byte_str "multiple radios detected; set the `port` query parameter";
   byte_str "the server is not permitted to open the requested serial port";
   byte_str "radio hardware support is not available in this build"].

Lemma classify_radio_public e : In (api_message (classify_radio e)) public_messages.
Proof. destruct e; cbn; tauto. Qed.

Section HandlerLemmas.
Context {W S E V : Type} `{Hardware W S} `{Files W} `{CsvReader E} `{PlanSerde} `{JsonOut V}.

(** The answer to a request that made the hardware operation [m]. *)
Definition answers (m : cli W (list CliRadio)) (w : W) (r : option (result V ApiError)) (w' : W) : Prop :=
  match m w with
  | (Some (Ok radios), w1) =>
      w' = w1 /\ r = Some (Ok (value_of_radio (DetectReport 1 "radio detect" (length radios) (map radio_report radios))))
  | (Some (Err e), w1) => w' = w1 /\ r = Some (Err (classify_radio e))
  | (None, w1) => w' = w1 /\ r = None
  end.

(** The hardware operation behind a validated query. *)
Definition probe_for (port : option text) : cli W (list CliRadio) :=
  match port with
  | Some p => let* found := hw_detect_on_port p in cli_ret (option_list found)
  | None => hw_detect_radios
  end.

Lemma detect_run_request port w :
  detect_run port true (mkRequest w []) =
  match probe_for port w with
  | (Some (Ok radios), w1) =>
      (Some (Ok tt), mkRequest w1 [RadioJson (DetectReport 1 "radio detect" (length radios) (map radio_report radios)); Plain (Line [])])
  | (Some (Err e), w1) => (Some (Err e), mkRequest w1 [])
  | (None, w1) => (None, mkRequest w1 [])
  end.
Proof.
  unfold detect_run, probe_for, cli_bind, cli_ret, on_world. destruct port as [p|]; cbn; unfold on_world; cbn.
  - destruct (hw_detect_on_port p w) as [[[found|e]|] w1]; reflexivity.
  - destruct (hw_detect_radios w) as [[[radios|e]|] w1]; reflexivity.
Qed.

Lemma api_detect_answers port w r w' :
  validated_port port = Ok port -> api_detect (E := E) port w = (r, w') -> answers (probe_for port) w r w'.
Proof.
  unfold api_detect, answers. intros ->. cbn [dispatch_with]. rewrite detect_run_request.
  destruct (probe_for port w) as [[[radios|e]|] w1]; cbn [rq_out rq_world]; intros [= <- <-]; split; try done.
  by rewrite from_slice_radio.
Qed.
End HandlerLemmas.

Definition bounded (s : Server) : Prop :=
  (length (running s) <= MAX_CONCURRENT_REQUESTS)%nat /\ NoDup (waiting s ++ running s ++ map fst (answered s)).

Lemma server_step_bounded s s' : server_step s s' -> bounded s -> bounded s'.
Proof.
  unfold bounded. intros Hstep [Hl Hnd].
  inversion Hstep as [id body wt rn an Hid|id wt rn an Hlt|id status wt r1 r2 an|id w1 w2 rn an|id wt r1 r2 an];
    subst; cbn [waiting running answered] in *.
  - destruct (_ <? body); cbn [waiting running answered]; (split; [done|]).
    + rewrite map_app, !app_assoc. apply NoDup_app. rewrite <- app_assoc. split; [done|]. split; [|apply NoDup_singleton].
      intros x Hx ->%list_elem_of_singleton. done.
    + rewrite <- app_assoc. rewrite (Permutation_app_comm [id]), !app_assoc. apply NoDup_app.
      rewrite <- app_assoc. split; [done|]. split; [|apply NoDup_singleton]. intros x Hx ->%list_elem_of_singleton. done.
  - rewrite length_app. cbn. split; [lia|].
    enough (wt ++ (rn ++ [id]) ++ map fst an ≡ₚ (id :: wt) ++ rn ++ map fst an) as -> by done.
    solve_Permutation.
  - rewrite length_app in Hl |- *. cbn in Hl. split; [lia|].
    enough (wt ++ (r1 ++ r2) ++ map fst (an ++ [(id, status)]) ≡ₚ wt ++ (r1 ++ id :: r2) ++ map fst an) as -> by done.
    rewrite map_app. cbn. solve_Permutation.
  - split; [done|].
    enough ((w1 ++ w2) ++ rn ++ map fst (an ++ [(id, api_status timed_out)]) ≡ₚ (w1 ++ id :: w2) ++ rn ++ map fst an) as -> by done.
    rewrite map_app. cbn. solve_Permutation.
  - rewrite length_app in Hl |- *. cbn in Hl. split; [lia|].
    enough (wt ++ (r1 ++ r2) ++ map fst (an ++ [(id, api_status timed_out)]) ≡ₚ wt ++ (r1 ++ id :: r2) ++ map fst an) as -> by done.
    rewrite map_app. cbn. solve_Permutation.
Qed.

(** * Properties *)

(** C40. A detect request is confined and discreet: a named port reaches the hardware
    exactly when it is a path of at most 64 bytes of a device under /dev called tty and
    letters or digits, and is otherwise refused without touching anything; the answer is the report of what
    detection found or the class of its error, and an error answer carries one of
    six fixed texts, never anything of the request or of the server. *)
Theorem detect_request_confined {W S E V} `{Hardware W S} `{Files W} `{CsvReader E} `{PlanSerde} `{JsonOut V}
    (port : option text) (w w' : W) (r : option (result V ApiError)) :
  api_detect (E := E) port w = (r, w') ->
  match port with
  | None => answers hw_detect_radios w r w'
  | Some p => (serial_path p /\ answers (probe_for (Some p)) w r w') \/
              (~ serial_path p /\ w' = w /\ r = Some (Err (bad_request INVALID_PORT_MESSAGE)))
  end /\
  forall e, r = Some (Err e) -> In (into_response e).2 public_messages.
Proof.
  intros Hx. assert (Herr : forall p e, answers p w r w' -> r = Some (Err e) -> In (into_response e).2 public_messages).
  { intros p e Ha ->. unfold answers in Ha. destruct (p w) as [[[radios|e']|] w1]; destruct Ha as [_ Ha]; try done.
    injection Ha as ->. apply classify_radio_public. }
  destruct port as [p|].
  - destruct (is_serial_device_path p) eqn:Ep.
    + assert (answers (probe_for (Some p)) w r w') as Ha.
      { eapply api_detect_answers; [|exact Hx]. cbn. by rewrite Ep. }
      split; [left; split; [by apply is_serial_device_path_iff|done]|]. intros e. by apply (Herr (probe_for (Some p))).
    + unfold api_detect in Hx. cbn [validated_port] in Hx. rewrite Ep in Hx. injection Hx as <- <-.
      split; [right; split; [|done]|intros e [= <-]; cbn; tauto].
      rewrite <- is_serial_device_path_iff. by rewrite Ep.
  - assert (answers (probe_for None) w r w') as Ha by (by eapply api_detect_answers; [|exact Hx]).
    split; [exact Ha|]. intros e. by apply (Herr (probe_for None)).
Qed.

(** The router's limits hold whatever requests arrive and however long they take: at
    most 64 run at a time, and no request is answered twice or answered while it
    still waits or runs. *)
Theorem requests_bounded s :
  rtc server_step server_start s ->
  (length (running s) <= MAX_CONCURRENT_REQUESTS)%nat /\ NoDup (waiting s ++ running s ++ map fst (answered s)).
Proof.
  assert (bounded server_start) as Hb by (split; [cbn; lia|constructor]). intros Hr. change (bounded s). revert Hb.
  induction Hr as [s|s1 s2 s3 Hstep _ IH]; [done|]. intros Hb. by apply IH, (server_step_bounded s1).
Qed.

(** * A server with the bench radio *)

Module ApiSample.
#[local] Existing Instances Bench.sim_port Bench.host_serial Bench.host_files Bench.bench_serde Rfc4180.rfc4180 TrimmedRfc4180.rfc4180_reader.

#[local] Instance chunk_json : JsonOut Chunk := {
  value_of_radio := RadioJson; value_of_mesh := MeshJson;
  from_slice l := match l with [c; Plain (Line [])] => Ok c | _ => Err [] end;
  from_slice_radio _ := eq_refl; from_slice_mesh _ := eq_refl }.

Definition request (port : option text) : option (result Chunk ApiError) * Bench.Host :=
  api_detect (S := BaofengProtocolSession Bench.SimRadio) (E := Empty_set) port (Bench.bench 0).

Example traversal_refused :
  (request (Some (byte_str "/dev/../etc/passwd"))).1 = Some (Err (bad_request INVALID_PORT_MESSAGE)).
Proof. reflexivity. Qed.

Lemma detect_request_confined_witness :
  serial_path (byte_str "/dev/ttyUSB7") /\
  answers (probe_for (S := BaofengProtocolSession Bench.SimRadio) (Some (byte_str "/dev/ttyUSB7"))) (Bench.bench 0)
    (request (Some (byte_str "/dev/ttyUSB7"))).1 (request (Some (byte_str "/dev/ttyUSB7"))).2.
Proof.
  destruct (detect_request_confined (S := BaofengProtocolSession Bench.SimRadio) (E := Empty_set)
    (Some (byte_str "/dev/ttyUSB7")) (Bench.bench 0) (request (Some (byte_str "/dev/ttyUSB7"))).2
    (request (Some (byte_str "/dev/ttyUSB7"))).1 (surjective_pairing _)) as [[[Hp Ha]|[Hp _]] _].
  - split; [exact Hp|exact Ha].
  - destruct Hp. apply is_serial_device_path_iff. reflexivity.
Defined.

Example status_endpoint :
  api_status_report = Ok (MeshJson (StatusReport 1 "mesh status" "kerykeion" CLI_STATUS 0 None 0 LIVE_TRANSPORT_MESSAGE)).
Proof. reflexivity. Qed.

Example routes_found :
  route (byte_str "/api/v1/radio/detect") = Some HDetect /\ route (byte_str "/radio/detect") = None.
Proof. split; reflexivity. Qed.

Lemma requests_bounded_witness :
  rtc server_step server_start (mkServer [] [1%nat] [(0%nat, 413)]) /\
  NoDup ([] ++ [1%nat] ++ [0%nat]).
Proof.
  assert (rtc server_step server_start (mkServer [] [1%nat] [(0%nat, 413)])) as Hr.
  { eapply rtc_l; [apply (step_arrive 0 (MAX_BODY_BYTES + 1) [] [] []); apply not_elem_of_nil|].
    eapply rtc_l; [apply (step_arrive 1 0 [] [] [(0%nat, 413)]); cbn; rewrite list_elem_of_singleton; discriminate|].
    apply rtc_once. apply (step_admit 1 [] [] [(0%nat, 413)]). cbn. unfold MAX_CONCURRENT_REQUESTS. lia. }
  split; [exact Hr|]. exact (proj2 (requests_bounded _ Hr)).
Defined.
End ApiSample.
