(* ===== verification/TamperLog.v ===== *)
(** * Tamper-evident log: entry format, seal and chain verification

    Models crates/tekmerion/src/tamper_log.rs (entry encoding), tamper_log_seal.rs,
    tamper_log_verify.rs and tamper_log_rotation.rs: the wire format of an entry,
    the authenticated sidecar seal with and without an installation signature,
    the names of rotated segments and the streaming verifier of one segment
    file. Segment sets are in TamperSegments.v, the writer in TamperWriter.v.

    The directory holding the log is a finite map from file names to contents.
    BLAKE3 and CBOR are classes with their documented behaviour: a keyed hash
    has 32 bytes and hashing incrementally is hashing the concatenation; a value
    written in CBOR reads back. *)

From S2P Require Import Prelude Decimal.

Local Open Scope Z_scope.

(** ** Third-party primitives *)

(** [blake3::Hasher::new_keyed] followed by [update]s and [finalize], and
    [blake3::keyed_hash]. *)
Class KeyedHash : Type := {
  blake3_keyed : bytes -> bytes -> bytes;
  blake3_keyed_len : forall k m, length (blake3_keyed k m) = 32%nat
}.

Abbreviation hash32 := (list Z) (only parsing).
Abbreviation FileName := (list Z) (only parsing).

(** ** Log entries (tamper_log_entry.rs, tamper_log.rs) *)

Inductive LogEntryKind : Type :=
| SignalObserved (signal_id : Z) (kind_tag : bytes)
| EntityCreated (entity_id : Z) (kind_tag : bytes)
| ConfigChanged (key : bytes) (old_value : option bytes) (new_value : bytes)
| AlertRaised (alert_id severity message : bytes)
| ActionTaken (actor action : bytes) (target : option bytes)
| VaultMutation (credential_ref operation : bytes).

Record LogEntry : Type := {
  sequence : Z;
  timestamp_ms : Z;
  kind : LogEntryKind
}.

(** [ciborium::into_writer] and [ciborium::from_reader] at [LogEntry]. *)
Class Cbor : Type := {
  cbor_into_writer : LogEntry -> option bytes;
  cbor_from_reader : bytes -> option LogEntry;
  cbor_roundtrip : forall e b, cbor_into_writer e = Some b -> cbor_from_reader b = Some e
}.

Definition MAX_ENTRY_BYTES : Z := 16 * 1024 * 1024.
Definition DEFAULT_MAX_FILE_BYTES : Z := 100 * 1024 * 1024.

(** ** Verification results (tamper_log_verify.rs) *)

Inductive ChainStatus : Type :=
| Intact
| Broken (sequence : Z) (expected_hash actual_hash : hash32)
| Empty
| Corrupted (byte_offset : Z)
| Truncated (sealed_entries : option Z)
| Unsealed (verified_entries sealed_entries : Z).

Record VerificationResult : Type := {
  vr_entries_verified : Z;
  vr_status : ChainStatus
}.

Record StreamResult : Type := {
  entries_verified : Z;
  terminal_hash : hash32;
  break_status : option ChainStatus
}.

Inductive TamperLogError : Type :=
| ErrIo (path : FileName)
| ErrCborEncode
| ErrCborDecode
| ErrCorrupted (offset : Z)
| ErrEntryTooLarge (size max : Z)
| ErrChainCompromised (path : FileName) (status : ChainStatus)
| ErrLocked (path : FileName).

(** ** The directory

    [d_files] are the files of the log's directory, [d_locks] the logs whose
    advisory lock is held, and [d_faults] the I/O failures ahead: one slot per
    call of [write_seal], naming the stage at which that call fails. *)

Inductive SealStage : Type := Create | Write | Sync | Rename | DirSync.

Record Disk : Type := {
  d_files : gmap FileName bytes;
  d_locks : gset FileName;
  d_faults : list (option SealStage)
}.

Definition set_files (f : gmap FileName bytes -> gmap FileName bytes) (d : Disk) : Disk :=
  {| d_files := f (d_files d); d_locks := d_locks d; d_faults := d_faults d |}.

(** [Read::read_exact]: the bytes read and the rest, or [UnexpectedEof]. *)
Definition read_exact (n : nat) (reader : bytes) : option (bytes * bytes) :=
  if (length reader <? n)%nat then None else Some (take n reader, drop n reader).

Definition eq_bytes (a b : bytes) : bool := bool_decide (a = b).

(** ** Rotation names (tamper_log_rotation.rs) *)

Definition DOT : Z := 46.

(** [Path::file_stem] of a file name: what precedes its last dot, or the whole
    name when it has no dot or only a leading one. *)
Fixpoint break_dot (l : bytes) : bytes * option bytes :=
  match l with
  | [] => ([], None)
  | c :: r =>
      if c =? DOT then ([], Some r)
      else let '(a, b) := break_dot r in (c :: a, b)
  end.

Definition log_stem (path : FileName) : bytes :=
  match break_dot (rev path) with
  | (_, None) => path
  | (_, Some []) => path
  | (_, Some before) => rev before
  end.

Definition show_u32 (n : Z) : bytes := decimal_digits 10 n.
Definition parse_u32 : bytes -> option Z := parse_uint 32.

Definition strip_suffix (s l : bytes) : option bytes :=
  (fun r : bytes => rev r) <$> strip_prefix (rev s) (rev l).

Definition LOG_SUFFIX : bytes := byte_str ".log".

Definition rotation_path (path : FileName) (n : Z) : FileName :=
  log_stem path ++ [DOT] ++ show_u32 n ++ LOG_SUFFIX.

Definition parse_rotation_number (name stem : bytes) : option Z :=
  strip_prefix (stem ++ [DOT]) name ≫= fun r => strip_suffix LOG_SUFFIX r ≫= parse_u32.

(** The rotation numbers a scan of the directory finds. *)
Definition scan_rotations (d : Disk) (path : FileName) : list Z :=
  omap (fun f => parse_rotation_number f.1 (log_stem path)) (map_to_list (d_files d)).

Definition next_rotation_number (d : Disk) (path : FileName) : Z :=
  saturating_add 32 (fold_left (fun max_n n => if max_n <? n then n else max_n)
                               (scan_rotations d path) 0) 1.

Section Verifier.
Context `{KeyedHash} `{Cbor}.

(** ** Entry encoding (tamper_log.rs) *)

Definition entry_hash (chain_key cbor prev_hash : bytes) : hash32 :=
  blake3_keyed chain_key (cbor ++ prev_hash).

Definition encode_entry (entry : LogEntry) (prev_hash : hash32) (chain_key : bytes)
  : result (bytes * hash32) TamperLogError :=
  match cbor_into_writer entry with
  | None => Err ErrCborEncode
  | Some cbor_bytes =>
      let payload_len := Z.of_nat (length cbor_bytes) in
      if MAX_ENTRY_BYTES <? payload_len
      then Err (ErrEntryTooLarge payload_len MAX_ENTRY_BYTES)
      else
        let hash := entry_hash chain_key cbor_bytes prev_hash in
        let len := as_uint 32 payload_len in
        Ok (to_le_bytes 4 len ++ cbor_bytes ++ hash, hash)
  end.

Definition decode_entry (bs : bytes) : result (LogEntry * hash32) TamperLogError :=
  match read_exact 4 bs with
  | None => Err (ErrCorrupted 0)
  | Some (len_buf, cursor) =>
      let payload_len := from_le_bytes len_buf in
      if MAX_ENTRY_BYTES <? payload_len
      then Err (ErrEntryTooLarge payload_len MAX_ENTRY_BYTES)
      else
        match read_exact (Z.to_nat payload_len) cursor with
        | None => Err (ErrCorrupted 4)
        | Some (cbor_bytes, cursor) =>
            match cbor_from_reader cbor_bytes with
            | None => Err ErrCborDecode
            | Some entry =>
                match read_exact 32 cursor with
                | None => Err (ErrCorrupted (4 + payload_len))
                | Some (hash, _) => Ok (entry, hash)
                end
            end
        end
  end.

(** ** The seal (tamper_log_seal.rs) *)

Definition GENESIS_DOMAIN : bytes := byte_str "koinon/tamper-log/genesis/v1".
Definition SEAL_DOMAIN : bytes := byte_str "koinon/tamper-log/seal/v1".
Definition SIGNED_SEAL_DOMAIN : bytes := byte_str "koinon/tamper-log/seal-signed/v1".
Definition TIP_SIGNING_DOMAIN : bytes := byte_str "koinon/tamper-log/tip/v1".
Definition SEAL_COUNT_LEN : nat := 8.
Definition SEAL_LINK_LEN : nat := 32.
Definition SEAL_MAC_LEN : nat := 32.
Definition KEY_ID_LEN : nat := 8.
Definition TIP_SIGNATURE_LEN : nat := 64.
Definition SEAL_FILE_LEN : nat := SEAL_COUNT_LEN + SEAL_LINK_LEN + SEAL_MAC_LEN.
Definition SIGNED_SEAL_FILE_LEN : nat :=
  SEAL_COUNT_LEN + SEAL_LINK_LEN + SEAL_LINK_LEN + KEY_ID_LEN + TIP_SIGNATURE_LEN + SEAL_MAC_LEN.

Definition genesis_hash (chain_key : bytes) : hash32 := blake3_keyed chain_key GENESIS_DOMAIN.

Record TipSigner : Type := {
  signer_key_id : bytes;
  sign_tip : bytes -> bytes
}.

Record TipVerifier : Type := {
  verifier_key_id : bytes;
  verify_tip : bytes -> bytes -> bool
}.

Record TipProvenance : Type := {
  tp_key_id : bytes;
  tp_terminal_hash : hash32;
  tp_signature : bytes
}.

Definition tip_payload (terminal_hash : hash32) : bytes := TIP_SIGNING_DOMAIN ++ terminal_hash.

Inductive SealState : Type :=
| Absent
| Invalid
| Valid (entry_count : Z) (segment_start_hash : hash32) (provenance : option TipProvenance).

Inductive TipStatus : Type :=
| NoSeal
| Unsigned
| ForeignInstallation
| SignatureInvalid
| StaleTip (signed actual : hash32)
| Verified.

Definition check_tip (seal : SealState) (verifier : TipVerifier) (terminal_hash : hash32)
  : TipStatus :=
  match seal with
  | Valid _ _ provenance =>
      match provenance with
      | None => Unsigned
      | Some tip =>
          if negb (eq_bytes (tp_key_id tip) (verifier_key_id verifier)) then ForeignInstallation
          else if negb (verify_tip verifier (tip_payload (tp_terminal_hash tip)) (tp_signature tip))
          then SignatureInvalid
          else if negb (eq_bytes (tp_terminal_hash tip) terminal_hash)
          then StaleTip (tp_terminal_hash tip) terminal_hash
          else Verified
      end
  | Absent | Invalid => NoSeal
  end.

Definition SEAL_SUFFIX : bytes := byte_str ".seal".
Definition TMP_SUFFIX : bytes := byte_str ".tmp".

Definition seal_path (log_path : FileName) : FileName := log_path ++ SEAL_SUFFIX.

Definition seal_mac (chain_key : bytes) (entry_count : Z) (segment_start_hash : hash32) : bytes :=
  blake3_keyed chain_key (SEAL_DOMAIN ++ to_le_bytes 8 entry_count ++ segment_start_hash).

Definition signed_seal_mac (chain_key : bytes) (entry_count : Z) (segment_start_hash : hash32)
    (provenance : TipProvenance) : bytes :=
  blake3_keyed chain_key
    (SIGNED_SEAL_DOMAIN ++ to_le_bytes 8 entry_count ++ segment_start_hash
     ++ tp_terminal_hash provenance ++ tp_key_id provenance ++ tp_signature provenance).

Definition read_unsigned_seal (raw chain_key : bytes) : SealState :=
  let count := from_le_bytes (take SEAL_COUNT_LEN raw) in
  let segment_start_hash := take SEAL_LINK_LEN (drop SEAL_COUNT_LEN raw) in
  let stored_mac := drop (SEAL_COUNT_LEN + SEAL_LINK_LEN) raw in
  let expected_mac := seal_mac chain_key count segment_start_hash in
  if eq_bytes expected_mac stored_mac then Valid count segment_start_hash None else Invalid.

Definition read_signed_seal (raw chain_key : bytes) : SealState :=
  let count := from_le_bytes (take SEAL_COUNT_LEN raw) in
  let raw := drop SEAL_COUNT_LEN raw in
  let segment_start_hash := take SEAL_LINK_LEN raw in
  let raw := drop SEAL_LINK_LEN raw in
  let terminal_hash := take SEAL_LINK_LEN raw in
  let raw := drop SEAL_LINK_LEN raw in
  let key_id := take KEY_ID_LEN raw in
  let raw := drop KEY_ID_LEN raw in
  let signature := take TIP_SIGNATURE_LEN raw in
  let raw := drop TIP_SIGNATURE_LEN raw in
  let stored_mac := take SEAL_MAC_LEN raw in
  let provenance :=
    {| tp_key_id := key_id; tp_terminal_hash := terminal_hash; tp_signature := signature |} in
  let expected_mac := signed_seal_mac chain_key count segment_start_hash provenance in
  if eq_bytes expected_mac stored_mac
  then Valid count segment_start_hash (Some provenance) else Invalid.

Definition read_seal (d : Disk) (log_path : FileName) (chain_key : bytes) : SealState :=
  match d_files d !! seal_path log_path with
  | None => Absent
  | Some bs =>
      if (length bs =? SEAL_FILE_LEN)%nat then read_unsigned_seal bs chain_key
      else if (length bs =? SIGNED_SEAL_FILE_LEN)%nat then read_signed_seal bs chain_key
      else Invalid
  end.

Definition seal_payload (chain_key : bytes) (entry_count : Z) (segment_start_hash : hash32)
    (provenance : option TipProvenance) : bytes :=
  match provenance with
  | None =>
      to_le_bytes 8 entry_count ++ segment_start_hash
      ++ seal_mac chain_key entry_count segment_start_hash
  | Some tip =>
      to_le_bytes 8 entry_count ++ segment_start_hash
      ++ tp_terminal_hash tip ++ tp_key_id tip ++ tp_signature tip
      ++ signed_seal_mac chain_key entry_count segment_start_hash tip
  end.

(** [File::create], [write_all], [sync_all], [rename] and the directory sync,
    the call's fault slot deciding which of them fails. *)
Definition write_seal (d : Disk) (log_path : FileName) (chain_key : bytes) (entry_count : Z)
    (segment_start_hash : hash32) (provenance : option TipProvenance)
  : Disk * result unit TamperLogError :=
  let target := seal_path log_path in
  let tmp := target ++ TMP_SUFFIX in
  let payload := seal_payload chain_key entry_count segment_start_hash provenance in
  let fault := default None (head (d_faults d)) in
  let d := {| d_files := d_files d; d_locks := d_locks d; d_faults := tail (d_faults d) |} in
  let created := set_files (insert tmp []) d in
  let written := set_files (insert tmp payload) d in
  let renamed := set_files (fun fs => <[target := payload]> (delete tmp fs)) d in
  match fault with
  | Some Create => (d, Err (ErrIo tmp))
  | Some Write => (created, Err (ErrIo tmp))
  | Some Sync => (written, Err (ErrIo tmp))
  | Some Rename => (written, Err (ErrIo target))
  | Some DirSync => (renamed, Err (ErrIo target))
  | None => (renamed, Ok tt)
  end.

(** [fs::rename] of an existing file. *)
Definition rename_file (d : Disk) (from to : FileName) : result Disk TamperLogError :=
  match d_files d !! from with
  | None => Err (ErrIo from)
  | Some bs => Ok (set_files (fun fs => <[to := bs]> (delete from fs)) d)
  end.

Definition rename_seal (d : Disk) (from_log to_log : FileName) : result Disk TamperLogError :=
  match d_files d !! seal_path from_log with
  | None => Ok d
  | Some _ => rename_file d (seal_path from_log) (seal_path to_log)
  end.

(** ** Chain verification (tamper_log_verify.rs) *)

(** The read loop. Every turn that goes on consumes at least 36 bytes, so a
    fuel above the length of the file is never exhausted. *)
Fixpoint stream_loop (fuel : nat) (chain_key : bytes) (prev_hash : hash32)
    (verified byte_offset : Z) (reader : bytes) : StreamResult :=
  let stop status :=
    {| entries_verified := verified; terminal_hash := prev_hash; break_status := status |} in
  match fuel with
  | O => stop None
  | S fuel =>
      match read_exact 4 reader with
      | None => stop None
      | Some (len_buf, reader) =>
          let payload_len := from_le_bytes len_buf in
          if MAX_ENTRY_BYTES <? payload_len then stop (Some (Corrupted byte_offset))
          else
            match read_exact (Z.to_nat payload_len) reader with
            | None => stop (Some (Corrupted (byte_offset + 4)))
            | Some (cbor_bytes, reader) =>
                match read_exact 32 reader with
                | None => stop (Some (Corrupted (byte_offset + 4 + payload_len)))
                | Some (stored_hash, reader) =>
                    let expected_hash := entry_hash chain_key cbor_bytes prev_hash in
                    if negb (eq_bytes expected_hash stored_hash) then
                      let sequence :=
                        match cbor_from_reader cbor_bytes with
                        | Some e => sequence e
                        | None => verified
                        end in
                      stop (Some (Broken sequence expected_hash stored_hash))
                    else
                      stream_loop fuel chain_key expected_hash (verified + 1)
                        (byte_offset + (4 + payload_len + 32)) reader
                end
            end
      end
  end.

Definition stream_bytes (chain_key : bytes) (start_hash : hash32) (contents : bytes) : StreamResult :=
  stream_loop (S (length contents)) chain_key start_hash 0 0 contents.

Definition stream_verify (d : Disk) (path : FileName) (chain_key : bytes) (start_hash : hash32)
  : result StreamResult TamperLogError :=
  match d_files d !! path with
  | None => Err (ErrIo path)
  | Some contents => Ok (stream_bytes chain_key start_hash contents)
  end.

Definition resolve_start_hash (sealed : SealState) (chain_key : bytes) : hash32 :=
  match sealed with
  | Valid _ segment_start_hash _ => segment_start_hash
  | Absent | Invalid => genesis_hash chain_key
  end.

Definition stream_terminal_hash (d : Disk) (path : FileName) (chain_key : bytes) (sealed : SealState)
  : result hash32 TamperLogError :=
  let start_hash := resolve_start_hash sealed chain_key in
  let? stream := stream_verify d path chain_key start_hash in
  Ok (terminal_hash stream).

Definition classify_terminal (sealed : SealState) (verified : Z) : ChainStatus :=
  if verified =? 0 then
    match sealed with
    | Absent => Empty
    | Valid entry_count _ _ => if entry_count =? 0 then Empty else Truncated (Some entry_count)
    | Invalid => Truncated None
    end
  else
    match sealed with
    | Valid entry_count _ _ =>
        if entry_count =? verified then Intact
        else if entry_count <? verified then Unsealed verified entry_count
        else Truncated (Some entry_count)
    | Absent | Invalid => Truncated None
    end.

Definition verify_chain (d : Disk) (path : FileName) (chain_key : bytes)
  : result VerificationResult TamperLogError :=
  let sealed := read_seal d path chain_key in
  let start_hash := resolve_start_hash sealed chain_key in
  let? stream := stream_verify d path chain_key start_hash in
  let status :=
    match break_status stream with
    | Some status => status
    | None => classify_terminal sealed (entries_verified stream)
    end in
  Ok {| vr_entries_verified := entries_verified stream; vr_status := status |}.

Definition verify_tip_provenance (d : Disk) (path : FileName) (chain_key : bytes)
    (verifier : TipVerifier) : result TipStatus TamperLogError :=
  let? result := verify_chain d path chain_key in
  match vr_status result with
  | Intact | Unsealed _ _ =>
      let sealed := read_seal d path chain_key in
      let? terminal := stream_terminal_hash d path chain_key sealed in
      Ok (check_tip sealed verifier terminal)
  | _ => Ok NoSeal
  end.

(** ** What a chain is

    The reference: the bytes, the final hash, the hashed messages and the
    previous hashes of the chain of payloads [ps] linked from [h]. *)

Fixpoint chain_bytes (key : bytes) (h : hash32) (ps : list bytes) : bytes :=
  match ps with
  | [] => []
  | p :: ps =>
      let h' := entry_hash key p h in
      (to_le_bytes 4 (Z.of_nat (length p)) ++ p ++ h') ++ chain_bytes key h' ps
  end.

Fixpoint chain_end (key : bytes) (h : hash32) (ps : list bytes) : hash32 :=
  match ps with
  | [] => h
  | p :: ps => chain_end key (entry_hash key p h) ps
  end.

Fixpoint chain_prevs (key : bytes) (h : hash32) (ps : list bytes) : list hash32 :=
  match ps with
  | [] => []
  | p :: ps => h :: chain_prevs key (entry_hash key p h) ps
  end.

Fixpoint chain_messages (key : bytes) (h : hash32) (ps : list bytes) : list bytes :=
  match ps with
  | [] => []
  | p :: ps => (p ++ h) :: chain_messages key (entry_hash key p h) ps
  end.

Definition payload_ok (p : bytes) : Prop := Z.of_nat (length p) <= MAX_ENTRY_BYTES.

(** *** Readers *)

Lemma read_exact_app n a r : length a = n -> read_exact n (a ++ r) = Some (a, r).
Proof.
  intros <-. unfold read_exact.
  rewrite length_app, (proj2 (Nat.ltb_ge _ _)) by lia.
  by rewrite take_app_length, drop_app_length.
Qed.

Lemma read_exact_Some n l a r : read_exact n l = Some (a, r) -> l = a ++ r /\ length a = n.
Proof.
  unfold read_exact. destruct (length l <? n)%nat eqn:E; [done|]. intros [= <- <-].
  apply Nat.ltb_ge in E. rewrite take_drop, length_take. split; [done|lia].
Qed.

Lemma read_exact_None n l : read_exact n l = None <-> (length l < n)%nat.
Proof. unfold read_exact. destruct (length l <? n)%nat eqn:E; split; try done; lia. Qed.

Lemma entry_hash_len key p h : length (entry_hash key p h) = 32%nat.
Proof. apply blake3_keyed_len. Qed.

Lemma eq_bytes_refl a : eq_bytes a a = true.
Proof. by apply bool_decide_eq_true. Qed.

Lemma payload_len_roundtrip p :
  payload_ok p -> from_le_bytes (to_le_bytes 4 (Z.of_nat (length p))) = Z.of_nat (length p).
Proof.
  unfold payload_ok, MAX_ENTRY_BYTES. intros Hp. apply from_to_le_bytes.
  change (256 ^ Z.of_nat 4) with 4294967296. lia.
Qed.

Lemma chain_bytes_app key h ps qs :
  chain_bytes key h (ps ++ qs) = chain_bytes key h ps ++ chain_bytes key (chain_end key h ps) qs.
Proof. revert h. induction ps as [|p ps IH]; intros h; cbn; [done|]. by rewrite IH, !app_assoc. Qed.

Lemma chain_end_app key h ps qs :
  chain_end key h (ps ++ qs) = chain_end key (chain_end key h ps) qs.
Proof. revert h. induction ps as [|p ps IH]; intros h; cbn; [done|]. apply IH. Qed.

Lemma chain_end_len key h ps : length h = 32%nat -> length (chain_end key h ps) = 32%nat.
Proof. revert h. induction ps as [|p ps IH]; intros h Hh; cbn; [done|]. apply IH, entry_hash_len. Qed.

(** *** The streaming verifier reads chains *)

(** One turn of the loop over a well-linked entry. *)
Lemma stream_loop_entry fuel key h v o p rest :
  payload_ok p ->
  stream_loop (S fuel) key h v o
    ((to_le_bytes 4 (Z.of_nat (length p)) ++ p ++ entry_hash key p h) ++ rest)
  = stream_loop fuel key (entry_hash key p h) (v + 1) (o + (4 + Z.of_nat (length p) + 32)) rest.
Proof.
  intros Hp. cbn [stream_loop]. rewrite <- !app_assoc.
  rewrite read_exact_app by apply length_to_le_bytes. cbn beta iota.
  rewrite payload_len_roundtrip by done.
  unfold payload_ok in Hp. rewrite (proj2 (Z.ltb_ge _ _) Hp).
  rewrite Nat2Z.id, read_exact_app by done. cbn beta iota.
  rewrite read_exact_app by apply entry_hash_len. cbn beta iota.
  by rewrite eq_bytes_refl.
Qed.

Lemma stream_loop_chain ps : forall fuel key h v o rest,
  Forall payload_ok ps ->
  (length (chain_bytes key h ps ++ rest) < fuel)%nat -> (length rest < 4)%nat ->
  stream_loop fuel key h v o (chain_bytes key h ps ++ rest)
  = {| entries_verified := v + Z.of_nat (length ps);
       terminal_hash := chain_end key h ps; break_status := None |}.
Proof.
  induction ps as [|p ps IH]; intros [|fuel] key h v o rest Hok Hfuel Hrest;
    try (exfalso; lia).
  - cbn [chain_bytes app stream_loop]. rewrite (proj2 (read_exact_None _ _)) by done.
    f_equal; cbn; lia.
  - inversion Hok; subst. cbn [chain_bytes] in *. rewrite <- app_assoc in *.
    rewrite stream_loop_entry by done. cbn zeta.
    rewrite IH; [|done| |done].
    + f_equal; cbn [length]; lia.
    + revert Hfuel. rewrite !length_app, length_to_le_bytes. lia.
Qed.

(** A clean stream of a well-linked chain, up to three trailing bytes. *)
Lemma stream_bytes_chain key h ps rest :
  Forall payload_ok ps -> (length rest < 4)%nat ->
  stream_bytes key h (chain_bytes key h ps ++ rest)
  = {| entries_verified := Z.of_nat (length ps);
       terminal_hash := chain_end key h ps; break_status := None |}.
Proof. intros Hok Hrest. unfold stream_bytes. rewrite stream_loop_chain; auto; lia. Qed.

(** Whatever the file holds, what the stream verified is a chain from [h]. *)
Lemma stream_loop_inv fuel : forall key h v o bs,
  bytes_ok bs -> (length bs < fuel)%nat ->
  exists ps rest, let r := stream_loop fuel key h v o bs in
    bs = chain_bytes key h ps ++ rest /\ Forall payload_ok ps /\
    entries_verified r = v + Z.of_nat (length ps) /\
    terminal_hash r = chain_end key h ps /\
    (break_status r = None -> (length rest < 4)%nat).
Proof.
  induction fuel as [|fuel IH]; intros key h v o bs Hok Hfuel; [lia|].
  cbn [stream_loop].
  assert (Hstop : forall st, (st = None -> (length bs < 4)%nat) ->
    exists ps rest, bs = chain_bytes key h ps ++ rest /\ Forall payload_ok ps /\
      v = v + Z.of_nat (length ps) /\ h = chain_end key h ps /\
      (st = (None : option ChainStatus) -> (length rest < 4)%nat)).
  { intros st Hst. exists [], bs. cbn. split_and!; auto; lia. }
  destruct (read_exact 4 bs) as [[lenb r1]|] eqn:E1;
    [|apply Hstop; intros _; by apply read_exact_None].
  destruct (MAX_ENTRY_BYTES <? from_le_bytes lenb) eqn:Emax; [by apply Hstop|].
  destruct (read_exact (Z.to_nat (from_le_bytes lenb)) r1) as [[p r2]|] eqn:E2; [|by apply Hstop].
  destruct (read_exact 32 r2) as [[stored r3]|] eqn:E3; [|by apply Hstop].
  destruct (eq_bytes (entry_hash key p h) stored) eqn:Eh; cbn [negb]; [|by apply Hstop].
  apply read_exact_Some in E1 as [-> L1], E2 as [-> L2], E3 as [-> L3].
  apply bool_decide_eq_true in Eh. subst stored.
  unfold bytes_ok in *. rewrite !Forall_app in Hok. destruct Hok as (Hlen & Hp & _ & Hr3).
  destruct (IH key (entry_hash key p h) (v + 1) (o + (4 + from_le_bytes lenb + 32)) r3)
    as (ps & rest & Hbs & Hps & Hn & Hend & Hrest); [done| |].
  { revert Hfuel. rewrite !length_app. lia. }
  pose proof (from_le_bytes_range lenb Hlen) as Hrange.
  exists (p :: ps), rest. cbn [chain_bytes chain_end length]. split_and!.
  - rewrite L2, Z2Nat.id by lia.
    replace (to_le_bytes 4 (from_le_bytes lenb)) with lenb
      by (by rewrite <- L1, to_from_le_bytes).
    rewrite Hbs at 1. by rewrite !app_assoc.
  - constructor; [|done]. unfold payload_ok. lia.
  - rewrite Hn. lia.
  - done.
  - done.
Qed.

Lemma stream_bytes_inv key h bs :
  bytes_ok bs ->
  exists ps rest, let r := stream_bytes key h bs in
    bs = chain_bytes key h ps ++ rest /\ Forall payload_ok ps /\
    entries_verified r = Z.of_nat (length ps) /\
    terminal_hash r = chain_end key h ps /\
    (break_status r = None -> (length rest < 4)%nat).
Proof. intros Hok. apply (stream_loop_inv (S (length bs)) key h 0 0 bs Hok). lia. Qed.

(** The fuel is never exhausted: more of it changes nothing. *)
Lemma stream_loop_fuel fuel : forall fuel' key h v o bs,
  (length bs < fuel)%nat -> (fuel <= fuel')%nat ->
  stream_loop fuel' key h v o bs = stream_loop fuel key h v o bs.
Proof.
  induction fuel as [|fuel IH]; intros [|fuel'] key h v o bs Hf Hle; try lia.
  cbn [stream_loop].
  destruct (read_exact 4 bs) as [[lenb r1]|] eqn:E1; [|done].
  destruct (MAX_ENTRY_BYTES <? from_le_bytes lenb); [done|].
  destruct (read_exact (Z.to_nat (from_le_bytes lenb)) r1) as [[p r2]|] eqn:E2; [|done].
  destruct (read_exact 32 r2) as [[stored r3]|] eqn:E3; [|done].
  destruct (negb _); [done|].
  apply read_exact_Some in E1 as [-> L1], E2 as [-> L2], E3 as [-> L3].
  apply IH; [|lia]. revert Hf. rewrite !length_app. lia.
Qed.

(** *** Seals read back *)

Lemma eq_bytes_true a b : eq_bytes a b = true <-> a = b.
Proof. apply bool_decide_eq_true. Qed.

Lemma take_app_ge n (a b : bytes) : length a = n -> take n (a ++ b) = a.
Proof. intros <-. apply take_app_length. Qed.

Lemma drop_app_ge n (a b : bytes) : length a = n -> drop n (a ++ b) = b.
Proof. intros <-. apply drop_app_length. Qed.

Definition tip_ok (tip : TipProvenance) : Prop :=
  length (tp_terminal_hash tip) = SEAL_LINK_LEN /\
  length (tp_key_id tip) = KEY_ID_LEN /\ length (tp_signature tip) = TIP_SIGNATURE_LEN.

Lemma read_seal_payload d p key count start prov :
  d_files d !! seal_path p = Some (seal_payload key count start prov) ->
  0 <= count < 2 ^ 64 -> length start = SEAL_LINK_LEN ->
  match prov with Some tip => tip_ok tip | None => True end ->
  read_seal d p key = Valid count start prov.
Proof.
  intros Hf Hc Hs Hprov. unfold read_seal. rewrite Hf.
  assert (Hcount : from_le_bytes (to_le_bytes SEAL_COUNT_LEN count) = count)
    by (apply from_to_le_bytes; exact Hc).
  pose proof (length_to_le_bytes SEAL_COUNT_LEN count) as Hlen.
  destruct prov as [tip|].
  - destruct Hprov as (H1 & H2 & H3). destruct tip as [kid th sig]. cbn in H1, H2, H3.
    cbn [seal_payload tp_key_id tp_terminal_hash tp_signature].
    set (mac := signed_seal_mac _ _ _ _).
    assert (Hmac : length mac = SEAL_MAC_LEN) by apply blake3_keyed_len.
    change 8%nat with SEAL_COUNT_LEN.
    rewrite !length_app, Hlen, Hs, H1, H2, H3, Hmac.
    cbn [Nat.eqb Nat.add SEAL_COUNT_LEN SEAL_LINK_LEN KEY_ID_LEN TIP_SIGNATURE_LEN SEAL_MAC_LEN
         SEAL_FILE_LEN SIGNED_SEAL_FILE_LEN].
    unfold read_signed_seal.
    repeat (rewrite drop_app_ge by done). repeat (rewrite take_app_ge by done).
    rewrite Hcount, take_ge by lia. fold mac. by rewrite eq_bytes_refl.
  - cbn [seal_payload]. set (mac := seal_mac _ _ _).
    assert (Hmac : length mac = SEAL_MAC_LEN) by apply blake3_keyed_len.
    change 8%nat with SEAL_COUNT_LEN.
    rewrite !length_app, Hlen, Hs, Hmac.
    cbn [Nat.eqb Nat.add SEAL_COUNT_LEN SEAL_LINK_LEN SEAL_MAC_LEN SEAL_FILE_LEN].
    unfold read_unsigned_seal.
    rewrite take_app_ge, (drop_app_ge SEAL_COUNT_LEN), take_app_ge by done.
    rewrite <- drop_drop, (drop_app_ge SEAL_COUNT_LEN), drop_app_ge by done.
    rewrite Hcount. fold mac. by rewrite eq_bytes_refl.
Qed.

(** *** File names

    A rotated segment's name determines its number, and the log, its rotated
    segments and the sidecars of either never share a name. *)

Lemma break_dot_None l a : break_dot l = (a, None) -> l = a.
Proof.
  revert a. induction l as [|c l IH]; intros a; cbn; [by intros [= <-]|].
  destruct (c =? DOT); [done|]. destruct (break_dot l) as [x [y|]]; [done|].
  intros [= <-]. f_equal. by apply IH.
Qed.

Lemma break_dot_Some l a b : break_dot l = (a, Some b) -> l = a ++ DOT :: b /\ DOT ∉ a.
Proof.
  revert a. induction l as [|c l IH]; intros a; cbn; [done|].
  destruct (c =? DOT) eqn:E.
  - intros [= <- <-]. assert (c = DOT) as -> by lia. split; [done|apply not_elem_of_nil].
  - destruct (break_dot l) as [x [y|]]; [|done]. intros [= <- <-].
    destruct (IH x eq_refl) as [-> Hx]. split; [done|].
    apply not_elem_of_cons. split; [lia|done].
Qed.

(** A name is its stem, or its stem, a dot and an extension without dots. *)
Lemma log_stem_spec p :
  log_stem p = p \/ exists ext, p = log_stem p ++ DOT :: ext /\ DOT ∉ ext.
Proof.
  unfold log_stem. destruct (break_dot (rev p)) as [a [b|]] eqn:E; [|by left].
  destruct b as [|c b]; [by left|]. right.
  apply break_dot_Some in E as [E Ha]. exists (rev a). split.
  - rewrite <- (rev_involutive p), E, rev_app_distr. cbn. by rewrite <- !app_assoc.
  - intros Hin. apply Ha. apply list_elem_of_In. apply list_elem_of_In in Hin. by apply in_rev.
Qed.

Lemma strip_suffix_Some s l r : strip_suffix s l = Some r <-> l = r ++ s.
Proof.
  unfold strip_suffix. destruct (strip_prefix (rev s) (rev l)) as [x|] eqn:E; cbn; split.
  - intros [= <-]. apply strip_prefix_Some in E.
    by rewrite <- (rev_involutive l), E, rev_app_distr, rev_involutive.
  - intros ->. rewrite rev_app_distr in E. apply strip_prefix_Some, app_inv_head in E.
    by rewrite <- E, rev_involutive.
  - done.
  - intros ->. rewrite rev_app_distr in E.
    by rewrite (proj2 (strip_prefix_Some _ _ (rev r)) eq_refl) in E.
Qed.

Lemma parse_rotation_number_Some name stem n :
  parse_rotation_number name stem = Some n <->
  exists inner, name = stem ++ [DOT] ++ inner ++ LOG_SUFFIX /\ parse_u32 inner = Some n.
Proof.
  unfold parse_rotation_number. split.
  - destruct (strip_prefix (stem ++ [DOT]) name) as [r|] eqn:E; cbn [mbind option_bind]; [|done].
    destruct (strip_suffix LOG_SUFFIX r) as [i|] eqn:E'; cbn [mbind option_bind]; [|done].
    apply strip_prefix_Some in E as ->. apply strip_suffix_Some in E' as ->.
    intros Hi. exists i. by rewrite <- app_assoc.
  - intros (inner & -> & Hi). rewrite (app_assoc stem).
    rewrite (proj2 (strip_prefix_Some _ _ (inner ++ LOG_SUFFIX)) eq_refl). cbn [mbind option_bind].
    by rewrite (proj2 (strip_suffix_Some _ _ inner) eq_refl).
Qed.

Lemma parse_show_u32 n : 0 <= n < 2 ^ 32 -> parse_u32 (show_u32 n) = Some n.
Proof. intros Hn. apply parse_uint_decimal; [|lia|done]. change (10 ^ Z.of_nat 10) with 10000000000. lia. Qed.

Lemma parse_rotation_path p n :
  0 <= n < 2 ^ 32 -> parse_rotation_number (rotation_path p n) (log_stem p) = Some n.
Proof.
  intros Hn. apply parse_rotation_number_Some. exists (show_u32 n).
  split; [done|by apply parse_show_u32].
Qed.

Lemma path_not_rotation p : parse_rotation_number p (log_stem p) = None.
Proof.
  destruct (parse_rotation_number p (log_stem p)) as [n|] eqn:E; [|done].
  apply parse_rotation_number_Some in E as (inner & E & _). exfalso.
  destruct (log_stem_spec p) as [Hs|(ext & Hp & Hext)].
  - rewrite Hs in E. apply (f_equal length) in E. rewrite !length_app in E. cbn in E. lia.
  - rewrite Hp in E at 1. apply app_inv_head in E. injection E as E. apply Hext.
    rewrite E. apply elem_of_app. right. apply list_elem_of_here.
Qed.

(** The sidecars of the log file itself: its seal, the seal's temporary and the lock. *)
Definition sidecar (p name : FileName) : Prop :=
  name = seal_path p \/ name = seal_path p ++ TMP_SUFFIX \/ name = p ++ byte_str ".lock".

Lemma last_app_nonempty (a b : bytes) c : last b = Some c -> last (a ++ b) = Some c.
Proof. intros Hb. by rewrite last_app, Hb. Qed.

Lemma rotation_number_last name stem n :
  parse_rotation_number name stem = Some n -> last name = Some 103.
Proof.
  intros (inner & -> & _)%parse_rotation_number_Some.
  rewrite !app_assoc. by apply last_app_nonempty.
Qed.

Lemma seal_path_not_rotation name stem : parse_rotation_number (seal_path name) stem = None.
Proof.
  destruct (parse_rotation_number _ _) as [n|] eqn:E; [|done].
  apply rotation_number_last in E. unfold seal_path in E.
  by rewrite (last_app_nonempty name SEAL_SUFFIX 108) in E.
Qed.

Lemma path_not_seal_of_rotation p n : p <> seal_path (rotation_path p n).
Proof.
  intros E. unfold seal_path, rotation_path in E. rewrite <- !app_assoc in E.
  destruct (log_stem_spec p) as [Hs|(ext & Hp & Hext)].
  - rewrite Hs in E. apply (f_equal length) in E. rewrite !length_app in E. cbn in E. lia.
  - rewrite Hp in E at 1. apply app_inv_head in E. injection E as E. apply Hext.
    rewrite E. apply elem_of_app. right. apply list_elem_of_here.
Qed.

Lemma sidecar_fresh p name :
  sidecar p name ->
  parse_rotation_number name (log_stem p) = None /\ name <> p /\
  forall n, name <> seal_path (rotation_path p n) \/ n < 0 \/ 2 ^ 32 <= n.
Proof.
  assert (Hlen : forall s, s <> [] -> p ++ s <> p).
  { intros s Hs E. apply Hs, (app_inv_head p). by rewrite app_nil_r. }
  assert (Hlast : forall a s c, last s = Some c -> c <> 103 ->
                    parse_rotation_number (a ++ s) (log_stem p) = None).
  { intros a s c Hs Hc. destruct (parse_rotation_number _ _) as [n|] eqn:E; [|done].
    apply rotation_number_last in E. rewrite (last_app_nonempty a s c Hs) in E. congruence. }
  assert (Hseal : forall a s c n, last s = Some c -> c <> 108 ->
                    a ++ s <> seal_path (rotation_path p n)).
  { intros a s c n Hs Hc E. apply (f_equal last) in E. unfold seal_path in E.
    rewrite (last_app_nonempty a s c Hs), (last_app_nonempty _ SEAL_SUFFIX 108) in E by done.
    congruence. }
  intros [->|[->| ->]]; split_and!.
  - by apply (Hlast _ _ 108).
  - by apply Hlen.
  - intros n. destruct (decide (0 <= n < 2 ^ 32)) as [Hn|Hn]; [left|right; lia].
    intros E. apply app_inv_tail in E. pose proof (parse_rotation_path p n Hn) as Hp.
    rewrite <- E, path_not_rotation in Hp. done.
  - by apply (Hlast _ _ 112).
  - unfold seal_path. rewrite <- app_assoc. by apply Hlen.
  - intros n. left. by apply (Hseal _ _ 112).
  - by apply (Hlast _ _ 107).
  - by apply Hlen.
  - intros n. left. by apply (Hseal _ _ 107).
Qed.

(** *** Authenticity of what verifies *)

Lemma chain_links_lookup key h ps i :
  (i <= length ps)%nat ->
  (chain_prevs key h ps ++ [chain_end key h ps]) !! i = Some (chain_end key h (take i ps)).
Proof.
  revert h i. induction ps as [|p ps IH]; intros h [|i] Hi; cbn in *; try done; [lia|].
  apply IH. lia.
Qed.

Lemma chain_messages_elem key h ps m :
  m ∈ chain_messages key h ps ->
  exists i p, ps !! i = Some p /\ m = p ++ chain_end key h (take i ps).
Proof.
  revert h. induction ps as [|p ps IH]; intros h; cbn; [by intros ?%not_elem_of_nil|].
  intros [->|Hm]%elem_of_cons; [by exists 0%nat, p|].
  destruct (IH _ Hm) as (i & q & Hi & ->). by exists (S i), q.
Qed.

(** A chain all of whose links were made by the writer of [ps], whose links
    are distinct, is a prefix of the writer's. *)
Lemma authentic_prefix key h ps :
  length h = 32%nat -> NoDup (chain_prevs key h ps ++ [chain_end key h ps]) ->
  forall qs i, (i <= length ps)%nat ->
  (forall m, m ∈ chain_messages key (chain_end key h (take i ps)) qs -> m ∈ chain_messages key h ps) ->
  qs `prefix_of` drop i ps.
Proof.
  intros Hh Hnd qs. induction qs as [|q qs IH]; intros i Hi Hin; [apply prefix_nil|].
  cbn [chain_messages] in Hin.
  destruct (chain_messages_elem _ _ _ _ (Hin _ (list_elem_of_here _ _))) as (j & p & Hj & E).
  assert (Hij : i = j /\ q = p).
  { apply app_inj_2 in E as [-> E]; [|by rewrite !chain_end_len].
    split; [|done]. apply (NoDup_lookup _ i j _ Hnd (chain_links_lookup _ _ _ _ Hi)).
    rewrite E. apply chain_links_lookup. apply lookup_lt_Some in Hj. lia. }
  destruct Hij as [<- <-].
  rewrite (drop_S _ _ _ Hj). apply prefix_cons, IH.
  - apply lookup_lt_Some in Hj. lia.
  - intros m Hm. apply Hin, list_elem_of_further.
    rewrite (take_S_r _ _ _ Hj), chain_end_app in Hm. done.
Qed.

Lemma read_seal_start_len d p key count start prov :
  read_seal d p key = Valid count start prov -> length start = 32%nat.
Proof.
  unfold read_seal. destruct (d_files d !! seal_path p) as [bs|]; [|done].
  destruct (length bs =? SEAL_FILE_LEN)%nat eqn:E1;
    [|destruct (length bs =? SIGNED_SEAL_FILE_LEN)%nat eqn:E2; [|done]].
  - unfold read_unsigned_seal. destruct (eq_bytes _ _); [|done]. intros [= ? <- ?].
    apply Nat.eqb_eq in E1. rewrite length_take, length_drop, E1. done.
  - unfold read_signed_seal. cbv zeta. destruct (eq_bytes _ _); [|done]. intros [= ? <- ?].
    apply Nat.eqb_eq in E2. rewrite length_take, length_drop, E2. done.
Qed.

Lemma verify_chain_sealed d p key contents count start prov :
  d_files d !! p = Some contents -> read_seal d p key = Valid count start prov ->
  verify_chain d p key =
    let stream := stream_bytes key start contents in
    Ok {| vr_entries_verified := entries_verified stream;
          vr_status := match break_status stream with
                       | Some status => status
                       | None => classify_terminal (Valid count start prov) (entries_verified stream)
                       end |}.
Proof. intros Hf Hs. unfold verify_chain, stream_verify. by rewrite Hs, Hf. Qed.

(** A log sealed at [length ps > 0] entries verifies as [Intact] exactly when the
    stream accepts as many entries and then runs out. *)
Lemma stream_never_reports_Intact fuel : forall key h v o bs,
  break_status (stream_loop fuel key h v o bs) <> Some Intact.
Proof.
  induction fuel as [|fuel IH]; intros key h v o bs; [done|]. cbn [stream_loop].
  repeat (case_match; try done).
Qed.

(** C18. Tamper evidence. Let [ps] be the entries the writer chained from the
    log's start hash, with the seal authenticating their number, and suppose
    every link the file carries was made by that writer (nobody else can key
    the hash) and no two of the writer's links have the same hash. Then, whatever was
    done to the file, the entries [verify_chain] counts are a prefix of the
    writer's, and the log verifies as [Intact] exactly when it still holds all
    of them, in order, followed by at most three stray bytes. *)
Theorem verified_entries_authentic d p key contents ps start prov r :
  d_files d !! p = Some contents -> bytes_ok contents -> ps <> [] ->
  read_seal d p key = Valid (Z.of_nat (length ps)) start prov ->
  NoDup (chain_prevs key start ps ++ [chain_end key start ps]) ->
  (forall qs rest, contents = chain_bytes key start qs ++ rest -> Forall payload_ok qs ->
     forall m, m ∈ chain_messages key start qs -> m ∈ chain_messages key start ps) ->
  verify_chain d p key = Ok r ->
  exists n rest,
    contents = chain_bytes key start (take n ps) ++ rest /\ (n <= length ps)%nat /\
    vr_entries_verified r = Z.of_nat n /\
    (vr_status r = Intact <-> n = length ps /\ (length rest < 4)%nat).
Proof.
  intros Hf Hok Hne Hs Hnd Hauth Hv.
  rewrite (verify_chain_sealed _ _ _ _ _ _ _ Hf Hs) in Hv. cbv zeta in Hv.
  apply Ok_inj in Hv as <-. cbn [vr_entries_verified vr_status].
  destruct (stream_bytes_inv key start contents Hok) as (qs & rest & Hc & Hqs & Hn & _ & Hbreak).
  assert (Hpre : qs `prefix_of` ps).
  { apply (authentic_prefix key start ps (read_seal_start_len _ _ _ _ _ _ Hs) Hnd qs 0); [lia|].
    intros m Hm. by apply (Hauth qs rest). }
  destruct Hpre as [ps' Hps]. exists (length qs), rest.
  assert (Hlen : length ps = (length qs + length ps')%nat) by (rewrite Hps; apply length_app).
  rewrite Hn. split_and!; [|lia|done|].
  - rewrite Hc at 1. do 2 f_equal. by rewrite Hps, take_app_length.
  - assert (length ps <> 0%nat) by (by destruct ps). split.
    + destruct (break_status (stream_bytes key start contents)) as [st|] eqn:Eb.
      { intros ->. by apply stream_never_reports_Intact in Eb. }
      intros Hst. split; [|by apply Hbreak]. revert Hst.
      unfold classify_terminal. destruct (_ =? 0) eqn:E0; [by case_match|].
      destruct (Z.of_nat (length ps) =? Z.of_nat (length qs)) eqn:E1; [lia|by case_match].
    + intros [Hall Hrest]. rewrite Hc, stream_bytes_chain by done. cbn [break_status].
      unfold classify_terminal. rewrite (proj2 (Z.eqb_neq _ _)) by lia.
      by rewrite (proj2 (Z.eqb_eq _ _)) by lia.
Qed.

(** *** Chains read uniquely *)

Lemma chain_bytes_prefix key qs : forall h ps rest,
  Forall payload_ok qs -> Forall payload_ok ps ->
  chain_bytes key h qs ++ rest = chain_bytes key h ps -> qs `prefix_of` ps.
Proof.
  induction qs as [|q qs IH]; intros h [|p ps] rest Hq Hp E;
    [apply prefix_nil..| |].
  - apply (f_equal length) in E. cbn [chain_bytes] in E. rewrite !length_app, length_to_le_bytes in E.
    cbn in E. lia.
  - inversion Hq as [|? ? Hq1 Hq2]; inversion Hp as [|? ? Hp1 Hp2]; subst.
    cbn [chain_bytes] in E. cbv zeta in E. rewrite <- !app_assoc in E.
    apply app_inj_1 in E as [El E]; [|by rewrite !length_to_le_bytes].
    assert (Hlen : length q = length p).
    { apply (f_equal from_le_bytes) in El. rewrite !payload_len_roundtrip in El by done. lia. }
    apply app_inj_1 in E as [-> E]; [|done]. apply app_inv_head in E.
    by apply prefix_cons, (IH _ _ _ Hq2 Hp2 E).
Qed.

Lemma chain_messages_app key h ps qs :
  chain_messages key h (ps ++ qs)
  = chain_messages key h ps ++ chain_messages key (chain_end key h ps) qs.
Proof. revert h. induction ps as [|p ps IH]; intros h; cbn; [done|]. by rewrite IH. Qed.

End Verifier.

(** * Witness *)

(** A 32-byte hash and a serialisation of one kind of entry to evaluate the log with. *)
Definition toy_hash : KeyedHash :=
  {| blake3_keyed := fun k m =>
       to_le_bytes 32 (fold_left (fun acc b => (acc * 257 + b + 1) mod 2 ^ 256) (k ++ m) 7);
     blake3_keyed_len := fun k m => length_to_le_bytes 32 _ |}.

Definition toy_into (e : LogEntry) : option bytes :=
  match kind e with
  | VaultMutation r o => Some (sequence e :: timestamp_ms e :: Z.of_nat (length r) :: r ++ o)
  | _ => None
  end.

Definition toy_from (b : bytes) : option LogEntry :=
  match b with
  | s :: t :: n :: rest =>
      Some {| sequence := s; timestamp_ms := t;
              kind := VaultMutation (take (Z.to_nat n) rest) (drop (Z.to_nat n) rest) |}
  | _ => None
  end.

Lemma toy_roundtrip e b : toy_into e = Some b -> toy_from b = Some e.
Proof.
  destruct e as [s t k]. destruct k; unfold toy_into; cbn [kind]; try done.
  intros <-%(inj Some). unfold toy_from. cbn [sequence timestamp_ms].
  by rewrite Nat2Z.id, take_app_length, drop_app_length.
Qed.

Definition toy_cbor : Cbor :=
  {| cbor_into_writer := toy_into; cbor_from_reader := toy_from; cbor_roundtrip := toy_roundtrip |}.

Module TwoEntries.
#[local] Existing Instance toy_hash.
#[local] Existing Instance toy_cbor.

Definition log : FileName := byte_str "audit.log".
Definition key : bytes := repeat 7 32.
Definition entries : list bytes :=
  omap (fun s => toy_into {| sequence := s; timestamp_ms := 5;
                             kind := VaultMutation [1; 2; 3] (byte_str "add") |}) [0; 1].

(** A log of two entries whose second entry was cut off. *)
Definition cut : bytes := chain_bytes key (genesis_hash key) (take 1 entries).
Definition cut_dir : Disk :=
  {| d_files := <[log := cut]> {[ seal_path log := seal_payload key 2 (genesis_hash key) None ]};
     d_locks := ∅; d_faults := [] |}.

Lemma entries_ok : Forall payload_ok entries.
Proof. repeat constructor; vm_compute; discriminate. Qed.

Lemma verified_entries_authentic_witness :
  exists n rest,
    cut = chain_bytes key (genesis_hash key) (take n entries) ++ rest /\ (n <= 2)%nat /\
    1 = Z.of_nat n /\ (Truncated (Some 2) = Intact <-> n = 2%nat /\ (length rest < 4)%nat).
Proof.
  apply (verified_entries_authentic cut_dir log key cut entries (genesis_hash key) None
           {| vr_entries_verified := 1; vr_status := Truncated (Some 2) |}).
  - vm_compute. reflexivity.
  - apply (bool_decide_unpack (bytes_ok cut)). vm_compute. exact I.
  - discriminate.
  - vm_compute. reflexivity.
  - apply (bool_decide_unpack (NoDup _)). vm_compute. exact I.
  - intros qs rest E Hqs m Hm.
    destruct (chain_bytes_prefix key qs (genesis_hash key) (take 1 entries) rest Hqs) as [qs' Hpre];
      [apply Forall_take, entries_ok|by rewrite <- E|].
    assert (He : entries = qs ++ (qs' ++ drop 1 entries))
      by (rewrite app_assoc, <- Hpre; by rewrite take_drop).
    rewrite He, chain_messages_app. apply elem_of_app. by left.
  - vm_compute. reflexivity.
Defined.

End TwoEntries.
