(* ===== verification/TamperSegments.v ===== *)
(** * Tamper-evident log: verification of a rotated segment set

    Models crates/tekmerion/src/tamper_log_segments.rs: the walk over the
    rotated segments, oldest first, each streamed from the hash the one before
    it ended at, and the check of the live file at the end. Listing the directory
    succeeds. [SegmentSet] is the state of the directory a writer maintains;
    such a directory verifies. *)

From stdpp Require Import sorting.
From S2P Require Import Prelude TamperLog.

Local Open Scope Z_scope.

Section Segments.
Context `{KeyedHash} `{Cbor}.

(** ** Segment sets (tamper_log_segments.rs) *)

Inductive SegmentChainStatus : Type :=
| SegmentsIntact (total_entries segments : Z)
| MissingSegment (number : Z)
| SegmentBroken (path : FileName) (status : ChainStatus).

Definition segment_ok (status : ChainStatus) (is_live : bool) : bool :=
  match status with
  | Intact => true
  | Empty | Unsealed _ _ => is_live
  | Broken _ _ _ | Corrupted _ | Truncated _ => false
  end.

(** [Vec::dedup] of a sorted vector. *)
Fixpoint dedup (l : list Z) : list Z :=
  match l with
  | x :: ((y :: _) as r) => if x =? y then dedup r else x :: dedup r
  | _ => l
  end.

Record Walk : Type := {
  expected_start : hash32;
  total_entries : Z;
  segments : Z
}.

(** The loop over the rotated segments: the walk reached, or what it returns early. *)
Fixpoint walk_segments (d : Disk) (path : FileName) (chain_key : bytes) (ns : list Z) (w : Walk)
  : result (SegmentChainStatus + Walk) TamperLogError :=
  match ns with
  | [] => Ok (inr w)
  | n :: ns =>
      let seg_path := rotation_path path n in
      let? stream := stream_verify d seg_path chain_key (expected_start w) in
      let status :=
        match break_status stream with
        | Some status => status
        | None => classify_terminal (read_seal d seg_path chain_key) (entries_verified stream)
        end in
      if negb (segment_ok status false) then Ok (inl (SegmentBroken seg_path status))
      else walk_segments d path chain_key ns
             {| expected_start := terminal_hash stream;
                total_entries := total_entries w + entries_verified stream;
                segments := segments w + 1 |}
  end.

Definition verify_live (d : Disk) (path : FileName) (chain_key : bytes) (w : Walk)
  : result SegmentChainStatus TamperLogError :=
  let? live := stream_verify d path chain_key (expected_start w) in
  let live_seal := read_seal d path chain_key in
  let live_status :=
    match break_status live, live_seal with
    | Some status, _ => status
    | None, Valid _ segment_start_hash _ =>
        if negb (eq_bytes segment_start_hash (expected_start w))
        then Broken (total_entries w) (expected_start w) segment_start_hash
        else classify_terminal live_seal (entries_verified live)
    | None, _ => classify_terminal live_seal (entries_verified live)
    end in
  if negb (segment_ok live_status true) then Ok (SegmentBroken path live_status)
  else Ok (SegmentsIntact (total_entries w + entries_verified live) (segments w + 1)).

Definition verify_segment_chain (d : Disk) (path : FileName) (chain_key : bytes)
  : result SegmentChainStatus TamperLogError :=
  let numbers := dedup (merge_sort Z.le (scan_rotations d path)) in
  let max := default 0 (last numbers) in
  match List.find (fun expected => negb (bool_decide (expected ∈ numbers))) (seqZ 1 max) with
  | Some expected => Ok (MissingSegment expected)
  | None =>
      let? walked := walk_segments d path chain_key (seqZ 1 max)
        {| expected_start := genesis_hash chain_key; total_entries := 0; segments := 0 |} in
      match walked with
      | inl status => Ok status
      | inr w => verify_live d path chain_key w
      end
  end.

(** * Lemmas *)

(** ** Well-linked segment sets

    [SegmentSet d p key done live]: the directory holds the rotated segments
    [done], oldest first, each chained from the end of the one before and
    sealed with its own length, and the live file with the entries [live];
    nothing else there has the name of a rotated segment. *)

Definition prov_ok (prov : option TipProvenance) : Prop :=
  match prov with Some tip => tip_ok tip | None => True end.

Definition segments_end (key : bytes) (done : list (list bytes)) : hash32 :=
  chain_end key (genesis_hash key) (concat done).

Record SegmentSet (d : Disk) (p : FileName) (key : bytes) (done : list (list bytes))
    (live : list bytes) : Prop := {
  ss_payloads : Forall payload_ok (concat done ++ live);
  ss_count : Z.of_nat (length (concat done ++ live)) < 2 ^ 32;
  ss_nonempty : Forall (fun s => s <> []) done;
  ss_rotated : forall i s, done !! i = Some s ->
    let name := rotation_path p (Z.of_nat i + 1) in
    let start := segments_end key (take i done) in
    d_files d !! name = Some (chain_bytes key start s) /\
    exists prov, prov_ok prov /\
      d_files d !! seal_path name = Some (seal_payload key (Z.of_nat (length s)) start prov);
  ss_live : d_files d !! p = Some (chain_bytes key (segments_end key done) live);
  ss_names : forall name n, is_Some (d_files d !! name) ->
    parse_rotation_number name (log_stem p) = Some n ->
    name = rotation_path p n /\ 1 <= n <= Z.of_nat (length done)
}.

Definition LiveSeal (d : Disk) (p : FileName) (key : bytes) (done : list (list bytes)) (n : Z) : Prop :=
  exists prov, prov_ok prov /\
    d_files d !! seal_path p = Some (seal_payload key n (segments_end key done) prov).

Lemma segments_end_len key done : length (segments_end key done) = 32%nat.
Proof. apply chain_end_len, blake3_keyed_len. Qed.

Lemma segments_end_app key done s :
  segments_end key (done ++ [s]) = chain_end key (segments_end key done) s.
Proof. unfold segments_end. by rewrite concat_app, chain_end_app; cbn; rewrite app_nil_r. Qed.

Lemma length_concat_nonempty {A} (ls : list (list A)) :
  Forall (fun s => s <> []) ls -> (length ls <= length (concat ls))%nat.
Proof.
  induction 1 as [|s ls Hs Hls IH]; cbn; [lia|]. rewrite length_app. destruct s; [done|cbn; lia].
Qed.

Lemma dedup_elem l x : x ∈ dedup l <-> x ∈ l.
Proof.
  induction l as [|y [|z l] IH]; [done..|]. cbn [dedup].
  destruct (y =? z) eqn:E.
  - rewrite IH. assert (y = z) as -> by lia. rewrite !elem_of_cons. tauto.
  - rewrite (elem_of_cons _ x y), (elem_of_cons _ x y), IH. done.
Qed.

Lemma dedup_sorted l : StronglySorted Z.le l -> StronglySorted Z.le (dedup l).
Proof.
  induction l as [|y [|z l] IH]; [done..|]. intros Hs. inversion Hs as [|? ? Hs' Hle]; subst.
  cbn [dedup]. destruct (y =? z); [by apply IH|]. constructor; [by apply IH|].
  apply Forall_forall. intros x Hx. apply (dedup_elem (z :: l)) in Hx.
  by apply (proj1 (Forall_forall _ _) Hle).
Qed.

Lemma last_of_sorted l m :
  StronglySorted Z.le l -> m ∈ l -> (forall x, x ∈ l -> x <= m) -> last l = Some m.
Proof.
  intros Hs Hm Hmax. destruct (last l) as [x|] eqn:E.
  - apply last_Some in E as [l' ->].
    apply StronglySorted_app_iff in Hs as (_ & _ & Hs).
    assert (x <= m) by (apply Hmax, elem_of_app; right; apply list_elem_of_here).
    apply elem_of_app in Hm as [Hm|Hm].
    + rewrite Forall_forall in Hs. specialize (Hs m Hm). inversion Hs; subst. f_equal. lia.
    + apply elem_of_cons in Hm as [->|Hm]; [done|by apply not_elem_of_nil in Hm].
  - apply last_None in E. subst. by apply not_elem_of_nil in Hm.
Qed.

Lemma scan_rotations_elem d p n :
  n ∈ scan_rotations d p <->
  exists name, is_Some (d_files d !! name) /\ parse_rotation_number name (log_stem p) = Some n.
Proof.
  unfold scan_rotations. rewrite list_elem_of_omap. split.
  - intros ([name c] & Hin & Hp). exists name. split; [|done].
    apply elem_of_map_to_list in Hin. by eexists.
  - intros (name & [c Hc] & Hp). exists (name, c). split; [|done]. by apply elem_of_map_to_list.
Qed.

(** A seal that does not run ahead of the stream is one a writer can resume from. *)
Lemma classify_live_ok n v start prov :
  0 <= n <= v -> segment_ok (classify_terminal (Valid n start prov) v) true = true.
Proof.
  intros Hn. unfold classify_terminal. destruct (v =? 0) eqn:E0.
  - by replace (n =? 0) with true by lia.
  - destruct (n =? v) eqn:E1; [done|]. by replace (n <? v) with true by lia.
Qed.

Section SegmentSetVerifies.
Context (d : Disk) (p : FileName) (key : bytes) (done : list (list bytes)) (live : list bytes)
  (Hset : SegmentSet d p key done live).

Lemma segment_count_bound i s :
  done !! i = Some s ->
  0 <= Z.of_nat i + 1 < 2 ^ 32 /\ 0 < Z.of_nat (length s) < 2 ^ 64 /\ Forall payload_ok s.
Proof.
  intros Hi. pose proof (ss_count _ _ _ _ _ Hset) as Hc. rewrite length_app in Hc.
  pose proof (length_concat_nonempty _ (ss_nonempty _ _ _ _ _ Hset)) as Hl.
  pose proof (lookup_lt_Some _ _ _ Hi) as Hlt.
  assert (Hs : s <> []) by (eapply (Forall_lookup_1 _ _ _ _ (ss_nonempty _ _ _ _ _ Hset) Hi)).
  pose proof (ss_payloads _ _ _ _ _ Hset) as Hp.
  split; [lia|].
  rewrite <- (take_drop_middle _ _ _ Hi), concat_app in Hc, Hp. cbn in Hc, Hp.
  rewrite !length_app in Hc. rewrite !Forall_app in Hp.
  split; [destruct s; [done|cbn [length] in *; lia]|tauto].
Qed.

Lemma scan_rotations_iff n : n ∈ scan_rotations d p <-> 1 <= n <= Z.of_nat (length done).
Proof.
  rewrite scan_rotations_elem. split.
  - intros (name & Hf & Hn). by apply (ss_names _ _ _ _ _ Hset name n Hf Hn).
  - intros Hn. destruct (lookup_lt_is_Some_2 done (Z.to_nat (n - 1))) as [s Hs]; [lia|].
    destruct (ss_rotated _ _ _ _ _ Hset _ _ Hs) as [Hf _].
    destruct (segment_count_bound _ _ Hs) as [Hb _].
    replace (Z.of_nat (Z.to_nat (n - 1)) + 1) with n in * by lia.
    exists (rotation_path p n). split; [by eexists|]. by apply parse_rotation_path.
Qed.

(** The walk reaches the end of the rotated segments. *)
Lemma walk_segments_ok suf : forall pre,
  done = pre ++ suf ->
  walk_segments d p key (seqZ (Z.of_nat (length pre) + 1) (Z.of_nat (length suf)))
    {| expected_start := segments_end key pre;
       total_entries := Z.of_nat (length (concat pre));
       segments := Z.of_nat (length pre) |}
  = Ok (inr {| expected_start := segments_end key done;
               total_entries := Z.of_nat (length (concat done));
               segments := Z.of_nat (length done) |}).
Proof.
  induction suf as [|s suf IH]; intros pre Hd.
  - rewrite app_nil_r in Hd. by subst pre.
  - cbn [length]. rewrite Nat2Z.inj_succ, seqZ_cons by lia.
    assert (Hi : done !! length pre = Some s) by (rewrite Hd; by apply list_lookup_middle).
    destruct (ss_rotated _ _ _ _ _ Hset _ _ Hi) as (Hf & prov & Hprov & Hseal).
    destruct (segment_count_bound _ _ Hi) as (_ & Hs & Hp).
    assert (Htake : take (length pre) done = pre) by (rewrite Hd; apply take_app_length).
    rewrite Htake in Hf, Hseal. cbn [walk_segments]. unfold stream_verify.
    rewrite Hf. cbn [result_bind expected_start].
    rewrite <- (app_nil_r (chain_bytes _ _ _)), stream_bytes_chain by (done || cbn; lia).
    cbn [break_status entries_verified terminal_hash].
    rewrite (read_seal_payload _ _ _ _ _ _ Hseal) by (lia || apply segments_end_len || done).
    unfold classify_terminal.
    rewrite (proj2 (Z.eqb_neq _ 0)) by lia. rewrite Z.eqb_refl. cbn [segment_ok negb].
    specialize (IH (pre ++ [s])). rewrite <- app_assoc in IH. specialize (IH Hd).
    rewrite segments_end_app, concat_app, !length_app in IH. cbn in IH.
    rewrite app_nil_r in IH. rewrite <- IH. cbn [total_entries segments].
    f_equal; [f_equal; lia|]. f_equal; lia.
Qed.

(** All that is left to verify is the live file. *)
Lemma verify_segment_chain_walk :
  verify_segment_chain d p key
  = verify_live d p key {| expected_start := segments_end key done;
                           total_entries := Z.of_nat (length (concat done));
                           segments := Z.of_nat (length done) |}.
Proof.
  unfold verify_segment_chain.
  set (numbers := dedup (merge_sort Z.le (scan_rotations d p))).
  assert (Hnum : forall x, x ∈ numbers <-> 1 <= x <= Z.of_nat (length done)).
  { intros x. unfold numbers. by rewrite dedup_elem, merge_sort_Permutation, scan_rotations_iff. }
  assert (Hmax : default 0 (last numbers) = Z.of_nat (length done)).
  { destruct (decide (length done = 0%nat)) as [E|E].
    - destruct numbers as [|x l] eqn:En; [cbn; lia|].
      specialize (proj1 (Hnum x) (list_elem_of_here _ _)). lia.
    - rewrite (last_of_sorted numbers (Z.of_nat (length done))); [done| |apply Hnum; lia|].
      + apply dedup_sorted, (StronglySorted_merge_sort Z.le).
      + intros x Hx. apply Hnum in Hx. lia. }
  rewrite Hmax.
  replace (List.find _ _) with (@None Z).
  2:{ symmetry. destruct (List.find _ _) as [x|] eqn:E; [|done].
      apply find_some in E as [Hin Hx]. apply list_elem_of_In, elem_of_seqZ in Hin.
      rewrite bool_decide_eq_true_2 in Hx; [done|]. apply Hnum. lia. }
  pose proof (walk_segments_ok done [] eq_refl) as Hw. cbn [length concat] in Hw.
  change (segments_end key []) with (genesis_hash key) in Hw.
  change (Z.of_nat 0 + 1) with 1 in Hw. change (Z.of_nat 0) with 0 in Hw. by rewrite Hw.
Qed.

(** The live file streams to its end. *)
Lemma live_stream :
  stream_verify d p key (segments_end key done)
  = Ok {| entries_verified := Z.of_nat (length live);
          terminal_hash := chain_end key (segments_end key done) live; break_status := None |}.
Proof.
  pose proof (ss_payloads _ _ _ _ _ Hset) as Hpay. rewrite Forall_app in Hpay.
  unfold stream_verify. rewrite (ss_live _ _ _ _ _ Hset).
  by rewrite <- (app_nil_r (chain_bytes _ _ _)), stream_bytes_chain by (tauto || cbn; lia).
Qed.

Lemma live_seal_read n :
  LiveSeal d p key done n -> 0 <= n <= Z.of_nat (length live) ->
  exists prov, read_seal d p key = Valid n (segments_end key done) prov.
Proof.
  intros (prov & Hprov & Hseal) Hn. exists prov.
  pose proof (ss_count _ _ _ _ _ Hset) as Hcount. rewrite length_app in Hcount.
  apply read_seal_payload; [done|lia|apply segments_end_len|done].
Qed.

(** The segment set verifies whole, also under a seal that lags behind. *)
Lemma verify_segment_chain_ok n :
  LiveSeal d p key done n -> 0 <= n <= Z.of_nat (length live) ->
  verify_segment_chain d p key
  = Ok (SegmentsIntact (Z.of_nat (length (concat done ++ live))) (Z.of_nat (length done) + 1)).
Proof.
  intros Hseal Hn. rewrite verify_segment_chain_walk. unfold verify_live.
  destruct (live_seal_read n Hseal Hn) as [prov Hread].
  cbn [expected_start]. rewrite live_stream, Hread.
  cbn [result_bind break_status entries_verified total_entries segments].
  rewrite eq_bytes_refl. cbn [negb]. rewrite classify_live_ok by done.
  cbn [negb]. rewrite length_app. do 2 f_equal. lia.
Qed.

(** So does the live file on its own. *)
Lemma verify_chain_live n :
  LiveSeal d p key done n -> 0 <= n <= Z.of_nat (length live) ->
  exists prov, read_seal d p key = Valid n (segments_end key done) prov /\
  verify_chain d p key
  = Ok {| vr_entries_verified := Z.of_nat (length live);
          vr_status := classify_terminal (Valid n (segments_end key done) prov)
                         (Z.of_nat (length live)) |}.
Proof.
  intros Hseal Hn. destruct (live_seal_read n Hseal Hn) as [prov Hread]. exists prov.
  split; [done|]. unfold verify_chain. rewrite Hread. cbn [resolve_start_hash].
  by rewrite live_stream.
Qed.

End SegmentSetVerifies.

End Segments.
