(* ===== verification/TamperWriter.v ===== *)
(** * Tamper-evident log: the writer

    Models [TamperLog] of crates/tekmerion/src/tamper_log.rs (open, append,
    rotate, seal refresh, state recovery) and tamper_log_lock.rs, on the
    directory of TamperLog.v. An operation passes the directory through and
    returns it with its result; the handle's [BufWriter] is flushed by every
    operation that writes, so it holds nothing between operations. Seal writes
    can fail at any of their stages; the other file operations are modelled as
    succeeding where the files they name exist. *)

From S2P Require Import Prelude TamperLog TamperSegments.

Local Open Scope Z_scope.

Section Writer.
Context `{KeyedHash} `{Cbor}.

(** ** Single-writer lock (tamper_log_lock.rs) *)

Definition LOCK_SUFFIX : bytes := byte_str ".lock".
Definition lock_path (log_path : FileName) : FileName := log_path ++ LOCK_SUFFIX.

(** [OpenOptions::create(true)] without truncation. *)
Definition open_create (name : FileName) (d : Disk) : Disk :=
  set_files (fun fs => match fs !! name with None => <[name := []]> fs | Some _ => fs end) d.

Definition acquire (d : Disk) (log_path : FileName) : Disk * result unit TamperLogError :=
  let d := open_create (lock_path log_path) d in
  if bool_decide (log_path ∈ d_locks d) then (d, Err (ErrLocked log_path))
  else ({| d_files := d_files d; d_locks := {[ log_path ]} ∪ d_locks d; d_faults := d_faults d |},
        Ok tt).

(** Dropping the handle closes the lock file. *)
Definition release (d : Disk) (log_path : FileName) : Disk :=
  {| d_files := d_files d; d_locks := d_locks d ∖ {[ log_path ]}; d_faults := d_faults d |}.

(** ** The handle *)

Record TamperLog : Type := {
  path : FileName;
  prev_hash : hash32;
  segment_start_hash : hash32;
  next_sequence : Z;
  bytes_written : Z;
  max_file_bytes : Z;
  chain_key : bytes;
  signer : option TipSigner
}.

Definition refresh_seal (d : Disk) (l : TamperLog) : Disk * result unit TamperLogError :=
  let provenance :=
    match signer l with
    | None => None
    | Some s =>
        Some {| tp_key_id := signer_key_id s;
                tp_terminal_hash := prev_hash l;
                tp_signature := sign_tip s (tip_payload (prev_hash l)) |}
    end in
  write_seal d (path l) (chain_key l) (next_sequence l) (segment_start_hash l) provenance.

(** The read loop of [recover_state]; a seek past the end succeeds. *)
Fixpoint recover_loop (fuel : nat) (prev : hash32) (sequence bytes_read : Z) (reader : bytes)
  : hash32 * Z * Z :=
  match fuel with
  | O => (prev, sequence, bytes_read)
  | S fuel =>
      match read_exact 4 reader with
      | None => (prev, sequence, bytes_read)
      | Some (len_buf, reader) =>
          let payload_len := from_le_bytes len_buf in
          if MAX_ENTRY_BYTES <? payload_len then (prev, sequence, bytes_read)
          else
            match read_exact 32 (drop (Z.to_nat payload_len) reader) with
            | None => (prev, sequence, bytes_read)
            | Some (stored_hash, reader) =>
                recover_loop fuel stored_hash (sequence + 1)
                  (bytes_read + (4 + payload_len + 32)) reader
            end
      end
  end.

Definition recover_state (d : Disk) (p : FileName) (start : hash32) : hash32 * Z * Z :=
  match d_files d !! p with
  | None => (start, 0, 0)
  | Some contents => recover_loop (S (length contents)) start 0 0 contents
  end.

(** The pre-resume check of [open_inner]. *)
Definition check_resumable (d : Disk) (p : FileName) (key : bytes) : result unit TamperLogError :=
  match d_files d !! p with
  | None => Ok tt
  | Some _ =>
      let? verification := verify_chain d p key in
      match vr_status verification with
      | Intact | Empty | Unsealed _ _ => Ok tt
      | status => Err (ErrChainCompromised p status)
      end
  end.

Definition open_inner (d : Disk) (p : FileName) (key : bytes) (max_bytes : Z)
    (sg : option TipSigner) : Disk * result TamperLog TamperLogError :=
  match acquire d p with
  | (d, Err e) => (d, Err e)
  | (d, Ok _) =>
      match check_resumable d p key with
      | Err e => (release d p, Err e)
      | Ok _ =>
          let start :=
            match d_files d !! p with
            | Some _ => resolve_start_hash (read_seal d p key) key
            | None => genesis_hash key
            end in
          let '(prev, sequence, written) := recover_state d p start in
          let d := open_create p d in
          let log := {| path := p; prev_hash := prev; segment_start_hash := start;
                        next_sequence := sequence; bytes_written := written;
                        max_file_bytes := max_bytes; chain_key := key; signer := sg |} in
          match refresh_seal d log with
          | (d, Err e) => (release d p, Err e)
          | (d, Ok _) => (d, Ok log)
          end
      end
  end.

Definition open_with_config (d : Disk) (p : FileName) (key : bytes) (max_bytes : Z)
  : Disk * result TamperLog TamperLogError := open_inner d p key max_bytes None.

Definition open_signed (d : Disk) (p : FileName) (key : bytes) (sg : TipSigner)
  : Disk * result TamperLog TamperLogError := open_inner d p key DEFAULT_MAX_FILE_BYTES (Some sg).

Definition open_log (d : Disk) (p : FileName) (key : bytes) : Disk * result TamperLog TamperLogError :=
  open_with_config d p key DEFAULT_MAX_FILE_BYTES.

Definition with_max_file_bytes (l : TamperLog) (max : Z) : TamperLog :=
  {| path := path l; prev_hash := prev_hash l; segment_start_hash := segment_start_hash l;
     next_sequence := next_sequence l; bytes_written := bytes_written l; max_file_bytes := max;
     chain_key := chain_key l; signer := signer l |}.

(** The handle as [rotate] leaves it for its last step. *)
Definition rotated_handle (l : TamperLog) : TamperLog :=
  {| path := path l; prev_hash := prev_hash l; segment_start_hash := prev_hash l;
     next_sequence := 0; bytes_written := 0; max_file_bytes := max_file_bytes l;
     chain_key := chain_key l; signer := signer l |}.

Definition rotate (d : Disk) (l : TamperLog) : Disk * TamperLog * result unit TamperLogError :=
  let n := next_rotation_number d (path l) in
  let rotated := rotation_path (path l) n in
  match rename_file d (path l) rotated with
  | Err e => (d, l, Err e)
  | Ok d =>
      match rename_seal d (path l) rotated with
      | Err e => (d, l, Err e)
      | Ok d =>
          let d := open_create (path l) d in
          let l := rotated_handle l in
          let '(d, r) := refresh_seal d l in
          (d, l, r)
      end
  end.

(** [write_all] and [flush] on the file opened for appending. *)
Definition append_file (name : FileName) (bs : bytes) (d : Disk) : Disk :=
  set_files (fun fs => <[name := default [] (fs !! name) ++ bs]> fs) d.

Definition append (d : Disk) (l : TamperLog) (now_ms : Z) (k : LogEntryKind)
  : Disk * TamperLog * result Z TamperLogError :=
  let entry := {| sequence := next_sequence l; timestamp_ms := now_ms; kind := k |} in
  match encode_entry entry (prev_hash l) (chain_key l) with
  | Err e => (d, l, Err e)
  | Ok (wire, hash) =>
      let d := append_file (path l) wire d in
      let seq := next_sequence l in
      let l := {| path := path l; prev_hash := hash; segment_start_hash := segment_start_hash l;
                  next_sequence := next_sequence l + 1;
                  bytes_written := bytes_written l + Z.of_nat (length wire);
                  max_file_bytes := max_file_bytes l; chain_key := chain_key l;
                  signer := signer l |} in
      match refresh_seal d l with
      | (d, Err e) => (d, l, Err e)
      | (d, Ok _) =>
          if max_file_bytes l <? bytes_written l then
            match rotate d l with
            | (d, l, Err e) => (d, l, Err e)
            | (d, l, Ok _) => (d, l, Ok seq)
            end
          else (d, l, Ok seq)
      end
  end.

(** A run of appends on one handle; the number that returned [Ok]. *)
Fixpoint append_all (d : Disk) (l : TamperLog) (events : list (Z * LogEntryKind))
  : Disk * TamperLog * Z :=
  match events with
  | [] => (d, l, 0)
  | (now, k) :: events =>
      let '(d, l, r) := append d l now k in
      let '(d, l, n) := append_all d l events in
      (d, l, (if is_ok r then 1 else 0) + n)
  end.

(** * Correctness of the writer *)

(** ** Frame lemmas *)

Lemma segment_set_frame d d' p key done live :
  (forall name, ~ sidecar p name -> d_files d' !! name = d_files d !! name) ->
  SegmentSet d p key done live -> SegmentSet d' p key done live.
Proof.
  intros Hframe Hset.
  assert (Hrot : forall name n, parse_rotation_number name (log_stem p) = Some n -> ~ sidecar p name).
  { intros name n Hn Hs. apply sidecar_fresh in Hs as [Hs _]. congruence. }
  pose proof Hset as [Hpay Hcount Hne Hrotated Hlive Hnames]. constructor; try done.
  - intros i s Hi name start. destruct (Hrotated i s Hi) as (Hf & prov & Hprov & Hseal).
    destruct (segment_count_bound _ _ _ _ _ Hset _ _ Hi) as [Hb _].
    split; [|exists prov; split; [done|]].
    + rewrite Hframe; [done|]. by eapply Hrot, parse_rotation_path.
    + rewrite Hframe; [done|]. intros Hs. apply sidecar_fresh in Hs as (_ & _ & Hs).
      destruct (Hs (Z.of_nat i + 1)) as [Hs'|Hs']; [done|lia].
  - rewrite Hframe; [done|]. intros Hs. by apply sidecar_fresh in Hs as (_ & Hs & _).
  - intros name n Hf Hn. rewrite Hframe in Hf by (by eapply Hrot). by apply Hnames.
Qed.

Lemma write_seal_files d p key n start prov :
  let '(d', r) := write_seal d p key n start prov in
  (forall name, ~ sidecar p name -> d_files d' !! name = d_files d !! name) /\
  d_locks d' = d_locks d /\ d_faults d' = tail (d_faults d) /\
  match default None (head (d_faults d)) with
  | None | Some DirSync => d_files d' !! seal_path p = Some (seal_payload key n start prov)
  | Some _ => d_files d' !! seal_path p = d_files d !! seal_path p
  end /\
  is_ok r = match default None (head (d_faults d)) with None => true | Some _ => false end.
Proof.
  unfold write_seal. cbv zeta.
  assert (Htmp : seal_path p ++ TMP_SUFFIX <> seal_path p).
  { intros E. apply (f_equal length) in E. rewrite length_app in E. cbn in E. lia. }
  assert (Hside : forall name, ~ sidecar p name ->
                    name <> seal_path p /\ name <> seal_path p ++ TMP_SUFFIX).
  { unfold sidecar. tauto. }
  destruct (default None (head (d_faults d))) as [[]|];
    cbn [set_files d_files d_locks d_faults is_ok];
    (split; [intros name [Hs Ht]%Hside|split_and!; try done]);
    rewrite ?lookup_insert_ne, ?lookup_delete_ne by congruence; try done;
    by rewrite lookup_insert_eq.
Qed.

(** ** Handles *)

Definition signer_ok (sg : option TipSigner) : Prop :=
  match sg with
  | None => True
  | Some s => length (signer_key_id s) = KEY_ID_LEN /\
              forall m, length (sign_tip s m) = TIP_SIGNATURE_LEN
  end.

(** The handle [l] stands at the end of the live file. *)
Record Handle (l : TamperLog) (p : FileName) (key : bytes) (done : list (list bytes))
    (live : list bytes) : Prop := {
  h_path : path l = p;
  h_key : chain_key l = key;
  h_start : segment_start_hash l = segments_end key done;
  h_prev : prev_hash l = chain_end key (segments_end key done) live;
  h_sequence : next_sequence l = Z.of_nat (length live);
  h_signer : signer_ok (signer l)
}.

(** What [refresh_seal] does, by the stage at which it fails. *)
Lemma refresh_seal_spec d l p key done live :
  Handle l p key done live ->
  let '(d', r) := refresh_seal d l in
  (forall name, ~ sidecar p name -> d_files d' !! name = d_files d !! name) /\
  d_locks d' = d_locks d /\ d_faults d' = tail (d_faults d) /\
  match default None (head (d_faults d)) with
  | None | Some DirSync => LiveSeal d' p key done (Z.of_nat (length live))
  | Some _ => d_files d' !! seal_path p = d_files d !! seal_path p
  end /\
  is_ok r = match default None (head (d_faults d)) with None => true | Some _ => false end.
Proof.
  intros [Hp Hk Hs Hprev Hseq Hsg]. unfold refresh_seal.
  pose proof (segments_end_len key done) as Hlen.
  set (prov := match signer l with Some _ => _ | None => _ end).
  assert (Hprov : prov_ok prov).
  { unfold prov. destruct (signer l) as [s|]; [|done]. destruct Hsg as [Hid Hsig].
    cbn. unfold tip_ok. cbn. split_and!; [|done|apply Hsig]. rewrite Hprev. by apply chain_end_len. }
  rewrite Hp, Hk, Hs, Hseq.
  pose proof (write_seal_files d p key (Z.of_nat (length live)) (segments_end key done) prov) as Hw.
  destruct (write_seal _ _ _ _ _ _) as [d' r]. destruct Hw as (Hf & Hl & Hfa & Hseal & Hr).
  split_and!; auto.
  assert (Hyes : d_files d' !! seal_path p =
    Some (seal_payload key (Z.of_nat (length live)) (segments_end key done) prov) ->
    LiveSeal d' p key done (Z.of_nat (length live))) by (intros; by exists prov).
  destruct (default None (head (d_faults d))) as [[]|]; auto.
Qed.

(** The seal, once refreshed without a failure. *)
Lemma refresh_seal_ok d l p key done live :
  d_faults d = [] -> SegmentSet d p key done live -> Handle l p key done live ->
  exists d', refresh_seal d l = (d', Ok tt) /\ SegmentSet d' p key done live /\
    LiveSeal d' p key done (Z.of_nat (length live)) /\ d_locks d' = d_locks d /\ d_faults d' = [].
Proof.
  intros Hno Hset Hh. pose proof (refresh_seal_spec d l p key done live Hh) as Hr.
  destruct (refresh_seal d l) as [d' [[]|e]]; rewrite Hno in Hr; cbn in Hr;
    destruct Hr as (Hf & Hl & Hfa & Hseal & Hok); [|done].
  exists d'. split_and!; auto. by eapply segment_set_frame.
Qed.

(** ** Appending *)

Lemma sidecar_not_path p : ~ sidecar p p.
Proof. intros Hs. by apply sidecar_fresh in Hs as (_ & Hs & _). Qed.

Lemma encode_entry_Ok entry prev key wire h :
  encode_entry entry prev key = Ok (wire, h) ->
  exists cbor, cbor_into_writer entry = Some cbor /\ payload_ok cbor /\
    h = entry_hash key cbor prev /\
    wire = to_le_bytes 4 (Z.of_nat (length cbor)) ++ cbor ++ h.
Proof.
  unfold encode_entry. destruct (cbor_into_writer entry) as [cbor|]; [|done].
  destruct (MAX_ENTRY_BYTES <? Z.of_nat (length cbor)) eqn:E; [done|].
  intros [<- <-]%Ok_inj%pair_equal_spec.
  exists cbor. split_and!; [done|unfold payload_ok; lia|done|].
  unfold as_uint. rewrite Z.mod_small; [done|]. unfold MAX_ENTRY_BYTES in E. lia.
Qed.

Lemma append_file_set d p key done live cbor :
  SegmentSet d p key done live -> payload_ok cbor ->
  Z.of_nat (length (concat done ++ live)) + 1 < 2 ^ 32 ->
  let h := entry_hash key cbor (chain_end key (segments_end key done) live) in
  SegmentSet (append_file p (to_le_bytes 4 (Z.of_nat (length cbor)) ++ cbor ++ h) d)
    p key done (live ++ [cbor]).
Proof.
  intros Hset Hcbor Hbound h. pose proof Hset as [Hpay Hcount Hne Hrot Hlive Hnames].
  assert (Hother : forall name bs, name <> p ->
    d_files (append_file p bs d) !! name = d_files d !! name).
  { intros name bs Hn. cbn. by rewrite lookup_insert_ne. }
  constructor; try done.
  - rewrite app_assoc. apply Forall_app. by split; [|constructor].
  - rewrite app_assoc, length_app. cbn [length]. lia.
  - intros i s Hi name start. destruct (Hrot i s Hi) as (Hf & prov & Hprov & Hseal).
    destruct (segment_count_bound _ _ _ _ _ Hset _ _ Hi) as [Hb _].
    split; [|exists prov; split; [done|]]; (rewrite Hother; [done|]).
    + intros En. pose proof (parse_rotation_path p _ Hb) as Hp. fold name in Hp.
      by rewrite En, path_not_rotation in Hp.
    + intros En. by apply (path_not_seal_of_rotation p (Z.of_nat i + 1)).
  - cbn. rewrite lookup_insert_eq, Hlive. cbn [default].
    rewrite chain_bytes_app. cbn [chain_bytes]. by rewrite app_nil_r.
  - intros name n [c Hc] Hn. apply Hnames; [|done].
    destruct (decide (name = p)) as [->|Hne']; [by rewrite path_not_rotation in Hn|].
    rewrite Hother in Hc by done. by eexists.
Qed.

(** ** Rotating *)

Lemma fold_max_spec (l : list Z) : forall acc,
  let m := fold_left (fun max_n n => if max_n <? n then n else max_n) l acc in
  (m = acc \/ m ∈ l) /\ acc <= m /\ forall x, x ∈ l -> x <= m.
Proof.
  induction l as [|y l IH]; intros acc; cbn.
  - split_and!; [by left|lia|]. by intros x ?%not_elem_of_nil.
  - destruct (IH (if acc <? y then y else acc)) as (Hm & Hge & Hall). split_and!.
    + destruct Hm as [->|Hm]; [|by right; right].
      destruct (acc <? y); [right; by left|by left].
    + destruct (acc <? y) eqn:E; lia.
    + intros x [->|Hx]%elem_of_cons; [destruct (acc <? y) eqn:E; lia|by apply Hall].
Qed.

Lemma next_rotation_number_spec d p key done live :
  SegmentSet d p key done live -> Z.of_nat (length done) + 1 < 2 ^ 32 ->
  next_rotation_number d p = Z.of_nat (length done) + 1.
Proof.
  intros Hset Hb. unfold next_rotation_number.
  destruct (fold_max_spec (scan_rotations d p) 0) as (Hm & Hge & Hall).
  set (m := fold_left _ _ _) in *.
  assert (Hmax : m = Z.of_nat (length done)).
  { pose proof (scan_rotations_iff _ _ _ _ _ Hset) as Hscan.
    destruct (decide (length done = 0%nat)) as [E|E].
    - destruct Hm as [->|Hm]; [lia|]. apply Hscan in Hm. lia.
    - assert (Hin : Z.of_nat (length done) ∈ scan_rotations d p) by (apply Hscan; lia).
      apply Hall in Hin. destruct Hm as [Hm|Hm]; [lia|]. apply Hscan in Hm. lia. }
  rewrite Hmax. unfold saturating_add, uint_max. lia.
Qed.

Lemma rotation_names p n :
  0 <= n < 2 ^ 32 ->
  let r := rotation_path p n in
  p <> r /\ (forall x, seal_path x <> r) /\ seal_path p <> seal_path r /\
  p <> seal_path r /\ p <> seal_path p.
Proof.
  intros Hn r. pose proof (parse_rotation_path p n Hn) as Hpn. fold r in Hpn.
  assert (Hpr : p <> r) by (intros En; by rewrite <- En, path_not_rotation in Hpn).
  split_and!; [done| | |apply path_not_seal_of_rotation|].
  - intros x En. by rewrite <- En, seal_path_not_rotation in Hpn.
  - intros En. by apply Hpr, (app_inv_tail SEAL_SUFFIX).
  - intros En. apply (sidecar_not_path p). by left.
Qed.

(** The directory when [rotate] has moved the live file [c] and its seal [s]
    to the name [r] and created the new live file, before its seal is written. *)
Record Rotated (d d' : Disk) (p r : FileName) (c s : bytes) : Prop := {
  rot_live : d_files d' !! p = Some [];
  rot_file : d_files d' !! r = Some c;
  rot_seal : d_files d' !! seal_path r = Some s;
  rot_no_seal : d_files d' !! seal_path p = None;
  rot_other : forall x, x <> p -> x <> r -> x <> seal_path p -> x <> seal_path r ->
    d_files d' !! x = d_files d !! x;
  rot_locks : d_locks d' = d_locks d;
  rot_faults : d_faults d' = d_faults d
}.

Lemma rotate_moves d p n c s :
  0 <= n < 2 ^ 32 -> d_files d !! p = Some c -> d_files d !! seal_path p = Some s ->
  exists d1 d2, rename_file d p (rotation_path p n) = Ok d1 /\
    rename_seal d1 p (rotation_path p n) = Ok d2 /\
    Rotated d (open_create p d2) p (rotation_path p n) c s.
Proof.
  intros Hn Hc Hs. destruct (rotation_names p n Hn) as (Hpr & Hsr & Hss & Hpsr & Hps).
  unfold rename_file at 1. rewrite Hc. eexists _, _. split; [done|].
  unfold rename_seal, rename_file. cbn [set_files d_files].
  rewrite lookup_insert_ne, lookup_delete_ne, Hs by done. split; [done|].
  unfold open_create, set_files.
  constructor; cbn [d_files d_locks d_faults]; try done;
    rewrite (lookup_insert_ne _ _ p), (lookup_delete_ne _ _ p), (lookup_insert_ne _ _ p),
      (lookup_delete_eq _ p) by done.
  - by rewrite lookup_insert_eq.
  - by rewrite lookup_insert_ne, lookup_insert_ne, lookup_delete_ne, lookup_insert_eq by done.
  - by rewrite lookup_insert_ne, lookup_insert_eq by done.
  - by rewrite lookup_insert_ne, lookup_insert_ne, lookup_delete_eq by done.
  - intros x H1 H2 H3 H4.
    by rewrite !lookup_insert_ne, lookup_delete_ne, lookup_insert_ne, lookup_delete_ne by done.
Qed.

Lemma segment_set_rotated d d' p key done live prov :
  let n := Z.of_nat (length done) + 1 in
  let start := segments_end key done in
  SegmentSet d p key done live -> live <> [] -> prov_ok prov -> n < 2 ^ 32 ->
  Rotated d d' p (rotation_path p n) (chain_bytes key start live)
    (seal_payload key (Z.of_nat (length live)) start prov) ->
  SegmentSet d' p key (done ++ [live]) [].
Proof.
  intros n start Hset Hne Hprov Hn [Hlive' Hfile Hseal Hnone Hother _ _].
  pose proof Hset as [Hpay Hcount Hnes Hrot Hlive Hnames].
  pose proof (parse_rotation_path p n ltac:(lia)) as Hpn.
  constructor; [rewrite concat_app; cbn; by rewrite !app_nil_r..| | |done|].
  - apply Forall_app. by split; [|constructor].
  - intros i s Hi name st. apply lookup_app_Some in Hi as [Hi|[Hge Hi]].
    + assert (Hlt : (i < length done)%nat) by (by eapply lookup_lt_Some).
      destruct (Hrot i s Hi) as (Hf & prov' & Hprov' & Hseal').
      destruct (segment_count_bound _ _ _ _ _ Hset _ _ Hi) as [Hbi _].
      destruct (rotation_names p _ Hbi) as (Hpr & Hsr & Hss & Hpsr & _). fold name in Hpr, Hsr, Hss, Hpsr.
      assert (Hni : name <> rotation_path p n).
      { intros En. pose proof (parse_rotation_path p _ Hbi) as Hpi. fold name in Hpi.
        rewrite En, Hpn in Hpi. injection Hpi as Hpi. lia. }
      destruct (rotation_names p n ltac:(lia)) as (_ & Hsrn & _).
      unfold st. rewrite take_app_le by lia.
      split; [|exists prov'; split; [done|]]; (rewrite Hother; [done|..]); try congruence.
      intros En. by apply Hni, (app_inv_tail SEAL_SUFFIX).
    + apply list_lookup_singleton_Some in Hi as [Hi <-].
      assert (Hin : i = length done) by lia. clear Hge Hi. subst i.
      unfold st, name. rewrite take_app_length. split; [done|]. by exists prov.
  - intros name m [c Hc] Hm. rewrite length_app. cbn [length].
    destruct (decide (name = rotation_path p n)) as [->|Hnn].
    { rewrite Hpn in Hm. injection Hm as <-. split; [done|lia]. }
    assert (Hne' : name <> p) by (intros ->; by rewrite path_not_rotation in Hm).
    assert (Hns : forall x, name <> seal_path x)
      by (intros x ->; by rewrite seal_path_not_rotation in Hm).
    rewrite Hother in Hc by auto.
    destruct (Hnames name m ltac:(by eexists) Hm) as [-> ?]. split; [done|lia].
Qed.

(** The rotation up to its last step. *)
Lemma rotate_spec d l p key done live :
  Handle l p key done live -> SegmentSet d p key done live ->
  LiveSeal d p key done (Z.of_nat (length live)) -> live <> [] ->
  exists d', SegmentSet d' p key (done ++ [live]) [] /\ d_files d' !! seal_path p = None /\
    d_locks d' = d_locks d /\ d_faults d' = d_faults d /\
    Handle (rotated_handle l) p key (done ++ [live]) [] /\
    rotate d l = (let '(d'', r) := refresh_seal d' (rotated_handle l) in (d'', rotated_handle l, r)).
Proof.
  intros Hh Hset (prov & Hprov & Hseal) Hne.
  assert (Hb : Z.of_nat (length done) + 1 < 2 ^ 32).
  { pose proof (length_concat_nonempty _ (ss_nonempty _ _ _ _ _ Hset)) as Hl.
    pose proof (ss_count _ _ _ _ _ Hset) as Hc. rewrite length_app in Hc.
    destruct live; [done|cbn in Hc; lia]. }
  destruct (rotate_moves d p (Z.of_nat (length done) + 1) _ _ ltac:(lia)
              (ss_live _ _ _ _ _ Hset) Hseal) as (d1 & d2 & H1 & H2 & Hrot).
  exists (open_create p d2). split_and!.
  - by eapply segment_set_rotated.
  - apply (rot_no_seal _ _ _ _ _ _ Hrot).
  - apply (rot_locks _ _ _ _ _ _ Hrot).
  - apply (rot_faults _ _ _ _ _ _ Hrot).
  - destruct Hh as [Hp Hk Hs Hprev Hseq Hsg]. constructor; cbn; try done.
    + by rewrite Hprev, segments_end_app.
    + by rewrite Hprev, segments_end_app.
  - unfold rotate. rewrite (h_path _ _ _ _ _ Hh), (next_rotation_number_spec _ _ _ _ _ Hset Hb).
    rewrite H1, H2. done.
Qed.

(** ** A whole append *)

(** The handle and the directory once the entry is in the file. *)
Definition appended_handle (l : TamperLog) (hash : hash32) (wire : bytes) : TamperLog :=
  {| path := path l; prev_hash := hash; segment_start_hash := segment_start_hash l;
     next_sequence := next_sequence l + 1;
     bytes_written := bytes_written l + Z.of_nat (length wire);
     max_file_bytes := max_file_bytes l; chain_key := chain_key l; signer := signer l |}.

(** The payload reads back as an entry of an event. *)
Definition logged (event : Z * LogEntryKind) (cbor : bytes) : Prop :=
  exists seq, cbor_from_reader cbor = Some {| sequence := seq; timestamp_ms := event.1; kind := event.2 |}.

Lemma append_written d l p key done live now k wire h :
  SegmentSet d p key done live -> Handle l p key done live ->
  Z.of_nat (length (concat done ++ live)) + 1 < 2 ^ 32 ->
  encode_entry {| sequence := next_sequence l; timestamp_ms := now; kind := k |}
    (prev_hash l) (chain_key l) = Ok (wire, h) ->
  exists cbor, SegmentSet (append_file p wire d) p key done (live ++ [cbor]) /\
    Handle (appended_handle l h wire) p key done (live ++ [cbor]) /\ logged (now, k) cbor.
Proof.
  intros Hset [Hp Hk Hs Hprev Hseq Hsg] Hb He. rewrite Hk, Hprev in He.
  apply encode_entry_Ok in He as (cbor & Hinto & Hcbor & -> & ->). exists cbor.
  split; [|split; [|eexists; by apply cbor_roundtrip]].
  - by apply append_file_set.
  - constructor; cbn; try done.
    + by rewrite chain_end_app.
    + rewrite Hseq, length_app. cbn. lia.
Qed.

(** Every entry an event can become serialises within the size limit. *)
Definition writes (event : Z * LogEntryKind) : Prop :=
  forall seq, 0 <= seq < 2 ^ 32 ->
    exists cbor, cbor_into_writer {| sequence := seq; timestamp_ms := event.1; kind := event.2 |} = Some cbor /\
      payload_ok cbor.

Lemma encode_entry_total seq now k prev key e :
  writes (now, k) -> 0 <= seq < 2 ^ 32 ->
  encode_entry {| sequence := seq; timestamp_ms := now; kind := k |} prev key = Err e -> False.
Proof.
  intros Hw Hseq. destruct (Hw seq Hseq) as (cbor & Hc & Hok). cbn in Hc. unfold encode_entry. rewrite Hc.
  unfold payload_ok in Hok. by rewrite (proj2 (Z.ltb_ge _ _) Hok).
Qed.

(** A refresh whatever the fault ahead: the seal is the new one or the one before. *)
Lemma refresh_any d l p key done live :
  SegmentSet d p key done live -> Handle l p key done live ->
  let '(d', r) := refresh_seal d l in
  SegmentSet d' p key done live /\ d_locks d' = d_locks d /\ d_faults d' = tail (d_faults d) /\
  (d_faults d = [] -> is_ok r = true) /\ (is_ok r = true -> LiveSeal d' p key done (Z.of_nat (length live))) /\
  (LiveSeal d' p key done (Z.of_nat (length live)) \/ d_files d' !! seal_path p = d_files d !! seal_path p).
Proof.
  intros Hset Hh. pose proof (refresh_seal_spec d l p key done live Hh) as Hr.
  destruct (refresh_seal d l) as [d' r]. destruct Hr as (Hf & Hl & Hfa & Hseal & Hok).
  split_and!; [by eapply segment_set_frame|done|done| | |].
  - intros Hno. by rewrite Hok, Hno.
  - rewrite Hok. by destruct (default None (head (d_faults d))).
  - destruct (default None (head (d_faults d))) as [[]|]; auto.
Qed.

(** The seal of a log that reopening resumes: it counts no more than the file
    holds, or the log is new and has none. *)
Definition reopens (d : Disk) (p : FileName) (key : bytes) (done : list (list bytes)) (live : list bytes) : Prop :=
  (exists n, LiveSeal d p key done n /\ 0 <= n <= Z.of_nat (length live)) \/
  (done = [] /\ live = [] /\ d_files d !! seal_path p = None).

(** What a rotation leaves when the seal of the new segment could not be written:
    rotated segments, an empty live file and no seal beside it. *)
Definition interrupted_rotation (d : Disk) (p : FileName) : bool :=
  bool_decide (d_files d !! p = Some []) && bool_decide (d_files d !! seal_path p = None) &&
  negb (bool_decide (scan_rotations d p = [])).

Lemma uninterrupted_reopens d p key done :
  SegmentSet d p key done [] -> d_files d !! seal_path p = None -> interrupted_rotation d p = false ->
  reopens d p key done [].
Proof.
  intros Hset Hnone. unfold interrupted_rotation. rewrite (ss_live _ _ _ _ _ Hset), Hnone.
  cbn [chain_bytes]. rewrite !bool_decide_true by done. cbn [andb].
  destruct (bool_decide_reflect (scan_rotations d p = [])) as [E|E]; [|done]. intros _. right.
  split_and!; [|done|done]. destruct done as [|s done]; [done|].
  assert (1 ∈ scan_rotations d p) as H1 by (apply (scan_rotations_iff _ _ _ _ _ Hset); cbn; lia).
  rewrite E in H1. by apply not_elem_of_nil in H1.
Qed.

(** An append, whatever seal writes fail. *)
Lemma append_any d l p key done live now k :
  SegmentSet d p key done live -> Handle l p key done live ->
  LiveSeal d p key done (Z.of_nat (length live)) ->
  Z.of_nat (length (concat done ++ live)) + 1 < 2 ^ 32 ->
  let '(d', l', r) := append d l now k in
  exists done' live' added es,
    SegmentSet d' p key done' live' /\ Handle l' p key done' live' /\
    concat done' ++ live' = concat done ++ live ++ added /\ Forall2 logged es added /\
    (es = [(now, k)] \/ es = [] /\ is_ok r = false) /\ (writes (now, k) -> es = [(now, k)]) /\
    (interrupted_rotation d' p = false -> reopens d' p key done' live') /\
    (d_faults d = [] -> d_faults d' = [] /\ LiveSeal d' p key done' (Z.of_nat (length live')) /\
      (is_ok r = false -> es = [])).
Proof.
  intros Hset Hh Hseal Hb. unfold append.
  destruct (encode_entry _ (prev_hash l) (chain_key l)) as [[wire h]|e] eqn:He.
  2:{ exists done, live, [], []. rewrite app_nil_r. split_and!; try done; [by right| |].
      - intros Hw. exfalso. refine (encode_entry_total _ _ _ _ _ _ Hw _ He).
        rewrite (h_sequence _ _ _ _ _ Hh). rewrite length_app in Hb. lia.
      - intros _. left. exists (Z.of_nat (length live)). split; [done|lia]. }
  destruct (append_written _ _ _ _ _ _ _ _ _ _ Hset Hh Hb He) as (cbor & Hset1 & Hh1 & Hlog).
  fold (appended_handle l h wire). rewrite (h_path _ _ _ _ _ Hh).
  assert (Hold : d_files (append_file p wire d) !! seal_path p = d_files d !! seal_path p).
  { cbn. rewrite lookup_insert_ne; [done|]. intros E. apply (sidecar_not_path p). by left. }
  assert (Hone : Forall2 logged [(now, k)] [cbor]) by (by constructor).
  assert (Hlen : length (live ++ [cbor]) = S (length live)) by (rewrite length_app; cbn; lia).
  pose proof (refresh_any (append_file p wire d) _ p key done (live ++ [cbor]) Hset1 Hh1) as Hr.
  destruct (refresh_seal _ (appended_handle l h wire)) as [d1 [u1|e1]];
    destruct Hr as (Hset2 & _ & Hf1 & Hno1 & Hok1 & Hor1).
  2:{ exists done, (live ++ [cbor]), [cbor], [(now, k)]. split_and!; try done; [by left| |].
      - intros _. left. destruct Hor1 as [Hs|Hs]; [eexists; split; [exact Hs|lia]|].
        exists (Z.of_nat (length live)). split; [|lia]. destruct Hseal as (prov & ? & ?).
        exists prov. by rewrite Hs, Hold.
      - intros Hno. discriminate (Hno1 Hno). }
  specialize (Hok1 eq_refl). destruct (max_file_bytes _ <? bytes_written _).
  2:{ exists done, (live ++ [cbor]), [cbor], [(now, k)]. split_and!; try done; [by left| |].
      - intros _. left. eexists. split; [exact Hok1|lia].
      - intros Hno. split; [rewrite Hf1; cbn; by rewrite Hno|done]. }
  destruct (rotate_spec _ _ _ _ _ _ Hh1 Hset2 Hok1) as (d2 & Hset3 & Hnone & _ & Hno3 & Hh3 & Hrot);
    [by destruct live|].
  pose proof (refresh_any d2 _ p key _ [] Hset3 Hh3) as Hr. rewrite Hrot.
  destruct (refresh_seal d2 _) as [d3 r3]. destruct Hr as (Hset4 & _ & Hf4 & Hno4 & Hok4 & Hor4).
  assert (Hre : interrupted_rotation d3 p = false -> reopens d3 p key (done ++ [live ++ [cbor]]) []).
  { intros Hi. destruct Hor4 as [Hs|Hs]; [left; eexists; split; [exact Hs|cbn; lia]|].
    apply uninterrupted_reopens; [done| |done]. by rewrite Hs. }
  assert (Hcc : concat (done ++ [live ++ [cbor]]) ++ [] = concat done ++ live ++ [cbor])
    by (rewrite concat_app; cbn; by rewrite !app_nil_r).
  assert (Hff : d_faults d = [] -> d_faults d3 = [] /\ is_ok r3 = true).
  { intros Hno. cbn in Hf1. rewrite Hno in Hf1. rewrite Hf1 in Hno3. rewrite Hf4, Hno3. auto. }
  destruct r3 as [u3|e3]; exists (done ++ [live ++ [cbor]]), [], [cbor], [(now, k)];
    (split_and!; [done|done|done|done|by left|done|exact Hre|..]);
    intros Hno; destruct (Hff Hno) as [??]; split_and!; auto; done.
Qed.

(** With no seal write failing. *)
Lemma append_spec d l p key done live now k :
  d_faults d = [] -> SegmentSet d p key done live -> Handle l p key done live ->
  LiveSeal d p key done (Z.of_nat (length live)) ->
  Z.of_nat (length (concat done ++ live)) + 1 < 2 ^ 32 ->
  let '(d', l', r) := append d l now k in
  exists done' live' added,
    SegmentSet d' p key done' live' /\ Handle l' p key done' live' /\
    LiveSeal d' p key done' (Z.of_nat (length live')) /\ d_faults d' = [] /\
    concat done' ++ live' = concat done ++ live ++ added /\
    (writes (now, k) -> is_ok r = true) /\ Forall2 logged (if is_ok r then [(now, k)] else []) added.
Proof.
  intros Hno Hset Hh Hseal Hb. pose proof (append_any d l p key done live now k Hset Hh Hseal Hb) as Ha.
  destruct (append d l now k) as [[d' l'] r].
  destruct Ha as (done' & live' & added & es & ? & ? & ? & Hlog & Hes & Hw & _ & Hf).
  destruct (Hf Hno) as (? & ? & Hf'). exists done', live', added. split_and!; try done.
  - intros Hwr. specialize (Hw Hwr). destruct (is_ok r); [done|]. by rewrite Hf' in Hw.
  - destruct (is_ok r); [|by rewrite Hf' in Hlog]. destruct Hes as [->|[_ ?]]; done.
Qed.

Lemma append_all_spec events : forall d l p key done live,
  d_faults d = [] -> SegmentSet d p key done live -> Handle l p key done live ->
  LiveSeal d p key done (Z.of_nat (length live)) ->
  Z.of_nat (length (concat done ++ live)) + Z.of_nat (length events) < 2 ^ 32 ->
  let '(d', l', n) := append_all d l events in
  exists done' live' added,
    SegmentSet d' p key done' live' /\ Handle l' p key done' live' /\
    LiveSeal d' p key done' (Z.of_nat (length live')) /\ d_faults d' = [] /\
    concat done' ++ live' = concat done ++ live ++ added /\ Z.of_nat (length added) = n /\
    (exists es, es `sublist_of` events /\ Forall2 logged es added) /\
    (Forall writes events -> n = Z.of_nat (length events)).
Proof.
  induction events as [|[now k] events IH]; intros d l p key done live Hno Hset Hh Hseal Hb;
    cbn [append_all length] in *.
  - exists done, live, []. rewrite app_nil_r. split_and!; try done. by exists [].
  - pose proof (append_spec d l p key done live now k Hno Hset Hh Hseal ltac:(lia)) as Ha.
    destruct (append d l now k) as [[d1 l1] r].
    destruct Ha as (done1 & live1 & a1 & Hset1 & Hh1 & Hseal1 & Hno1 & Hc1 & Hall1 & Hlog1).
    assert (Hl1 : length a1 = if is_ok r then 1%nat else 0%nat)
      by (apply Forall2_length in Hlog1; by destruct (is_ok r)).
    assert (Hlen : length (concat done1 ++ live1) = (length (concat done ++ live) + length a1)%nat)
      by (rewrite Hc1, app_assoc; apply length_app).
    assert (Ha1 : (length a1 <= 1)%nat) by (destruct (is_ok r); lia).
    specialize (IH d1 l1 p key done1 live1 Hno1 Hset1 Hh1 Hseal1 ltac:(lia)).
    destruct (append_all d1 l1 events) as [[d2 l2] n].
    destruct IH as (done2 & live2 & a2 & ? & ? & ? & ? & Hc2 & Hl2 & (es & Hes & Hlog2) & Hall2).
    exists done2, live2, (a1 ++ a2). split_and!; try done.
    + rewrite Hc2, app_assoc, Hc1. by rewrite <- !app_assoc.
    + rewrite length_app. destruct (is_ok r); lia.
    + exists ((if is_ok r then [(now, k)] else []) ++ es). split; [|by apply Forall2_app].
      destruct (is_ok r); [by apply sublist_skip|by apply sublist_cons].
    + intros [Hw Hws]%Forall_cons. rewrite (Hall1 Hw), (Hall2 Hws). lia.
Qed.

(** ** Opening *)

Lemma recover_loop_chain ps : forall fuel key h v o,
  Forall payload_ok ps -> (length (chain_bytes key h ps) < fuel)%nat ->
  recover_loop fuel h v o (chain_bytes key h ps)
  = (chain_end key h ps, v + Z.of_nat (length ps), o + Z.of_nat (length (chain_bytes key h ps))).
Proof.
  induction ps as [|p ps IH]; intros [|fuel] key h v o Hok Hfuel; try (exfalso; lia).
  - cbn. f_equal; [f_equal|]; lia.
  - inversion Hok as [|? ? Hp Hps]; subst. cbn [chain_bytes chain_end] in *. cbv zeta in *.
    revert Hfuel. rewrite !length_app, length_to_le_bytes, entry_hash_len. intros Hfuel.
    cbn [recover_loop]. rewrite <- !app_assoc, read_exact_app by apply length_to_le_bytes.
    cbn beta iota. rewrite payload_len_roundtrip by done.
    unfold payload_ok in Hp. rewrite (proj2 (Z.ltb_ge _ _) Hp), Nat2Z.id, drop_app_length.
    rewrite read_exact_app by apply entry_hash_len. cbn beta iota.
    rewrite IH by (done || lia). cbn [length]. f_equal; [f_equal|]; lia.
Qed.

Lemma open_create_other name d x :
  x <> name -> d_files (open_create name d) !! x = d_files d !! x.
Proof. intros Hx. cbn. destruct (d_files d !! name); [done|]. by rewrite lookup_insert_ne. Qed.

Lemma open_create_exists name d c : d_files d !! name = Some c -> open_create name d = d.
Proof. intros Hc. unfold open_create, set_files. rewrite Hc. by destruct d. Qed.

Lemma acquire_free d p :
  p ∉ d_locks d ->
  exists d', acquire d p = (d', Ok tt) /\ d_faults d' = d_faults d /\ p ∈ d_locks d' /\
    forall x, x <> lock_path p -> d_files d' !! x = d_files d !! x.
Proof.
  intros Hp. unfold acquire. rewrite bool_decide_eq_false_2 by done. eexists. split; [done|].
  split_and!; [done|set_solver|]. intros x Hx. by apply (open_create_other (lock_path p)).
Qed.

Lemma lock_path_sidecar p : sidecar p (lock_path p).
Proof. by right; right. Qed.

Lemma seal_not_lock p : seal_path p <> lock_path p.
Proof. intros E. by apply app_inv_head in E. Qed.

(** The segment set read from a directory after the writer's lock is gone. *)
Lemma segment_set_release d p key done live :
  SegmentSet d p key done live -> SegmentSet (release d p) p key done live.
Proof. intros []; by constructor. Qed.

Lemma release_unlocks d p : p ∉ d_locks (release d p).
Proof. cbn. apply not_elem_of_difference. right. by apply elem_of_singleton. Qed.

(** A directory in which no log has been kept at [p] yet. *)
Definition fresh (d : Disk) (p : FileName) : Prop :=
  d_files d !! p = None /\ p ∉ d_locks d /\
  forall name, is_Some (d_files d !! name) -> parse_rotation_number name (log_stem p) = None.

(** A log that can be opened: one that was closed, or none yet, and then either no
    seal write fails or no seal was left behind. *)
Definition resumable (d : Disk) (p : FileName) (key : bytes) (done : list (list bytes)) (live : list bytes) : Prop :=
  p ∉ d_locks d /\ SegmentSet d p key done live /\ reopens d p key done live.
Definition unopened (d : Disk) (p : FileName) : Prop :=
  fresh d p /\ (d_faults d = [] \/ d_files d !! seal_path p = None).

Lemma segment_set_created d d1 p key :
  fresh d p -> d_files d1 !! p = None ->
  (forall x, x <> lock_path p -> d_files d1 !! x = d_files d !! x) ->
  SegmentSet (open_create p d1) p key [] [].
Proof.
  intros (Hp & _ & Hnames) Hp1 Hf1. constructor; try done.
  - cbn. by rewrite Hp1, lookup_insert_eq.
  - intros name n [c Hc] Hn. exfalso.
    assert (name <> p) by (intros ->; by rewrite path_not_rotation in Hn).
    assert (name <> lock_path p).
    { intros ->. by rewrite (proj1 (sidecar_fresh _ _ (lock_path_sidecar p))) in Hn. }
    rewrite open_create_other, Hf1 in Hc by done.
    by rewrite Hnames in Hn by (by eexists).
Qed.

(** The check before resuming, and the chain resumed. *)
Lemma resume_checks d p key done live :
  SegmentSet d p key done live -> reopens d p key done live ->
  check_resumable d p key = Ok tt /\
  resolve_start_hash (read_seal d p key) key = segments_end key done /\
  exists written, recover_state d p (segments_end key done) =
    (chain_end key (segments_end key done) live, Z.of_nat (length live), written).
Proof.
  intros Hset Hre. pose proof (ss_payloads _ _ _ _ _ Hset) as Hpay. rewrite Forall_app in Hpay.
  unfold check_resumable, recover_state. rewrite (ss_live _ _ _ _ _ Hset).
  rewrite recover_loop_chain by (tauto || lia). destruct Hre as [(n & Hseal & Hn)|(-> & -> & Hnone)].
  - destruct (verify_chain_live _ _ _ _ _ Hset n Hseal Hn) as (prov' & Hread & Hv). rewrite Hv, Hread.
    pose proof (classify_live_ok n (Z.of_nat (length live)) (segments_end key done) prov' Hn) as Hok.
    split_and!; [|done|by eexists]. cbn [result_bind vr_status]. by destruct (classify_terminal _ _).
  - assert (read_seal d p key = Absent) as Hread by (unfold read_seal; by rewrite Hnone).
    pose proof (ss_live _ _ _ _ _ Hset) as Hlive. cbn [chain_bytes] in Hlive.
    unfold verify_chain, stream_verify. rewrite Hread, Hlive. cbn. split_and!; [done|done|by eexists].
Qed.

(** A log that reopens verifies. *)
Lemma reopens_verifies d p key done live :
  SegmentSet d p key done live -> reopens d p key done live ->
  verify_segment_chain d p key
  = Ok (SegmentsIntact (Z.of_nat (length (concat done ++ live))) (Z.of_nat (length done) + 1)).
Proof.
  intros Hset [(n & Hseal & Hn)|(-> & -> & Hnone)]; [by eapply verify_segment_chain_ok|].
  rewrite (verify_segment_chain_walk _ _ _ _ _ Hset). unfold verify_live.
  cbn [expected_start]. rewrite (live_stream _ _ _ _ _ Hset). unfold read_seal. by rewrite Hnone.
Qed.

(** The last step of opening. *)
Lemma open_refreshed d0 d p key max sg done live written :
  SegmentSet d p key done live -> signer_ok sg ->
  (d_faults d = [] \/ reopens d p key done live) -> d_faults d = d_faults d0 ->
  let log := {| path := p; prev_hash := chain_end key (segments_end key done) live;
                segment_start_hash := segments_end key done; next_sequence := Z.of_nat (length live);
                bytes_written := written; max_file_bytes := max; chain_key := key; signer := sg |} in
  let '(d', r) := match refresh_seal d log with
                  | (d, Err e) => (release d p, Err e)
                  | (d, Ok _) => (d, Ok log)
                  end in
  SegmentSet d' p key done live /\
  match r with
  | Ok l => Handle l p key done live /\ LiveSeal d' p key done (Z.of_nat (length live))
  | Err _ => resumable d' p key done live
  end /\ (d_faults d0 = [] -> is_ok r = true /\ d_faults d' = []).
Proof.
  intros Hset Hsg Hre Hfa log. assert (Hh : Handle log p key done live) by (by constructor).
  pose proof (refresh_any d log p key done live Hset Hh) as Hr.
  destruct (refresh_seal d log) as [d' [u|e]]; destruct Hr as (Hset' & _ & Hf & Hno & Hok & Hor).
  - split; [done|]. split; [by split; [|apply Hok]|]. intros E. by rewrite Hf, Hfa, E.
  - split; [by apply segment_set_release|].
    split; [|intros E; rewrite <- Hfa in E; discriminate (Hno E)].
    split; [apply release_unlocks|]. split; [by apply segment_set_release|].
    destruct Hre as [E|Hre]; [by discriminate (Hno E)|].
    destruct Hor as [Hs|Hs]; [left; eexists; split; [exact Hs|lia]|].
    destruct Hre as [(n & (prov & ? & Hseal) & Hn)|(-> & -> & Hn)]; [left|right].
    + exists n. split; [|done]. exists prov. cbn. by rewrite Hs.
    + cbn. by rewrite Hs.
Qed.

(** Opening, whatever seal writes fail: the entries are kept, and the handle stands
    at their end, or the log can be opened again. *)
Lemma open_any d p key max sg done live :
  (unopened d p /\ done = [] /\ live = [] \/ resumable d p key done live) -> signer_ok sg ->
  let '(d', r) := open_inner d p key max sg in
  SegmentSet d' p key done live /\
  match r with
  | Ok l => Handle l p key done live /\ LiveSeal d' p key done (Z.of_nat (length live))
  | Err _ => resumable d' p key done live
  end /\ (d_faults d = [] -> is_ok r = true /\ d_faults d' = []).
Proof.
  intros Ho Hsg. unfold open_inner.
  assert (Hlock : p ∉ d_locks d) by (destruct Ho as [[[(_ & ? & _) _] _]|[? _]]; done).
  destruct (acquire_free d p Hlock) as (d1 & -> & Hno1 & _ & Hf1).
  assert (Hs1 : d_files d1 !! seal_path p = d_files d !! seal_path p) by apply Hf1, seal_not_lock.
  destruct Ho as [([(Hp & _ & Hnames) Hor] & -> & ->)|(_ & Hset & Hre)].
  - assert (Hlp : p <> lock_path p).
    { intros E. apply (sidecar_not_path p). rewrite E at 2. apply lock_path_sidecar. }
    assert (Hp1 : d_files d1 !! p = None) by (by rewrite Hf1).
    unfold check_resumable, recover_state. rewrite Hp1.
    apply (open_refreshed d (open_create p d1) p key max sg [] [] 0); [|done| |done].
    + by apply (segment_set_created d).
    + destruct Hor as [E|E]; [left; cbn; congruence|right; right]. split_and!; [done|done|].
      rewrite open_create_other by (intros E'; apply (sidecar_not_path p); left; by symmetry). congruence.
  - assert (Hset1 : SegmentSet d1 p key done live).
    { eapply segment_set_frame; [|done]. intros x Hx. apply Hf1. intros ->. by apply Hx, lock_path_sidecar. }
    assert (Hre1 : reopens d1 p key done live) by (unfold reopens, LiveSeal; by rewrite Hs1).
    destruct (resume_checks d1 p key done live Hset1 Hre1) as (-> & Hstart & written & Hrec).
    rewrite (open_create_exists _ _ _ (ss_live _ _ _ _ _ Hset1)), (ss_live _ _ _ _ _ Hset1), Hstart, Hrec.
    apply open_refreshed; [done|done|by right|done].
Qed.

(** Opening resumes any segment set whose seal does not run ahead of the file. *)
Lemma open_resumes d p key max sg done live n :
  d_faults d = [] -> p ∉ d_locks d -> signer_ok sg ->
  SegmentSet d p key done live -> LiveSeal d p key done n -> 0 <= n <= Z.of_nat (length live) ->
  exists d' l', open_inner d p key max sg = (d', Ok l') /\ SegmentSet d' p key done live /\
    Handle l' p key done live /\ LiveSeal d' p key done (Z.of_nat (length live)) /\
    d_faults d' = [] .
Proof.
  intros Hno Hlock Hsg Hset Hseal Hn.
  assert (resumable d p key done live) as Hre by (split; [done|split; [done|]]; left; by exists n).
  pose proof (open_any d p key max sg done live (or_intror Hre) Hsg) as Ho.
  destruct (open_inner d p key max sg) as [d' [l|e]]; destruct Ho as (? & Ho & Hf); destruct (Hf Hno); [|done].
  exists d', l. destruct Ho. by split_and!.
Qed.

Lemma open_fresh d p key max sg :
  fresh d p -> d_faults d = [] -> signer_ok sg ->
  exists d' l', open_inner d p key max sg = (d', Ok l') /\ SegmentSet d' p key [] [] /\
    Handle l' p key [] [] /\ LiveSeal d' p key [] 0 /\ d_faults d' = [].
Proof.
  intros Hfresh Hno Hsg.
  pose proof (open_any d p key max sg [] [] (or_introl (conj (conj Hfresh (or_introl Hno)) (conj eq_refl eq_refl))) Hsg) as Ho.
  destruct (open_inner d p key max sg) as [d' [l|e]]; destruct Ho as (? & Ho & Hf); destruct (Hf Hno); [|done].
  exists d', l. destruct Ho. by split_and!.
Qed.

(** ** The log as a whole *)

Definition with_faults (fs : list (option SealStage)) (d : Disk) : Disk :=
  {| d_files := d_files d; d_locks := d_locks d; d_faults := fs |}.

(** Opening a fresh log and appending to it leads to a well-linked segment set. *)
Lemma opened_and_appended d p key max sg events d0 l0 d1 l1 n :
  fresh d p -> d_faults d = [] -> signer_ok sg -> Z.of_nat (length events) < 2 ^ 32 ->
  open_inner d p key max sg = (d0, Ok l0) -> append_all d0 l0 events = (d1, l1, n) ->
  exists done live,
    SegmentSet d1 p key done live /\ Handle l1 p key done live /\
    LiveSeal d1 p key done (Z.of_nat (length live)) /\
    Z.of_nat (length (concat done ++ live)) = n /\ n <= Z.of_nat (length events) /\
    (Forall writes events -> n = Z.of_nat (length events)) /\
    exists es, es `sublist_of` events /\ Forall2 logged es (concat done ++ live).
Proof.
  intros Hfresh Hno0 Hsg Hlen Ho Ha.
  destruct (open_fresh d p key max sg Hfresh Hno0 Hsg) as (d0' & l0' & Ho' & Hset & Hh & Hseal & Hno).
  rewrite Ho in Ho'. injection Ho' as <- <-.
  pose proof (append_all_spec events d0 l0 p key [] [] Hno Hset Hh Hseal Hlen) as Hall.
  rewrite Ha in Hall. destruct Hall as (done & live & added & ? & ? & ? & _ & Hc & Hn & (es & Hes & Hlog) & ?).
  pose proof (sublist_length _ _ Hes). pose proof (Forall2_length _ _ _ Hlog). cbn in Hc.
  exists done, live. rewrite Hc. split_and!; try done; [lia|]. by exists es.
Qed.

Lemma segment_set_faults fs d p key done live :
  SegmentSet d p key done live <-> SegmentSet (with_faults fs d) p key done live.
Proof. split; intros []; by constructor. Qed.

(** An append whose first seal write fails at stage [st]: the entry is in the
    file, the seal is the old one or the new one. *)
Lemma append_interrupted d l p key done live st now k d2 l2 f :
  SegmentSet d p key done live -> Handle l p key done live ->
  LiveSeal d p key done (Z.of_nat (length live)) ->
  Z.of_nat (length (concat done ++ live)) + 1 < 2 ^ 32 ->
  append (with_faults [Some st] d) l now k = (d2, l2, Err (ErrIo f)) ->
  exists cbor m,
    SegmentSet d2 p key done (live ++ [cbor]) /\ Handle l2 p key done (live ++ [cbor]) /\
    LiveSeal d2 p key done m /\ 0 <= m <= Z.of_nat (length (live ++ [cbor])) /\ d_faults d2 = [].
Proof.
  intros Hset Hh Hseal Hb Happ.
  apply (segment_set_faults [Some st]) in Hset. unfold append in Happ.
  destruct (encode_entry _ (prev_hash l) (chain_key l)) as [[wire h]|e] eqn:He.
  2:{ unfold encode_entry in He. repeat case_match; congruence. }
  destruct (append_written _ _ _ _ _ _ _ _ _ _ Hset Hh Hb He) as (cbor & Hset1 & Hh1 & Hlog).
  fold (appended_handle l h wire) in Happ. rewrite (h_path _ _ _ _ _ Hh) in Happ.
  set (da := append_file p wire (with_faults [Some st] d)) in *.
  pose proof (refresh_seal_spec da _ _ _ _ _ Hh1) as Hr.
  destruct (refresh_seal da (appended_handle l h wire)) as [d2' [[]|e]];
    destruct Hr as (Hf & Hl & Hfa & Hsl & Hok); [done|].
  apply pair_equal_spec in Happ as [Happ _]. apply pair_equal_spec in Happ as [-> <-].
  apply (segment_set_frame _ d2 _ _ _ _ Hf) in Hset1.
  assert (Hold : d_files da !! seal_path p = d_files d !! seal_path p).
  { cbn. rewrite lookup_insert_ne; [done|]. intros E. apply (sidecar_not_path p). by left. }
  assert (Hkeep : d_files d2 !! seal_path p = d_files da !! seal_path p ->
                  LiveSeal d2 p key done (Z.of_nat (length live)))
    by (intros E; destruct Hseal as (prov & ? & ?); exists prov; by rewrite E, Hold).
  assert (Hlen : length (live ++ [cbor]) = S (length live)) by (rewrite length_app; cbn; lia).
  exists cbor.
  cbn [da with_faults append_file set_files d_faults head default] in Hsl, Hfa.
  destruct st; [exists (Z.of_nat (length live)); split_and!; auto; lia..|].
  exists (Z.of_nat (length (live ++ [cbor]))). split_and!; auto; lia.
Qed.

(** C19. A log that its writer, signing with key identifiers and signatures of the
    fixed lengths or not at all, opened in a fresh directory and appended fewer than
    2^32 events to, rotating whenever the file outgrew its limit, with no seal write
    failing, verifies: the walk over the rotated segments and the live file reports every
    append that succeeded; the segments hold, in order and across the rotations,
    entries that read back as the events appended, and all of them when the events
    appended serialise within the limit, whatever their sequence numbers. *)
Theorem writer_log_verifies d p key max sg :
  fresh d p -> d_faults d = [] -> signer_ok sg ->
  exists d0 l0, open_inner d p key max sg = (d0, Ok l0) /\
  forall events d1 l1 n, Z.of_nat (length events) < 2 ^ 32 ->
    append_all d0 l0 events = (d1, l1, n) ->
    exists done live segs logs,
      SegmentSet d1 p key done live /\ verify_segment_chain d1 p key = Ok (SegmentsIntact n segs) /\
      logs `sublist_of` events /\ Forall2 logged logs (concat done ++ live) /\
      Z.of_nat (length logs) = n /\ (Forall writes events -> logs = events).
Proof.
  intros Hfresh Hno Hsg.
  destruct (open_fresh d p key max sg Hfresh Hno Hsg) as (d0 & l0 & Ho & _).
  exists d0, l0. split; [done|]. intros events d1 l1 n Hlen Ha.
  destruct (opened_and_appended _ _ _ _ _ _ _ _ _ _ _ Hfresh Hno Hsg Hlen Ho Ha)
    as (done & live & Hset & _ & Hseal & <- & _ & Hall & es & Hes & Hlog).
  pose proof (Forall2_length _ _ _ Hlog) as Hn. eexists done, live, _, es.
  split; [done|]. split; [eapply verify_segment_chain_ok; [done|done|lia]|]. split; [done|]. split; [done|]. split; [lia|].
  intros Hw. specialize (Hall Hw). apply sublist_same_length; [done|lia].
Qed.

(** An append that rotates, whose rotation fails to write the new segment's seal. *)
Lemma rotation_interrupted d l p key done live st now k d2 l2 f :
  SegmentSet d p key done live -> Handle l p key done live ->
  LiveSeal d p key done (Z.of_nat (length live)) ->
  Z.of_nat (length (concat done ++ live)) + 1 < 2 ^ 32 ->
  append (with_faults [None; Some st] d) l now k = (d2, l2, Err (ErrIo f)) ->
  exists cbor,
    SegmentSet d2 p key (done ++ [live ++ [cbor]]) [] /\
    Handle l2 p key (done ++ [live ++ [cbor]]) [] /\
    d_faults d2 = [] /\
    match st with
    | DirSync => LiveSeal d2 p key (done ++ [live ++ [cbor]]) 0
    | _ => d_files d2 !! seal_path p = None
    end.
Proof.
  intros Hset Hh Hseal Hb Happ.
  apply (segment_set_faults [None; Some st]) in Hset. unfold append in Happ.
  destruct (encode_entry _ (prev_hash l) (chain_key l)) as [[wire h]|e] eqn:He.
  2:{ unfold encode_entry in He. repeat case_match; congruence. }
  destruct (append_written _ _ _ _ _ _ _ _ _ _ Hset Hh Hb He) as (cbor & Hset1 & Hh1 & Hlog).
  fold (appended_handle l h wire) in Happ. rewrite (h_path _ _ _ _ _ Hh) in Happ.
  set (da := append_file p wire (with_faults [None; Some st] d)) in *.
  pose proof (refresh_seal_spec da _ _ _ _ _ Hh1) as Hr.
  destruct (refresh_seal da (appended_handle l h wire)) as [d1 [[]|e]];
    destruct Hr as (Hf & _ & Hfa & Hsl & Hok); [|done].
  cbn [da with_faults append_file set_files d_faults head tail default] in Hsl, Hfa.
  apply (segment_set_frame _ d1 _ _ _ _ Hf) in Hset1.
  destruct (max_file_bytes _ <? bytes_written _); [|done].
  destruct (rotate_spec _ _ _ _ _ _ Hh1 Hset1 Hsl) as (d3 & Hset3 & Hnone & _ & Hfa3 & Hh3 & Hrot);
    [by destruct live|].
  rewrite Hrot in Happ. rewrite Hfa in Hfa3.
  pose proof (refresh_seal_spec d3 _ _ _ _ _ Hh3) as Hr.
  destruct (refresh_seal d3 _) as [d4 [[]|e]]; [done|].
  destruct Hr as (Hf4 & _ & Hfa4 & Hsl4 & _). rewrite Hfa3 in Hfa4, Hsl4. cbn in Hfa4, Hsl4.
  apply pair_equal_spec in Happ as [Happ _]. apply pair_equal_spec in Happ as [-> <-].
  exists cbor. split_and!; [by eapply segment_set_frame|done|done|].
  destruct st; by rewrite <-?Hnone.
Qed.

(** A writer that failed is resumed where it stood. *)
Lemma reopened_counts d2 l2 p key max sg done m live n :
  SegmentSet d2 p key done live -> Handle l2 p key done live -> LiveSeal d2 p key done m ->
  0 <= m <= Z.of_nat (length live) -> d_faults d2 = [] -> signer_ok sg ->
  Z.of_nat (length (concat done ++ live)) = n ->
  exists d3 l3 segs,
    open_inner (release d2 p) p key max sg = (d3, Ok l3) /\
    prev_hash l3 = prev_hash l2 /\ next_sequence l3 = next_sequence l2 /\
    verify_segment_chain d3 p key = Ok (SegmentsIntact n segs).
Proof.
  intros Hset Hh Hseal Hm Hno Hsg Hn.
  destruct (open_resumes (release d2 p) p key max sg done live m)
    as (d3 & l3 & Ho3 & Hset3 & Hh3 & Hseal3 & _); try done.
  { by apply release_unlocks. }
  { by apply segment_set_release. }
  exists d3, l3, (Z.of_nat (length done) + 1). split_and!; [done| | |].
  - by rewrite (h_prev _ _ _ _ _ Hh3), (h_prev _ _ _ _ _ Hh).
  - by rewrite (h_sequence _ _ _ _ _ Hh3), (h_sequence _ _ _ _ _ Hh).
  - rewrite (verify_segment_chain_ok _ _ _ _ _ Hset3 _ Hseal3) by lia. by rewrite Hn.
Qed.

(** C20. A seal refresh that fails after the entry was written, the append's own at
    any stage or, when the entry rotates the log, that of the new segment's seal at
    its last stage, the sync of the directory, loses nothing: reopening the log
    accepts it, recovers the position of the writer that failed, and the log then
    verifies with the entry counted. (A refresh of the new segment's seal that fails
    earlier leaves it without one, and the link to the segments before is lost:
    [interrupted_rotation_forgets_link].) No seal write failed before it. *)
Theorem interrupted_append_resumes d p key max sg events d0 l0 d1 l1 n fs now k d2 l2 f :
  fresh d p -> d_faults d = [] -> signer_ok sg -> Z.of_nat (length events) + 1 < 2 ^ 32 ->
  open_inner d p key max sg = (d0, Ok l0) -> append_all d0 l0 events = (d1, l1, n) ->
  (exists st, fs = [Some st]) \/ fs = [None; Some DirSync] ->
  append (with_faults fs d1) l1 now k = (d2, l2, Err (ErrIo f)) ->
  exists d3 l3 segs,
    open_inner (release d2 p) p key max sg = (d3, Ok l3) /\
    prev_hash l3 = prev_hash l2 /\ next_sequence l3 = next_sequence l2 /\
    verify_segment_chain d3 p key = Ok (SegmentsIntact (n + 1) segs).
Proof.
  intros Hfresh Hno Hsg Hlen Ho Ha Hfs Happ.
  assert (Hlen' : Z.of_nat (length events) < 2 ^ 32) by lia.
  destruct (opened_and_appended _ _ _ _ _ _ _ _ _ _ _ Hfresh Hno Hsg Hlen' Ho Ha)
    as (done & live & Hset & Hh & Hseal & Hn & Hle & _).
  assert (Hb : Z.of_nat (length (concat done ++ live)) + 1 < 2 ^ 32) by lia.
  rewrite length_app in Hn.
  destruct Hfs as [[st ->]| ->].
  - destruct (append_interrupted _ _ _ _ _ _ _ _ _ _ _ _ Hset Hh Hseal Hb Happ)
      as (cbor & m & Hset2 & Hh2 & Hseal2 & Hm & Hno2).
    eapply reopened_counts; eauto. rewrite app_assoc, !length_app. cbn. lia.
  - destruct (rotation_interrupted _ _ _ _ _ _ _ _ _ _ _ _ Hset Hh Hseal Hb Happ)
      as (cbor & Hset2 & Hh2 & Hno2 & Hseal2).
    eapply (reopened_counts _ _ _ _ _ _ _ 0); eauto; [cbn; lia|].
    rewrite concat_app, !length_app. cbn. rewrite app_nil_r, length_app. cbn. lia.
Qed.

(** Opening a log whose live file is empty and has no seal starts at the genesis. *)
Lemma open_unsealed_empty d p key max sg done :
  d_faults d = [] -> p ∉ d_locks d -> signer_ok sg ->
  SegmentSet d p key done [] -> d_files d !! seal_path p = None ->
  exists d' l', open_inner d p key max sg = (d', Ok l') /\ SegmentSet d' p key done [] /\
    segment_start_hash l' = genesis_hash key /\ LiveSeal d' p key [] 0.
Proof.
  intros Hno Hlock Hsg Hset Hseal. unfold open_inner.
  destruct (acquire_free d p Hlock) as (d1 & -> & Hno1 & _ & Hf1). rewrite Hno in Hno1.
  assert (Hset1 : SegmentSet d1 p key done []).
  { eapply segment_set_frame; [|done]. intros x Hx. apply Hf1. intros ->.
    by apply Hx, lock_path_sidecar. }
  assert (Hread : read_seal d1 p key = Absent).
  { unfold read_seal. rewrite Hf1 by apply seal_not_lock. by rewrite Hseal. }
  pose proof (ss_live _ _ _ _ _ Hset1) as Hlive. cbn [chain_bytes] in Hlive.
  unfold check_resumable, verify_chain, stream_verify, recover_state. rewrite Hread, Hlive.
  cbn. rewrite (open_create_exists _ _ _ Hlive).
  set (l := Build_TamperLog _ _ _ _ _ _ _ _).
  assert (Hh : Handle l p key [] []) by (by constructor).
  pose proof (refresh_seal_spec d1 l p key [] [] Hh) as Hr. rewrite Hno1 in Hr. cbn in Hr.
  destruct (refresh_seal d1 l) as [d2 [[]|e]]; destruct Hr as (Hf & _ & _ & Hsl & Hok); [|done].
  exists d2, l. split_and!; try done. by eapply segment_set_frame.
Qed.

(** A rotation whose seal write fails before it is published does not
    resume: the new live file is left empty without a seal, reopening accepts
    it as an empty log and starts its chain at the genesis hash, not at the
    end of the segment just rotated out, and from then on the segment chain
    reports the log as broken although nobody tampered with it. *)
Theorem interrupted_rotation_forgets_link d p key max sg events d0 l0 d1 l1 n st now k d2 l2 f :
  fresh d p -> d_faults d = [] -> signer_ok sg -> Z.of_nat (length events) + 1 < 2 ^ 32 ->
  open_inner d p key max sg = (d0, Ok l0) -> append_all d0 l0 events = (d1, l1, n) ->
  st <> DirSync ->
  append (with_faults [None; Some st] d1) l1 now k = (d2, l2, Err (ErrIo f)) ->
  prev_hash l2 <> genesis_hash key ->
  exists d3 l3,
    open_inner (release d2 p) p key max sg = (d3, Ok l3) /\
    segment_start_hash l3 = genesis_hash key /\ segment_start_hash l2 = prev_hash l2 /\
    verify_segment_chain d3 p key
    = Ok (SegmentBroken p (Broken (n + 1) (prev_hash l2) (genesis_hash key))).
Proof.
  intros Hfresh Hno0 Hsg Hlen Ho Ha Hst Happ Hne.
  assert (Hlen' : Z.of_nat (length events) < 2 ^ 32) by lia.
  destruct (opened_and_appended _ _ _ _ _ _ _ _ _ _ _ Hfresh Hno0 Hsg Hlen' Ho Ha)
    as (done & live & Hset & Hh & Hseal & Hn & Hle & _).
  assert (Hb : Z.of_nat (length (concat done ++ live)) + 1 < 2 ^ 32) by lia.
  destruct (rotation_interrupted _ _ _ _ _ _ _ _ _ _ _ _ Hset Hh Hseal Hb Happ)
    as (cbor & Hset2 & Hh2 & Hno & Hnone).
  assert (d_files d2 !! seal_path p = None) as Hnone' by (by destruct st). clear Hnone.
  destruct (open_unsealed_empty (release d2 p) p key max sg (done ++ [live ++ [cbor]]))
    as (d3 & l3 & Ho3 & Hset3 & Hs3 & prov & Hprov & Hseal3); try done.
  { by apply release_unlocks. }
  { by apply segment_set_release. }
  pose proof (h_prev _ _ _ _ _ Hh2) as Hp2. cbn [chain_end] in Hp2.
  exists d3, l3. split_and!; [done|done|by rewrite (h_start _ _ _ _ _ Hh2)|].
  rewrite (verify_segment_chain_walk _ _ _ _ _ Hset3). unfold verify_live.
  cbn [expected_start]. rewrite (live_stream _ _ _ _ _ Hset3), <- Hp2.
  rewrite (read_seal_payload _ _ _ _ _ _ Hseal3) by (lia || apply segments_end_len || done).
  cbn [result_bind break_status total_entries].
  change (segments_end key []) with (genesis_hash key).
  replace (eq_bytes (genesis_hash key) (prev_hash l2)) with false
    by (symmetry; apply bool_decide_eq_false_2; congruence).
  cbn [negb segment_ok]. do 4 f_equal. rewrite concat_app, !length_app in *. cbn.
  rewrite app_nil_r, length_app in *. cbn. lia.
Qed.

(** ** A forgery that needs no key *)

(** A one-entry log made of nothing but the bytes of an unsigned seal: its
    domain tag and count as the payload, its MAC as the entry's hash. *)
Definition forged_log (seal : bytes) : bytes :=
  let payload := SEAL_DOMAIN ++ take SEAL_COUNT_LEN seal in
  to_le_bytes 4 (Z.of_nat (length payload)) ++ payload ++ drop (SEAL_COUNT_LEN + SEAL_LINK_LEN) seal.

(** The MAC of an unsigned seal is the hash of a chain entry. *)
Lemma forged_log_chain d p key c start raw :
  d_files d !! seal_path p = Some raw -> bytes_ok raw -> read_seal d p key = Valid c start None ->
  0 <= c /\ forged_log raw = chain_bytes key start [SEAL_DOMAIN ++ take SEAL_COUNT_LEN raw].
Proof.
  intros Hraw Hok Hread. unfold read_seal in Hread. rewrite Hraw in Hread.
  destruct (length raw =? SEAL_FILE_LEN)%nat eqn:El.
  2:{ destruct (length raw =? SIGNED_SEAL_FILE_LEN)%nat; [|done].
      unfold read_signed_seal in Hread. cbv zeta in Hread. by destruct (eq_bytes _ _). }
  apply Nat.eqb_eq in El. unfold read_unsigned_seal in Hread.
  destruct (eq_bytes _ _) eqn:Emac; [|done]. apply eq_bytes_true in Emac.
  injection Hread as Hc Hs. rewrite Hc, Hs in Emac.
  set (cnt := take SEAL_COUNT_LEN raw) in *.
  assert (Hcnt : bytes_ok cnt) by (by apply Forall_take).
  assert (Hlen : length cnt = SEAL_COUNT_LEN) by (unfold cnt; rewrite length_take, El; done).
  split; [pose proof (from_le_bytes_range cnt Hcnt); lia|].
  unfold forged_log. fold cnt. rewrite <- Emac. unfold seal_mac. rewrite <- Hc.
  change 8%nat with SEAL_COUNT_LEN. rewrite <- Hlen, to_from_le_bytes by done.
  cbn [chain_bytes]. rewrite app_nil_r. unfold entry_hash. by rewrite <- (app_assoc SEAL_DOMAIN).
Qed.

(** Whoever can read the unsigned seal of a log of at most one entry can
    replace the log without the chain key: the file built from the seal's own
    bytes passes [verify_chain], as [Intact] under a seal of one entry and as
    [Unsealed] under a seal of none, and a writer opening it resumes. *)
Theorem seal_mac_forges_entry d p key c start raw :
  d_files d !! seal_path p = Some raw -> bytes_ok raw ->
  read_seal d p key = Valid c start None -> c <= 1 ->
  let d' := set_files (insert p (forged_log raw)) d in
  verify_chain d' p key
  = Ok {| vr_entries_verified := 1; vr_status := if c =? 1 then Intact else Unsealed 1 0 |} /\
  check_resumable d' p key = Ok tt.
Proof.
  intros Hraw Hok Hread Hc d'.
  destruct (forged_log_chain _ _ _ _ _ _ Hraw Hok Hread) as [Hc0 Hforged].
  assert (Hp : d_files d' !! p = Some (forged_log raw)) by apply lookup_insert_eq.
  assert (Hread' : read_seal d' p key = Valid c start None).
  { rewrite <- Hread. unfold read_seal. cbn. rewrite lookup_insert_ne; [done|].
    intros E. apply (sidecar_not_path p). by left. }
  assert (Hv : verify_chain d' p key
    = Ok {| vr_entries_verified := 1; vr_status := if c =? 1 then Intact else Unsealed 1 0 |}).
  { rewrite (verify_chain_sealed _ _ _ _ _ _ _ Hp Hread').
    rewrite Hforged, <- (app_nil_r (chain_bytes _ _ _)), stream_bytes_chain.
    - clear -Hc Hc0. assert (c = 0 \/ c = 1) as [-> | ->] by lia; reflexivity.
    - constructor; [|constructor]. unfold payload_ok, MAX_ENTRY_BYTES. rewrite length_app, length_take.
      change (length SEAL_DOMAIN) with 25%nat. unfold SEAL_COUNT_LEN. lia.
    - cbn. lia. }
  split; [done|]. unfold check_resumable. rewrite Hp, Hv. cbn. by destruct (c =? 1).
Qed.

End Writer.

(** * Witnesses *)

Module Sample.
#[local] Existing Instance toy_hash.
#[local] Existing Instance toy_cbor.

Definition dir : Disk := {| d_files := ∅; d_locks := ∅; d_faults := [] |}.
Definition log : FileName := byte_str "audit.log".
Definition key : bytes := repeat 7 32.
Definition event : Z * LogEntryKind := (5, VaultMutation [1; 2; 3] (byte_str "add")).

(** A limit of 60 bytes rotates after the second entry. *)
Definition opened : Disk * result TamperLog TamperLogError := open_inner dir log key 60 None.
Definition handle0 : TamperLog :=
  {| path := []; prev_hash := []; segment_start_hash := []; next_sequence := 0; bytes_written := 0;
     max_file_bytes := 0; chain_key := []; signer := None |}.
Definition the_handle (r : result TamperLog TamperLogError) : TamperLog :=
  match r with Ok l => l | Err _ => handle0 end.

Definition after (events : list (Z * LogEntryKind)) : Disk * TamperLog * Z :=
  append_all opened.1 (the_handle opened.2) events.

Lemma opened_ok : open_inner dir log key 60 None = (opened.1, Ok (the_handle opened.2)).
Proof.
  assert (Hok : is_ok opened.2 = true) by (vm_compute; reflexivity).
  fold opened. destruct opened as [d [l|e]]; [reflexivity|discriminate Hok].
Qed.

Lemma after_eq events : after events = ((after events).1.1, (after events).1.2, (after events).2).
Proof. by destruct (after events) as [[??]?]. Qed.

Lemma dir_fresh : fresh dir log.
Proof.
  split_and!; [done|apply not_elem_of_empty|].
  intros name [c Hc]. cbn in Hc. by rewrite lookup_empty in Hc.
Qed.

(** The event serialises to 14 bytes beside its sequence number, whatever that is. *)
Lemma event_writes : writes event.
Proof. intros seq Hseq. eexists. split; [reflexivity|]. unfold payload_ok. cbn. done. Qed.

Lemma writer_log_verifies_witness :
  verify_segment_chain (after [event; event; event]).1.1 log key = Ok (SegmentsIntact 3 2) /\
  exists done live, SegmentSet (after [event; event; event]).1.1 log key done live /\
    Forall2 logged [event; event; event] (concat done ++ live).
Proof.
  split; [vm_compute; reflexivity|].
  destruct (writer_log_verifies dir log key 60 None dir_fresh eq_refl I) as (d0 & l0 & Ho & Hall).
  rewrite opened_ok in Ho. injection Ho as <- <-.
  destruct (Hall [event; event; event] _ _ _ ltac:(vm_compute; reflexivity) (after_eq [event; event; event]))
    as (done & live & segs & logs & Hset & _ & _ & Hlog & _ & Hw).
  exists done, live. split; [exact Hset|]. rewrite <- Hw; [exact Hlog|].
  repeat constructor; apply event_writes.
Defined.

Definition failing (faults : list (option SealStage)) (events : list (Z * LogEntryKind))
  : Disk * TamperLog * result Z TamperLogError :=
  append (with_faults faults (after events).1.1) (after events).1.2 9 event.2.

Lemma failing_eq faults events r :
  (failing faults events).2 = r ->
  failing faults events = ((failing faults events).1.1, (failing faults events).1.2, r).
Proof. intros <-. by destruct (failing faults events) as [[??]?]. Qed.

Lemma interrupted_append_resumes_witness :
  let l2 := (failing [None; Some DirSync] [event]).1.2 in
  (exists d3 l3 segs,
    open_inner (release (failing [Some Sync] [event]).1.1 log) log key 60 None = (d3, Ok l3) /\
    prev_hash l3 = prev_hash (failing [Some Sync] [event]).1.2 /\
    next_sequence l3 = next_sequence (failing [Some Sync] [event]).1.2 /\
    verify_segment_chain d3 log key = Ok (SegmentsIntact ((after [event]).2 + 1) segs)) /\
  segment_start_hash l2 = prev_hash l2 /\
  exists d3 l3 segs,
    open_inner (release (failing [None; Some DirSync] [event]).1.1 log) log key 60 None = (d3, Ok l3) /\
    prev_hash l3 = prev_hash l2 /\ next_sequence l3 = next_sequence l2 /\
    verify_segment_chain d3 log key = Ok (SegmentsIntact ((after [event]).2 + 1) segs).
Proof.
  split; [|split; [vm_compute; reflexivity|]].
  - apply (interrupted_append_resumes dir log key 60 None [event] _ _ _ _ _ [Some Sync] 9 event.2 _ _
              (seal_path log ++ TMP_SUFFIX) dir_fresh eq_refl I ltac:(vm_compute; reflexivity)
              opened_ok (after_eq [event])); [left; exists Sync; reflexivity|].
    apply failing_eq. vm_compute. reflexivity.
  - apply (interrupted_append_resumes dir log key 60 None [event] _ _ _ _ _ [None; Some DirSync] 9 event.2 _ _
              (seal_path log) dir_fresh eq_refl I ltac:(vm_compute; reflexivity)
              opened_ok (after_eq [event])); [right; reflexivity|].
    apply failing_eq. vm_compute. reflexivity.
Defined.

Lemma interrupted_rotation_forgets_link_witness :
  let l2 := (failing [None; Some Write] [event]).1.2 in
  exists d3 l3,
    open_inner (release (failing [None; Some Write] [event]).1.1 log) log key 60 None = (d3, Ok l3) /\
    segment_start_hash l3 = genesis_hash key /\ segment_start_hash l2 = prev_hash l2 /\
    verify_segment_chain d3 log key
    = Ok (SegmentBroken log (Broken ((after [event]).2 + 1) (prev_hash l2) (genesis_hash key))).
Proof.
  apply (interrupted_rotation_forgets_link dir log key 60 None [event] _ _ _ _ _ Write 9 event.2 _ _
            (seal_path log ++ TMP_SUFFIX) dir_fresh eq_refl I ltac:(vm_compute; reflexivity)
            opened_ok (after_eq [event]) ltac:(discriminate)).
  - apply failing_eq. vm_compute. reflexivity.
  - vm_compute. discriminate.
Defined.

(** The seal of a log of one entry, as it lies in the directory. *)
Definition sealed_dir : Disk := (after [event]).1.1.
Definition seal_bytes : bytes := default [] (d_files sealed_dir !! seal_path log).

Lemma seal_mac_forges_entry_witness :
  let d' := set_files (insert log (forged_log seal_bytes)) sealed_dir in
  verify_chain d' log key = Ok {| vr_entries_verified := 1; vr_status := Intact |} /\
  check_resumable d' log key = Ok tt.
Proof.
  apply (seal_mac_forges_entry sealed_dir log key 1 (genesis_hash key) seal_bytes);
    [vm_compute; reflexivity| |vm_compute; reflexivity|lia].
  apply (bool_decide_unpack (bytes_ok seal_bytes)). vm_compute. exact I.
Defined.
End Sample.
