(* ===== verification/Caller.v ===== *)
(** * Caller authorization contracts (crates/tekmerion/src/caller*.rs)

    Opaque references and epochs, the claims an application authority returns,
    the policy-free resolver that turns them into a validated caller, and the
    check made immediately before a protected effect. A [Timestamp] is the
    instant it denotes; the code only compares timestamps. The authority
    (an ACL or a service policy, composed by the application) and the BLAKE3
    hash are classes. *)

From S2P Require Import Prelude TamperLog.

Local Open Scope Z_scope.

Abbreviation Timestamp := Z (only parsing).

(** ** Opaque references and epochs (caller_ref.rs) *)

(** The plain [blake3::Hasher]: [update]s concatenate. *)
Class PlainHash : Type := { blake3 : bytes -> bytes }.

(** The types [define_opaque_ref!] declares, one per domain. *)
Inductive RefDomain : Type := DCaller | DPersona | DCapability | DScope | DEffect | DEvidence | DReceipt.

Definition domain_bytes (d : RefDomain) : bytes :=
  byte_str (match d with
  | DCaller => "akroasis.caller.v1"
  | DPersona => "akroasis.persona.v1"
  | DCapability => "akroasis.capability.v1"
  | DScope => "akroasis.scope.v1"
  | DEffect => "akroasis.effect.v1"
  | DEvidence => "akroasis.evidence.v1"
  | DReceipt => "akroasis.receipt.v1"
  end)%string.

Record OpaqueRef (d : RefDomain) : Type := mkRef { ref_bytes : bytes }.
Arguments mkRef {d} _.
Arguments ref_bytes {d} _.

Abbreviation CallerRef := (OpaqueRef DCaller) (only parsing).
Abbreviation PersonaRef := (OpaqueRef DPersona) (only parsing).
Abbreviation CapabilityRef := (OpaqueRef DCapability) (only parsing).
Abbreviation ScopeRef := (OpaqueRef DScope) (only parsing).
Abbreviation EffectRef := (OpaqueRef DEffect) (only parsing).
Abbreviation EvidenceDigest := (OpaqueRef DEvidence) (only parsing).
Abbreviation ReceiptDigest := (OpaqueRef DReceipt) (only parsing).

#[export] Instance OpaqueRef_eq_dec d : EqDecision (OpaqueRef d).
Proof. solve_decision. Defined.

Definition from_canonical `{PlainHash} (d : RefDomain) (value : bytes) : OpaqueRef d :=
  mkRef (blake3 (domain_bytes d ++ [0] ++ value)).

(** [CallerContractError] without its source locations. *)
Inductive CallerContractError : Type :=
| ZeroEpoch (field : string)
| MissingCallerField (field : string)
| InvalidValidityWindow
| UnknownResolverVersion (resolver_version : Z)
| UnknownCallerVersion (schema_version : Z)
| UnknownIdentityErr
| UntrustedIdentityErr
| RevokedIdentity
| AuthorityUnavailable
| ServiceEvidenceNotYetValid
| IdentityReferenceMismatch
| ServiceAuthenticationTimeMismatch
| ServiceEvidenceExpiryMismatch
| CNotYetValid
| CStale
| CExpired.

(** The types [define_epoch!] declares: a [NonZeroU64] each. *)
Inductive EpochKind : Type := KPolicyEpoch | KSchemaEpoch.
Record Epoch (k : EpochKind) : Type := mkEpoch { epoch_get : Z }.
Arguments mkEpoch {k} _.
Arguments epoch_get {k} _.
Abbreviation PolicyEpoch := (Epoch KPolicyEpoch) (only parsing).
Abbreviation SchemaEpoch := (Epoch KSchemaEpoch) (only parsing).

#[export] Instance Epoch_eq_dec k : EqDecision (Epoch k).
Proof. solve_decision. Defined.

Definition try_from_u64 (k : EpochKind) (value : Z) : result (Epoch k) CallerContractError :=
  if value =? 0
  then Err (ZeroEpoch match k with KPolicyEpoch => "PolicyEpoch"%string | KSchemaEpoch => "SchemaEpoch"%string end)
  else Ok (mkEpoch value).

(** ** Claims (caller.rs) *)

Definition CALLER_CONTEXT_VERSION : Z := 1.
Definition CALLER_RESOLVER_VERSION : Z := 1.

Inductive PrincipalSource : Type := LocalOsPeer | ServiceIdentity.
Inductive TrustState : Type := Trusted | Untrusted.
Inductive RevocationState : Type := Active | Revoked.

#[export] Instance TrustState_eq_dec : EqDecision TrustState.
Proof. solve_decision. Defined.
#[export] Instance RevocationState_eq_dec : EqDecision RevocationState.
Proof. solve_decision. Defined.

Record AuthorityGrant : Type := mkGrant { ag_capability : CapabilityRef; ag_scope : ScopeRef }.

#[export] Instance AuthorityGrant_eq_dec : EqDecision AuthorityGrant.
Proof. solve_decision. Defined.

Record LocalPeerCredentials : Type := from_os_peer { lp_uid : Z; lp_gid : Z; lp_pid : option Z }.

Record AuthorityClaimsBuilder : Type := mkClaimsBuilder {
  cb_schema_version : option Z; cb_caller_ref : option CallerRef; cb_grant : option AuthorityGrant;
  cb_policy_epoch : option PolicyEpoch; cb_authenticated_at : option Timestamp;
  cb_fresh_until : option Timestamp; cb_expires_at : option Timestamp; cb_persona : option PersonaRef }.

Definition claims_builder : AuthorityClaimsBuilder :=
  mkClaimsBuilder None None None None None None None None.

(** The builder's setters: each replaces its own fields. *)
Definition set_schema_version (v : Z) (b : AuthorityClaimsBuilder) : AuthorityClaimsBuilder :=
  mkClaimsBuilder (Some v) (cb_caller_ref b) (cb_grant b) (cb_policy_epoch b)
    (cb_authenticated_at b) (cb_fresh_until b) (cb_expires_at b) (cb_persona b).
Definition set_caller_ref (r : CallerRef) (b : AuthorityClaimsBuilder) : AuthorityClaimsBuilder :=
  mkClaimsBuilder (cb_schema_version b) (Some r) (cb_grant b) (cb_policy_epoch b)
    (cb_authenticated_at b) (cb_fresh_until b) (cb_expires_at b) (cb_persona b).
Definition set_grant (g : AuthorityGrant) (b : AuthorityClaimsBuilder) : AuthorityClaimsBuilder :=
  mkClaimsBuilder (cb_schema_version b) (cb_caller_ref b) (Some g) (cb_policy_epoch b)
    (cb_authenticated_at b) (cb_fresh_until b) (cb_expires_at b) (cb_persona b).
Definition set_policy_epoch (p : PolicyEpoch) (b : AuthorityClaimsBuilder) : AuthorityClaimsBuilder :=
  mkClaimsBuilder (cb_schema_version b) (cb_caller_ref b) (cb_grant b) (Some p)
    (cb_authenticated_at b) (cb_fresh_until b) (cb_expires_at b) (cb_persona b).
Definition set_validity (authenticated_at fresh_until expires_at : Timestamp) (b : AuthorityClaimsBuilder)
  : AuthorityClaimsBuilder :=
  mkClaimsBuilder (cb_schema_version b) (cb_caller_ref b) (cb_grant b) (cb_policy_epoch b)
    (Some authenticated_at) (Some fresh_until) (Some expires_at) (cb_persona b).
Definition set_persona (p : PersonaRef) (b : AuthorityClaimsBuilder) : AuthorityClaimsBuilder :=
  mkClaimsBuilder (cb_schema_version b) (cb_caller_ref b) (cb_grant b) (cb_policy_epoch b)
    (cb_authenticated_at b) (cb_fresh_until b) (cb_expires_at b) (Some p).

Record AuthorityClaims : Type := mkClaims {
  ac_schema_version : Z; ac_caller_ref : CallerRef; ac_grant : AuthorityGrant;
  ac_policy_epoch : PolicyEpoch; ac_authenticated_at : Timestamp; ac_fresh_until : Timestamp;
  ac_expires_at : Timestamp; ac_persona : option PersonaRef }.

(** [Option::context] and [ensure!] of snafu. *)
Definition context_opt {A E} (o : option A) (e : E) : result A E :=
  match o with Some a => Ok a | None => Err e end.
Notation "'ensure?' c 'else' e 'in' k" := (if c then k else Err e)
  (at level 10, c at level 200, e at level 200, k at level 200) : akroasis_scope.

Definition claims_build (b : AuthorityClaimsBuilder) : result AuthorityClaims CallerContractError :=
  let? schema_version := context_opt (cb_schema_version b) (MissingCallerField "schema_version") in
  let? caller_ref := context_opt (cb_caller_ref b) (MissingCallerField "caller_ref") in
  let? grant := context_opt (cb_grant b) (MissingCallerField "grant") in
  let? policy_epoch := context_opt (cb_policy_epoch b) (MissingCallerField "policy_epoch") in
  let? authenticated_at := context_opt (cb_authenticated_at b) (MissingCallerField "authenticated_at") in
  let? fresh_until := context_opt (cb_fresh_until b) (MissingCallerField "fresh_until") in
  let? expires_at := context_opt (cb_expires_at b) (MissingCallerField "expires_at") in
  ensure? (authenticated_at <? fresh_until) && (fresh_until <? expires_at) else InvalidValidityWindow in
  Ok (mkClaims schema_version caller_ref grant policy_epoch authenticated_at fresh_until expires_at
        (cb_persona b)).

(** ** The resolver *)

Inductive AuthorityDecision : Type :=
| Granted (claims : AuthorityClaims)
| UnknownIdentity
| UntrustedIdentity
| RevokedDecision
| Unavailable.

Class CallerAuthority : Type := {
  authority_local : LocalPeerCredentials -> Timestamp -> AuthorityDecision;
  authority_service : CallerRef -> Timestamp -> Timestamp -> Timestamp -> AuthorityDecision
}.

Record ValidatedCaller : Type := mkCaller {
  vc_schema_version : Z; vc_source : PrincipalSource; vc_caller_ref : CallerRef;
  vc_grant : AuthorityGrant; vc_policy_epoch : PolicyEpoch; vc_authenticated_at : Timestamp;
  vc_fresh_until : Timestamp; vc_expires_at : Timestamp; vc_persona : option PersonaRef;
  vc_trust : TrustState; vc_revocation : RevocationState }.

Definition from_authority (source : PrincipalSource) (c : AuthorityClaims) : ValidatedCaller :=
  mkCaller CALLER_CONTEXT_VERSION source (ac_caller_ref c) (ac_grant c) (ac_policy_epoch c)
    (ac_authenticated_at c) (ac_fresh_until c) (ac_expires_at c) (ac_persona c) Trusted Active.

Definition decision_claims (decision : AuthorityDecision) : result AuthorityClaims CallerContractError :=
  match decision with
  | Granted claims => Ok claims
  | UnknownIdentity => Err UnknownIdentityErr
  | UntrustedIdentity => Err UntrustedIdentityErr
  | RevokedDecision => Err RevokedIdentity
  | Unavailable => Err AuthorityUnavailable
  end.

(** The [if let Some(..) = expected_service] block. *)
Definition check_service (claims : AuthorityClaims)
    (expected_service : option (CallerRef * Timestamp * Timestamp)) : result unit CallerContractError :=
  match expected_service with
  | None => Ok tt
  | Some (expected_identity, expected_authenticated_at, evidence_expires_at) =>
      ensure? bool_decide (ac_caller_ref claims = expected_identity) else IdentityReferenceMismatch in
      ensure? ac_authenticated_at claims =? expected_authenticated_at else ServiceAuthenticationTimeMismatch in
      ensure? ac_expires_at claims <=? evidence_expires_at else ServiceEvidenceExpiryMismatch in
      Ok tt
  end.

Definition resolve_decision (source : PrincipalSource)
    (expected_service : option (CallerRef * Timestamp * Timestamp)) (observed_at : Timestamp)
    (decision : AuthorityDecision) : result ValidatedCaller CallerContractError :=
  let? claims := decision_claims decision in
  ensure? ac_schema_version claims =? CALLER_CONTEXT_VERSION
    else UnknownCallerVersion (ac_schema_version claims) in
  let? _ := check_service claims expected_service in
  ensure? ac_authenticated_at claims <=? observed_at else CNotYetValid in
  ensure? observed_at <? ac_expires_at claims else CExpired in
  ensure? observed_at <? ac_fresh_until claims else CStale in
  Ok (from_authority source claims).

Section Resolver.
Context {A : CallerAuthority}.

(** [CallerResolver::try_new] keeps the authority it is given. *)
Definition try_new (resolver_version : Z) : result CallerAuthority CallerContractError :=
  ensure? resolver_version =? CALLER_RESOLVER_VERSION else UnknownResolverVersion resolver_version in
  Ok A.

Definition resolve_local (peer : LocalPeerCredentials) (observed_at : Timestamp)
  : result ValidatedCaller CallerContractError :=
  resolve_decision LocalOsPeer None observed_at (authority_local peer observed_at).

Definition resolve_service (identity_ref : CallerRef)
    (authenticated_at evidence_expires_at observed_at : Timestamp)
  : result ValidatedCaller CallerContractError :=
  ensure? authenticated_at <=? observed_at else ServiceEvidenceNotYetValid in
  ensure? observed_at <? evidence_expires_at else ServiceEvidenceExpiryMismatch in
  resolve_decision ServiceIdentity (Some (identity_ref, authenticated_at, evidence_expires_at)) observed_at
    (authority_service identity_ref authenticated_at evidence_expires_at observed_at).

End Resolver.

(** ** The effect-time check *)

Record AuthorizationRequirement : Type := mkRequirement {
  rq_grant : AuthorityGrant; rq_policy_epoch : PolicyEpoch; rq_persona : option PersonaRef }.

Inductive AuthorizationDenial : Type :=
| MissingContext
| UnknownContextVersion
| DUntrusted
| NotYetValid
| Stale
| Expired
| DRevoked
| PolicyEpochMismatch
| WrongPersona
| InsufficientCapability
| InsufficientScope
| ClockRegression.

Record AuthorizedCaller : Type := mkAuthorized {
  au_caller_ref : CallerRef; au_grant : AuthorityGrant; au_policy_epoch : PolicyEpoch;
  au_persona : option PersonaRef }.

Definition authorize_caller (caller : option ValidatedCaller) (requirement : AuthorizationRequirement)
    (observed_at : Timestamp) : result AuthorizedCaller AuthorizationDenial :=
  let? caller := context_opt caller MissingContext in
  if negb (vc_schema_version caller =? CALLER_CONTEXT_VERSION) then Err UnknownContextVersion
  else if bool_decide (vc_trust caller <> Trusted) then Err DUntrusted
  else if bool_decide (vc_revocation caller <> Active) then Err DRevoked
  else if observed_at <? vc_authenticated_at caller then Err NotYetValid
  else if vc_expires_at caller <=? observed_at then Err Expired
  else if vc_fresh_until caller <=? observed_at then Err Stale
  else if bool_decide (vc_policy_epoch caller <> rq_policy_epoch requirement) then Err PolicyEpochMismatch
  else if bool_decide (vc_persona caller <> rq_persona requirement) then Err WrongPersona
  else if bool_decide (ag_capability (vc_grant caller) <> ag_capability (rq_grant requirement))
  then Err InsufficientCapability
  else if bool_decide (ag_scope (vc_grant caller) <> ag_scope (rq_grant requirement))
  then Err InsufficientScope
  else Ok (mkAuthorized (vc_caller_ref caller) (vc_grant caller) (vc_policy_epoch caller)
             (vc_persona caller)).

(** ** Opaque references are separated by domain *)

Lemma domain_bytes_nonzero d : Forall (fun b => b <> 0) (domain_bytes d).
Proof. destruct d; repeat constructor; done. Qed.

Lemma domain_bytes_inj d1 d2 : domain_bytes d1 = domain_bytes d2 -> d1 = d2.
Proof. by destruct d1, d2. Qed.

(** A separator that occurs in neither prefix cuts both strings at one place. *)
Lemma separator_inj (p1 p2 s1 s2 : bytes) :
  Forall (fun b => b <> 0) p1 -> Forall (fun b => b <> 0) p2 ->
  p1 ++ 0 :: s1 = p2 ++ 0 :: s2 -> p1 = p2 /\ s1 = s2.
Proof.
  intros H1; revert p2; induction H1 as [|x p1 Hx _ IH]; intros [|y p2] H2 Heq; cbn in Heq;
    inversion Heq; subst; try (inversion_clear H2); try done.
  by destruct (IH p2) as [-> ->].
Qed.

(** Two references of any kinds with the same bytes name the same value of the
    same kind, unless the hash collides on the two preimages. *)
Lemma from_canonical_separates `{PlainHash} (d1 d2 : RefDomain) (v1 v2 : bytes) :
  (blake3 (domain_bytes d1 ++ [0] ++ v1) = blake3 (domain_bytes d2 ++ [0] ++ v2) ->
   domain_bytes d1 ++ [0] ++ v1 = domain_bytes d2 ++ [0] ++ v2) ->
  ref_bytes (from_canonical d1 v1) = ref_bytes (from_canonical d2 v2) -> d1 = d2 /\ v1 = v2.
Proof.
  intros Hfree Heq. specialize (Hfree Heq).
  apply separator_inj in Hfree as [Hd ->]; auto using domain_bytes_nonzero, domain_bytes_inj.
Qed.

(** ** Claims *)

(** Claims exist only through the builder: their window is not empty. *)
Lemma build_window b claims :
  claims_build b = Ok claims ->
  ac_authenticated_at claims < ac_fresh_until claims < ac_expires_at claims.
Proof.
  unfold claims_build, context_opt, result_bind.
  repeat case_match; intros; simplify_eq; cbn; lia.
Qed.

(** ** The effect-time check, exactly *)

Definition permits (v : ValidatedCaller) (r : AuthorizationRequirement) (t : Timestamp) : Prop :=
  vc_schema_version v = CALLER_CONTEXT_VERSION /\ vc_trust v = Trusted /\ vc_revocation v = Active /\
  vc_authenticated_at v <= t /\ t < vc_expires_at v /\ t < vc_fresh_until v /\
  vc_policy_epoch v = rq_policy_epoch r /\ vc_persona v = rq_persona r /\ vc_grant v = rq_grant r.

Lemma grant_ext (g h : AuthorityGrant) :
  ag_capability g = ag_capability h -> ag_scope g = ag_scope h -> g = h.
Proof. destruct g, h; cbn; by intros -> ->. Qed.

Lemma authorize_caller_Ok caller r t a :
  authorize_caller caller r t = Ok a <->
  exists v, caller = Some v /\ permits v r t /\
    a = mkAuthorized (vc_caller_ref v) (rq_grant r) (rq_policy_epoch r) (rq_persona r).
Proof.
  unfold authorize_caller, permits. split.
  - destruct caller as [v|]; cbn [context_opt result_bind]; [|done].
    repeat case_bool_decide; split_ifs; try done; intros [= <-].
    exists v. split; [done|].
    assert (vc_grant v = rq_grant r) by auto using grant_ext.
    split; [repeat split; auto; lia | by f_equal].
  - intros (v & -> & (Hv & Ht & Ha & H1 & H2 & H3 & Hp & Hn & Hg) & ->).
    cbn [context_opt result_bind]. rewrite Hv, Hg, Hp, Hn.
    rewrite !bool_decide_false by (rewrite ?Ht, ?Ha; tauto).
    split_ifs; try lia; done.
Qed.

(** Authorization never revives: accepted now and accepted later, it was
    accepted at every instant between. *)
Lemma permits_convex v r t1 t2 t3 :
  permits v r t1 -> permits v r t3 -> t1 <= t2 <= t3 -> permits v r t2.
Proof. unfold permits. intuition lia. Qed.

(** ** The resolver, exactly *)

Definition service_ok (claims : AuthorityClaims) (e : option (CallerRef * Timestamp * Timestamp)) : Prop :=
  match e with
  | None => True
  | Some (identity, at_, until) =>
      ac_caller_ref claims = identity /\ ac_authenticated_at claims = at_ /\ ac_expires_at claims <= until
  end.

Lemma check_service_Ok claims e u : check_service claims e = Ok u -> service_ok claims e.
Proof. destruct e as [[[? ?] ?]|]; cbn; [case_bool_decide; split_ifs; intuition finish|done]. Qed.

Lemma resolve_decision_Ok source e t d v :
  resolve_decision source e t d = Ok v ->
  exists claims, d = Granted claims /\ v = from_authority source claims /\
    ac_schema_version claims = CALLER_CONTEXT_VERSION /\ service_ok claims e /\
    ac_authenticated_at claims <= t /\ t < ac_expires_at claims /\ t < ac_fresh_until claims.
Proof.
  unfold resolve_decision. destruct d as [claims| | | |]; cbn [decision_claims result_bind]; try done.
  destruct (check_service claims e) eqn:Hs; cbn [result_bind]; split_ifs; try done.
  intros [= <-]. exists claims. apply check_service_Ok in Hs. repeat split; auto; lia.
Qed.

Lemma permits_from_authority source c r t :
  permits (from_authority source c) r t <->
  ac_authenticated_at c <= t /\ t < ac_expires_at c /\ t < ac_fresh_until c /\
  r = mkRequirement (ac_grant c) (ac_policy_epoch c) (ac_persona c).
Proof. destruct r; unfold permits; cbn. intuition congruence. Qed.

(** A caller the resolver returned is authorized at a later time exactly for the
    grant, epoch and persona the authority named, within its freshness window. *)
Lemma resolved_local_authorizes `{CallerAuthority} peer t0 v r t a :
  resolve_local peer t0 = Ok v ->
  (authorize_caller (Some v) r t = Ok a <->
   exists c, authority_local peer t0 = Granted c /\
     ac_authenticated_at c <= t /\ t < ac_expires_at c /\ t < ac_fresh_until c /\
     r = mkRequirement (ac_grant c) (ac_policy_epoch c) (ac_persona c) /\
     a = mkAuthorized (ac_caller_ref c) (ac_grant c) (ac_policy_epoch c) (ac_persona c)).
Proof.
  intros Hr. apply resolve_decision_Ok in Hr as (c & Hd & -> & _ & _ & _).
  rewrite authorize_caller_Ok, Hd. split.
  - intros (w & [= <-] & Hp & ->). apply permits_from_authority in Hp as (? & ? & ? & ->).
    exists c. by repeat split.
  - intros (c' & [= <-] & ? & ? & ? & -> & ->). eexists; split; [done|].
    split; [by apply permits_from_authority|done].
Qed.

(** Service authority never exceeds its evidence: whatever the application
    authority answers, a service caller is authorized only under the identity that
    was authenticated, between its authentication and the expiry of the evidence,
    and only for the exact capability, scope, policy epoch and persona the authority
    granted to that identity. *)
Theorem service_authority_bounded `{CallerAuthority} identity_ref authenticated_at evidence_expires_at
    observed_at v requirement t a :
  resolve_service identity_ref authenticated_at evidence_expires_at observed_at = Ok v ->
  authorize_caller (Some v) requirement t = Ok a ->
  au_caller_ref a = identity_ref /\ authenticated_at <= t < evidence_expires_at /\
  exists c, authority_service identity_ref authenticated_at evidence_expires_at observed_at = Granted c /\
    t < ac_fresh_until c /\
    requirement = mkRequirement (ac_grant c) (ac_policy_epoch c) (ac_persona c) /\
    au_grant a = ac_grant c /\ au_policy_epoch a = ac_policy_epoch c /\ au_persona a = ac_persona c.
Proof.
  unfold resolve_service. split_ifs; try done. intros Hr Ha.
  apply resolve_decision_Ok in Hr as (c & Hd & -> & _ & (? & ? & ?) & _).
  apply authorize_caller_Ok in Ha as (w & [= <-] & Hp & ->).
  apply permits_from_authority in Hp as (? & ? & ? & ->). cbn. repeat split; try (auto || lia).
  by exists c.
Qed.

Definition demo_ref {d} (n : Z) : OpaqueRef d := mkRef (repeat n 32).
Definition demo_grant : AuthorityGrant := mkGrant (demo_ref 1) (demo_ref 2).
Definition demo_claims : AuthorityClaims :=
  mkClaims 1 (demo_ref 9) demo_grant (mkEpoch 4) 100 200 300 None.
Definition demo_authority : CallerAuthority :=
  {| authority_local _ _ := Granted demo_claims;
     authority_service id at_ until now := if bool_decide (id = demo_ref 9) then Granted demo_claims else UnknownIdentity |}.
Definition demo_requirement : AuthorizationRequirement := mkRequirement demo_grant (mkEpoch 4) None.
Definition demo_caller : ValidatedCaller := from_authority ServiceIdentity demo_claims.

Example build_example :
  claims_build (set_validity 100 200 300 (set_policy_epoch (mkEpoch 4) (set_grant demo_grant
    (set_caller_ref (demo_ref 9) (set_schema_version 1 claims_builder))))) = Ok demo_claims.
Proof. reflexivity. Qed.

Lemma service_authority_bounded_witness :
  @resolve_service demo_authority (demo_ref 9) 100 300 150 = Ok demo_caller /\
  100 <= 199 < 300.
Proof.
  split; [vm_compute; reflexivity|].
  refine (proj1 (proj2 (@service_authority_bounded demo_authority (demo_ref 9) 100 300 150 demo_caller
    demo_requirement 199 (mkAuthorized (demo_ref 9) demo_grant (mkEpoch 4) None) _ _)));
    vm_compute; reflexivity.
Defined.
