(* ===== verification/EffectReceipt.v ===== *)
(** * Effect receipts (crates/tekmerion/src/effect_receipt.rs, effect_receipt_state.rs)

    Intent and outcome receipts, their wire validation, the check a ledger makes
    on a child receipt, and the linear states between: a pending intent is
    appended to become a persisted one, which yields one pending outcome or a
    recovery ticket. A state is consumed by value, so each method takes the state
    and returns its successor. The ledger is the class [EffectReceiptSink]. Error
    values carry no source location. *)

From S2P Require Import Prelude TamperLog Caller.

Local Open Scope Z_scope.

Definition EFFECT_RECEIPT_VERSION : Z := 1.

Inductive EffectOutcome : Type :=
| Succeeded | Failed | Partial | Cancelled | Backpressured | AuthorizationDenied
| RecoveryRequired | Recovered.

Inductive RecoveryRelation : Type :=
| RNone
| RequiredFor (effect : EffectRef)
| RecoveryOf (effect : EffectRef).

Inductive ReceiptEvent : Type := Intent | Outcome (o : EffectOutcome).

Inductive ValidatedReceiptLink : Type := LinkOutcome | LinkRecoveryIntent.

#[export] Instance EffectOutcome_eq_dec : EqDecision EffectOutcome.
Proof. solve_decision. Defined.
#[export] Instance RecoveryRelation_eq_dec : EqDecision RecoveryRelation.
Proof. solve_decision. Defined.
#[export] Instance ReceiptEvent_eq_dec : EqDecision ReceiptEvent.
Proof. solve_decision. Defined.

Inductive EffectReceiptError : Type :=
| UnknownVersion (schema_version : Z)
| InvalidIntentShape
| MissingPredecessor
| PredecessorIsNotIntent
| PersistedReceiptIsNotOutcome
| NotRecoveryRequirement
| OutcomePrecedesIntent
| RecoveryIntentPrecedesRequirement
| PredecessorDigestMismatch
| ChildPrecedesPredecessor
| PredecessorContextMismatch
| InvalidPredecessorTransition
| RecoveryTargetMismatch
| RecoveryRelationMismatch.

(** ** Descriptors and receipts *)

Record RecoveryAuthorization : Type := mkRecoveryAuth {
  ra_original_effect : EffectRef; ra_requirement_digest : ReceiptDigest;
  ra_requirement_observed_at : Timestamp }.

Record EffectDescriptor : Type := mkDescriptor {
  ed_effect : EffectRef; ed_schema_epoch : SchemaEpoch; ed_evidence_digest : option EvidenceDigest;
  ed_recovery : option RecoveryAuthorization }.

Definition EffectDescriptor_new (effect : EffectRef) (schema_epoch : SchemaEpoch)
    (evidence_digest : option EvidenceDigest) : EffectDescriptor :=
  mkDescriptor effect schema_epoch evidence_digest None.

Definition from_recovery (effect : EffectRef) (schema_epoch : SchemaEpoch)
    (evidence_digest : option EvidenceDigest) (recovery : RecoveryAuthorization) : EffectDescriptor :=
  mkDescriptor effect schema_epoch evidence_digest (Some recovery).

Definition recovery_of (d : EffectDescriptor) : option EffectRef := ra_original_effect <$> ed_recovery d.

Record ReceiptContext : Type := mkContext {
  rc_caller_ref : CallerRef; rc_effect : EffectRef; rc_capability : CapabilityRef;
  rc_policy_epoch : PolicyEpoch; rc_schema_epoch : SchemaEpoch }.

#[export] Instance ReceiptContext_eq_dec : EqDecision ReceiptContext.
Proof. solve_decision. Defined.

Definition from_authorized (caller : AuthorizedCaller) (effect : EffectRef) (schema_epoch : SchemaEpoch)
  : ReceiptContext :=
  mkContext (au_caller_ref caller) effect (ag_capability (au_grant caller)) (au_policy_epoch caller)
    schema_epoch.

Record EffectReceipt : Type := mkReceipt {
  er_schema_version : Z; er_context : ReceiptContext; er_event : ReceiptEvent;
  er_observed_at : Timestamp; er_evidence_digest : option EvidenceDigest;
  er_predecessor : option ReceiptDigest; er_recovery : RecoveryRelation }.

#[export] Instance EffectReceipt_eq_dec : EqDecision EffectReceipt.
Proof. solve_decision. Defined.

(** ** Validation *)

Definition validate_outcome_relation (effect : EffectRef) (outcome : EffectOutcome)
    (recovery : RecoveryRelation) : result unit EffectReceiptError :=
  let valid :=
    match outcome with
    | Partial | RecoveryRequired => bool_decide (recovery = RequiredFor effect)
    | Recovered => match recovery with RecoveryOf _ => true | _ => false end
    | Succeeded => bool_decide (recovery = RNone)
    | Failed | Cancelled | Backpressured | AuthorizationDenied =>
        match recovery with RNone | RecoveryOf _ => true | _ => false end
    end in
  if valid then Ok tt else Err RecoveryRelationMismatch.

Definition intent_shape (predecessor : option ReceiptDigest) (recovery : RecoveryRelation) : bool :=
  match predecessor, recovery with
  | None, RNone => true
  | Some _, RecoveryOf _ => true
  | _, _ => false
  end.

Definition validate (schema_version : Z) (context : ReceiptContext) (event : ReceiptEvent)
    (observed_at : Timestamp) (evidence_digest : option EvidenceDigest)
    (predecessor : option ReceiptDigest) (recovery : RecoveryRelation)
  : result EffectReceipt EffectReceiptError :=
  if negb (schema_version =? EFFECT_RECEIPT_VERSION) then Err (UnknownVersion schema_version) else
  let? _ :=
    match event with
    | Intent => if intent_shape predecessor recovery then Ok tt else Err InvalidIntentShape
    | Outcome outcome =>
        match predecessor with
        | None => Err MissingPredecessor
        | Some _ => validate_outcome_relation (rc_effect context) outcome recovery
        end
    end in
  Ok (mkReceipt schema_version context event observed_at evidence_digest predecessor recovery).

(** The wire form has the receipt's fields; deserializing validates them. *)
Record RawEffectReceipt : Type := mkRaw {
  rw_schema_version : Z; rw_context : ReceiptContext; rw_event : ReceiptEvent;
  rw_observed_at : Timestamp; rw_evidence_digest : option EvidenceDigest;
  rw_predecessor : option ReceiptDigest; rw_recovery : RecoveryRelation }.

Definition receipt_serialize (r : EffectReceipt) : RawEffectReceipt :=
  mkRaw (er_schema_version r) (er_context r) (er_event r) (er_observed_at r) (er_evidence_digest r)
    (er_predecessor r) (er_recovery r).

Definition receipt_deserialize (raw : RawEffectReceipt) : result EffectReceipt EffectReceiptError :=
  validate (rw_schema_version raw) (rw_context raw) (rw_event raw) (rw_observed_at raw)
    (rw_evidence_digest raw) (rw_predecessor raw) (rw_recovery raw).

Definition expected_outcome_relation (intent : EffectReceipt) (outcome : EffectOutcome)
  : result RecoveryRelation EffectReceiptError :=
  match er_recovery intent, outcome with
  | RNone, (Succeeded | Failed | Cancelled | Backpressured | AuthorizationDenied) => Ok RNone
  | RNone, (Partial | RecoveryRequired) => Ok (RequiredFor (rc_effect (er_context intent)))
  | RecoveryOf effect, (Failed | Cancelled | Backpressured | AuthorizationDenied | Recovered) =>
      Ok (RecoveryOf effect)
  | RecoveryOf _, (Partial | RecoveryRequired) => Ok (RequiredFor (rc_effect (er_context intent)))
  | _, _ => Err InvalidPredecessorTransition
  end.

Definition validate_outcome_child (self intent : EffectReceipt) (outcome : EffectOutcome)
  : result unit EffectReceiptError :=
  if bool_decide (er_context self <> er_context intent) then Err PredecessorContextMismatch else
  let? expected := expected_outcome_relation intent outcome in
  if bool_decide (er_recovery self <> expected) then Err RecoveryTargetMismatch else Ok tt.

Definition validate_recovery_intent_child (self outcome : EffectReceipt) (outcome_kind : EffectOutcome)
  : result unit EffectReceiptError :=
  let? expected :=
    match outcome_kind, er_recovery outcome with
    | (Partial | RecoveryRequired), RequiredFor effect => Ok (RecoveryOf effect)
    | (Failed | Cancelled | Backpressured | AuthorizationDenied), RecoveryOf effect => Ok (RecoveryOf effect)
    | _, _ => Err InvalidPredecessorTransition
    end in
  if bool_decide (er_recovery self <> expected) then Err RecoveryTargetMismatch else Ok tt.

Definition validate_child_of (self predecessor : EffectReceipt) (predecessor_digest : ReceiptDigest)
  : result ValidatedReceiptLink EffectReceiptError :=
  if bool_decide (er_predecessor self <> Some predecessor_digest) then Err PredecessorDigestMismatch else
  if er_observed_at self <? er_observed_at predecessor then Err ChildPrecedesPredecessor else
  match er_event self, er_event predecessor with
  | Outcome outcome, Intent =>
      let? _ := validate_outcome_child self predecessor outcome in Ok LinkOutcome
  | Intent, Outcome outcome =>
      let? _ := validate_recovery_intent_child self predecessor outcome in Ok LinkRecoveryIntent
  | _, _ => Err InvalidPredecessorTransition
  end.

(** ** Constructors *)

Record PendingIntent : Type := mkPendingIntent { pi_receipt : EffectReceipt }.

Definition intent (caller : AuthorizedCaller) (descriptor : EffectDescriptor) (observed_at : Timestamp)
  : result PendingIntent EffectReceiptError :=
  let? (predecessor, recovery) :=
    match ed_recovery descriptor with
    | Some recovery =>
        if observed_at <? ra_requirement_observed_at recovery then Err RecoveryIntentPrecedesRequirement
        else Ok (Some (ra_requirement_digest recovery), RecoveryOf (ra_original_effect recovery))
    | None => Ok (None, RNone)
    end in
  Ok (mkPendingIntent (mkReceipt EFFECT_RECEIPT_VERSION
        (from_authorized caller (ed_effect descriptor) (ed_schema_epoch descriptor))
        Intent observed_at (ed_evidence_digest descriptor) predecessor recovery)).

(** The [match (outcome, intent.recovery)] of [outcome_from]. *)
Definition outcome_relation (outcome : EffectOutcome) (intent : EffectReceipt)
  : result (EffectOutcome * RecoveryRelation) EffectReceiptError :=
  match outcome, er_recovery intent with
  | (Succeeded | Recovered), RecoveryOf original => Ok (Recovered, RecoveryOf original)
  | Recovered, _ => Err RecoveryRelationMismatch
  | (Partial | RecoveryRequired), _ => Ok (outcome, RequiredFor (rc_effect (er_context intent)))
  | other, RecoveryOf e => Ok (other, RecoveryOf e)
  | other, RNone => Ok (other, RNone)
  | _, RequiredFor _ => Err RecoveryRelationMismatch
  end.

Definition outcome_from (intent : EffectReceipt) (intent_digest : ReceiptDigest) (observed_at : Timestamp)
    (outcome : EffectOutcome) (evidence_digest : option EvidenceDigest)
  : result EffectReceipt EffectReceiptError :=
  if bool_decide (er_event intent <> Intent) then Err PredecessorIsNotIntent else
  if negb (intent_shape (er_predecessor intent) (er_recovery intent)) then Err InvalidIntentShape else
  if observed_at <? er_observed_at intent then Err OutcomePrecedesIntent else
  let? (outcome, recovery) := outcome_relation outcome intent in
  validate EFFECT_RECEIPT_VERSION (er_context intent) (Outcome outcome) observed_at evidence_digest
    (Some intent_digest) recovery.

(** ** Linear states (effect_receipt_state.rs) *)

Class EffectReceiptSink (X E : Type) : Type :=
  append : EffectReceipt -> X -> result ReceiptDigest E * X.

Record PersistedIntent : Type := mkPersistedIntent { pn_receipt : EffectReceipt; pn_digest : ReceiptDigest }.
Record RecoveryTicket : Type := mkTicket { rt_intent : PersistedIntent }.
Record PendingOutcome : Type := mkPendingOutcome { po_receipt : EffectReceipt; po_intent : PersistedIntent }.
Record PersistedOutcome : Type := mkPersistedOutcome { pd_receipt : EffectReceipt; pd_digest : ReceiptDigest }.

(** [ReceiptTransitionError] and [OutcomeAppendError] carry the failure and the
    ticket of the unmatched intent. *)
Definition ReceiptTransitionError : Type := (EffectReceiptError * RecoveryTicket)%type.
Definition OutcomeAppendError (E : Type) : Type := (E * RecoveryTicket)%type.

Section Sink.
Context {X E : Type} `{!EffectReceiptSink X E}.

Definition intent_append_to (self : PendingIntent) (sink : X) : result PersistedIntent E * X :=
  match append (pi_receipt self) sink with
  | (Ok digest, sink) => (Ok (mkPersistedIntent (pi_receipt self) digest), sink)
  | (Err e, sink) => (Err e, sink)
  end.

Definition outcome_append_to (self : PendingOutcome) (sink : X)
  : result PersistedOutcome (OutcomeAppendError E) * X :=
  match append (po_receipt self) sink with
  | (Ok digest, sink) => (Ok (mkPersistedOutcome (po_receipt self) digest), sink)
  | (Err e, sink) => (Err (e, mkTicket (po_intent self)), sink)
  end.

End Sink.

Definition from_verified_unmatched (receipt : EffectReceipt) (digest : ReceiptDigest)
  : result PersistedIntent EffectReceiptError :=
  if bool_decide (er_event receipt <> Intent) then Err PredecessorIsNotIntent
  else Ok (mkPersistedIntent receipt digest).

Definition persisted_outcome (self : PersistedIntent) (observed_at : Timestamp) (outcome : EffectOutcome)
    (evidence_digest : option EvidenceDigest) : result PendingOutcome ReceiptTransitionError :=
  match outcome_from (pn_receipt self) (pn_digest self) observed_at outcome evidence_digest with
  | Ok receipt => Ok (mkPendingOutcome receipt self)
  | Err source => Err (source, mkTicket self)
  end.

Definition into_recovery_ticket (self : PersistedIntent) : RecoveryTicket := mkTicket self.

Definition ticket_effect (self : RecoveryTicket) : EffectRef :=
  rc_effect (er_context (pn_receipt (rt_intent self))).

Definition recovery_required (self : RecoveryTicket) (observed_at : Timestamp)
  : result PendingOutcome ReceiptTransitionError :=
  persisted_outcome (rt_intent self) observed_at RecoveryRequired None.

Definition from_verified (receipt : EffectReceipt) (digest : ReceiptDigest)
  : result PersistedOutcome EffectReceiptError :=
  match er_event receipt with
  | Outcome _ => Ok (mkPersistedOutcome receipt digest)
  | Intent => Err PersistedReceiptIsNotOutcome
  end.

Definition recorded_outcome (self : PersistedOutcome) : result EffectOutcome EffectReceiptError :=
  match er_event (pd_receipt self) with
  | Outcome outcome => Ok outcome
  | Intent => Err PersistedReceiptIsNotOutcome
  end.

Definition into_recovery_authorization (self : PersistedOutcome)
  : result RecoveryAuthorization EffectReceiptError :=
  let authorization original_effect :=
    Ok (mkRecoveryAuth original_effect (pd_digest self) (er_observed_at (pd_receipt self))) in
  match er_event (pd_receipt self), er_recovery (pd_receipt self) with
  | Outcome (Partial | RecoveryRequired), RequiredFor original_effect => authorization original_effect
  | Outcome (Failed | Cancelled | Backpressured | AuthorizationDenied), RecoveryOf original_effect =>
      authorization original_effect
  | _, _ => Err NotRecoveryRequirement
  end.

Definition into_descriptor (self : RecoveryAuthorization) (effect : EffectRef) (schema_epoch : SchemaEpoch)
    (evidence_digest : option EvidenceDigest) : EffectDescriptor :=
  from_recovery effect schema_epoch evidence_digest self.

(** ** Wire form *)

(** A receipt whose own wire form deserializes to it. *)
Definition wf_receipt (r : EffectReceipt) : Prop := receipt_deserialize (receipt_serialize r) = Ok r.

#[export] Instance wf_receipt_dec r : Decision (wf_receipt r).
Proof.
  unfold wf_receipt. destruct (receipt_deserialize (receipt_serialize r)) as [r'|e]; [|right; done].
  destruct (decide (r' = r)) as [->|Hne]; [by left | right; congruence].
Defined.

Lemma validate_Ok v c e t ev p rel r :
  validate v c e t ev p rel = Ok r -> r = mkReceipt v c e t ev p rel /\ wf_receipt r.
Proof.
  intros H. assert (r = mkReceipt v c e t ev p rel) as ->.
  { unfold validate, result_bind in H. split_ifs; repeat case_match; by simplify_eq. }
  by split.
Qed.

(** Only the receipts that deserialize have a wire form that is accepted back,
    and the accepted value is the one that was sent. *)
Lemma receipt_deserialize_Ok raw r : receipt_deserialize raw = Ok r -> receipt_serialize r = raw /\ wf_receipt r.
Proof. intros [-> ?]%validate_Ok. by destruct raw. Qed.

Lemma intent_Ok caller d t p :
  intent caller d t = Ok p ->
  wf_receipt (pi_receipt p) /\ er_event (pi_receipt p) = Intent /\ er_observed_at (pi_receipt p) = t /\
  er_context (pi_receipt p) = from_authorized caller (ed_effect d) (ed_schema_epoch d) /\
  er_predecessor (pi_receipt p) = ra_requirement_digest <$> ed_recovery d /\
  er_recovery (pi_receipt p) = from_option RecoveryOf RNone (recovery_of d).
Proof.
  unfold intent, recovery_of. destruct (ed_recovery d) as [ra|]; cbn; [case_match; [done|]|];
    intros [= <-]; by repeat split.
Qed.

Lemma outcome_from_Ok i d t o ev r :
  outcome_from i d t o ev = Ok r ->
  wf_receipt r /\ er_event i = Intent /\ er_observed_at i <= t /\
  er_context r = er_context i /\ er_observed_at r = t /\ er_evidence_digest r = ev /\
  er_predecessor r = Some d /\
  exists o', er_event r = Outcome o' /\ outcome_relation o i = Ok (o', er_recovery r).
Proof.
  unfold outcome_from. case_bool_decide as Hi; [done|]. split_ifs; try done.
  destruct (outcome_relation o i) as [[o' rel]|] eqn:Ho; cbn [result_bind]; [|done].
  intros [-> Hwf]%validate_Ok. cbn. repeat split; try done; [lia|]. by exists o'.
Qed.

(** The constructor always accepts what an invoked effect can report. *)
Lemma outcome_from_total i d t o ev :
  wf_receipt i -> er_event i = Intent -> er_observed_at i <= t -> o <> Recovered ->
  exists r, outcome_from i d t o ev = Ok r.
Proof.
  destruct i as [v c e t' ev' p rel]; unfold wf_receipt, receipt_deserialize, validate, receipt_serialize; cbn.
  intros Hwf -> Ht Ho. unfold outcome_from; cbn. rewrite bool_decide_false by tauto.
  destruct (negb _); [done|]. destruct (intent_shape p rel) eqn:Hs; [|done]; cbn.
  replace (t <? t') with false by lia.
  destruct p, rel; try done; destruct o; try done; eexists; unfold validate, validate_outcome_relation; cbn;
    rewrite ?bool_decide_true by done; cbn; reflexivity.
Qed.

(** ** The ledger's check accepts exactly what the state machine constructs *)

Lemma validate_child_of_Ok r p d link :
  validate_child_of r p d = Ok link <->
  er_predecessor r = Some d /\ er_observed_at p <= er_observed_at r /\
  match er_event r, er_event p with
  | Outcome o, Intent => validate_outcome_child r p o = Ok tt /\ link = LinkOutcome
  | Intent, Outcome o => validate_recovery_intent_child r p o = Ok tt /\ link = LinkRecoveryIntent
  | _, _ => False
  end.
Proof.
  unfold validate_child_of. case_bool_decide as Hd; [split; [done|tauto]|].
  destruct (Z.ltb_spec (er_observed_at r) (er_observed_at p)); [split; [done|intuition lia]|].
  assert (forall (x : result unit EffectReceiptError) l,
    (let? _ := x in Ok l) = Ok link <-> x = Ok tt /\ link = l) as Hx.
  { intros [[]|] l; cbn; split; [by intros [= ->]|by intros [_ ->]|done|by intros [? _]]. }
  repeat case_match; rewrite ?Hx; intuition done.
Qed.

Lemma validate_outcome_child_Ok r i o :
  validate_outcome_child r i o = Ok tt <->
  er_context r = er_context i /\ expected_outcome_relation i o = Ok (er_recovery r).
Proof.
  unfold validate_outcome_child. case_bool_decide as Hc; [split; [done|tauto]|].
  destruct (expected_outcome_relation i o) as [rel|]; cbn; [|split; [done|intros [_ ?]; done]].
  case_bool_decide; split; intuition congruence.
Qed.

(** What the ledger expects of an outcome is what the constructor records. *)
Lemma expected_relation_recorded i o o' rel :
  outcome_relation o i = Ok (o', rel) -> intent_shape (er_predecessor i) (er_recovery i) = true ->
  expected_outcome_relation i o' = Ok rel.
Proof.
  unfold outcome_relation, expected_outcome_relation.
  destruct o, (er_recovery i), (er_predecessor i); cbn; intros; by simplify_eq.
Qed.

Lemma expected_relation_constructs i o rel :
  expected_outcome_relation i o = Ok rel -> outcome_relation o i = Ok (o, rel).
Proof.
  unfold outcome_relation, expected_outcome_relation.
  destruct o, (er_recovery i); cbn; intros; by simplify_eq.
Qed.

Lemma wf_intent_shape i :
  wf_receipt i -> er_event i = Intent -> intent_shape (er_predecessor i) (er_recovery i) = true.
Proof.
  destruct i; unfold wf_receipt, receipt_deserialize, validate; cbn. intros H ->. cbn in H. by repeat case_match.
Qed.

Lemma wf_receipt_eq_validate r :
  wf_receipt r ->
  validate EFFECT_RECEIPT_VERSION (er_context r) (er_event r) (er_observed_at r) (er_evidence_digest r)
    (er_predecessor r) (er_recovery r) = Ok r.
Proof.
  intros H. assert (er_schema_version r = EFFECT_RECEIPT_VERSION) as Hv; [|rewrite <- Hv; exact H].
  unfold wf_receipt, receipt_deserialize, validate in H. cbn [receipt_serialize rw_schema_version] in H.
  by destruct (Z.eqb_spec (er_schema_version r) EFFECT_RECEIPT_VERSION).
Qed.

Lemma outcome_from_links i d t o ev r :
  wf_receipt i -> outcome_from i d t o ev = Ok r -> validate_child_of r i d = Ok LinkOutcome.
Proof.
  intros Hi Hr. apply outcome_from_Ok in Hr as (_ & He & ? & Hc & <- & _ & Hp & o' & Ho & Hrel).
  apply validate_child_of_Ok. rewrite Hp, Ho, He. repeat split; [lia|].
  apply validate_outcome_child_Ok. split; [done|].
  by apply expected_relation_recorded with o, wf_intent_shape.
Qed.

Lemma link_outcome_from i d r :
  wf_receipt i -> wf_receipt r -> validate_child_of r i d = Ok LinkOutcome ->
  exists o, outcome_from i d (er_observed_at r) o (er_evidence_digest r) = Ok r.
Proof.
  intros Hi Hr (Hp & Ht & Hm)%validate_child_of_Ok.
  destruct (er_event r) as [|o] eqn:Ho, (er_event i) eqn:He; try (by destruct Hm).
  destruct Hm as [[Hc Hrel]%validate_outcome_child_Ok _]. exists o.
  unfold outcome_from. rewrite He, bool_decide_false by tauto.
  rewrite wf_intent_shape by done. cbn [negb].
  destruct (Z.ltb_spec (er_observed_at r) (er_observed_at i)); [lia|].
  rewrite (expected_relation_constructs i o _ Hrel). cbn [result_bind].
  rewrite <- Hc, <- Hp, <- Ho. by apply wf_receipt_eq_validate.
Qed.

(** The ledger's check of a recovery intent and the continuation authority read
    the same operation out of an unresolved outcome. *)
Lemma recovery_child_authorization r p d o :
  er_event p = Outcome o ->
  validate_recovery_intent_child r p o = Ok tt <->
  exists auth, into_recovery_authorization (mkPersistedOutcome p d) = Ok auth /\
    er_recovery r = RecoveryOf (ra_original_effect auth) /\ ra_requirement_digest auth = d /\
    ra_requirement_observed_at auth = er_observed_at p.
Proof.
  intros Ho. unfold validate_recovery_intent_child, into_recovery_authorization.
  cbn [pd_receipt pd_digest]. rewrite Ho.
  destruct o, (er_recovery p) as [|e|e]; cbn [result_bind];
    try (split; [done | by intros (? & ? & _)]); case_bool_decide as Hr;
    (split; [first [done | intros _; eexists; repeat split; done]
            | intros (? & [= <-] & Hr' & _); cbn in Hr'; done]).
Qed.

Lemma authorized_of_context (c : ReceiptContext) :
  exists caller, from_authorized caller (rc_effect c) (rc_schema_epoch c) = c.
Proof.
  exists (mkAuthorized (rc_caller_ref c) (mkGrant (rc_capability c) (mkRef [])) (rc_policy_epoch c) None).
  by destruct c.
Qed.

Lemma recovery_intent_links p d auth caller e ep ev t q :
  into_recovery_authorization (mkPersistedOutcome p d) = Ok auth ->
  intent caller (into_descriptor auth e ep ev) t = Ok q ->
  validate_child_of (pi_receipt q) p d = Ok LinkRecoveryIntent.
Proof.
  intros Ha Hq.
  assert (exists o, er_event p = Outcome o) as [o Ho].
  { unfold into_recovery_authorization in Ha; cbn in Ha. destruct (er_event p); [done|by eexists]. }
  assert (ra_requirement_observed_at auth <= t) as Ht.
  { unfold intent in Hq; cbn in Hq. destruct (Z.ltb_spec t (ra_requirement_observed_at auth)); [done|lia]. }
  assert (ra_requirement_digest auth = d /\ ra_requirement_observed_at auth = er_observed_at p) as [Hd Hp].
  { unfold into_recovery_authorization in Ha; cbn in Ha. repeat case_match; by simplify_eq. }
  apply intent_Ok in Hq as (_ & He & Hobs & _ & Hpred & Hrec).
  apply validate_child_of_Ok. rewrite He, Ho, Hpred, Hobs. cbn. repeat split; [by rewrite Hd|lia|].
  apply (recovery_child_authorization _ _ d _ Ho). by exists auth.
Qed.

Lemma link_recovery_intent p d r :
  wf_receipt r -> validate_child_of r p d = Ok LinkRecoveryIntent ->
  exists auth caller e ep,
    into_recovery_authorization (mkPersistedOutcome p d) = Ok auth /\
    intent caller (into_descriptor auth e ep (er_evidence_digest r)) (er_observed_at r)
      = Ok (mkPendingIntent r).
Proof.
  intros Hr (Hp & Ht & Hm)%validate_child_of_Ok.
  destruct (er_event r) as [|o0] eqn:He, (er_event p) as [|o] eqn:Ho; try (by destruct Hm).
  destruct Hm as [Hm _]. apply (recovery_child_authorization _ _ d _ Ho) in Hm as (auth & Ha & Hrel & Hd & Hobs).
  destruct (authorized_of_context (er_context r)) as [caller Hc].
  exists auth, caller, (rc_effect (er_context r)), (rc_schema_epoch (er_context r)). split; [done|].
  unfold intent; cbn. destruct (Z.ltb_spec (er_observed_at r) (ra_requirement_observed_at auth)); [lia|].
  cbn. rewrite Hc, Hd. apply wf_receipt_eq_validate, validate_Ok in Hr as [Hr _].
  rewrite Hr at 4. by rewrite He, Hp, Hrel.
Qed.

(** The ledger's check of a child receipt accepts exactly the transitions of the
    receipt state machine: among well-formed receipts, a child passes as the outcome
    of an intent if and only if [outcome_from] builds it from that intent for some
    reported outcome, and it passes as a recovery intent of an outcome if and only if
    that outcome yields a recovery authorization whose descriptor builds it. No other
    pair of receipts is linked. *)
Theorem child_links_exact (r p : EffectReceipt) (d : ReceiptDigest) :
  wf_receipt r -> wf_receipt p ->
  (validate_child_of r p d = Ok LinkOutcome <->
   exists o, outcome_from p d (er_observed_at r) o (er_evidence_digest r) = Ok r) /\
  (validate_child_of r p d = Ok LinkRecoveryIntent <->
   exists auth caller e ep,
     into_recovery_authorization (mkPersistedOutcome p d) = Ok auth /\
     intent caller (into_descriptor auth e ep (er_evidence_digest r)) (er_observed_at r)
       = Ok (mkPendingIntent r)).
Proof.
  intros Hr Hp. split; split.
  - by apply link_outcome_from.
  - intros [o Ho]. by apply outcome_from_links in Ho.
  - by apply link_recovery_intent.
  - intros (auth & caller & e & ep & Ha & Hi). by apply (recovery_intent_links _ _ _ _ _ _ _ _ _ Ha Hi).
Qed.

Definition demo_context : ReceiptContext :=
  mkContext (demo_ref 9) (demo_ref 3) (demo_ref 1) (mkEpoch 4) (mkEpoch 1).
Definition demo_intent : EffectReceipt := mkReceipt 1 demo_context Intent 150 None None RNone.
Definition demo_partial : EffectReceipt :=
  mkReceipt 1 demo_context (Outcome Partial) 160 None (Some (demo_ref 5)) (RequiredFor (demo_ref 3)).

Lemma child_links_exact_witness :
  exists o, outcome_from demo_intent (demo_ref 5) 160 o None = Ok demo_partial.
Proof.
  refine (proj1 (proj1 (child_links_exact demo_partial demo_intent (demo_ref 5) _ _)) _);
    vm_compute; reflexivity.
Defined.

(** ** Which outcomes are final *)

(** A recovery attempt that failed without changing state leaves the original
    operation open; one that stopped half-way leaves itself open; success and
    recovery leave nothing open, and neither does a failed ordinary operation. *)
Lemma continuation_of_outcome i d t o ev r dr :
  outcome_from i d t o ev = Ok r ->
  into_recovery_authorization (mkPersistedOutcome r dr) =
    match er_event r, er_recovery i with
    | Outcome (Partial | RecoveryRequired), _ => Ok (mkRecoveryAuth (rc_effect (er_context i)) dr t)
    | Outcome (Failed | Cancelled | Backpressured | AuthorizationDenied), RecoveryOf e =>
        Ok (mkRecoveryAuth e dr t)
    | _, _ => Err NotRecoveryRequirement
    end.
Proof.
  intros (_ & _ & _ & _ & Ht & _ & _ & o' & He & Hrel)%outcome_from_Ok.
  unfold into_recovery_authorization; cbn. rewrite He, Ht.
  unfold outcome_relation in Hrel. destruct o, (er_recovery i); cbn in Hrel; try done;
    injection Hrel as <- Hrel; by rewrite <- ?Hrel.
Qed.
