(* ===== verification/EffectGate.v ===== *)
(** * Application callers and the effect gate (crates/akroasis/src/caller.rs)

    The application resolver over kernel peer credentials or service evidence, and
    [execute_effect]: authorize, append the intent, authorize again, run the effect
    once, append the outcome. Ledger, clock and effect closure act on one
    application state [X], each in turn, so every order in which the code could
    touch them is visible. The trusted clock is any source of timestamps, going
    backwards included. *)

From S2P Require Import Prelude TamperLog Caller EffectReceipt.

Local Open Scope Z_scope.

Definition SERVICE_IDENTITY_EVIDENCE_VERSION : Z := 1.

Class TrustedClock (X : Type) : Type := now : X -> Timestamp * X.

(** ** Resolution *)

Record AuthenticatedServiceIdentity : Type := mkServiceIdentity {
  si_schema_version : Z; si_identity_ref : CallerRef; si_authenticated_at : Timestamp;
  si_expires_at : Timestamp; si_revocation : RevocationState }.

Inductive ApplicationCallerError (IoError : Type) : Type :=
| PeerCredentials (source : IoError)
| InvalidPeerPid
| LoopbackIsNotIdentity
| UnknownServiceIdentityVersion (schema_version : Z)
| ServiceIdentityNotYetValid
| ServiceIdentityRevoked
| ServiceIdentityExpired
| CallerResolution (source : CallerContractError).
Arguments PeerCredentials {_} _.
Arguments InvalidPeerPid {_}.
Arguments LoopbackIsNotIdentity {_}.
Arguments UnknownServiceIdentityVersion {_} _.
Arguments ServiceIdentityNotYetValid {_}.
Arguments ServiceIdentityRevoked {_}.
Arguments ServiceIdentityExpired {_}.
Arguments CallerResolution {_} _.

Section Resolution.
Context {A : CallerAuthority} {X IoError : Type} `{!TrustedClock X}.

Definition app_try_new (resolver_version : Z) : result CallerAuthority (ApplicationCallerError IoError) :=
  map_err CallerResolution (try_new resolver_version).

Definition app_current : result CallerAuthority (ApplicationCallerError IoError) :=
  app_try_new CALLER_RESOLVER_VERSION.

(** [credentials.pid().map(u32::try_from).transpose()], the PID an [i32]. *)
Definition peer_pid (pid : option Z) : result (option Z) (ApplicationCallerError IoError) :=
  match pid with
  | None => Ok None
  | Some p => match try_uint 32 p with Some p => Ok (Some p) | None => Err InvalidPeerPid end
  end.

(** [peer_cred] is what the kernel answers for the connected stream. *)
Definition app_resolve_local (peer_cred : result (Z * Z * option Z) IoError) (x : X)
  : result ValidatedCaller (ApplicationCallerError IoError) * X :=
  match peer_cred with
  | Err e => (Err (PeerCredentials e), x)
  | Ok (uid, gid, pid) =>
      match peer_pid pid with
      | Err e => (Err e, x)
      | Ok pid =>
          let '(t, x) := now x in
          (map_err CallerResolution (resolve_local (from_os_peer uid gid pid) t), x)
      end
  end.

Definition app_resolve_service (identity : option AuthenticatedServiceIdentity) (x : X)
  : result ValidatedCaller (ApplicationCallerError IoError) * X :=
  match identity with
  | None => (Err LoopbackIsNotIdentity, x)
  | Some identity =>
      if negb (si_schema_version identity =? SERVICE_IDENTITY_EVIDENCE_VERSION)
      then (Err (UnknownServiceIdentityVersion (si_schema_version identity)), x)
      else if bool_decide (si_revocation identity <> Active) then (Err ServiceIdentityRevoked, x)
      else
        let '(observed_at, x) := now x in
        if observed_at <? si_authenticated_at identity then (Err ServiceIdentityNotYetValid, x)
        else if si_expires_at identity <=? observed_at then (Err ServiceIdentityExpired, x)
        else (map_err CallerResolution
                (resolve_service (si_identity_ref identity) (si_authenticated_at identity)
                   (si_expires_at identity) observed_at), x)
  end.

End Resolution.

(** ** The gate *)

Record EffectRequest : Type := mkRequest {
  eq_requirement : AuthorizationRequirement; eq_descriptor : EffectDescriptor }.

Inductive AdmissionDecision : Type := Ready | AdmCancelled | AdmBackpressured.

Record EffectExecution : Type := mkExecution {
  ex_outcome : EffectOutcome; ex_evidence_digest : option EvidenceDigest }.

(** The only constructors a domain has. *)
Definition succeeded (ev : option EvidenceDigest) : EffectExecution := mkExecution Succeeded ev.
Definition failed (ev : option EvidenceDigest) : EffectExecution := mkExecution Failed ev.
Definition partial (ev : option EvidenceDigest) : EffectExecution := mkExecution Partial ev.

Record EffectCompletion : Type := mkCompletion {
  ec_outcome : EffectOutcome; ec_receipt_digest : ReceiptDigest;
  ec_recovery : option RecoveryAuthorization }.

Inductive EffectGateError (E : Type) : Type :=
| Denied (denial : AuthorizationDenial)
| ReceiptContract (source : EffectReceiptError)
| IntentAudit (source : E)
| PostIntentDenied (denial : AuthorizationDenial) (receipt_digest : ReceiptDigest)
    (recovery : option RecoveryAuthorization)
| PostIntentContract (source : EffectReceiptError) (recovery : RecoveryTicket)
| OutcomeAudit (source : E) (recovery : RecoveryTicket).
Arguments Denied {_} _.
Arguments ReceiptContract {_} _.
Arguments IntentAudit {_} _.
Arguments PostIntentDenied {_} _ _ _.
Arguments PostIntentContract {_} _ _.
Arguments OutcomeAudit {_} _ _.

Definition outcome_needs_recovery (outcome : EffectOutcome) (recovery : RecoveryRelation) : bool :=
  match outcome, recovery with
  | (Partial | RecoveryRequired), RequiredFor _ => true
  | (Failed | Cancelled | Backpressured | AuthorizationDenied), RecoveryOf _ => true
  | _, _ => false
  end.

(** State and early returns: what [?] does in the gate. *)
Definition Gate (X E A : Type) : Type := X -> result A (EffectGateError E) * X.
Definition gate_lift {X E A} (r : result A (EffectGateError E)) : Gate X E A := fun x => (r, x).
Definition gate_bind {X E A B} (m : Gate X E A) (k : A -> Gate X E B) : Gate X E B := fun x =>
  match m x with
  | (Ok a, x) => k a x
  | (Err e, x) => (Err e, x)
  end.
Notation "'let!' x ':=' m 'in' k" := (gate_bind m (fun x => k))
  (at level 10, x pattern, m at level 200, k at level 200) : akroasis_scope.

Section Gate.
Context {X E : Type} `{!EffectReceiptSink X E} `{!TrustedClock X}.

Definition gate_now : Gate X E Timestamp := fun x => let '(t, x) := now x in (Ok t, x).

Definition append_effect_outcome (persisted : PersistedIntent) (observed_at : Timestamp)
    (execution : EffectExecution) : Gate X E PersistedOutcome := fun x =>
  match persisted_outcome persisted observed_at (ex_outcome execution) (ex_evidence_digest execution) with
  | Err (source, recovery) => (Err (PostIntentContract source recovery), x)
  | Ok pending =>
      match outcome_append_to pending x with
      | (Ok o, x) => (Ok o, x)
      | (Err (source, recovery), x) => (Err (OutcomeAudit source recovery), x)
      end
  end.

(** [into_recovery_authorization().context(ReceiptContractSnafu)], when needed. *)
Definition needed_recovery (recorded : EffectOutcome) (o : PersistedOutcome)
  : result (option RecoveryAuthorization) (EffectGateError E) :=
  if outcome_needs_recovery recorded (er_recovery (pd_receipt o))
  then let? auth := map_err ReceiptContract (into_recovery_authorization o) in Ok (Some auth)
  else Ok None.

Definition completion_from_persisted (o : PersistedOutcome) : result EffectCompletion (EffectGateError E) :=
  let? outcome := map_err ReceiptContract (recorded_outcome o) in
  let? recovery := needed_recovery outcome o in
  Ok (mkCompletion outcome (pd_digest o) recovery).

(** The branch taken when authorization lapsed after the intent was appended. *)
Definition deny_after_intent (persisted : PersistedIntent) (observed_at : Timestamp)
    (denial : AuthorizationDenial) : Gate X E EffectCompletion :=
  let! denied := append_effect_outcome persisted observed_at (mkExecution AuthorizationDenied None) in
  let! recovery := gate_lift (needed_recovery AuthorizationDenied denied) in
  gate_lift (Err (PostIntentDenied denial (pd_digest denied) recovery)).

Definition run_admitted (admission : AdmissionDecision) (effect : X -> EffectExecution * X)
  : Gate X E EffectExecution := fun x =>
  match admission with
  | Ready => let '(execution, x) := effect x in (Ok execution, x)
  | AdmCancelled => (Ok (mkExecution Cancelled None), x)
  | AdmBackpressured => (Ok (mkExecution Backpressured None), x)
  end.

Definition execute_effect (caller : option ValidatedCaller) (request : EffectRequest)
    (admission : AdmissionDecision) (effect : X -> EffectExecution * X) : Gate X E EffectCompletion :=
  let '(mkRequest requirement descriptor) := request in
  let! authorized_at := gate_now in
  let! authorized := gate_lift (map_err Denied (authorize_caller caller requirement authorized_at)) in
  let! pending := gate_lift (map_err ReceiptContract (intent authorized descriptor authorized_at)) in
  let! persisted := (fun x => let '(r, x) := intent_append_to pending x in (map_err IntentAudit r, x)) in
  let! effect_time := gate_now in
  let effect_authorization :=
    if effect_time <? authorized_at then Err ClockRegression
    else authorize_caller caller requirement effect_time in
  match effect_authorization with
  | Err denial => deny_after_intent persisted (Z.max effect_time authorized_at) denial
  | Ok _ =>
      let! execution := run_admitted admission effect in
      let! observed_at := gate_now in
      let! persisted_outcome := append_effect_outcome persisted observed_at execution in
      gate_lift (completion_from_persisted persisted_outcome)
  end.

End Gate.

(** ** Traces: the same adapters, with every call they receive recorded *)

Inductive GateEvent (E : Type) : Type :=
| EvNow (t : Timestamp)
| EvAppend (r : EffectReceipt) (res : result ReceiptDigest E)
| EvEffect (execution : EffectExecution).
Arguments EvNow {_} _.
Arguments EvAppend {_} _ _.
Arguments EvEffect {_} _.

Section Trace.
Context {X E : Type} `{!EffectReceiptSink X E} `{!TrustedClock X}.
Abbreviation Traced := (X * list (GateEvent E))%type (only parsing).

#[export] Instance traced_sink : EffectReceiptSink Traced E := fun r '(x, tr) =>
  let '(res, x) := append r x in (res, (x, tr ++ [EvAppend r res])).
#[export] Instance traced_clock : TrustedClock Traced := fun '(x, tr) =>
  let '(t, x) := now x in (t, (x, tr ++ [EvNow t])).
Definition traced_effect (effect : X -> EffectExecution * X) : Traced -> EffectExecution * Traced :=
  fun '(x, tr) => let '(ex, x) := effect x in (ex, (x, tr ++ [EvEffect ex])).

Definition trace_of (caller : option ValidatedCaller) (request : EffectRequest)
    (admission : AdmissionDecision) (effect : X -> EffectExecution * X) (x : X)
  : result EffectCompletion (EffectGateError E) * list (GateEvent E) :=
  let '(r, (_, tr)) := execute_effect caller request admission (traced_effect effect) (x, []) in (r, tr).

End Trace.

(** ** A small logic of traced runs *)

Section Runs.
Context {X E : Type} {sink : EffectReceiptSink X E} {clock : TrustedClock X}.
Abbreviation Traced := (X * list (GateEvent E))%type (only parsing).
Abbreviation Trace := (list (GateEvent E)) (only parsing).

(** From every state, [m] appends to the trace a suffix that satisfies [Q] with
    its result, and does to the state what the untraced [m0] does. *)
Definition Runs {A} (m0 : Gate X E A) (m : Gate Traced E A) (Q : Trace -> result A (EffectGateError E) -> Prop) : Prop :=
  forall x tr, exists suffix,
    m (x, tr) = ((m0 x).1, ((m0 x).2, tr ++ suffix)) /\ Q suffix (m0 x).1.

Lemma Runs_mono {A} (m0 : Gate X E A) m (P Q : Trace -> result A (EffectGateError E) -> Prop) :
  Runs m0 m P -> (forall s r, P s r -> Q s r) -> Runs m0 m Q.
Proof. intros H HPQ x tr. destruct (H x tr) as (s & ? & ?). exists s. auto. Qed.

Lemma Runs_lift {A} (r : result A (EffectGateError E)) (Q : Trace -> _ -> Prop) :
  Q [] r -> Runs (gate_lift r) (gate_lift r) Q.
Proof. intros HQ x tr. exists []. by rewrite app_nil_r. Qed.

Lemma Runs_bind {A B} (m0 : Gate X E A) m (k0 : A -> Gate X E B) k (Q : Trace -> _ -> Prop) :
  Runs m0 m (fun s r => match r with
                        | Ok a => Runs (k0 a) (k a) (fun s' => Q (s ++ s'))
                        | Err e => Q s (Err e)
                        end) ->
  Runs (gate_bind m0 k0) (gate_bind m k) Q.
Proof.
  intros H x tr. destruct (H x tr) as (s & Hm & HQ). unfold gate_bind. rewrite Hm.
  destruct (m0 x) as [[a|e] x1]; cbn in *; [|by exists s].
  destruct (HQ x1 (tr ++ s)) as (s' & Hk & HQ'). exists (s ++ s'). by rewrite Hk, app_assoc.
Qed.

Lemma Runs_now (Q : Trace -> _ -> Prop) :
  (forall t, Q [EvNow t] (Ok t)) -> Runs gate_now gate_now Q.
Proof.
  intros HQ x tr. unfold gate_now, traced_clock, now. destruct (clock x) as [t x'] eqn:Ht.
  exists [EvNow t]. auto.
Qed.

Lemma Runs_effect admission effect (Q : Trace -> _ -> Prop) :
  (admission = Ready -> forall ex x, (effect x).1 = ex -> Q [EvEffect ex] (Ok ex)) ->
  (admission = AdmCancelled -> Q [] (Ok (mkExecution Cancelled None))) ->
  (admission = AdmBackpressured -> Q [] (Ok (mkExecution Backpressured None))) ->
  Runs (run_admitted admission effect) (run_admitted admission (traced_effect effect)) Q.
Proof.
  intros H1 H2 H3 x tr. destruct admission; cbn; [|exists []; rewrite app_nil_r; auto..].
  destruct (effect x) as [ex x'] eqn:He. exists [EvEffect ex]. cbn. split; [done|].
  apply (H1 eq_refl ex x). by rewrite He.
Qed.

Lemma Runs_intent_append pending (Q : Trace -> _ -> Prop) :
  (forall d, Q [EvAppend (pi_receipt pending) (Ok d)] (Ok (mkPersistedIntent (pi_receipt pending) d))) ->
  (forall e, Q [EvAppend (pi_receipt pending) (Err e)] (Err (IntentAudit e))) ->
  Runs (fun x => let '(r, x) := intent_append_to pending x in (map_err IntentAudit r, x))
       (fun x => let '(r, x) := intent_append_to pending x in (map_err IntentAudit r, x)) Q.
Proof.
  intros H1 H2 x tr. unfold intent_append_to, append at 1, traced_sink.
  destruct (append (pi_receipt pending) x) as [[d|e] x'] eqn:Ha; cbn;
    (eexists; split; [reflexivity|auto]).
Qed.

Lemma Runs_append_outcome persisted t ex (Q : Trace -> _ -> Prop) :
  (forall e, outcome_from (pn_receipt persisted) (pn_digest persisted) t (ex_outcome ex) (ex_evidence_digest ex)
               = Err e -> Q [] (Err (PostIntentContract e (mkTicket persisted)))) ->
  (forall r, outcome_from (pn_receipt persisted) (pn_digest persisted) t (ex_outcome ex) (ex_evidence_digest ex)
               = Ok r ->
     (forall d, Q [EvAppend r (Ok d)] (Ok (mkPersistedOutcome r d))) /\
     (forall e, Q [EvAppend r (Err e)] (Err (OutcomeAudit e (mkTicket persisted))))) ->
  Runs (append_effect_outcome persisted t ex) (append_effect_outcome persisted t ex) Q.
Proof.
  intros H1 H2 x tr. unfold append_effect_outcome, persisted_outcome.
  destruct (outcome_from _ _ _ _ _) as [r|e] eqn:Ho.
  - destruct (H2 r eq_refl) as [HO HE]. unfold outcome_append_to; cbn [po_receipt po_intent].
    unfold append at 1, traced_sink. destruct (append r x) as [[d|e] x'] eqn:Ha; cbn;
      (eexists; split; [reflexivity|auto]).
  - exists []. cbn. rewrite app_nil_r. auto.
Qed.

End Runs.

(** ** The runs of the gate *)

Section GateRuns.
Context {X E : Type} {sink : EffectReceiptSink X E} {clock : TrustedClock X}.
Context (caller : option ValidatedCaller) (request : EffectRequest) (admission : AdmissionDecision)
  (effect : X -> EffectExecution * X).

(** What ran between the effect-time check and the outcome. *)
Inductive AdmittedRun : list (GateEvent E) -> EffectExecution -> Prop :=
| admitted_ready ex x : admission = Ready -> (effect x).1 = ex -> AdmittedRun [EvEffect ex] ex
| admitted_cancelled : admission = AdmCancelled -> AdmittedRun [] (mkExecution Cancelled None)
| admitted_backpressured : admission = AdmBackpressured -> AdmittedRun [] (mkExecution Backpressured None).

(** An intent authorized at [t1] and accepted by the ledger under digest [d]. *)
Definition IntentAccepted (t1 : Timestamp) (a : AuthorizedCaller) (i : EffectReceipt) : Prop :=
  authorize_caller caller (eq_requirement request) t1 = Ok a /\
  intent a (eq_descriptor request) t1 = Ok (mkPendingIntent i).

Definition effect_authorization (t1 t2 : Timestamp) : result AuthorizedCaller AuthorizationDenial :=
  if t2 <? t1 then Err ClockRegression else authorize_caller caller (eq_requirement request) t2.

Definition completion (r : EffectReceipt) (d : ReceiptDigest) (o : EffectOutcome) : EffectCompletion :=
  mkCompletion o d match into_recovery_authorization (mkPersistedOutcome r d) with
                   | Ok auth => Some auth | Err _ => None end.

Inductive GateRun : list (GateEvent E) -> result EffectCompletion (EffectGateError E) -> Prop :=
| run_denied t1 dn :
    authorize_caller caller (eq_requirement request) t1 = Err dn ->
    GateRun [EvNow t1] (Err (Denied dn))
| run_intent_contract t1 a e :
    authorize_caller caller (eq_requirement request) t1 = Ok a ->
    intent a (eq_descriptor request) t1 = Err e ->
    GateRun [EvNow t1] (Err (ReceiptContract e))
| run_intent_audit t1 a i e :
    IntentAccepted t1 a i ->
    GateRun [EvNow t1; EvAppend i (Err e)] (Err (IntentAudit e))
| run_lapsed t1 a i d t2 dn r dr recovery :
    IntentAccepted t1 a i -> effect_authorization t1 t2 = Err dn ->
    outcome_from i d (Z.max t2 t1) AuthorizationDenied None = Ok r ->
    recovery = ec_recovery (completion r dr AuthorizationDenied) ->
    GateRun [EvNow t1; EvAppend i (Ok d); EvNow t2; EvAppend r (Ok dr)]
      (Err (PostIntentDenied dn dr recovery))
| run_lapsed_audit t1 a i d t2 dn r e :
    IntentAccepted t1 a i -> effect_authorization t1 t2 = Err dn ->
    outcome_from i d (Z.max t2 t1) AuthorizationDenied None = Ok r ->
    GateRun [EvNow t1; EvAppend i (Ok d); EvNow t2; EvAppend r (Err e)]
      (Err (OutcomeAudit e (mkTicket (mkPersistedIntent i d))))
| run_outcome_contract t1 a i d t2 a2 s ex t3 e :
    IntentAccepted t1 a i -> effect_authorization t1 t2 = Ok a2 -> AdmittedRun s ex ->
    outcome_from i d t3 (ex_outcome ex) (ex_evidence_digest ex) = Err e ->
    GateRun ([EvNow t1; EvAppend i (Ok d); EvNow t2] ++ s ++ [EvNow t3])
      (Err (PostIntentContract e (mkTicket (mkPersistedIntent i d))))
| run_outcome_audit t1 a i d t2 a2 s ex t3 r e :
    IntentAccepted t1 a i -> effect_authorization t1 t2 = Ok a2 -> AdmittedRun s ex ->
    outcome_from i d t3 (ex_outcome ex) (ex_evidence_digest ex) = Ok r ->
    GateRun ([EvNow t1; EvAppend i (Ok d); EvNow t2] ++ s ++ [EvNow t3; EvAppend r (Err e)])
      (Err (OutcomeAudit e (mkTicket (mkPersistedIntent i d))))
| run_completed t1 a i d t2 a2 s ex t3 r dr o :
    IntentAccepted t1 a i -> effect_authorization t1 t2 = Ok a2 -> AdmittedRun s ex ->
    outcome_from i d t3 (ex_outcome ex) (ex_evidence_digest ex) = Ok r ->
    er_event r = Outcome o ->
    GateRun ([EvNow t1; EvAppend i (Ok d); EvNow t2] ++ s ++ [EvNow t3; EvAppend r (Ok dr)])
      (Ok (completion r dr o)).

(** The authority is requested exactly when the persisted outcome yields one. *)
Lemma needed_recovery_eq o r d :
  er_event r = Outcome o ->
  @needed_recovery E o (mkPersistedOutcome r d) = Ok (ec_recovery (completion r d o)).
Proof.
  intros Ho. unfold needed_recovery, completion, into_recovery_authorization; cbn. rewrite Ho.
  by destruct o, (er_recovery r).
Qed.

Lemma completion_from_persisted_eq o r d :
  er_event r = Outcome o ->
  @completion_from_persisted E (mkPersistedOutcome r d) = Ok (completion r d o).
Proof.
  intros Ho. unfold completion_from_persisted, recorded_outcome; cbn [pd_receipt pd_digest].
  rewrite Ho. cbn [map_err result_bind]. by rewrite needed_recovery_eq.
Qed.

Lemma intent_receipt a t1 p :
  intent a (eq_descriptor request) t1 = Ok p ->
  wf_receipt (pi_receipt p) /\ er_event (pi_receipt p) = Intent /\ er_observed_at (pi_receipt p) = t1.
Proof. intros (? & ? & ? & _)%intent_Ok. auto. Qed.

Lemma deny_after_intent_runs t1 a i d t2 dn :
  IntentAccepted t1 a i -> effect_authorization t1 t2 = Err dn ->
  Runs (deny_after_intent (mkPersistedIntent i d) (Z.max t2 t1) dn)
       (deny_after_intent (mkPersistedIntent i d) (Z.max t2 t1) dn)
       (fun s => GateRun ([EvNow t1; EvAppend i (Ok d); EvNow t2] ++ s)).
Proof.
  intros HI Ha. destruct (intent_receipt _ _ _ (proj2 HI)) as (Hwf & He & Ht).
  unfold deny_after_intent. apply Runs_bind, Runs_append_outcome; cbn [pn_receipt pn_digest ex_outcome ex_evidence_digest].
  - intros e Hr. destruct (outcome_from_total i d (Z.max t2 t1) AuthorizationDenied None) as [r Hr'];
      try done; [cbn in Ht; lia|congruence].
  - intros r Hr. split; [intros dr|intros e; by eapply run_lapsed_audit].
    pose proof Hr as (_ & _ & _ & _ & _ & _ & _ & o & Ho & Hrel)%outcome_from_Ok.
    assert (o = AuthorizationDenied) as ->.
    { unfold outcome_relation in Hrel. by destruct (er_recovery i); simplify_eq. }
    rewrite needed_recovery_eq by done. apply Runs_bind, Runs_lift, Runs_lift. cbn.
    by eapply run_lapsed.
Qed.

Lemma run_effect_runs t1 a i d t2 a2 :
  IntentAccepted t1 a i -> effect_authorization t1 t2 = Ok a2 ->
  let m {Y} `{!EffectReceiptSink Y E} `{!TrustedClock Y} (eff : Y -> EffectExecution * Y) : Gate Y E EffectCompletion :=
    let! execution := run_admitted admission eff in
    let! observed_at := gate_now in
    let! persisted_outcome := append_effect_outcome (mkPersistedIntent i d) observed_at execution in
    gate_lift (completion_from_persisted persisted_outcome) in
  Runs (m effect) (m (traced_effect effect))
    (fun s => GateRun ([EvNow t1; EvAppend i (Ok d); EvNow t2] ++ s)).
Proof.
  intros HI Ha m. unfold m.
  assert (forall s ex, AdmittedRun s ex ->
    let k {Y} `{!EffectReceiptSink Y E} `{!TrustedClock Y} : Gate Y E EffectCompletion :=
      let! observed_at := gate_now in
      let! persisted_outcome := append_effect_outcome (mkPersistedIntent i d) observed_at ex in
      gate_lift (completion_from_persisted persisted_outcome) in
    Runs k k (fun s' => GateRun ([EvNow t1; EvAppend i (Ok d); EvNow t2] ++ s ++ s'))) as Hk.
  { intros s ex Hs k. unfold k. apply Runs_bind, Runs_now. intros t3.
    apply Runs_bind, Runs_append_outcome; cbn [pn_receipt pn_digest].
    - intros e Hr. by eapply run_outcome_contract.
    - intros r Hr. split; [intros dr|intros e; by eapply run_outcome_audit].
      pose proof Hr as (_ & _ & _ & _ & _ & _ & _ & o & Ho & _)%outcome_from_Ok.
      rewrite (completion_from_persisted_eq o) by done. apply Runs_lift. by eapply run_completed. }
  apply Runs_bind, Runs_effect.
  - intros Had ex x Hex. apply (Hk [EvEffect ex] ex). by econstructor.
  - intros Had. apply (Hk []). by constructor.
  - intros Had. apply (Hk []). by constructor.
Qed.

Lemma execute_effect_runs :
  Runs (execute_effect caller request admission effect)
       (execute_effect caller request admission (traced_effect effect)) GateRun.
Proof.
  unfold execute_effect. destruct request as [requirement descriptor] eqn:Hq.
  assert (eq_requirement request = requirement /\ eq_descriptor request = descriptor) as [<- <-] by by subst.
  apply Runs_bind, Runs_now. intros t1. apply Runs_bind, Runs_lift.
  destruct (authorize_caller caller _ t1) as [a|dn] eqn:Ha; cbn [map_err]; [|by apply run_denied].
  apply Runs_bind, Runs_lift.
  destruct (intent a _ t1) as [[i]|e] eqn:Hi; cbn [map_err]; [|by eapply run_intent_contract].
  assert (IntentAccepted t1 a i) as HI by done.
  apply Runs_bind, Runs_intent_append; cbn [pi_receipt]; [|intros e; by eapply run_intent_audit].
  intros d. apply Runs_bind, Runs_now. intros t2.
  fold (effect_authorization t1 t2). destruct (effect_authorization t1 t2) as [a2|dn] eqn:H2.
  - by apply (run_effect_runs t1 a i d t2 a2).
  - by apply (deny_after_intent_runs t1 a i d t2 dn).
Qed.

End GateRuns.

(** ** What the runs show *)

Section GateTheorems.
Context {X E : Type} {sink : EffectReceiptSink X E} {clock : TrustedClock X}.
Implicit Types (caller : option ValidatedCaller) (request : EffectRequest) (tr : list (GateEvent E)).

(** The recorded run is the run: tracing changes neither the result nor the state. *)
Lemma trace_of_run caller request admission effect (x : X) :
  (trace_of caller request admission effect x).1 = (execute_effect caller request admission effect x).1 /\
  GateRun caller request admission effect (trace_of caller request admission effect x).2
    (execute_effect caller request admission effect x).1.
Proof.
  unfold trace_of. destruct (execute_effect_runs caller request admission effect x []) as (s & -> & Hs).
  done.
Qed.

Lemma effect_authorization_Ok caller request t1 t2 a :
  effect_authorization caller request t1 t2 = Ok a <->
  t1 <= t2 /\ authorize_caller caller (eq_requirement request) t2 = Ok a.
Proof.
  unfold effect_authorization. destruct (Z.ltb_spec t2 t1); [|intuition].
  split; [done|intuition lia].
Qed.

Lemma authorize_caller_same caller r t1 t2 a1 a2 :
  authorize_caller caller r t1 = Ok a1 -> authorize_caller caller r t2 = Ok a2 -> a1 = a2.
Proof.
  intros (v & -> & _ & ->)%authorize_caller_Ok (w & [= <-] & _ & ->)%authorize_caller_Ok. done.
Qed.

(** Where the effect occurs in the trace of an admitted run. *)
Lemma admitted_cut caller request admission (effect : X -> EffectExecution * X) t1 a i d t2 a2
    (s : list (GateEvent E)) ex' tl pre ex post :
  IntentAccepted caller request t1 a i -> effect_authorization caller request t1 t2 = Ok a2 ->
  AdmittedRun admission effect s ex' -> (forall ex', (EvEffect ex' : GateEvent E) ∉ tl) ->
  [EvNow t1; EvAppend i (Ok d); EvNow t2] ++ s ++ tl = pre ++ EvEffect ex :: post ->
  pre = [EvNow t1; EvAppend i (Ok d); EvNow t2] /\ admission = Ready /\ post = tl /\
  t1 <= t2 /\ authorize_caller caller (eq_requirement request) t2 = Ok a.
Proof.
  intros [Ha _] (Hle & H2)%effect_authorization_Ok Hs Htl Hcut.
  rewrite (authorize_caller_same _ _ _ _ _ _ Ha H2).
  assert (forall l, tl = l ++ EvEffect ex :: post -> False) as Hno.
  { intros l ->. apply (Htl ex). set_solver. }
  do 3 (destruct pre as [|? pre]; [done|]; injection Hcut as <- Hcut).
  destruct Hs; cbn in Hcut; [|by destruct (Hno pre)..].
  destruct pre as [|? pre]; injection Hcut as ? Hcut; [by subst|by destruct (Hno pre)].
Qed.

Lemma intent_accepted_receipt caller request t1 a i :
  IntentAccepted caller request t1 a i ->
  wf_receipt i /\ er_event i = Intent /\ er_observed_at i = t1 /\
  er_context i = from_authorized a (ed_effect (eq_descriptor request)) (ed_schema_epoch (eq_descriptor request)).
Proof. by intros [_ (? & ? & ? & ? & _)%intent_Ok]. Qed.

(** C8. Audit before effect: whatever the ledger, the clock and the effect do, a run
    of [execute_effect] invokes the effect at most once, only when it was admitted,
    and only after an intent receipt naming the caller, the effect and the checked
    capability was accepted by the ledger; the caller was authorized when the intent
    was written and again at the last clock reading before the effect, which is not
    earlier, and nothing else was appended in between. *)
Theorem audit_before_effect caller request admission (effect : X -> EffectExecution * X) x res tr pre ex post :
  trace_of caller request admission effect x = (res, tr) ->
  tr = pre ++ EvEffect ex :: post ->
  exists t1 t2 i d a,
    pre = [EvNow t1; EvAppend i (Ok d); EvNow t2] /\
    er_event i = Intent /\ er_observed_at i = t1 /\
    er_context i = from_authorized a (ed_effect (eq_descriptor request)) (ed_schema_epoch (eq_descriptor request)) /\
    authorize_caller caller (eq_requirement request) t1 = Ok a /\ t1 <= t2 /\
    authorize_caller caller (eq_requirement request) t2 = Ok a /\
    admission = Ready /\ (forall ex', (EvEffect ex' : GateEvent E) ∉ post).
Proof.
  intros Ht ->. destruct (trace_of_run caller request admission effect x) as [_ HR].
  rewrite Ht in HR. cbn [snd] in HR. remember (pre ++ EvEffect ex :: post) as tr eqn:Heq.
  destruct HR as [| | | | |t1 a i d t2 a2 s ex' t3 e HI H2 Hs _|t1 a i d t2 a2 s ex' t3 r e HI H2 Hs _
                 |t1 a i d t2 a2 s ex' t3 r dr o HI H2 Hs _ _];
    try (exfalso; do 5 (destruct pre as [|? pre]; try done; injection Heq as ? Heq)).
  all: destruct (intent_accepted_receipt _ _ _ _ _ HI) as (_ & ? & ? & ?).
  all: eapply admitted_cut in Heq as (-> & ? & -> & ? & ?); [|eassumption..|set_solver].
  all: destruct HI as [? _]; exists t1, t2, i, d, a; repeat split; try done; set_solver.
Qed.

(** The accepted intent of a run is the first receipt appended. *)
Lemma accepted_intent_unique (i i' : EffectReceipt) (d d' : ReceiptDigest) t1 (tl : list (GateEvent E)) :
  er_event i' = Intent ->
  (forall r res, EvAppend r res ∈ tl -> er_event r <> Intent) ->
  EvAppend i' (Ok d') ∈ EvNow t1 :: EvAppend i (Ok d) :: tl -> i' = i /\ d' = d.
Proof. intros Hi Htl. rewrite !elem_of_cons. intros [?|[?|Hin]]; [done|by simplify_eq|by destruct (Htl _ _ Hin)]. Qed.

Lemma admitted_no_append admission (effect : X -> EffectExecution * X) (s : list (GateEvent E)) ex r res :
  AdmittedRun admission effect s ex -> EvAppend r res ∉ s.
Proof. destruct 1; set_solver. Qed.

Lemma outcome_from_not_intent i d t o ev r : outcome_from i d t o ev = Ok r -> er_event r <> Intent.
Proof. intros (_ & _ & _ & _ & _ & _ & _ & o' & -> & _)%outcome_from_Ok. done. Qed.

Lemma denied_outcome_event i d t r :
  outcome_from i d t AuthorizationDenied None = Ok r -> er_event r = Outcome AuthorizationDenied.
Proof.
  intros (_ & _ & _ & _ & _ & _ & _ & o & Ho & Hrel)%outcome_from_Ok. rewrite Ho.
  unfold outcome_relation in Hrel. by destruct (er_recovery i); simplify_eq.
Qed.

(** What became of the intent [i], accepted under [d]. *)
Definition intent_accounted (i : EffectReceipt) (d : ReceiptDigest) (tr : list (GateEvent E))
    (res : result EffectCompletion (EffectGateError E)) : Prop :=
  match res with
  | Ok c =>
      exists r, EvAppend r (Ok (ec_receipt_digest c)) ∈ tr /\ validate_child_of r i d = Ok LinkOutcome /\
        er_event r = Outcome (ec_outcome c) /\
        ec_recovery c = match into_recovery_authorization (mkPersistedOutcome r (ec_receipt_digest c)) with
                        | Ok auth => Some auth | Err _ => None end
  | Err (PostIntentDenied _ dr _) =>
      (exists r, EvAppend r (Ok dr) ∈ tr /\ validate_child_of r i d = Ok LinkOutcome /\
         er_event r = Outcome AuthorizationDenied) /\
      forall ex, EvEffect ex ∉ tr
  | Err (PostIntentContract _ ticket) | Err (OutcomeAudit _ ticket) =>
      ticket = mkTicket (mkPersistedIntent i d)
  | Err _ => False
  end.

(** C9. An intent the ledger accepted is never lost: a run that had one accepted ends
    in a completion whose outcome receipt the ledger accepted as the child of that
    intent, with the recovery authority that receipt yields; or in a denial whose
    no-effect outcome was accepted in the same way; or in an error that carries the
    ticket of exactly that intent. A completion is never reported without one. *)
Theorem accepted_intent_accounted caller request admission (effect : X -> EffectExecution * X) x res tr :
  trace_of caller request admission effect x = (res, tr) ->
  (forall i d, EvAppend i (Ok d) ∈ tr -> er_event i = Intent -> intent_accounted i d tr res) /\
  (forall c, res = Ok c -> exists i d, EvAppend i (Ok d) ∈ tr /\ er_event i = Intent).
Proof.
  intros Ht. destruct (trace_of_run caller request admission effect x) as [Hres HR].
  rewrite Ht in Hres, HR. cbn [fst snd] in Hres, HR. rewrite <- Hres in HR. clear Ht Hres.
  destruct HR as [| | |t1 a i d t2 dn r dr rec HI _ Hr _|t1 a i d t2 dn r e HI _ Hr
                 |t1 a i d t2 a2 s ex t3 e HI _ Hs _|t1 a i d t2 a2 s ex t3 r e HI _ Hs Hr
                 |t1 a i d t2 a2 s ex t3 r dr o HI _ Hs Hr Ho].
  1-3: (split; [set_solver|done]).
  all: destruct (intent_accepted_receipt _ _ _ _ _ HI) as (Hwf & He & _ & _).
  all: try pose proof (outcome_from_not_intent _ _ _ _ _ _ Hr) as Hni.
  all: try pose proof (outcome_from_links _ _ _ _ _ _ Hwf Hr) as Hlink.
  all: try pose proof (fun r res => admitted_no_append _ _ _ _ r res Hs) as Hno.
  all: split; [intros i' d' Hin Hi'; eapply accepted_intent_unique in Hin as [-> ->]; [|done|set_solver]
              |try done].
  - split; [|set_solver]. exists r. repeat split; [set_solver|done|].
    by apply denied_outcome_event in Hr.
  - done.
  - done.
  - done.
  - exists r. cbn. repeat split; [set_solver|done..].
  - intros c _. exists i, d. split; [set_solver|done].
Qed.

(** The effect reports only what its constructors allow, so the one receipt
    contract that can fail after the intent is the order of the clock readings. *)
Lemma post_intent_contract_clock caller request admission (effect : X -> EffectExecution * X) x tr e ticket :
  (forall x, ex_outcome (effect x).1 <> Recovered) ->
  trace_of caller request admission effect x = (Err (PostIntentContract e ticket), tr) ->
  e = OutcomePrecedesIntent /\
  exists t1 tl t3, tr = EvNow t1 :: tl ++ [EvNow t3] /\ t3 < t1.
Proof.
  intros Hpub Ht. destruct (trace_of_run caller request admission effect x) as [Hres HR].
  rewrite Ht in Hres, HR. cbn [fst snd] in Hres, HR. rewrite <- Hres in HR. clear Ht Hres.
  remember (Err (PostIntentContract e ticket)) as res eqn:Heq.
  destruct HR as [| | | | |t1 a i d t2 a2 s ex t3 e' HI _ Hs Hr| |]; try done.
  injection Heq as -> _. destruct (intent_accepted_receipt _ _ _ _ _ HI) as (Hwf & He & Ht1 & _).
  assert (ex_outcome ex <> Recovered) as Hne by (destruct Hs as [ex y _ <-| |]; cbn; auto; apply Hpub).
  destruct (Z.ltb_spec t3 t1) as [Hlt|Hge].
  - split; [|exists t1, ([EvAppend i (Ok d); EvNow t2] ++ s), t3; split; [by rewrite <- app_assoc|done]].
    unfold outcome_from in Hr. rewrite He, bool_decide_false, wf_intent_shape in Hr by (done || tauto).
    cbn [negb] in Hr. destruct (Z.ltb_spec t3 (er_observed_at i)); [by simplify_eq|lia].
  - destruct (outcome_from_total i d t3 (ex_outcome ex) (ex_evidence_digest ex)) as [r Hr'];
      [done..|lia|done|congruence].
Qed.

End GateTheorems.

(** ** A concrete gate: a clock with the given readings and a ledger that numbers
    its entries *)

Definition DemoState : Type := list Timestamp * Z.
#[export] Instance demo_clock : TrustedClock DemoState := fun '(ts, n) =>
  match ts with [] => (0, (ts, n)) | t :: ts => (t, (ts, n)) end.
#[export] Instance demo_sink : EffectReceiptSink DemoState unit := fun _ '(ts, n) =>
  (Ok (mkRef [n]), (ts, n + 1)).
Definition demo_effect (x : DemoState) : EffectExecution * DemoState := (partial None, x).
Definition demo_request : EffectRequest :=
  mkRequest demo_requirement (EffectDescriptor_new (demo_ref 3) (mkEpoch 1) None).
Definition demo_trace : list (GateEvent unit) :=
  (trace_of (Some demo_caller) demo_request Ready demo_effect ([150; 155; 160], 5)).2.
Definition demo_intent_receipt : EffectReceipt :=
  mkReceipt 1 (mkContext (demo_ref 9) (demo_ref 3) (demo_ref 1) (mkEpoch 4) (mkEpoch 1)) Intent 150 None None RNone.

Lemma audit_before_effect_witness :
  exists t1 t2 i d, [EvNow 150; EvAppend demo_intent_receipt (Ok (mkRef [5])); EvNow 155 : GateEvent unit]
    = [EvNow t1; EvAppend i (Ok d); EvNow t2] /\ t1 <= t2.
Proof.
  destruct (audit_before_effect (Some demo_caller) demo_request Ready demo_effect ([150; 155; 160], 5)
    (trace_of (Some demo_caller) demo_request Ready demo_effect ([150; 155; 160], 5)).1 demo_trace
    [EvNow 150; EvAppend demo_intent_receipt (Ok (mkRef [5])); EvNow 155] (partial None)
    (drop 4 demo_trace)) as (t1 & t2 & i & d & a & Hpre & _ & _ & _ & _ & Hle & _).
  - vm_compute; reflexivity.
  - vm_compute; reflexivity.
  - exists t1, t2, i, d. split; [exact Hpre | exact Hle].
Defined.

Lemma accepted_intent_accounted_witness :
  intent_accounted demo_intent_receipt (mkRef [5]) demo_trace
    (trace_of (Some demo_caller) demo_request Ready demo_effect ([150; 155; 160], 5)).1.
Proof.
  refine (proj1 (accepted_intent_accounted (Some demo_caller) demo_request Ready demo_effect ([150; 155; 160], 5)
    (trace_of (Some demo_caller) demo_request Ready demo_effect ([150; 155; 160], 5)).1 demo_trace _)
    demo_intent_receipt (mkRef [5]) _ _).
  - unfold demo_trace. destruct (trace_of _ _ _ _ _); reflexivity.
  - vm_compute. right. left.
  - reflexivity.
Defined.

(** Only a reading before the intent stops the outcome: a clock that goes back after
    the effect-time check, but not as far, is recorded as it reads. *)
Lemma late_regression_recorded :
  exists c, (execute_effect (Some demo_caller) demo_request Ready demo_effect ([150; 190; 160], 5)).1 = Ok c /\
    option_map ra_requirement_observed_at (ec_recovery c) = Some 160.
Proof. eexists. split; vm_compute; reflexivity. Qed.
