(* ===== verification/EffectLedger.v ===== *)
(** * A ledger for effect receipts (crates/akroasis/tests/caller_recovery.rs)

    The contract of [EffectReceiptSink] (effect_receipt_state.rs): a digest names
    one accepted entry, and a child is accepted only as a valid transition from an
    entry without a child. [StatefulLedger], the adapter the recovery tests run the
    gate against, meets it, and with it the gate's own outcome is never refused for
    a broken contract. The digest of a receipt is a parameter. *)

From S2P Require Import Prelude TamperLog Caller EffectReceipt EffectGate.

Local Open Scope Z_scope.

#[export] Instance OpaqueRef_countable d : Countable (OpaqueRef d).
Proof. refine (inj_countable' (@ref_bytes d) mkRef _). by intros []. Defined.

Inductive LedgerError : Type :=
| Injected | InvalidPredecessor | AlreadyMatched | AlreadyClaimed | DuplicateReceipt.

Record StatefulLedger : Type := mkLedger {
  sl_attempts : nat; sl_fail_at : option nat; sl_receipts : list EffectReceipt;
  sl_claimed_intents : gset ReceiptDigest; sl_claimed_recoveries : gset ReceiptDigest }.

Section Ledger.
Context (receipt_digest : EffectReceipt -> ReceiptDigest).

Definition receipt_with_digest (l : StatefulLedger) (digest : ReceiptDigest) : option EffectReceipt :=
  snd <$> list_find (fun r => receipt_digest r = digest) (sl_receipts l).

Definition has_descendant (l : StatefulLedger) (digest : ReceiptDigest) : bool :=
  existsb (fun r => bool_decide (er_predecessor r = Some digest)) (sl_receipts l).

Definition claim_unmatched_intent (digest : ReceiptDigest) (l : StatefulLedger)
  : result PersistedIntent LedgerError * StatefulLedger :=
  match receipt_with_digest l digest with
  | Some receipt =>
      if bool_decide (er_event receipt <> Intent) then (Err InvalidPredecessor, l)
      else if has_descendant l digest then (Err AlreadyMatched, l)
      else if bool_decide (digest ∈ sl_claimed_intents l) then (Err AlreadyClaimed, l)
      else (map_err (fun _ => InvalidPredecessor) (from_verified_unmatched receipt digest),
            mkLedger (sl_attempts l) (sl_fail_at l) (sl_receipts l)
              ({[digest]} ∪ sl_claimed_intents l) (sl_claimed_recoveries l))
  | None => (Err InvalidPredecessor, l)
  end.

Definition claim_recovery (digest : ReceiptDigest) (l : StatefulLedger)
  : result RecoveryAuthorization LedgerError * StatefulLedger :=
  if has_descendant l digest then (Err AlreadyMatched, l) else
  match receipt_with_digest l digest with
  | None => (Err InvalidPredecessor, l)
  | Some receipt =>
      match result_bind (from_verified receipt digest) into_recovery_authorization with
      | Err _ => (Err InvalidPredecessor, l)
      | Ok authorization =>
          if bool_decide (digest ∈ sl_claimed_recoveries l) then (Err AlreadyClaimed, l)
          else (Ok authorization,
                mkLedger (sl_attempts l) (sl_fail_at l) (sl_receipts l) (sl_claimed_intents l)
                  ({[digest]} ∪ sl_claimed_recoveries l))
      end
  end.

Definition validate_append (l : StatefulLedger) (receipt : EffectReceipt) : result unit LedgerError :=
  match receipt_with_digest l (receipt_digest receipt) with
  | Some _ => Err DuplicateReceipt
  | None =>
      match er_predecessor receipt with
      | None => Ok tt
      | Some predecessor =>
          let? parent := context_opt (receipt_with_digest l predecessor) InvalidPredecessor in
          let? _ := map_err (fun _ => InvalidPredecessor) (validate_child_of receipt parent predecessor) in
          if has_descendant l predecessor then Err AlreadyMatched else Ok tt
      end
  end.

Definition ledger_append (receipt : EffectReceipt) (l : StatefulLedger)
  : result ReceiptDigest LedgerError * StatefulLedger :=
  match validate_append l receipt with
  | Err e => (Err e, l)
  | Ok _ =>
      let attempt := sl_attempts l in
      let l' := mkLedger (S attempt) (sl_fail_at l) (sl_receipts l) (sl_claimed_intents l)
                  (sl_claimed_recoveries l) in
      if bool_decide (sl_fail_at l = Some attempt) then (Err Injected, l')
      else (Ok (receipt_digest receipt),
            mkLedger (S attempt) (sl_fail_at l) (sl_receipts l ++ [receipt]) (sl_claimed_intents l)
              (sl_claimed_recoveries l))
  end.

(** ** The contract of a ledger *)

Record ledger_ok (rs : list EffectReceipt) : Prop := mkLedgerOk {
  lo_digests : NoDup (receipt_digest <$> rs);
  lo_children : NoDup (omap er_predecessor rs);
  lo_linked : forall k r d, rs !! k = Some r -> er_predecessor r = Some d ->
    exists j p link, (j < k)%nat /\ rs !! j = Some p /\ receipt_digest p = d /\
                     validate_child_of r p d = Ok link }.

Lemma receipt_with_digest_Some l d r :
  receipt_with_digest l d = Some r -> r ∈ sl_receipts l /\ receipt_digest r = d.
Proof.
  unfold receipt_with_digest. intros ([k r'] & (Hk & Hd & _)%list_find_Some & ->)%fmap_Some.
  split; [by eapply list_elem_of_lookup_2|done].
Qed.

Lemma receipt_with_digest_None l d :
  receipt_with_digest l d = None <-> d ∉ receipt_digest <$> sl_receipts l.
Proof.
  unfold receipt_with_digest. rewrite fmap_None, list_find_None, Forall_forall, list_elem_of_fmap.
  naive_solver.
Qed.

Lemma has_descendant_false l d : has_descendant l d = false <-> d ∉ omap er_predecessor (sl_receipts l).
Proof.
  unfold has_descendant. rewrite <- not_true_iff_false, existsb_exists, list_elem_of_omap.
  apply not_iff_compat. split; intros (r & Hr & Hd); exists r;
    [apply bool_decide_eq_true in Hd|]; rewrite <- ?list_elem_of_In in *; (split; [done|]); [done|].
  by apply bool_decide_eq_true.
Qed.

Lemma validate_append_Ok l r :
  validate_append l r = Ok tt <->
  receipt_digest r ∉ receipt_digest <$> sl_receipts l /\
  forall d, er_predecessor r = Some d ->
    d ∉ omap er_predecessor (sl_receipts l) /\
    exists p link, receipt_with_digest l d = Some p /\ validate_child_of r p d = Ok link.
Proof.
  unfold validate_append. rewrite <- receipt_with_digest_None.
  destruct (receipt_with_digest l (receipt_digest r)); [split; [done|by intros [? _]]|].
  destruct (er_predecessor r) as [d|]; [|split; [done|by intros _]].
  destruct (receipt_with_digest l d) as [p|] eqn:Hp; cbn;
    [|split; [done|intros [_ H]; by destruct (H d eq_refl) as (_ & ? & ? & ? & _); congruence]].
  setoid_rewrite <- has_descendant_false.
  destruct (validate_child_of r p d) as [link|e] eqn:Hv; cbn; [destruct (has_descendant l d) eqn:Hh|];
    (split; [first [done|intros _; split; [done|intros ? [= <-]; eauto 10]]
            | intros [_ H]; destruct (H d eq_refl) as (Hn & ? & ? & Hp' & Hv'); congruence]).
Qed.

Lemma ledger_ok_snoc rs l r :
  sl_receipts l = rs -> ledger_ok rs -> validate_append l r = Ok tt -> ledger_ok (rs ++ [r]).
Proof.
  intros <- [Hd Hc Hl] [Hnew Hpred]%validate_append_Ok. split.
  - rewrite fmap_app. apply NoDup_app. repeat split; [done| |apply NoDup_singleton].
    intros x Hx Hx'. apply list_elem_of_singleton in Hx'. by subst.
  - rewrite omap_app. cbn. destruct (er_predecessor r) as [d|] eqn:Hp; cbn; [|by rewrite app_nil_r].
    apply NoDup_app. repeat split; [done| |apply NoDup_singleton].
    intros x Hx Hx'. apply list_elem_of_singleton in Hx'. subst. by destruct (Hpred d eq_refl).
  - intros k r' d [Hk|[Hk Hr]]%lookup_app_Some Hp.
    + destruct (Hl _ _ _ Hk Hp) as (j & p & link & ? & ? & ? & ?).
      exists j, p, link. rewrite lookup_app_l by (by eapply lookup_lt_Some). auto.
    + apply list_lookup_singleton_Some in Hr as [Hk' <-].
      destruct (Hpred d Hp) as (_ & p & link & [Hin Hdp]%receipt_with_digest_Some & Hv).
      apply list_elem_of_lookup in Hin as [j Hj]. pose proof (lookup_lt_Some _ _ _ Hj).
      exists j, p, link. rewrite lookup_app_l by done. repeat split; [lia|done..].
Qed.

(** The adapter meets the contract on every append, refused ones included. *)
Lemma ledger_append_contract r l :
  ledger_ok (sl_receipts l) ->
  ledger_ok (sl_receipts (ledger_append r l).2) /\
  match (ledger_append r l).1 with
  | Ok d => sl_receipts (ledger_append r l).2 = sl_receipts l ++ [r] /\ d = receipt_digest r
  | Err _ => sl_receipts (ledger_append r l).2 = sl_receipts l
  end.
Proof.
  intros Hok. unfold ledger_append. destruct (validate_append l r) as [[]|e] eqn:Hv; [|done].
  case_bool_decide; cbn; [done|]. split; [by eapply ledger_ok_snoc|done].
Qed.

(** The last entry of a ledger has no child yet. *)
Lemma last_unmatched rs i :
  ledger_ok (rs ++ [i]) -> receipt_digest i ∉ omap er_predecessor (rs ++ [i]).
Proof.
  intros [Hd _ Hl] (r & Hr & Hp)%list_elem_of_omap. apply list_elem_of_lookup in Hr as [k Hk].
  destruct (Hl _ _ _ Hk Hp) as (j & p & link & Hjk & Hj & Hdp & _).
  pose proof (lookup_lt_Some _ _ _ Hk) as Hlen. rewrite length_app in Hlen. cbn in Hlen.
  assert (j = length rs); [|lia].
  eapply (NoDup_lookup _ _ _ (receipt_digest i) Hd); rewrite list_lookup_fmap.
  - by rewrite Hj, <- Hdp.
  - by rewrite list_lookup_middle.
Qed.

(** The outcome of the intent just accepted can be refused only as a duplicate. *)
Lemma outcome_never_invalid rs l i t o ev r :
  sl_receipts l = rs ++ [i] -> ledger_ok (rs ++ [i]) -> wf_receipt i ->
  outcome_from i (receipt_digest i) t o ev = Ok r ->
  validate_append l r = Ok tt \/ validate_append l r = Err DuplicateReceipt.
Proof.
  intros Hl Hok Hwf Hr.
  destruct (receipt_with_digest l (receipt_digest r)) as [q|] eqn:Hq;
    [right; unfold validate_append; by rewrite Hq|left].
  apply validate_append_Ok. split; [by apply receipt_with_digest_None|].
  pose proof (outcome_from_links _ _ _ _ _ _ Hwf Hr) as Hlink.
  apply outcome_from_Ok in Hr as (_ & _ & _ & _ & _ & _ & Hp & _). rewrite Hp. intros d [= <-].
  rewrite Hl. split; [by apply last_unmatched|].
  destruct (receipt_with_digest l (receipt_digest i)) as [p|] eqn:Hw.
  - apply receipt_with_digest_Some in Hw as [Hin Hd]. rewrite Hl in Hin.
    assert (p = i) as ->; [|by eauto].
    apply list_elem_of_lookup in Hin as [j Hj]. destruct Hok as [Hnd _ _].
    assert (j = length rs) as ->.
    { eapply (NoDup_lookup _ _ _ (receipt_digest i) Hnd); rewrite list_lookup_fmap;
        [by rewrite Hj, <- Hd | by rewrite list_lookup_middle]. }
    rewrite list_lookup_middle in Hj by done. by injection Hj.
  - apply receipt_with_digest_None in Hw. rewrite Hl, fmap_app in Hw. set_solver.
Qed.

(** A recovery is claimed once, and the intent built from the claim is accepted
    while no other child was appended. *)
Lemma claim_recovery_Ok d l auth l' :
  claim_recovery d l = (Ok auth, l') ->
  sl_receipts l' = sl_receipts l /\ (claim_recovery d l').1 = Err AlreadyClaimed /\
  d ∉ omap er_predecessor (sl_receipts l) /\
  exists p, receipt_with_digest l d = Some p /\
    into_recovery_authorization (mkPersistedOutcome p d) = Ok auth.
Proof.
  unfold claim_recovery. destruct (has_descendant l d) eqn:Hd; [done|].
  destruct (receipt_with_digest l d) as [p|] eqn:Hp; [|done].
  destruct (result_bind (from_verified p d) into_recovery_authorization) as [a|] eqn:Ha; [|done].
  case_bool_decide; [done|]. intros [= <- <-]. split; [done|]. split.
  - change (has_descendant (mkLedger _ _ (sl_receipts l) _ _) d) with (has_descendant l d).
    change (receipt_with_digest (mkLedger _ _ (sl_receipts l) _ _) d) with (receipt_with_digest l d).
    rewrite Hd, Hp, Ha. cbn. rewrite bool_decide_true by set_solver. done.
  - split; [by apply has_descendant_false|]. exists p. split; [done|].
    unfold from_verified in Ha. by destruct (er_event p).
Qed.

Lemma claimed_recovery_accepted d l auth l' caller e ep ev t q :
  claim_recovery d l = (Ok auth, l') -> intent caller (into_descriptor auth e ep ev) t = Ok q ->
  validate_append l' (pi_receipt q) = Ok tt \/ validate_append l' (pi_receipt q) = Err DuplicateReceipt.
Proof.
  intros (Hr & _ & Hn & p & Hp & Ha)%claim_recovery_Ok Hq.
  destruct (receipt_with_digest l' (receipt_digest (pi_receipt q))) as [r|] eqn:Hw;
    [right; unfold validate_append; by rewrite Hw|left].
  pose proof (recovery_intent_links _ _ _ _ _ _ _ _ _ Ha Hq) as Hlink.
  apply validate_append_Ok. split; [by apply receipt_with_digest_None|].
  intros d' Hd'. apply validate_child_of_Ok in Hlink as Hlink'. destruct Hlink' as [Hpd _].
  assert (d' = d) as -> by congruence. rewrite Hr. split; [done|].
  exists p, LinkRecoveryIntent. split; [|done]. unfold receipt_with_digest in *. by rewrite Hr.
Qed.

End Ledger.

(** ** The gate over the ledger *)

Section LedgerGate.
Context (receipt_digest : EffectReceipt -> ReceiptDigest).
Context {W : Type} {clock : TrustedClock W}.
Abbreviation App := (StatefulLedger * W)%type (only parsing).

(** The gate borrows the ledger exclusively: the clock and the effect cannot touch it. *)
#[local] Instance ledger_sink : EffectReceiptSink App LedgerError := fun r '(l, w) =>
  let '(res, l) := ledger_append receipt_digest r l in (res, (l, w)).
#[local] Instance ledger_clock : TrustedClock App := fun '(l, w) => let '(t, w) := now w in (t, (l, w)).
Definition beside_ledger (effect : W -> EffectExecution * W) : App -> EffectExecution * App :=
  fun '(l, w) => let '(ex, w) := effect w in (ex, (l, w)).

(** Weakest preconditions of the gate's steps, over the ledger only. *)
Definition Post {A} (m : Gate App LedgerError A) (l : StatefulLedger)
    (Q : result A (EffectGateError LedgerError) -> StatefulLedger -> Prop) : Prop :=
  forall w, Q (m (l, w)).1 (m (l, w)).2.1.

Lemma Post_bind {A B} (m : Gate App LedgerError A) (k : A -> Gate App LedgerError B) l Q :
  Post m l (fun r l' => match r with Ok a => Post (k a) l' Q | Err e => Q (Err e) l' end) ->
  Post (gate_bind m k) l Q.
Proof.
  intros H w. specialize (H w). unfold gate_bind.
  destruct (m (l, w)) as [[a|e] [l' w']]; cbn in *; [apply H|done].
Qed.

Lemma Post_lift {A} r l (Q : result A (EffectGateError LedgerError) -> _ -> Prop) :
  Q r l -> Post (gate_lift r) l Q.
Proof. by intros ? w. Qed.

Lemma Post_now l (Q : _ -> _ -> Prop) : (forall t, Q (Ok t) l) -> Post gate_now l Q.
Proof. intros HQ w. unfold gate_now, now, ledger_clock. destruct (now w) as [t w'] eqn:Ht. cbn. auto. Qed.

Lemma Post_effect admission effect l (Q : _ -> _ -> Prop) :
  (forall ex, Q (Ok ex) l) -> Post (run_admitted admission (beside_ledger effect)) l Q.
Proof. intros HQ w. destruct admission; cbn; auto. destruct (effect w). cbn. auto. Qed.

Definition LedgerOf (rs : list EffectReceipt) (l : StatefulLedger) : Prop :=
  sl_receipts l = rs /\ ledger_ok receipt_digest rs.

Lemma Post_intent_append pending rs l (Q : _ -> _ -> Prop) :
  LedgerOf rs l ->
  (forall l', LedgerOf (rs ++ [pi_receipt pending]) l' ->
     Q (Ok (mkPersistedIntent (pi_receipt pending) (receipt_digest (pi_receipt pending)))) l') ->
  (forall l' e, LedgerOf rs l' -> Q (Err (IntentAudit e)) l') ->
  Post (fun x => let '(r, x) := intent_append_to pending x in (map_err IntentAudit r, x)) l Q.
Proof.
  intros [<- Hok] H1 H2 w. unfold intent_append_to, append, ledger_sink.
  destruct (ledger_append_contract receipt_digest (pi_receipt pending) l Hok) as [Hok' Hres].
  destruct (ledger_append receipt_digest _ l) as [[d|e] l']; cbn in *.
  - destruct Hres as [Hr ->]. apply H1. split; [done|by rewrite <- Hr].
  - apply H2. split; [done|by rewrite <- Hres].
Qed.

Lemma Post_append_outcome rs i t ex l (Q : _ -> _ -> Prop) :
  wf_receipt i -> LedgerOf (rs ++ [i]) l ->
  (forall e, Q (Err (PostIntentContract e (mkTicket (mkPersistedIntent i (receipt_digest i))))) l) ->
  (forall e l', e = Injected \/ e = DuplicateReceipt -> LedgerOf (rs ++ [i]) l' ->
     Q (Err (OutcomeAudit e (mkTicket (mkPersistedIntent i (receipt_digest i))))) l') ->
  (forall r l', outcome_from i (receipt_digest i) t (ex_outcome ex) (ex_evidence_digest ex) = Ok r ->
     LedgerOf (rs ++ [i; r]) l' -> Q (Ok (mkPersistedOutcome r (receipt_digest r))) l') ->
  Post (append_effect_outcome (mkPersistedIntent i (receipt_digest i)) t ex) l Q.
Proof.
  intros Hwf [Hl Hok] H1 H2 H3 w. unfold append_effect_outcome, persisted_outcome; cbn [pn_receipt pn_digest].
  destruct (outcome_from i _ t _ _) as [r|e] eqn:Hr; [|by apply H1].
  unfold outcome_append_to, append, ledger_sink; cbn [po_receipt po_intent].
  pose proof Hok as Hc. rewrite <- Hl in Hc. apply (ledger_append_contract receipt_digest r) in Hc as [Hok' Hres].
  destruct (outcome_never_invalid receipt_digest rs l i t _ _ r Hl Hok Hwf Hr) as [Hv|Hv];
    unfold ledger_append in *; rewrite Hv in *; cbn in *;
    [|apply H2; [by right|by rewrite Hl in Hok']].
  case_bool_decide; cbn in *.
  - apply H2; [by left|]. by rewrite Hl in Hok'.
  - apply (H3 r); [done|]. unfold LedgerOf. cbn. rewrite Hl, <- app_assoc in *. cbn in *.
    done.
Qed.

(** What a run adds to the ledger, by its result. *)
Definition LedgerSpec (rs : list EffectReceipt) (res : result EffectCompletion (EffectGateError LedgerError))
    (l' : StatefulLedger) : Prop :=
  exists new, LedgerOf (rs ++ new) l' /\
    match res with
    | Ok c => exists i r, new = [i; r] /\ er_event i = Intent /\ er_event r = Outcome (ec_outcome c) /\
                          ec_receipt_digest c = receipt_digest r
    | Err (Denied _) | Err (ReceiptContract _) | Err (IntentAudit _) => new = []
    | Err (PostIntentDenied _ d _) => exists i r, new = [i; r] /\ d = receipt_digest r
    | Err (PostIntentContract _ ticket) => new = [pn_receipt (rt_intent ticket)]
    | Err (OutcomeAudit e ticket) =>
        new = [pn_receipt (rt_intent ticket)] /\ (e = Injected \/ e = DuplicateReceipt)
    end.

Lemma Post_outcome_spec {B} rs i t ex l (k : PersistedOutcome -> Gate App LedgerError B) Q :
  wf_receipt i -> LedgerOf (rs ++ [i]) l ->
  (forall e l', LedgerSpec rs (Err e) l' -> Q (Err e) l') ->
  (forall r l', outcome_from i (receipt_digest i) t (ex_outcome ex) (ex_evidence_digest ex) = Ok r ->
     LedgerOf (rs ++ [i; r]) l' -> Post (k (mkPersistedOutcome r (receipt_digest r))) l' Q) ->
  Post (gate_bind (append_effect_outcome (mkPersistedIntent i (receipt_digest i)) t ex) k) l Q.
Proof.
  intros Hwf HL HE HK. apply Post_bind, (Post_append_outcome rs); auto.
  - intros e. apply HE. by exists [i].
  - intros e l' He HL'. apply HE. by exists [i].
Qed.

Lemma execute_effect_ledger caller request admission effect rs l :
  LedgerOf rs l ->
  Post (execute_effect caller request admission (beside_ledger effect)) l (LedgerSpec rs).
Proof.
  intros HL. unfold execute_effect. destruct request as [requirement descriptor].
  assert (forall l', LedgerOf rs l' -> LedgerOf (rs ++ []) l') as Hnil by (by rewrite app_nil_r).
  apply Post_bind, Post_now. intros t1. apply Post_bind, Post_lift.
  destruct (authorize_caller caller requirement t1) as [a|dn]; cbn [map_err]; [|exists []; auto].
  apply Post_bind, Post_lift.
  destruct (intent a descriptor t1) as [p|e] eqn:Hi; cbn [map_err]; [|exists []; auto].
  apply intent_Ok in Hi as (Hwf & He & _).
  apply Post_bind, (Post_intent_append p rs); [done| |intros l' e HL'; exists []; auto].
  intros l1 HL1. apply Post_bind, Post_now. intros t2. destruct (if t2 <? t1 then _ else _) as [a2|dn].
  - apply Post_bind, Post_effect. intros ex. apply Post_bind, Post_now. intros t3.
    apply (Post_outcome_spec rs); auto. intros r l' Hr HL'.
    apply outcome_from_Ok in Hr as (_ & _ & _ & _ & _ & _ & _ & o & Ho & _).
    rewrite (completion_from_persisted_eq o) by done. apply Post_lift.
    exists [pi_receipt p; r]. split; [done|]. cbn. eauto 10.
  - apply (Post_outcome_spec rs); auto. intros r l' Hr%denied_outcome_event HL'.
    rewrite needed_recovery_eq by done. apply Post_bind, Post_lift, Post_lift.
    exists [pi_receipt p; r]. split; [done|]. eauto.
Qed.

(** The gate and a ledger that enforces every rule of the receipt contract fit:
    whatever the clock and the effect do, a run keeps the ledger well linked, appends
    at most the intent and its outcome, reports a completion only when both are in
    it, the outcome under the digest it returns, and never has the outcome of an
    accepted intent refused for a missing, mismatched or already matched
    predecessor. *)
Theorem gate_respects_ledger caller request admission effect l w res l' w' :
  ledger_ok receipt_digest (sl_receipts l) ->
  execute_effect caller request admission (beside_ledger effect) (l, w) = (res, (l', w')) ->
  LedgerSpec (sl_receipts l) res l'.
Proof.
  intros Hok Hrun.
  pose proof (execute_effect_ledger caller request admission effect (sl_receipts l) l ltac:(done) w) as HP.
  by rewrite Hrun in HP.
Qed.

End LedgerGate.

(** A digest that separates the receipts of one run, for a concrete ledger. *)
Definition demo_digest (r : EffectReceipt) : ReceiptDigest :=
  mkRef (er_observed_at r :: match er_event r with Intent => [0] | Outcome _ => [1] end).
Definition demo_ledger : StatefulLedger := mkLedger 0 None [] ∅ ∅.
Definition script_clock : TrustedClock (list Timestamp) := fun ts =>
  match ts with [] => (0, ts) | t :: ts => (t, ts) end.
Definition demo_run : result EffectCompletion (EffectGateError LedgerError) * (StatefulLedger * list Timestamp) :=
  @execute_effect _ _ (ledger_sink demo_digest) (@ledger_clock _ script_clock) (Some demo_caller) demo_request
    Ready (beside_ledger (fun w => (partial None, w))) (demo_ledger, [150; 155; 160]).

Lemma gate_respects_ledger_witness : LedgerSpec demo_digest [] demo_run.1 demo_run.2.1.
Proof.
  refine (@gate_respects_ledger demo_digest _ script_clock (Some demo_caller) demo_request Ready
    (fun w => (partial None, w)) demo_ledger [150; 155; 160] demo_run.1 demo_run.2.1 demo_run.2.2 _ _).
  - split; [constructor|constructor|done].
  - vm_compute; reflexivity.
Defined.
