(* ===== verification/VaultCrypto.v ===== *)
(** * Vault cryptography (crates/kryphos/src/crypto.rs, vault.rs, key.rs)

    Key derivation with its parameter bounds, the AEAD envelope, the associated
    data that binds an entry's ciphertext to its identity, and the sealed signing
    key. Argon2id, ChaCha20-Poly1305, Ed25519 and serde_json are classes; a random
    nonce is an argument. The human-readable reason inside an error is left out.
    A name is its UTF-8 bytes; a key is its bytes. *)

From S2P Require Import Prelude TamperLog.

Local Open Scope Z_scope.

(** ** Third-party primitives *)

(** [argon2::Params::new] may reject what is in range, and [hash_password_into]
    may fail; an output has 32 bytes. *)
Class Argon2id : Type := {
  argon2_params : Z -> Z -> Z -> bool;
  argon2_hash : Z -> Z -> Z -> bytes -> bytes -> option bytes;
  argon2_hash_len : forall m t p pw salt k, argon2_hash m t p pw salt = Some k -> length k = 32%nat
}.

(** [ChaCha20Poly1305]: key, nonce, associated data, text. Opening what was sealed
    returns it, and a text that opens was sealed under the same key, nonce and data. *)
Class Aead : Type := {
  aead_seal : bytes -> bytes -> bytes -> bytes -> option bytes;
  aead_open : bytes -> bytes -> bytes -> bytes -> option bytes;
  aead_open_seal : forall k n a m c, aead_seal k n a m = Some c -> aead_open k n a c = Some m;
  aead_seal_open : forall k n a m c, aead_open k n a c = Some m -> aead_seal k n a m = Some c
}.

(** [serde_json::to_vec] and [from_slice] at a type. *)
Class Json (A : Type) : Type := {
  to_json : A -> option bytes;
  from_json : bytes -> option A;
  from_to_json : forall a b, to_json a = Some b -> from_json b = Some a
}.

(** Ed25519: the public key of a 32-byte secret, and which 32 bytes are a point. *)
Class Ed25519 : Type := {
  ed_public : bytes -> bytes;
  ed_sign : bytes -> bytes -> bytes;
  ed_verify : bytes -> bytes -> bytes -> bool;
  ed_point : bytes -> bool;
  ed_sign_len : forall sk m, length (ed_sign sk m) = 64%nat;
  ed_public_point : forall sk, length sk = 32%nat -> length (ed_public sk) = 32%nat /\ ed_point (ed_public sk) = true;
  ed_verify_sign : forall sk m, length sk = 32%nat -> ed_verify (ed_public sk) m (ed_sign sk m) = true
}.

(** ** Data model (vault.rs) *)

Definition NONCE_LEN : nat := 12.
Definition SALT_LEN : nat := 32.
Definition SIGNING_KEY_LEN : nat := 32.
Definition VERIFYING_KEY_LEN : nat := 32.
Definition ENTRY_ENVELOPE_VERSION : Z := 1.
Definition VAULT_VERSION : Z := 2.
Definition MIN_SUPPORTED_VAULT_VERSION : Z := 2.

Inductive CredentialType : Type :=
| ApiKey | Psk | Certificate | RadioKey | Custom (label : bytes).

Inductive EntryStatus : Type := EActive | ERevoked | EExpired.

#[export] Instance CredentialType_eq_dec : EqDecision CredentialType.
Proof. solve_decision. Defined.
#[export] Instance EntryStatus_eq_dec : EqDecision EntryStatus.
Proof. solve_decision. Defined.

Inductive HistoryEventKind : Type := HCreated | HRotated | HRevoked.
Record HistoryEvent : Type := mkHistory { he_timestamp : Z; he_kind : HistoryEventKind }.

Record EntryMetadata : Type := mkMetadata {
  em_created_at : Z; em_rotated_at : option Z; em_revoked_at : option Z; em_rotation_count : Z;
  em_tags : list bytes }.

Record KdfParams : Type := mkKdf { memory_cost_kib : Z; time_cost : Z; parallelism : Z }.
Definition KdfParams_default : KdfParams := mkKdf 65536 3 4.

(** ** Errors (error.rs) *)

Inductive KeyError : Type := InvalidEd25519Key | WrongKeyLength (expected actual : nat).

Inductive CryptoError : Type :=
| DecryptionFailed
| EncryptionFailed
| KeyParse (source : KeyError)
| InvalidNonceLength (expected actual : nat)
| InvalidKdfParams
| InvalidSaltLength (expected actual : nat)
| CryptoSignatureInvalid.

Inductive VaultError : Type :=
| InvalidHeader
| EntryNotFound (name : bytes)
| DuplicateEntry (name : bytes)
| Serialization
| VIo
| WrongPassphrase
| EmptyPassphrase
| VLocked
| AlreadyExists
| NotInitialized
| StorageBackend
| EntryCrypto (source : CryptoError)
| EntryRevoked (name : bytes)
| EntryExpired (name : bytes)
| EntryNotDeletable (name : bytes)
| AuditedMutationFailed (name operation : bytes) (source : VaultError)
| VTamperLog (source : TamperLogError)
| FieldTooLarge (field : bytes) (len : nat).

(** ** Key derivation (crypto.rs) *)

Definition MIN_KDF_MEMORY_KIB : Z := 65536.
Definition MIN_KDF_TIME_COST : Z := 3.
Definition MIN_KDF_PARALLELISM : Z := 4.
Definition MAX_KDF_MEMORY_KIB : Z := 1048576.
Definition MAX_KDF_TIME_COST : Z := 16.
Definition MAX_KDF_PARALLELISM : Z := 16.

Definition check_kdf_params (params : KdfParams) : result unit CryptoError :=
  if existsb (fun '(value, min, max) => (value <? min) || (max <? value))
       [(memory_cost_kib params, MIN_KDF_MEMORY_KIB, MAX_KDF_MEMORY_KIB);
        (time_cost params, MIN_KDF_TIME_COST, MAX_KDF_TIME_COST);
        (parallelism params, MIN_KDF_PARALLELISM, MAX_KDF_PARALLELISM)]
  then Err InvalidKdfParams else Ok tt.

Definition derive_key `{Argon2id} (passphrase salt : bytes) (kdf : KdfParams) : result bytes CryptoError :=
  if negb (length salt =? SALT_LEN)%nat then Err (InvalidSaltLength SALT_LEN (length salt)) else
  let? _ := check_kdf_params kdf in
  if negb (argon2_params (memory_cost_kib kdf) (time_cost kdf) (parallelism kdf))
  then Err InvalidKdfParams else
  match argon2_hash (memory_cost_kib kdf) (time_cost kdf) (parallelism kdf) passphrase salt with
  | Some key_bytes => Ok key_bytes
  | None => Err EncryptionFailed
  end.

(** ** The AEAD envelope *)

Section Envelope.
Context `{Aead}.

Definition vault_encrypt (key plaintext aad nonce : bytes) : result bytes CryptoError :=
  match aead_seal key nonce aad plaintext with
  | Some ciphertext => Ok (nonce ++ ciphertext)
  | None => Err EncryptionFailed
  end.

Definition vault_decrypt (key ciphertext aad : bytes) : result bytes CryptoError :=
  if (length ciphertext <? NONCE_LEN)%nat then Err (InvalidNonceLength NONCE_LEN (length ciphertext))
  else
    match aead_open key (take NONCE_LEN ciphertext) aad (drop NONCE_LEN ciphertext) with
    | Some plaintext => Ok plaintext
    | None => Err DecryptionFailed
    end.

End Envelope.

(** ** Entry binding *)

Definition checked_len_prefix (field : bytes) (len : nat) : result bytes VaultError :=
  match try_uint 32 (Z.of_nat len) with
  | Some n => Ok (to_be_bytes 4 n)
  | None => Err (FieldTooLarge field len)
  end.

Definition entry_aad `{Json CredentialType} (vault_salt name : bytes) (credential_type : CredentialType)
    (envelope_version : Z) : result bytes VaultError :=
  let? type_bytes := match to_json credential_type with Some b => Ok b | None => Err Serialization end in
  let? salt_len := checked_len_prefix (byte_str "vault_salt") (length vault_salt) in
  let? name_len := checked_len_prefix (byte_str "name") (length name) in
  let? type_len := checked_len_prefix (byte_str "credential_type") (length type_bytes) in
  Ok ([envelope_version] ++ salt_len ++ vault_salt ++ name_len ++ name ++ type_len ++ type_bytes).

(** ** Keys (key.rs) and the sealed signing key (vault.rs) *)

Section Identity.
Context `{Aead} `{Ed25519} `{KeyedHash}.

Definition zeroizing_key_array (bs : bytes) : result bytes KeyError :=
  if (length bs =? SIGNING_KEY_LEN)%nat then Ok bs else Err (WrongKeyLength SIGNING_KEY_LEN (length bs)).

Definition SigningKey_from_bytes (bs : bytes) : result bytes KeyError := zeroizing_key_array bs.

Definition VerifyingKey_from_bytes (bs : bytes) : result bytes KeyError :=
  if negb (length bs =? VERIFYING_KEY_LEN)%nat then Err (WrongKeyLength VERIFYING_KEY_LEN (length bs))
  else if ed_point bs then Ok bs else Err InvalidEd25519Key.

(** A key is its bytes: [sign], [verifying_key] and [verify] of the wrappers. *)
Definition SigningKey_sign (signing message : bytes) : bytes := ed_sign signing message.
Definition SigningKey_verifying_key (signing : bytes) : bytes := ed_public signing.
Definition VerifyingKey_verify (verifying message signature : bytes) : result unit CryptoError :=
  if ed_verify verifying message signature then Ok tt else Err CryptoSignatureInvalid.

Record InstallationIdentity : Type := mkIdentity { ii_signing : bytes; ii_verifying : bytes }.

Definition from_signing_key (signing : bytes) : InstallationIdentity :=
  mkIdentity signing (SigningKey_verifying_key signing).

Definition identity_sign (id : InstallationIdentity) (message : bytes) : bytes := SigningKey_sign (ii_signing id) message.
Definition identity_verify (id : InstallationIdentity) (message signature : bytes) : result unit CryptoError :=
  VerifyingKey_verify (ii_verifying id) message signature.
Definition public_key_bytes (id : InstallationIdentity) : bytes := ii_verifying id.
Definition sign_entry (id : InstallationIdentity) (entry_hash : bytes) : bytes := SigningKey_sign (ii_signing id) entry_hash.

Definition KEY_ID_DOMAIN : bytes := byte_str "kryphos/installation/key-id/v1".

(** [blake3::hash] of the domain keys the hash; the identifier is its first bytes. *)
Definition installation_key_id (plain_hash : bytes -> bytes) (verifying : bytes) : bytes :=
  take KEY_ID_LEN (blake3_keyed (plain_hash KEY_ID_DOMAIN) verifying).

Definition identity_signer (plain_hash : bytes -> bytes) (id : InstallationIdentity) : TipSigner :=
  {| signer_key_id := installation_key_id plain_hash (ii_verifying id);
     sign_tip := identity_sign id |}.

Definition key_verifier (plain_hash : bytes -> bytes) (verifying : bytes) : TipVerifier :=
  {| verifier_key_id := installation_key_id plain_hash verifying;
     verify_tip payload signature := is_ok (VerifyingKey_verify verifying payload signature) |}.

Definition SIGNING_KEY_ENVELOPE_VERSION : Z := 1.
Definition SIGNING_KEY_AAD_TAG : bytes := byte_str "kryphos/vault/signing-key".
Definition signing_key_aad : bytes := [SIGNING_KEY_ENVELOPE_VERSION] ++ SIGNING_KEY_AAD_TAG.

Definition seal_signing_key (identity : InstallationIdentity) (vault_key nonce : bytes)
  : result bytes CryptoError :=
  match aead_seal vault_key nonce signing_key_aad (ii_signing identity) with
  | Some ciphertext => Ok (nonce ++ ciphertext)
  | None => Err EncryptionFailed
  end.

Definition unseal_signing_key (sealed vault_key : bytes) : result InstallationIdentity CryptoError :=
  if (length sealed <? NONCE_LEN)%nat then Err (InvalidNonceLength NONCE_LEN (length sealed)) else
  match aead_open vault_key (take NONCE_LEN sealed) signing_key_aad (drop NONCE_LEN sealed) with
  | None => Err DecryptionFailed
  | Some plaintext =>
      let? signing := map_err KeyParse (SigningKey_from_bytes plaintext) in
      Ok (from_signing_key signing)
  end.

End Identity.

(** * Properties *)

Lemma derive_key_bounds `{Argon2id} pw salt kdf k :
  derive_key pw salt kdf = Ok k ->
  length k = 32%nat /\ length salt = 32%nat /\
  65536 <= memory_cost_kib kdf <= 1048576 /\ 3 <= time_cost kdf <= 16 /\ 4 <= parallelism kdf <= 16.
Proof.
  unfold derive_key, check_kdf_params. destruct (Nat.eqb_spec (length salt) SALT_LEN) as [Hs|]; [|done].
  destruct (existsb _ _) eqn:He; [done|]. cbn in He |- *. split_ifs; try done.
  destruct (argon2_hash _ _ _ _ _) eqn:Ha; [|done]. intros [= <-].
  apply argon2_hash_len in Ha. unfold MIN_KDF_MEMORY_KIB, MAX_KDF_MEMORY_KIB, MIN_KDF_TIME_COST,
    MAX_KDF_TIME_COST, MIN_KDF_PARALLELISM, MAX_KDF_PARALLELISM, SALT_LEN in *. lia.
Qed.

Lemma vault_decrypt_encrypt `{Aead} key m aad nonce c :
  length nonce = NONCE_LEN -> vault_encrypt key m aad nonce = Ok c -> vault_decrypt key c aad = Ok m.
Proof.
  intros Hn. unfold vault_encrypt. destruct (aead_seal key nonce aad m) as [s|] eqn:Hs; [|done].
  intros [= <-]. unfold vault_decrypt. rewrite length_app, Hn.
  destruct (Nat.ltb_spec (NONCE_LEN + length s) NONCE_LEN); [lia|].
  rewrite <- Hn, take_app_length, drop_app_length. by rewrite (aead_open_seal _ _ _ _ _ Hs).
Qed.

(** A ciphertext opens only as the encryption of what it opens to. *)
Lemma vault_encrypt_decrypt `{Aead} key m aad c :
  vault_decrypt key c aad = Ok m -> vault_encrypt key m aad (take NONCE_LEN c) = Ok c.
Proof.
  unfold vault_decrypt, vault_encrypt. destruct (_ <? _)%nat; [done|].
  destruct (aead_open _ _ _ _) as [m'|] eqn:Ho; [|done]. intros [= ->].
  apply aead_seal_open in Ho. by rewrite Ho, take_drop.
Qed.

Lemma unseal_seal_signing_key `{Aead} `{Ed25519} id vault_key nonce sealed :
  length nonce = NONCE_LEN -> length (ii_signing id) = SIGNING_KEY_LEN ->
  id = from_signing_key (ii_signing id) ->
  seal_signing_key id vault_key nonce = Ok sealed -> unseal_signing_key sealed vault_key = Ok id.
Proof.
  intros Hn Hl Hid. unfold seal_signing_key.
  destruct (aead_seal _ _ _ _) as [s|] eqn:Hs; [|done]. intros [= <-]. unfold unseal_signing_key.
  rewrite length_app, Hn. destruct (Nat.ltb_spec (NONCE_LEN + length s) NONCE_LEN); [lia|].
  rewrite <- Hn, take_app_length, drop_app_length, (aead_open_seal _ _ _ _ _ Hs).
  unfold SigningKey_from_bytes, zeroizing_key_array. rewrite Hl. cbn. by rewrite <- Hid.
Qed.

(** ** The binding is injective *)

Lemma checked_len_prefix_Ok field len b :
  checked_len_prefix field len = Ok b -> length b = 4%nat /\ b = to_be_bytes 4 (Z.of_nat len) /\
  Z.of_nat len < 2 ^ 32.
Proof.
  unfold checked_len_prefix, try_uint. case_match eqn:Hc; [|done]. case_match; [|done].
  intros [= <-]. simplify_eq. split; [by unfold to_be_bytes; rewrite length_rev, length_to_le_bytes|].
  split; [done|]. lia.
Qed.

(** A field and the bytes after it are read back from a length-prefixed string. *)
Lemma prefixed_inj f1 f2 p1 p2 (x1 x2 r1 r2 : bytes) :
  checked_len_prefix f1 (length x1) = Ok p1 -> checked_len_prefix f2 (length x2) = Ok p2 ->
  p1 ++ x1 ++ r1 = p2 ++ x2 ++ r2 -> x1 = x2 /\ r1 = r2.
Proof.
  intros (Hl1 & -> & Hb1)%checked_len_prefix_Ok (Hl2 & -> & Hb2)%checked_len_prefix_Ok Heq.
  apply app_inj_1 in Heq as [Hp Hr]; [|by rewrite Hl1, Hl2].
  apply (f_equal (@rev Z)) in Hp. unfold to_be_bytes in Hp. rewrite !rev_involutive in Hp.
  apply to_le_bytes_inj in Hp; [|cbn; lia..]. by apply app_inj_1 in Hr; [|lia].
Qed.

Lemma entry_aad_inj `{Json CredentialType} s1 s2 n1 n2 t1 t2 v1 v2 a :
  entry_aad s1 n1 t1 v1 = Ok a -> entry_aad s2 n2 t2 v2 = Ok a ->
  s1 = s2 /\ n1 = n2 /\ t1 = t2 /\ v1 = v2.
Proof.
  unfold entry_aad.
  destruct (to_json t1) as [b1|] eqn:Ht1; [|done]; destruct (to_json t2) as [b2|] eqn:Ht2; [|done].
  cbn [result_bind].
  repeat match goal with
  | |- context [checked_len_prefix ?f ?l] =>
      let E := fresh "E" in destruct (checked_len_prefix f l) eqn:E; cbn [result_bind]; [|done]
  end.
  intros [= <-] [= -> Heq]. symmetry in Heq.
  apply (prefixed_inj _ _ _ _ _ _ _ _ E E2) in Heq as [-> Heq].
  apply (prefixed_inj _ _ _ _ _ _ _ _ E0 E3) in Heq as [-> Heq].
  rewrite <- (app_nil_r b1), <- (app_nil_r b2) in Heq.
  apply (prefixed_inj _ _ _ _ _ _ _ _ E1 E4) in Heq as [-> _].
  apply from_to_json in Ht1, Ht2. rewrite Ht1 in Ht2. by injection Ht2 as ->.
Qed.
