(* ===== verification/Vault.v ===== *)
(** * The credential vault (crates/kryphos/src/storage.rs)

    [Vault] over its directory (header, lock and audit log, the [Disk] of the
    tamper log) and its fjall keyspace, a map from record keys to stored bytes.
    Every mutating method holds the write lock from its first read to its last
    write, so it is one step from store to store; the audit log is the one of
    TamperWriter.v, opened, appended to and closed by every mutation. What the
    environment decides in a call (nonces, clock readings, whether the backend
    fails) is an [OpEnv]. A failed insert leaves the keyspace as it was; a failed
    sync comes after the change. *)

From S2P Require Import Prelude TamperLog TamperSegments TamperWriter VaultCrypto.

Local Open Scope Z_scope.

Definition LEGACY_ENVELOPE_VERSION : Z := 0.
Definition KEY_CHECK_PLAINTEXT : bytes := byte_str "kryphos-vault-key-check-v1".
Definition HEADER_FILE : FileName := byte_str "header.json".
Definition LOCK_FILE : FileName := byte_str "vault.lock".
Definition TAMPER_LOG_FILE : FileName := byte_str "tamper.log".
Definition CHAIN_KEY_DOMAIN : bytes := byte_str "kryphos/tamper-log/chain-key/v1".
Definition LOOKUP_KEY_DOMAIN : bytes := byte_str "kryphos/vault/lookup-key/v1".
Definition AUDIT_REF_DOMAIN : bytes := byte_str "kryphos/vault/audit-ref/v1".

Record StoredHeader : Type := mkHeader {
  sh_version : Z; sh_salt : bytes; sh_kdf_params : KdfParams; sh_key_check : bytes;
  sh_installation_public_key : option bytes; sh_sealed_signing_key : option bytes }.

Record StoredEntry : Type := mkStoredEntry {
  se_envelope_version : Z; se_encrypted_secret : bytes; se_encrypted_metadata : bytes }.

Record EntryMetadataRecord : Type := mkRecord {
  mr_name : bytes; mr_credential_type : CredentialType; mr_metadata : EntryMetadata;
  mr_status : EntryStatus; mr_history : list HistoryEvent }.

Record DecryptedEntry : Type := mkDecrypted {
  de_name : bytes; de_credential_type : CredentialType; de_secret : bytes; de_metadata : EntryMetadata }.

Record EntryInfo : Type := mkInfo {
  ei_name : bytes; ei_credential_type : CredentialType; ei_status : EntryStatus; ei_metadata : EntryMetadata }.

Record VaultListing : Type := mkListing { vl_entries : list EntryInfo; vl_unreadable : nat }.

Record EntryHistory : Type := mkEntryHistory {
  eh_name : bytes; eh_status : EntryStatus; eh_metadata : EntryMetadata; eh_events : list HistoryEvent }.

(** The handle; its locks and path are implicit in the store. *)
Record Vault : Type := mkVault { v_key : bytes; v_salt : bytes }.

Abbreviation Keyspace := (gmap bytes bytes) (only parsing).
Record VaultStore : Type := mkStore { vs_dir : Disk; vs_keyspace : Keyspace }.

Record OpEnv : Type := mkOpEnv {
  oe_nonce_secret : bytes; oe_nonce_metadata : bytes; oe_now : Z; oe_log_ms : Z;
  oe_get_ok : bool; oe_write_ok : bool; oe_persist_ok : bool }.

(** Lowercase hexadecimal, two digits a byte. *)
Definition hex_digit (d : Z) : Z := if d <? 10 then 48 + d else 87 + d.
Definition hex (bs : bytes) : bytes := concat (map (fun b => [hex_digit (b / 16); hex_digit (b mod 16)]) bs).

Section Vault.
Context `{KeyedHash} `{Cbor} `{Argon2id} `{Aead} `{Ed25519}.
Context `{Json CredentialType} `{Json StoredHeader} `{Json StoredEntry} `{Json EntryMetadataRecord}.
(** [blake3::hash]. *)
Context (plain_hash : bytes -> bytes).

Definition serialized {A} (o : option A) : result A VaultError :=
  match o with Some a => Ok a | None => Err Serialization end.

(** ** Derived keys *)

Definition vault_chain_key (v : Vault) : bytes := blake3_keyed (v_key v) CHAIN_KEY_DOMAIN.
Definition lookup_key (v : Vault) (name : bytes) : bytes :=
  blake3_keyed (blake3_keyed (v_key v) LOOKUP_KEY_DOMAIN) name.
Definition audit_ref (v : Vault) (name : bytes) : bytes :=
  hex (take 8 (blake3_keyed (blake3_keyed (v_key v) AUDIT_REF_DOMAIN) name)).

(** ** Creating and opening *)

(** [create_owner_only_file]: created or truncated. *)
Definition create_owner_only_file (name : FileName) (d : Disk) : Disk := set_files (insert name []) d.
Definition write_owner_only_file (name : FileName) (contents : bytes) (d : Disk) : Disk :=
  set_files (insert name contents) d.

Definition acquire_lock (d : Disk) : result unit VaultError * Disk :=
  let d := create_owner_only_file LOCK_FILE d in
  if bool_decide (LOCK_FILE ∈ d_locks d) then (Err VLocked, d)
  else (Ok tt, {| d_files := d_files d; d_locks := {[ LOCK_FILE ]} ∪ d_locks d; d_faults := d_faults d |}).

(** Dropping the lock file's handle. *)
Definition unlock (d : Disk) : Disk :=
  {| d_files := d_files d; d_locks := d_locks d ∖ {[ LOCK_FILE ]}; d_faults := d_faults d |}.

(** What [create] draws at random, and whether the header file and the database
    could be opened. *)
Record CreateEnv : Type := mkCreateEnv {
  ce_salt : bytes; ce_nonce_check : bytes; ce_nonce_seal : bytes; ce_signing_key : bytes;
  ce_header_ok : bool; ce_fjall_ok : bool }.

Definition new_header (env : CreateEnv) (key : bytes) : result StoredHeader VaultError :=
  let? key_check := map_err EntryCrypto (vault_encrypt key KEY_CHECK_PLAINTEXT [] (ce_nonce_check env)) in
  let identity := from_signing_key (ce_signing_key env) in
  let? sealed := map_err EntryCrypto (seal_signing_key identity key (ce_nonce_seal env)) in
  Ok (mkHeader VAULT_VERSION (ce_salt env) KdfParams_default key_check
        (Some (ii_verifying identity)) (Some sealed)).

(** [None] is a path where nothing exists. *)
Definition vault_create (path : option Disk) (passphrase : bytes) (env : CreateEnv)
  : result (Vault * Keyspace) VaultError * option Disk :=
  match passphrase with
  | [] => (Err EmptyPassphrase, path)
  | _ =>
      match path with
      | Some _ => (Err AlreadyExists, path)
      | None =>
          let d := {| d_files := ∅; d_locks := ∅; d_faults := [] |} in
          match acquire_lock d with
          | (Err e, d) => (Err e, Some d)
          | (Ok _, d) =>
              let prepared :=
                let? key := map_err (fun _ => InvalidHeader)
                  (derive_key passphrase (ce_salt env) KdfParams_default) in
                let? header := new_header env key in
                let? header_json := serialized (to_json header) in
                Ok (key, header_json) in
              match prepared with
              | Err e => (Err e, Some (unlock d))
              | Ok (key, header_json) =>
                  if negb (ce_header_ok env) then (Err VIo, Some (unlock d)) else
                  let d := write_owner_only_file HEADER_FILE header_json d in
                  if ce_fjall_ok env then (Ok (mkVault key (ce_salt env), ∅), Some d)
                  else (Err StorageBackend, Some (unlock d))
              end
          end
      end
  end.

(** The checks of [open] on the header it read. *)
Definition open_header (header : StoredHeader) (passphrase : bytes) : result Vault VaultError :=
  if negb ((MIN_SUPPORTED_VAULT_VERSION <=? sh_version header) && (sh_version header <=? VAULT_VERSION))
  then Err InvalidHeader else
  let? key := map_err (fun _ => InvalidHeader)
    (derive_key passphrase (sh_salt header) (sh_kdf_params header)) in
  let? plaintext :=
    map_err (fun e => match e with InvalidNonceLength _ _ => InvalidHeader | _ => WrongPassphrase end)
      (vault_decrypt key (sh_key_check header) []) in
  if negb (eq_bytes plaintext KEY_CHECK_PLAINTEXT) then Err WrongPassphrase
  else Ok (mkVault key (sh_salt header)).

Definition read_header (d : Disk) : result StoredHeader VaultError :=
  match d_files d !! HEADER_FILE with
  | None => Err VIo
  | Some header_bytes => serialized (from_json header_bytes)
  end.

Definition vault_open (path : option Disk) (passphrase : bytes) (fjall_ok : bool)
  : result Vault VaultError * option Disk :=
  match path with
  | None => (Err NotInitialized, path)
  | Some d =>
      match d_files d !! HEADER_FILE with
      | None => (Err NotInitialized, path)
      | Some _ =>
          match acquire_lock d with
          | (Err e, d) => (Err e, Some d)
          | (Ok _, d) =>
              match (let? header := read_header d in open_header header passphrase) with
              | Err e => (Err e, Some (unlock d))
              | Ok v => if fjall_ok then (Ok v, Some d) else (Err StorageBackend, Some (unlock d))
              end
          end
      end
  end.

(** ** Installation identity *)

Definition installation_public_key (d : Disk) : result (option bytes) VaultError :=
  let? header := read_header d in
  match sh_installation_public_key header with
  | None => Ok None
  | Some bs => let? k := map_err (fun _ => InvalidHeader) (VerifyingKey_from_bytes bs) in Ok (Some k)
  end.

Definition installation_identity (v : Vault) (d : Disk) : result (option InstallationIdentity) VaultError :=
  let? header := read_header d in
  match sh_sealed_signing_key header, sh_installation_public_key header with
  | None, None => Ok None
  | Some sealed, Some recorded =>
      let? identity := map_err EntryCrypto (unseal_signing_key sealed (v_key v)) in
      if negb (eq_bytes recorded (ii_verifying identity)) then Err InvalidHeader
      else Ok (Some identity)
  | _, _ => Err InvalidHeader
  end.

(** ** The audit log *)

Definition open_audit_log (v : Vault) (identity : option InstallationIdentity) (d : Disk)
  : Disk * result TamperLog TamperLogError :=
  match identity with
  | Some identity => open_signed d TAMPER_LOG_FILE (vault_chain_key v) (identity_signer plain_hash identity)
  | None => open_log d TAMPER_LOG_FILE (vault_chain_key v)
  end.

Definition append_vault_audit (v : Vault) (name operation : bytes) (log_ms : Z) (d : Disk)
  : result unit VaultError * Disk :=
  match installation_identity v d with
  | Err e => (Err e, d)
  | Ok identity =>
      match open_audit_log v identity d with
      | (d, Err e) => (Err (VTamperLog e), d)
      | (d, Ok log) =>
          let '(d, _, r) := TamperWriter.append d log log_ms (VaultMutation (audit_ref v name) operation) in
          (match r with Ok _ => Ok tt | Err e => Err (VTamperLog e) end, release d TAMPER_LOG_FILE)
      end
  end.

Definition commit_audited (v : Vault) (name operation : bytes) (mutate : Keyspace -> Keyspace)
    (env : OpEnv) (st : VaultStore) : result unit VaultError * VaultStore :=
  match append_vault_audit v name operation (oe_log_ms env) (vs_dir st) with
  | (Err e, d) => (Err e, mkStore d (vs_keyspace st))
  | (Ok _, d) =>
      if negb (oe_write_ok env)
      then (Err (AuditedMutationFailed name operation StorageBackend), mkStore d (vs_keyspace st))
      else if negb (oe_persist_ok env)
      then (Err (AuditedMutationFailed name operation StorageBackend), mkStore d (mutate (vs_keyspace st)))
      else (Ok tt, mkStore d (mutate (vs_keyspace st)))
  end.

(** ** Metadata *)

Definition decrypt_metadata (v : Vault) (entry : StoredEntry) : result EntryMetadataRecord VaultError :=
  let? metadata_bytes := map_err EntryCrypto (vault_decrypt (v_key v) (se_encrypted_metadata entry) []) in
  serialized (from_json metadata_bytes).

Definition encrypt_metadata (v : Vault) (record : EntryMetadataRecord) (nonce : bytes)
  : result bytes VaultError :=
  let? metadata_bytes := serialized (to_json record) in
  map_err EntryCrypto (vault_encrypt (v_key v) metadata_bytes [] nonce).

(** The lookup every method but [add] starts with. *)
Definition read_entry (v : Vault) (name : bytes) (get_ok : bool) (ks : Keyspace)
  : result (StoredEntry * EntryMetadataRecord) VaultError :=
  if negb get_ok then Err StorageBackend else
  match ks !! lookup_key v name with
  | None => Err (EntryNotFound name)
  | Some raw =>
      let? entry := serialized (from_json raw) in
      let? record := decrypt_metadata v entry in
      Ok (entry, record)
  end.

(** ** Operations *)

(** A method that fails before [commit_audited] leaves the store as it was. *)
Definition committing (st : VaultStore)
    (prepared : result (result unit VaultError * VaultStore) VaultError) : result unit VaultError * VaultStore :=
  match prepared with Ok r => r | Err e => (Err e, st) end.

Definition vault_add (v : Vault) (name : bytes) (credential_type : CredentialType) (secret : bytes)
    (env : OpEnv) (st : VaultStore) : result unit VaultError * VaultStore :=
  let key := lookup_key v name in
  committing st (
    if negb (oe_get_ok env) then Err StorageBackend
    else if bool_decide (is_Some (vs_keyspace st !! key)) then Err (DuplicateEntry name)
    else
      let? aad := entry_aad (v_salt v) name credential_type ENTRY_ENVELOPE_VERSION in
      let? encrypted_secret := map_err EntryCrypto (vault_encrypt (v_key v) secret aad (oe_nonce_secret env)) in
      let now := oe_now env in
      let record := mkRecord name credential_type (mkMetadata now None None 0 []) EActive
                      [mkHistory now HCreated] in
      let? encrypted_metadata := encrypt_metadata v record (oe_nonce_metadata env) in
      let? value := serialized (to_json (mkStoredEntry ENTRY_ENVELOPE_VERSION encrypted_secret encrypted_metadata)) in
      Ok (commit_audited v name (byte_str "add") (insert key value) env st)).

Definition vault_get (v : Vault) (name : bytes) (get_ok : bool) (st : VaultStore)
  : result DecryptedEntry VaultError :=
  let? (entry, record) := read_entry v name get_ok (vs_keyspace st) in
  match mr_status record with
  | ERevoked => Err (EntryRevoked name)
  | EExpired => Err (EntryExpired name)
  | EActive =>
      let? secret :=
        if se_envelope_version entry =? LEGACY_ENVELOPE_VERSION
        then map_err EntryCrypto (vault_decrypt (v_key v) (se_encrypted_secret entry) [])
        else
          let? aad := entry_aad (v_salt v) name (mr_credential_type record) (se_envelope_version entry) in
          map_err EntryCrypto (vault_decrypt (v_key v) (se_encrypted_secret entry) aad) in
      Ok (mkDecrypted (mr_name record) (mr_credential_type record) secret (mr_metadata record))
  end.

(** fjall iterates in key order; [guard_ok] says whether a record could be read. *)
Definition vault_list `{!KeyOrder bytes} (v : Vault) (guard_ok : bytes -> bool) (st : VaultStore)
  : result VaultListing VaultError :=
  fold_left (fun acc '(key, value) =>
      let? listing := acc in
      if negb (guard_ok key) then Err StorageBackend else
      let skip := Ok (mkListing (vl_entries listing) (S (vl_unreadable listing))) in
      match from_json value with
      | None => skip
      | Some entry =>
          match decrypt_metadata v entry with
          | Err _ => skip
          | Ok record =>
              Ok (mkListing (vl_entries listing ++
                    [mkInfo (mr_name record) (mr_credential_type record) (mr_status record) (mr_metadata record)])
                    (vl_unreadable listing))
          end
      end)
    (key_iter (vs_keyspace st)) (Ok (mkListing [] 0)).

Definition vault_remove (v : Vault) (name : bytes) (env : OpEnv) (st : VaultStore)
  : result unit VaultError * VaultStore :=
  committing st (
    let? (entry, record) := read_entry v name (oe_get_ok env) (vs_keyspace st) in
    if bool_decide (mr_status record = ERevoked) then Err (EntryNotDeletable name)
    else Ok (commit_audited v name (byte_str "remove") (delete (lookup_key v name)) env st)).

(** [rotation_count += 1] wraps as a release build does. *)
Definition rotated_record (record : EntryMetadataRecord) (now : Z) : EntryMetadataRecord :=
  let m := mr_metadata record in
  mkRecord (mr_name record) (mr_credential_type record)
    (mkMetadata (em_created_at m) (Some now) (em_revoked_at m) (wrapping_add 32 (em_rotation_count m) 1) (em_tags m))
    (mr_status record) (mr_history record ++ [mkHistory now HRotated]).

Definition vault_rotate (v : Vault) (name new_secret : bytes) (env : OpEnv) (st : VaultStore)
  : result unit VaultError * VaultStore :=
  committing st (
    let? (entry, record) := read_entry v name (oe_get_ok env) (vs_keyspace st) in
    if bool_decide (mr_status record = ERevoked) then Err (EntryRevoked name)
    else
      let? aad := entry_aad (v_salt v) name (mr_credential_type record) ENTRY_ENVELOPE_VERSION in
      let? encrypted_secret := map_err EntryCrypto (vault_encrypt (v_key v) new_secret aad (oe_nonce_secret env)) in
      let? encrypted_metadata := encrypt_metadata v (rotated_record record (oe_now env)) (oe_nonce_metadata env) in
      let? value := serialized (to_json (mkStoredEntry ENTRY_ENVELOPE_VERSION encrypted_secret encrypted_metadata)) in
      Ok (commit_audited v name (byte_str "rotate") (insert (lookup_key v name) value) env st)).

Definition revoked_record (record : EntryMetadataRecord) (now : Z) : EntryMetadataRecord :=
  let m := mr_metadata record in
  mkRecord (mr_name record) (mr_credential_type record)
    (mkMetadata (em_created_at m) (em_rotated_at m) (Some now) (em_rotation_count m) (em_tags m))
    ERevoked (mr_history record ++ [mkHistory now HRevoked]).

Definition vault_revoke (v : Vault) (name : bytes) (env : OpEnv) (st : VaultStore)
  : result unit VaultError * VaultStore :=
  committing st (
    let? (entry, record) := read_entry v name (oe_get_ok env) (vs_keyspace st) in
    if bool_decide (mr_status record = ERevoked) then Err (EntryRevoked name)
    else
      let? encrypted_metadata := encrypt_metadata v (revoked_record record (oe_now env)) (oe_nonce_metadata env) in
      let? value := serialized (to_json (mkStoredEntry (se_envelope_version entry) (se_encrypted_secret entry)
                                           encrypted_metadata)) in
      Ok (commit_audited v name (byte_str "revoke") (insert (lookup_key v name) value) env st)).

Definition vault_history (v : Vault) (name : bytes) (get_ok : bool) (st : VaultStore)
  : result EntryHistory VaultError :=
  let? (_, record) := read_entry v name get_ok (vs_keyspace st) in
  Ok (mkEntryHistory (mr_name record) (mr_status record) (mr_metadata record) (mr_history record)).

(** ** Verification of the audit log *)

Definition verify_tamper_log (v : Vault) (d : Disk) : result VerificationResult VaultError :=
  map_err VTamperLog (verify_chain d TAMPER_LOG_FILE (vault_chain_key v)).

Definition NoInstallation : TipVerifier :=
  {| verifier_key_id := repeat 0 KEY_ID_LEN; verify_tip := fun _ _ => false |}.

Definition verify_tamper_log_provenance (v : Vault) (d : Disk) : result TipStatus VaultError :=
  let? identity := installation_identity v d in
  match identity with
  | None => map_err VTamperLog (verify_tip_provenance d TAMPER_LOG_FILE (vault_chain_key v) NoInstallation)
  | Some identity =>
      let? status := map_err VTamperLog
        (verify_tip_provenance d TAMPER_LOG_FILE (vault_chain_key v) (key_verifier plain_hash (ii_verifying identity))) in
      match status with Unsigned => Err InvalidHeader | _ => Ok status end
  end.

End Vault.
