(* ===== verification/VaultSpec.v ===== *)
(** * What the vault promises

    The abstract vault is a map from names to credentials with their lifecycle; the
    store of Vault.v implements it through a relation that says how a credential is
    encrypted. Then: a mutation is audited before it happens, the audit log records
    the mutations, revocation is final, and what the binding of the ciphertexts does
    not cover. *)

From S2P Require Import Prelude TamperLog TamperSegments TamperWriter VaultCrypto Vault.

Local Open Scope Z_scope.

(** ** Operations as data *)

Inductive VaultOp : Type :=
| OpAdd (name : bytes) (credential_type : CredentialType) (secret : bytes)
| OpRotate (name new_secret : bytes)
| OpRevoke (name : bytes)
| OpRemove (name : bytes).

Definition op_name (op : VaultOp) : bytes :=
  match op with OpAdd n _ _ | OpRotate n _ | OpRevoke n | OpRemove n => n end.
Definition op_label (op : VaultOp) : bytes :=
  match op with
  | OpAdd _ _ _ => byte_str "add" | OpRotate _ _ => byte_str "rotate"
  | OpRevoke _ => byte_str "revoke" | OpRemove _ => byte_str "remove"
  end.

(** ** The abstract vault *)

Record Credential : Type := mkCredential { cr_record : EntryMetadataRecord; cr_secret : bytes }.
Abbreviation AbstractVault := (gmap bytes Credential) (only parsing).

Section Spec.
Context `{KeyedHash} `{Cbor} `{Argon2id} `{Aead} `{Ed25519}.
Context `{Json CredentialType} `{Json StoredHeader} `{Json StoredEntry} `{Json EntryMetadataRecord}.
Context (plain_hash : bytes -> bytes).

Definition vault_exec (v : Vault) (op : VaultOp) (env : OpEnv) (st : VaultStore)
  : result unit VaultError * VaultStore :=
  match op with
  | OpAdd name t secret => vault_add plain_hash v name t secret env st
  | OpRotate name secret => vault_rotate plain_hash v name secret env st
  | OpRevoke name => vault_revoke plain_hash v name env st
  | OpRemove name => vault_remove plain_hash v name env st
  end.

Definition live_credential (a : AbstractVault) (name : bytes) (revoked : VaultError)
  : result Credential VaultError :=
  match a !! name with
  | None => Err (EntryNotFound name)
  | Some c => if bool_decide (mr_status (cr_record c) = ERevoked) then Err revoked else Ok c
  end.

Definition spec_exec (salt : bytes) (op : VaultOp) (now : Z) (a : AbstractVault)
  : result AbstractVault VaultError :=
  match op with
  | OpAdd name t secret =>
      if bool_decide (is_Some (a !! name)) then Err (DuplicateEntry name) else
      let? _ := entry_aad salt name t ENTRY_ENVELOPE_VERSION in
      Ok (<[name := mkCredential (mkRecord name t (mkMetadata now None None 0 []) EActive
                                    [mkHistory now HCreated]) secret]> a)
  | OpRotate name secret =>
      let? c := live_credential a name (EntryRevoked name) in
      Ok (<[name := mkCredential (rotated_record (cr_record c) now) secret]> a)
  | OpRevoke name =>
      let? c := live_credential a name (EntryRevoked name) in
      Ok (<[name := mkCredential (revoked_record (cr_record c) now) (cr_secret c)]> a)
  | OpRemove name =>
      let? c := live_credential a name (EntryNotDeletable name) in
      Ok (delete name a)
  end.

Definition spec_get (a : AbstractVault) (name : bytes) : result DecryptedEntry VaultError :=
  match a !! name with
  | None => Err (EntryNotFound name)
  | Some c =>
      match mr_status (cr_record c) with
      | ERevoked => Err (EntryRevoked name)
      | EExpired => Err (EntryExpired name)
      | EActive => Ok (mkDecrypted name (mr_credential_type (cr_record c)) (cr_secret c) (mr_metadata (cr_record c)))
      end
  end.

(** ** The relation *)

(** [raw] is the stored form of [c] under [name]. *)
Definition represents (v : Vault) (name : bytes) (c : Credential) (raw : bytes) : Prop :=
  exists entry aad, from_json raw = Some entry /\ decrypt_metadata v entry = Ok (cr_record c) /\
    mr_name (cr_record c) = name /\ se_envelope_version entry = ENTRY_ENVELOPE_VERSION /\
    entry_aad (v_salt v) name (mr_credential_type (cr_record c)) ENTRY_ENVELOPE_VERSION = Ok aad /\
    vault_decrypt (v_key v) (se_encrypted_secret entry) aad = Ok (cr_secret c).

(** [U] holds the names in use; the record keys of two of them do not collide. *)
Record implements (v : Vault) (U : gset bytes) (ks : gmap bytes bytes) (a : AbstractVault) : Prop := {
  im_inj : forall n1 n2, n1 ∈ U -> n2 ∈ U -> lookup_key v n1 = lookup_key v n2 -> n1 = n2;
  im_present : forall n c, n ∈ U -> a !! n = Some c -> exists raw, ks !! lookup_key v n = Some raw /\ represents v n c raw;
  im_absent : forall n, n ∈ U -> a !! n = None -> ks !! lookup_key v n = None }.

Definition nonces_ok (env : OpEnv) : Prop :=
  length (oe_nonce_secret env) = NONCE_LEN /\ length (oe_nonce_metadata env) = NONCE_LEN.

(** Encryption and serialization of what the vault stores do not fail. *)
Definition writes_total : Prop :=
  (forall k n a m, is_Some (aead_seal k n a m)) /\ (forall r : EntryMetadataRecord, is_Some (to_json r)) /\
  (forall e : StoredEntry, is_Some (to_json e)).

Lemma lookup_key_ne v U ks a m n :
  implements v U ks a -> m ∈ U -> n ∈ U -> m <> n -> lookup_key v n <> lookup_key v m.
Proof. intros [Hinj _ _] Hm Hn Hne E. apply Hne. symmetry. by apply Hinj. Qed.

Lemma implements_insert v U ks a n c raw :
  implements v U ks a -> n ∈ U -> represents v n c raw ->
  implements v U (<[lookup_key v n := raw]> ks) (<[n := c]> a).
Proof.
  intros HI Hn Hr. pose proof HI as [Hinj Hp Ha]. split; [done| |]; intros m.
  - intros c' Hm. destruct (decide (m = n)) as [-> |Hne].
    + rewrite !lookup_insert_eq. intros [= <-]. eauto.
    + pose proof (lookup_key_ne _ _ _ _ _ _ HI Hm Hn Hne). rewrite !lookup_insert_ne by congruence. auto.
  - intros Hm. destruct (decide (m = n)) as [-> |Hne]; [by rewrite lookup_insert_eq|].
    pose proof (lookup_key_ne _ _ _ _ _ _ HI Hm Hn Hne). rewrite !lookup_insert_ne by congruence. auto.
Qed.

Lemma implements_delete v U ks a n :
  implements v U ks a -> n ∈ U -> implements v U (delete (lookup_key v n) ks) (delete n a).
Proof.
  intros HI Hn. pose proof HI as [Hinj Hp Ha]. split; [done| |]; intros m.
  - intros c' Hm. destruct (decide (m = n)) as [-> |Hne]; [by rewrite lookup_delete_eq|].
    pose proof (lookup_key_ne _ _ _ _ _ _ HI Hm Hn Hne). rewrite !lookup_delete_ne by congruence. auto.
  - intros Hm. destruct (decide (m = n)) as [-> |Hne]; [by rewrite !lookup_delete_eq|].
    pose proof (lookup_key_ne _ _ _ _ _ _ HI Hm Hn Hne). rewrite !lookup_delete_ne by congruence. auto.
Qed.

Lemma encrypt_metadata_total v record nonce :
  writes_total -> length nonce = NONCE_LEN ->
  exists c, encrypt_metadata v record nonce = Ok c /\
    forall ver s, decrypt_metadata v (mkStoredEntry ver s c) = Ok record.
Proof.
  intros (Hs & Hj & _) Hn. unfold encrypt_metadata, serialized.
  destruct (Hj record) as [b Hb]. rewrite Hb. cbn [result_bind].
  destruct (vault_encrypt (v_key v) b [] nonce) as [c|e] eqn:Hc.
  - exists c. split; [done|]. intros ver s. unfold decrypt_metadata; cbn.
    rewrite (vault_decrypt_encrypt _ _ _ _ _ Hn Hc). cbn. by rewrite (from_to_json _ _ Hb).
  - unfold vault_encrypt in Hc. by destruct (Hs (v_key v) nonce [] b) as [? Hx]; rewrite Hx in Hc.
Qed.

Lemma encrypt_secret_total v secret aad nonce :
  writes_total -> length nonce = NONCE_LEN ->
  exists c, vault_encrypt (v_key v) secret aad nonce = Ok c /\ vault_decrypt (v_key v) c aad = Ok secret.
Proof.
  intros (Hs & _) Hn. destruct (vault_encrypt (v_key v) secret aad nonce) as [c|e] eqn:Hc.
  - exists c. split; [done|]. by apply (vault_decrypt_encrypt _ _ _ _ _ Hn).
  - unfold vault_encrypt in Hc. by destruct (Hs (v_key v) nonce aad secret) as [? Hx]; rewrite Hx in Hc.
Qed.

(** ** Simulation *)

Lemma read_entry_eq v U ks a n :
  implements v U ks a -> n ∈ U ->
  match a !! n with
  | None => read_entry v n true ks = Err (EntryNotFound n)
  | Some c => exists entry aad, read_entry v n true ks = Ok (entry, cr_record c) /\
      mr_name (cr_record c) = n /\ se_envelope_version entry = ENTRY_ENVELOPE_VERSION /\
      entry_aad (v_salt v) n (mr_credential_type (cr_record c)) ENTRY_ENVELOPE_VERSION = Ok aad /\
      vault_decrypt (v_key v) (se_encrypted_secret entry) aad = Ok (cr_secret c)
  end.
Proof.
  intros [_ Hp Ha] Hn. unfold read_entry; cbn [negb]. destruct (a !! n) as [c|] eqn:Hc.
  - destruct (Hp n c Hn Hc) as (raw & -> & entry & aad & -> & Hd & Hname & Hv & Haad & Hs).
    exists entry, aad. cbn [serialized result_bind]. by rewrite Hd.
  - by rewrite (Ha n Hn Hc).
Qed.

Lemma stored_represents v n c entry aad raw :
  to_json entry = Some raw -> decrypt_metadata v entry = Ok (cr_record c) -> mr_name (cr_record c) = n ->
  se_envelope_version entry = ENTRY_ENVELOPE_VERSION ->
  entry_aad (v_salt v) n (mr_credential_type (cr_record c)) ENTRY_ENVELOPE_VERSION = Ok aad ->
  vault_decrypt (v_key v) (se_encrypted_secret entry) aad = Ok (cr_secret c) ->
  represents v n c raw.
Proof. intros Hj%from_to_json ?????. exists entry, aad. done. Qed.

(** The record every rewriting operation stores represents the credential it is for. *)
Lemma rewritten_represents v c secret aad ns nm :
  writes_total -> length ns = NONCE_LEN -> length nm = NONCE_LEN ->
  entry_aad (v_salt v) (mr_name (cr_record c)) (mr_credential_type (cr_record c)) ENTRY_ENVELOPE_VERSION = Ok aad ->
  cr_secret c = secret ->
  exists cs cm raw, vault_encrypt (v_key v) secret aad ns = Ok cs /\ encrypt_metadata v (cr_record c) nm = Ok cm /\
    to_json (mkStoredEntry ENTRY_ENVELOPE_VERSION cs cm) = Some raw /\ represents v (mr_name (cr_record c)) c raw.
Proof.
  intros HT Hns Hnm Haad <-. pose proof HT as (_ & _ & Hj).
  destruct (encrypt_secret_total v (cr_secret c) aad ns HT Hns) as (cs & Hcs & Hds).
  destruct (encrypt_metadata_total v (cr_record c) nm HT Hnm) as (cm & Hcm & Hdm).
  destruct (Hj (mkStoredEntry ENTRY_ENVELOPE_VERSION cs cm)) as [raw Hraw].
  exists cs, cm, raw. repeat split; auto. by eapply stored_represents.
Qed.

(** Up to the audited commit, an operation does what the abstract one does. *)
Definition commits (v : Vault) (U : gset bytes) (st : VaultStore) (a : AbstractVault) (op : VaultOp) (env : OpEnv) : Prop :=
  match spec_exec (v_salt v) op (oe_now env) a with
  | Err e => vault_exec v op env st = (Err e, st)
  | Ok a' => exists f, implements v U (f (vs_keyspace st)) a' /\
      vault_exec v op env st = commit_audited plain_hash v (op_name op) (op_label op) f env st
  end.

Lemma add_commits v U st a name t secret env :
  writes_total -> nonces_ok env -> implements v U (vs_keyspace st) a -> name ∈ U -> oe_get_ok env = true ->
  commits v U st a (OpAdd name t secret) env.
Proof.
  intros HT [Hns Hnm] HI Hn Hg. unfold commits. cbn [spec_exec vault_exec]. unfold vault_add. rewrite Hg. cbn [negb].
  destruct (a !! name) as [c|] eqn:Hc.
  { rewrite bool_decide_true by eauto. destruct (im_present _ _ _ _ HI name c Hn Hc) as (raw & Hraw & _).
    by rewrite bool_decide_true by eauto. }
  rewrite bool_decide_false by (by intros [? ?]).
  rewrite (im_absent _ _ _ _ HI name Hn Hc), bool_decide_false by (by intros [? ?]).
  destruct (entry_aad _ _ _ _) as [aad|e] eqn:Haad; cbn [result_bind]; [|done].
  destruct (rewritten_represents v (mkCredential (mkRecord name t (mkMetadata (oe_now env) None None 0 []) EActive
      [mkHistory (oe_now env) HCreated]) secret) secret aad _ _ HT Hns Hnm Haad eq_refl)
    as (cs & cm & raw & -> & Hcm & Hraw & Hrep).
  cbn [map_err result_bind]. cbn [cr_record] in Hcm. rewrite Hcm. cbn [result_bind]. rewrite Hraw.
  eexists. split; [|reflexivity]. by apply implements_insert.
Qed.

Lemma rotate_commits v U st a name secret env :
  writes_total -> nonces_ok env -> implements v U (vs_keyspace st) a -> name ∈ U -> oe_get_ok env = true ->
  commits v U st a (OpRotate name secret) env.
Proof.
  intros HT [Hns Hnm] HI Hn Hg. unfold commits. cbn [spec_exec vault_exec].
  unfold vault_rotate, live_credential. rewrite Hg. pose proof (read_entry_eq _ _ _ _ _ HI Hn) as Hr.
  destruct (a !! name) as [c|]; [|by rewrite Hr].
  destruct Hr as (entry & aad & -> & Hname & Hv & Haad & Hs). cbn [result_bind].
  case_bool_decide; [done|]. rewrite Haad. cbn [result_bind].
  destruct (rewritten_represents v (mkCredential (rotated_record (cr_record c) (oe_now env)) secret) secret aad
      _ _ HT Hns Hnm ltac:(cbn; by rewrite Hname) eq_refl) as (cs & cm & raw & -> & Hcm & Hraw & Hrep).
  cbn [map_err result_bind]. cbn [cr_record] in Hcm. rewrite Hcm. cbn [result_bind]. rewrite Hraw.
  eexists. split; [|reflexivity]. cbn in Hrep. rewrite Hname in Hrep. by apply implements_insert.
Qed.

Lemma revoke_commits v U st a name env :
  writes_total -> nonces_ok env -> implements v U (vs_keyspace st) a -> name ∈ U -> oe_get_ok env = true ->
  commits v U st a (OpRevoke name) env.
Proof.
  intros HT [Hns Hnm] HI Hn Hg. unfold commits. cbn [spec_exec vault_exec]. pose proof HT as (_ & _ & Hj).
  unfold vault_revoke, live_credential. rewrite Hg. pose proof (read_entry_eq _ _ _ _ _ HI Hn) as Hr.
  destruct (a !! name) as [c|]; [|by rewrite Hr].
  destruct Hr as (entry & aad & -> & Hname & Hv & Haad & Hs). cbn [result_bind].
  case_bool_decide; [done|].
  destruct (encrypt_metadata_total v (revoked_record (cr_record c) (oe_now env)) _ HT Hnm) as (cm & Hcm & Hdm).
  rewrite Hcm. cbn [result_bind].
  destruct (Hj (mkStoredEntry (se_envelope_version entry) (se_encrypted_secret entry) cm)) as [raw Hraw].
  rewrite Hraw. eexists. split; [|reflexivity]. apply implements_insert; auto. by eapply stored_represents.
Qed.

Lemma remove_commits v U st a name env :
  implements v U (vs_keyspace st) a -> name ∈ U -> oe_get_ok env = true -> commits v U st a (OpRemove name) env.
Proof.
  intros HI Hn Hg. unfold commits. cbn [spec_exec vault_exec].
  unfold vault_remove, live_credential. rewrite Hg. pose proof (read_entry_eq _ _ _ _ _ HI Hn) as Hr.
  destruct (a !! name) as [c|]; [|by rewrite Hr].
  destruct Hr as (entry & aad & -> & Hname & Hv & Haad & Hs). cbn [result_bind].
  case_bool_decide; [done|]. eexists. split; [|reflexivity]. by apply implements_delete.
Qed.

Lemma exec_commits v U st a op env :
  writes_total -> nonces_ok env -> implements v U (vs_keyspace st) a -> op_name op ∈ U ->
  oe_get_ok env = true -> commits v U st a op env.
Proof. destruct op; auto using add_commits, rotate_commits, revoke_commits, remove_commits. Qed.

(** A read that the backend fails stops the operation at once. *)
Lemma exec_get_fails v op env st :
  oe_get_ok env = false -> vault_exec v op env st = (Err StorageBackend, st).
Proof. intros Hg. destruct op; cbn; unfold vault_add, vault_rotate, vault_revoke, vault_remove; by rewrite Hg. Qed.

(** The commit changes the keyspace only after the audit entry was appended. *)
Lemma commit_audited_cases v name label f env st r st' :
  commit_audited plain_hash v name label f env st = (r, st') ->
  match append_vault_audit plain_hash v name label (oe_log_ms env) (vs_dir st) with
  | (Err e, d) => r = Err e /\ st' = mkStore d (vs_keyspace st)
  | (Ok _, d) => vs_dir st' = d /\
      if oe_write_ok env then
        vs_keyspace st' = f (vs_keyspace st) /\
        r = if oe_persist_ok env then Ok tt else Err (AuditedMutationFailed name label StorageBackend)
      else vs_keyspace st' = vs_keyspace st /\ r = Err (AuditedMutationFailed name label StorageBackend)
  end.
Proof.
  unfold commit_audited. destruct (append_vault_audit _ _ _ _ _ _) as [[u|e] d];
    [|by intros [= <- <-]].
  destruct (oe_write_ok env); cbn; [destruct (oe_persist_ok env); cbn|]; by intros [= <- <-].
Qed.

Lemma get_agrees v U st a name :
  implements v U (vs_keyspace st) a -> name ∈ U -> vault_get v name true st = spec_get a name.
Proof.
  intros HI Hn. unfold vault_get, spec_get. pose proof (read_entry_eq _ _ _ _ _ HI Hn) as Hr.
  destruct (a !! name) as [c|]; [|by rewrite Hr].
  destruct Hr as (entry & aad & -> & Hname & Hv & Haad & Hs). cbn [result_bind].
  destruct (mr_status (cr_record c)); try done. rewrite Hv.
  change (ENTRY_ENVELOPE_VERSION =? LEGACY_ENVELOPE_VERSION) with false. cbn beta iota.
  rewrite Haad. cbn [result_bind]. rewrite Hs. cbn. by rewrite Hname.
Qed.

(** What a call leaves behind: the abstract operation done, or nothing changed. *)
Lemma exec_outcome v U st a op env r st' :
  writes_total -> nonces_ok env -> implements v U (vs_keyspace st) a -> op_name op ∈ U ->
  vault_exec v op env st = (r, st') ->
  (exists a', spec_exec (v_salt v) op (oe_now env) a = Ok a' /\ implements v U (vs_keyspace st') a' /\
     (r = Ok tt \/ r = Err (AuditedMutationFailed (op_name op) (op_label op) StorageBackend))) \/
  (vs_keyspace st' = vs_keyspace st /\ r <> Ok tt).
Proof.
  intros HT Hnon HI Hn Hx. destruct (oe_get_ok env) eqn:Hg.
  2:{ rewrite exec_get_fails in Hx by done. injection Hx as <- <-. by right. }
  pose proof (exec_commits _ _ _ _ _ _ HT Hnon HI Hn Hg) as Hc. unfold commits in Hc.
  destruct (spec_exec _ _ _ _) as [a'|e].
  2:{ rewrite Hc in Hx. injection Hx as <- <-. by right. }
  destruct Hc as (f & HI' & Hc). rewrite Hc in Hx. apply commit_audited_cases in Hx.
  destruct (append_vault_audit _ _ _ _ _ _) as [[u|e] d]; [|destruct Hx as [-> ->]; by right].
  destruct Hx as [_ Hx]. destruct (oe_write_ok env); destruct Hx as [Hk ->]; [|by right].
  left. exists a'. rewrite Hk. split; [done|]. split; [done|]. destruct (oe_persist_ok env); auto.
Qed.

(** A call that succeeded did the abstract operation. *)
Lemma exec_implements v U st a op env a' :
  writes_total -> nonces_ok env -> implements v U (vs_keyspace st) a -> op_name op ∈ U ->
  (vault_exec v op env st).1 = Ok tt -> spec_exec (v_salt v) op (oe_now env) a = Ok a' ->
  implements v U (vs_keyspace (vault_exec v op env st).2) a'.
Proof.
  intros HT Hnon HI Hn Hok Hs. destruct (vault_exec v op env st) as [r st'] eqn:Hx. cbn [fst snd] in *. subst r.
  destruct (exec_outcome _ _ _ _ _ _ _ _ HT Hnon HI Hn Hx) as [(a'' & Hs' & HI' & _)|[_ Hr]]; [|done].
  rewrite Hs in Hs'. by injection Hs' as ->.
Qed.

(** C10. The vault implements a map of credentials: through any store that represents
    an abstract vault, a mutation that the backend, the audit log and the clock let
    through does what the abstract operation does, with its errors (duplicate, not
    found, revoked, not deletable), a mutation that fails leaves the represented vault
    as it was unless it is reported as audited but not synced, and [get] returns the
    stored secret with its type and metadata, or the lifecycle error. *)
Theorem vault_refines_map v U st a op env r st' :
  writes_total -> nonces_ok env -> implements v U (vs_keyspace st) a -> op_name op ∈ U ->
  vault_exec v op env st = (r, st') ->
  exists a', implements v U (vs_keyspace st') a' /\
    (forall name, name ∈ U -> vault_get v name true st' = spec_get a' name) /\
    match r with
    | Ok _ => spec_exec (v_salt v) op (oe_now env) a = Ok a'
    | Err (AuditedMutationFailed _ _ _) => a' = a \/ spec_exec (v_salt v) op (oe_now env) a = Ok a'
    | Err e => a' = a /\ forall e', oe_get_ok env = true -> spec_exec (v_salt v) op (oe_now env) a = Err e' -> e = e'
    end.
Proof.
  intros HT Hnon HI Hn Hx.
  destruct (exec_outcome _ _ _ _ _ _ _ _ HT Hnon HI Hn Hx) as [(a' & Hs & HI' & Hr)|[Hk Hr]].
  - exists a'. split; [done|]. split; [intros; by eapply get_agrees|].
    destruct Hr as [-> | ->]; auto.
  - exists a. rewrite Hk. split; [done|]. split; [intros name Hname; rewrite (get_agrees v U st' a name); by rewrite ?Hk|].
    assert (forall e, r = Err e -> forall e', oe_get_ok env = true ->
      spec_exec (v_salt v) op (oe_now env) a = Err e' -> e = e') as Heq.
    { intros e -> e' Hg Hs. pose proof (exec_commits _ _ _ _ _ _ HT Hnon HI Hn Hg) as Hc.
      unfold commits in Hc. rewrite Hs, Hx in Hc. congruence. }
    destruct r as [[]|e]; [done|]. specialize (Heq e eq_refl). destruct e; auto.
Qed.

(** ** Revocation is final *)

Fixpoint vault_run (v : Vault) (ops : list (VaultOp * OpEnv)) (st : VaultStore) : VaultStore :=
  match ops with
  | [] => st
  | (op, env) :: ops => vault_run v ops (vault_exec v op env st).2
  end.

Lemma spec_exec_keeps_revoked salt op now a a' name c :
  spec_exec salt op now a = Ok a' -> a !! name = Some c -> mr_status (cr_record c) = ERevoked ->
  a' !! name = Some c.
Proof.
  intros Hs Hc Hst.
  assert (op_name op <> name) as Hne.
  { intros <-. destruct op; cbn in Hs, Hc; unfold live_credential in Hs; rewrite Hc in Hs;
      rewrite bool_decide_true in Hs by eauto; done. }
  destruct op; cbn in Hs, Hne; unfold live_credential, result_bind in Hs;
    repeat case_match; simplify_eq;
    rewrite ?lookup_insert_ne, ?lookup_delete_ne by done; done.
Qed.

(** C11. Revocation is final: once a credential is revoked, no sequence of additions,
    rotations, revocations and removals, of this or any other name, with whatever
    failures of the backend and the audit log, makes [get] return it again, and it can
    be neither removed nor rotated nor added anew. *)
Theorem revocation_is_final v U a name c ops st :
  writes_total -> implements v U (vs_keyspace st) a -> name ∈ U ->
  a !! name = Some c -> mr_status (cr_record c) = ERevoked ->
  Forall (fun '(op, env) => op_name op ∈ U /\ nonces_ok env) ops ->
  vault_get v name true (vault_run v ops st) = Err (EntryRevoked name) /\
  forall op env, op_name op = name -> nonces_ok env -> oe_get_ok env = true ->
    exists e, vault_exec v op env (vault_run v ops st) = (Err e, vault_run v ops st).
Proof.
  intros HT HI Hn Hc Hst Hops.
  assert (exists a', implements v U (vs_keyspace (vault_run v ops st)) a' /\ a' !! name = Some c) as (a' & HI' & Hc').
  { revert st a HI Hc. induction Hops as [|[op env] ops [Hop Hnon] _ IH]; intros st a HI Hc; [eauto|].
    cbn. destruct (vault_exec v op env st) as [r st'] eqn:Hx. cbn.
    destruct (exec_outcome _ _ _ _ _ _ _ _ HT Hnon HI Hop Hx) as [(a' & Hs & HI' & _)|[Hk _]].
    - apply (IH st' a' HI'). by eapply spec_exec_keeps_revoked.
    - apply (IH st' a); [by rewrite Hk|done]. }
  split.
  - rewrite (get_agrees _ _ _ _ _ HI' Hn). unfold spec_get. by rewrite Hc', Hst.
  - intros op env <- Hnon Hg. pose proof (exec_commits _ _ _ _ op env HT Hnon HI' Hn Hg) as Hx. unfold commits in Hx.
    assert (exists e, spec_exec (v_salt v) op (oe_now env) a' = Err e) as [e He].
    { destruct op; cbn [spec_exec]; cbn [op_name] in Hc'; unfold live_credential; rewrite ?Hc';
        rewrite ?bool_decide_true by eauto; eexists; reflexivity. }
    rewrite He in Hx. eauto.
Qed.

(** ** Audit before mutation *)

(** A result after which the audit log has one more entry. *)
Definition committed (r : result unit VaultError) : bool :=
  match r with Ok _ | Err (AuditedMutationFailed _ _ _) => true | Err _ => false end.

Abbreviation unaudited e := (committed (Err e) = false) (only parsing).

Lemma entry_aad_error salt n t ver e : entry_aad salt n t ver = Err e -> unaudited e.
Proof. unfold entry_aad, checked_len_prefix, result_bind. intros Hx. repeat case_match; by simplify_eq. Qed.

Lemma encrypt_metadata_error v record nonce e : encrypt_metadata v record nonce = Err e -> unaudited e.
Proof. unfold encrypt_metadata, serialized, result_bind, map_err. intros Hx. repeat case_match; by simplify_eq. Qed.

Lemma read_entry_error v name ok ks e : read_entry v name ok ks = Err e -> unaudited e.
Proof.
  unfold read_entry, decrypt_metadata, serialized, result_bind, map_err. intros Hx.
  repeat case_match; by simplify_eq.
Qed.

(** Whatever the store holds, an operation either stops before the commit or commits. *)
Lemma exec_cases v op env st :
  (exists e, unaudited e /\ vault_exec v op env st = (Err e, st)) \/
  exists f, vault_exec v op env st = commit_audited plain_hash v (op_name op) (op_label op) f env st.
Proof.
  assert (forall prepared,
    match prepared with
    | Ok r => exists f, r = commit_audited plain_hash v (op_name op) (op_label op) f env st
    | Err e => unaudited e
    end ->
    (exists e, unaudited e /\ committing st prepared = (Err e, st)) \/
    exists f, committing st prepared = commit_audited plain_hash v (op_name op) (op_label op) f env st) as Hc.
  { intros [r|e] Hr; cbn; [destruct Hr; eauto|eauto]. }
  destruct op; cbn [vault_exec]; unfold vault_add, vault_rotate, vault_revoke, vault_remove; apply Hc;
    unfold result_bind, map_err, serialized; repeat case_match; simplify_eq;
    eauto using entry_aad_error, encrypt_metadata_error, read_entry_error.
Qed.

(** C14. Audit before mutation: whatever the store, the log and the environment, a
    mutating call that changes the keyspace first appended its entry, the audit
    reference of the name with the operation, to the tamper-evident log; a call that
    returns success did so too; and when the log refuses the entry, the keyspace is
    left as it was. *)
Theorem audit_precedes_mutation v op env st r st' :
  vault_exec v op env st = (r, st') ->
  let audit := append_vault_audit plain_hash v (op_name op) (op_label op) (oe_log_ms env) (vs_dir st) in
  (vs_keyspace st' <> vs_keyspace st \/ r = Ok tt -> audit = (Ok tt, vs_dir st')) /\
  (forall e d, audit = (Err e, d) -> vs_keyspace st' = vs_keyspace st /\ r <> Ok tt).
Proof.
  intros Hx audit. destruct (exec_cases v op env st) as [(e & _ & He)|[f Hf]].
  { rewrite He in Hx. injection Hx as <- <-. split; [intros [?|?]; done|done]. }
  rewrite Hf in Hx. apply commit_audited_cases in Hx. fold audit in Hx.
  destruct audit as [[[]|e] d].
  - destruct Hx as [-> Hx]. split; [done|]. intros e d'. done.
  - destruct Hx as [-> ->]. split; [intros [?|?]; done|done].
Qed.

(** ** The audit log records the mutations *)

(** The audit log of a directory holds entries of some events, in order, and can be
    opened, for the first time or again. *)
Definition audited (v : Vault) (d : Disk) (events : list (Z * LogEntryKind)) : Prop :=
  exists done live,
    (unopened d TAMPER_LOG_FILE /\ done = [] /\ live = [] \/
     resumable d TAMPER_LOG_FILE (vault_chain_key v) done live) /\
    Forall2 logged events (concat done ++ live).

Lemma fresh_audited v d : unopened d TAMPER_LOG_FILE -> audited v d [].
Proof. intros Hu. exists [], []. split; [by left|done]. Qed.

Lemma identity_signer_ok id : signer_ok (identity_signer plain_hash <$> id).
Proof.
  destruct id as [id|]; cbn; [|done]. split; [|apply ed_sign_len].
  unfold installation_key_id. by rewrite length_take, blake3_keyed_len.
Qed.

Lemma open_audit_log_inner v id d :
  open_audit_log plain_hash v id d =
  open_inner d TAMPER_LOG_FILE (vault_chain_key v) DEFAULT_MAX_FILE_BYTES (identity_signer plain_hash <$> id).
Proof. by destruct id. Qed.

(** The log is opened whether it is new or resumed. *)
Lemma open_audit_log_ok v id d events :
  audited v d events -> d_faults d = [] ->
  exists d' l done live, open_audit_log plain_hash v id d = (d', Ok l) /\ d_faults d' = [] /\
    SegmentSet d' TAMPER_LOG_FILE (vault_chain_key v) done live /\
    Handle l TAMPER_LOG_FILE (vault_chain_key v) done live /\
    LiveSeal d' TAMPER_LOG_FILE (vault_chain_key v) done (Z.of_nat (length live)) /\
    Forall2 logged events (concat done ++ live).
Proof.
  intros (done & live & Ho & Hlog) Hno. rewrite open_audit_log_inner.
  pose proof (open_any d _ _ DEFAULT_MAX_FILE_BYTES _ done live Ho (identity_signer_ok id)) as Hx.
  destruct (open_inner _ _ _ _ _) as [d' [l|e]]; destruct Hx as (Hset & Hx & Hf); destruct (Hf Hno); [|done].
  destruct Hx. exists d', l, done, live. by split_and!.
Qed.

(** A result after which the log may have one more entry: that of a call that was
    committed, or that reported an error of the log. *)
Definition reached_log (r : result unit VaultError) : bool :=
  committed r || match r with Err (VTamperLog _) => true | _ => false end.

(** What a call that returned [r] adds to the log for its event. *)
Definition added (faults : list (option SealStage)) (r : result unit VaultError) (event : Z * LogEntryKind)
    (es : list (Z * LogEntryKind)) : Prop :=
  (if committed r then es = [event] else es = [] \/ es = [event] /\ reached_log r = true) /\
  (faults = [] -> committed r = false -> es = []).

(** Either no seal write fails or none failed in a rotation. *)
Definition log_kept (d d' : Disk) : Prop :=
  d_faults d = [] \/ interrupted_rotation d' TAMPER_LOG_FILE = false.

Lemma added_nothing faults r event : committed r = false -> added faults r event [].
Proof. intros Hr. split; [rewrite Hr; by left|done]. Qed.

Lemma installation_identity_error v d e : installation_identity v d = Err e -> unaudited e.
Proof.
  unfold installation_identity, read_header, result_bind, map_err, serialized. intros Hx. repeat case_match; by simplify_eq.
Qed.

Lemma append_vault_audit_error v name label ms d e d' :
  append_vault_audit plain_hash v name label ms d = (Err e, d') -> committed (Err e) = false.
Proof.
  unfold append_vault_audit. destruct (installation_identity v d) eqn:Hi.
  2:{ intros [= <- <-]. by eapply installation_identity_error. }
  intros Hx. repeat case_match; by simplify_eq.
Qed.

Lemma append_vault_audit_records v name label ms d events r d' :
  audited v d events -> Z.of_nat (length events) + 1 < 2 ^ 32 -> append_vault_audit plain_hash v name label ms d = (r, d') ->
  log_kept d d' ->
  exists es, audited v d' (events ++ es) /\ (d_faults d = [] -> d_faults d' = []) /\
    added (d_faults d) r (ms, VaultMutation (audit_ref v name) label) es.
Proof.
  intros (done & live & Ho & Hlog) Hn. unfold append_vault_audit. destruct (installation_identity v d) as [id|e] eqn:Hid.
  2:{ intros [= <- <-] _. exists []. rewrite app_nil_r. split; [by exists done, live|]. split; [done|].
      by apply added_nothing, (installation_identity_error v d). }
  rewrite open_audit_log_inner.
  pose proof (open_any d _ _ DEFAULT_MAX_FILE_BYTES _ done live Ho (identity_signer_ok id)) as Hx.
  destruct (open_inner _ _ _ _ _) as [d1 [l|e]]; destruct Hx as (Hset & Hx & Hf).
  2:{ intros [= <- <-] _. exists []. rewrite app_nil_r. split; [exists done, live; split; [by right|done]|].
      split; [by intros [? _]%Hf|]. by apply added_nothing. }
  destruct Hx as [Hh Hseal]. pose proof (Forall2_length _ _ _ Hlog) as Hlen.
  pose proof (append_any d1 l _ _ done live ms (VaultMutation (audit_ref v name) label) Hset Hh Hseal ltac:(lia)) as Hs.
  destruct (TamperWriter.append d1 l ms _) as [[d2 l2] q].
  destruct Hs as (done' & live' & new & es & Hset2 & _ & Hc & Hadd & Hes & _ & Hre & Hnf).
  intros [= <- <-] Hk. exists es. split_and!.
  - exists done', live'. split; [|rewrite Hc, app_assoc; by apply Forall2_app].
    right. split; [apply release_unlocks|]. split; [by apply segment_set_release|].
    destruct Hk as [Hk|Hk]; [|by apply Hre].
    destruct (Hf Hk) as [_ Hk1]. destruct (Hnf Hk1) as (_ & Hs & _). left. eexists. split; [exact Hs|lia].
  - intros [_ Hk1]%Hf. by destruct (Hnf Hk1) as (? & _).
  - split.
    + destruct q; cbn in *; destruct Hes as [->|[-> ?]]; auto. done.
    + intros [_ Hk1]%Hf Hq. destruct (Hnf Hk1) as (_ & _ & Hx). apply Hx. by destruct q.
Qed.

(** The event of a call that was committed to the log. *)
Definition mutation_event (v : Vault) (op : VaultOp) (env : OpEnv) : Z * LogEntryKind :=
  (oe_log_ms env, VaultMutation (audit_ref v (op_name op)) (op_label op)).

Lemma exec_records v op env st events :
  audited v (vs_dir st) events -> Z.of_nat (length events) + 1 < 2 ^ 32 ->
  log_kept (vs_dir st) (vs_dir (vault_exec v op env st).2) ->
  exists es, audited v (vs_dir (vault_exec v op env st).2) (events ++ es) /\
    (d_faults (vs_dir st) = [] -> d_faults (vs_dir (vault_exec v op env st).2) = []) /\
    added (d_faults (vs_dir st)) (vault_exec v op env st).1 (mutation_event v op env) es.
Proof.
  intros Ha Hn. destruct (exec_cases v op env st) as [(e & He & ->)|[f ->]].
  { cbn [fst snd]. intros _. exists []. rewrite app_nil_r. split; [done|]. split; [done|]. by apply added_nothing. }
  destruct (commit_audited plain_hash v (op_name op) (op_label op) f env st) as [r st'] eqn:Hc.
  apply commit_audited_cases in Hc. cbn [fst snd]. intros Hk.
  destruct (append_vault_audit _ _ _ _ _ _) as [[u|e] d] eqn:Hx.
  - destruct Hc as [Hd Hc]. rewrite Hd in Hk |- *.
    assert (committed r = true) as Hr
      by (destruct (oe_write_ok env); destruct Hc as [_ ->]; [by destruct (oe_persist_ok env)|done]).
    destruct (append_vault_audit_records _ _ _ _ _ _ _ _ Ha Hn Hx Hk) as (es & Ha' & Hf' & [He _]).
    exists es. split; [done|]. split; [done|]. unfold added. by rewrite Hr.
  - destruct Hc as [-> ->]. exact (append_vault_audit_records _ _ _ _ _ _ _ _ Ha Hn Hx Hk).
Qed.

(** The events of the calls of a run whose results are kept: of those that succeeded
    or reported an audited failure, and those that may have reached the log too. *)
Fixpoint run_events (keep : result unit VaultError -> bool) (v : Vault) (ops : list (VaultOp * OpEnv))
    (st : VaultStore) : list (Z * LogEntryKind) :=
  match ops with
  | [] => []
  | (op, env) :: ops =>
      (if keep (vault_exec v op env st).1 then [mutation_event v op env] else [])
      ++ run_events keep v ops (vault_exec v op env st).2
  end.
Definition committed_events := run_events committed.
Definition logged_events := run_events reached_log.

Lemma run_events_length keep v ops : forall st, (length (run_events keep v ops st) <= length ops)%nat.
Proof.
  induction ops as [|[op env] ops IH]; intros st; cbn; [lia|]. rewrite length_app.
  specialize (IH (vault_exec v op env st).2). destruct (keep _); cbn; lia.
Qed.

(** No call of the run leaves the audit log with an interrupted rotation. *)
Fixpoint rotations_complete (v : Vault) (ops : list (VaultOp * OpEnv)) (st : VaultStore) : bool :=
  match ops with
  | [] => true
  | (op, env) :: ops =>
      let st' := (vault_exec v op env st).2 in
      negb (interrupted_rotation (vs_dir st') TAMPER_LOG_FILE) && rotations_complete v ops st'
  end.

Lemma run_logs v ops : forall st events,
  audited v (vs_dir st) events -> Z.of_nat (length events) + Z.of_nat (length ops) < 2 ^ 32 ->
  d_faults (vs_dir st) = [] \/ rotations_complete v ops st = true ->
  exists logs, audited v (vs_dir (vault_run v ops st)) (events ++ logs) /\
    committed_events v ops st `sublist_of` logs /\ logs `sublist_of` logged_events v ops st /\
    (d_faults (vs_dir st) = [] ->
      logs = committed_events v ops st /\ d_faults (vs_dir (vault_run v ops st)) = []).
Proof.
  unfold committed_events, logged_events.
  induction ops as [|[op env] ops IH]; intros st events Ha Hn Hk.
  { exists []. cbn. by rewrite app_nil_r. }
  cbn [vault_run run_events length rotations_complete] in *.
  destruct (exec_records v op env st events Ha ltac:(lia)) as (es & Ha1 & Hf1 & Hes & Hno).
  { destruct Hk as [Hk|[Hk%negb_true_iff _]%andb_prop]; [by left|by right]. }
  assert (length es <= 1)%nat as Hle
    by (destruct (committed _); [by subst es|destruct Hes as [-> | [-> _]]; cbn; lia]).
  destruct (IH (vault_exec v op env st).2 (events ++ es) Ha1) as (logs & Ha2 & Hc & Hl & Hf2).
  { rewrite length_app. lia. }
  { destruct Hk as [Hk|[_ Hk]%andb_prop]; [left; auto|by right]. }
  exists (es ++ logs). rewrite app_assoc. split; [done|]. split; [|split].
  - apply sublist_app; [|done]. destruct (committed _); [by subst es|apply sublist_nil_l].
  - apply sublist_app; [|done]. unfold reached_log.
    destruct (committed _) eqn:E; [by subst es|]. destruct Hes as [-> |[-> Hr]]; [apply sublist_nil_l|].
    unfold reached_log in Hr. rewrite E in Hr. by rewrite Hr.
  - intros Hz. destruct (Hf2 (Hf1 Hz)) as [-> ?]. split; [|done]. f_equal.
    destruct (committed _); [done|by apply Hno].
Qed.

(** With no seal write failing. *)
Lemma run_records v ops st events :
  audited v (vs_dir st) events -> Z.of_nat (length events) + Z.of_nat (length ops) < 2 ^ 32 ->
  d_faults (vs_dir st) = [] ->
  audited v (vs_dir (vault_run v ops st)) (events ++ committed_events v ops st) /\
  d_faults (vs_dir (vault_run v ops st)) = [].
Proof.
  intros Ha Hn Hno. destruct (run_logs v ops st events Ha Hn (or_introl Hno)) as (logs & Hl & _ & _ & Hf).
  by destruct (Hf Hno) as [<- ?].
Qed.

(** C15. The audit log records the mutations: starting from a directory without an audit
    log, after any sequence of (fewer than 2^32) mutating calls, whatever the backend
    did, either no entry was written and no log exists yet, or the walk over the log's segments finds
    it intact, and its entries, each with the time, the operation and the reference of
    the credential of a call, are in order and across rotations: when no seal write
    fails, exactly the calls that succeeded or reported an audited failure; when seal
    writes fail, at any stage (and no seal lies there at the start), all of those and
    possibly some of the calls that reported an error of the log, whose entry was
    written before its seal. Excluded from the second case are runs in which the seal
    of a new segment failed before it was in place, which loses the link to the
    segments rotated out. *)
Theorem audit_log_records_mutations v ops st :
  fresh (vs_dir st) TAMPER_LOG_FILE -> Z.of_nat (length ops) < 2 ^ 32 ->
  (d_faults (vs_dir st) = [] \/
   d_files (vs_dir st) !! seal_path TAMPER_LOG_FILE = None /\ rotations_complete v ops st = true) ->
  let d := vs_dir (vault_run v ops st) in
  exists logs,
    committed_events v ops st `sublist_of` logs /\ logs `sublist_of` logged_events v ops st /\
    (d_faults (vs_dir st) = [] -> logs = committed_events v ops st) /\
    ((d_files d !! TAMPER_LOG_FILE = None /\ logs = []) \/
     exists done live segs,
       verify_segment_chain d TAMPER_LOG_FILE (vault_chain_key v) = Ok (SegmentsIntact (Z.of_nat (length logs)) segs) /\
       SegmentSet d TAMPER_LOG_FILE (vault_chain_key v) done live /\ Forall2 logged logs (concat done ++ live)).
Proof.
  intros Hf Hn Hk d.
  assert (unopened (vs_dir st) TAMPER_LOG_FILE) as Hu by (split; [done|tauto]).
  destruct (run_logs v ops st [] (fresh_audited v _ Hu) Hn ltac:(tauto)) as (logs & (done & live & Ho & Hl) & Hc & Ha & Hno).
  exists logs. split; [done|]. split; [done|]. split; [by intros [? _]%Hno|]. cbn [app] in Hl.
  destruct Ho as [([(Hd & _) _] & -> & ->)|(_ & Hset & Hre)].
  - left. apply Forall2_nil_inv_r in Hl. by split.
  - right. exists done, live, (Z.of_nat (length done) + 1). split; [|done].
    rewrite (Forall2_length _ _ _ Hl). by apply reopens_verifies.
Qed.

(** ** Creating and opening *)

Lemma create_Ok path passphrase env v ks p' :
  vault_create path passphrase env = (Ok (v, ks), p') ->
  path = None /\ ks = ∅ /\ v = mkVault (v_key v) (ce_salt env) /\
  exists header json, derive_key passphrase (ce_salt env) KdfParams_default = Ok (v_key v) /\
    new_header env (v_key v) = Ok header /\ to_json header = Some json /\
    p' = Some {| d_files := <[HEADER_FILE := json]> {[ LOCK_FILE := [] ]}; d_locks := {[ LOCK_FILE ]}; d_faults := [] |}.
Proof.
  unfold vault_create. destruct passphrase as [|b bs]; [done|]. destruct path; [done|].
  unfold acquire_lock. rewrite bool_decide_false by apply not_elem_of_empty. cbn [d_files d_locks d_faults create_owner_only_file set_files].
  destruct (derive_key _ _ _) as [key|e]; cbn [map_err result_bind]; [|done].
  destruct (new_header env key) as [header|e] eqn:Hh; cbn [result_bind]; [|done].
  unfold serialized. destruct (to_json header) as [json|] eqn:Hj; cbn [result_bind]; [|done].
  destruct (ce_header_ok env); cbn [negb]; [|done]. destruct (ce_fjall_ok env); [|done].
  intros [= <- <- <-]. repeat split; auto. exists header, json. repeat split; auto.
Qed.

(** A vault that was created opens again with the same passphrase, to the same key
    and salt, and reports the identity it was created with. *)
Lemma open_created passphrase env v ks d :
  length (ce_nonce_check env) = NONCE_LEN -> length (ce_nonce_seal env) = NONCE_LEN ->
  length (ce_signing_key env) = SIGNING_KEY_LEN ->
  vault_create None passphrase env = (Ok (v, ks), Some d) ->
  (vault_open (Some (unlock d)) passphrase true).1 = Ok v /\
  (vault_open (Some d) passphrase true).1 = Err VLocked /\
  installation_identity v d = Ok (Some (from_signing_key (ce_signing_key env))) /\
  installation_public_key d = Ok (Some (ed_public (ce_signing_key env))).
Proof.
  intros Hn1 Hn2 Hsk (_ & _ & Hv & header & json & Hk & Hh & Hj & [= ->])%create_Ok.
  unfold new_header in Hh.
  destruct (vault_encrypt _ _ _ _) as [kc|] eqn:Hkc; cbn [map_err result_bind] in Hh; [|done].
  destruct (seal_signing_key _ _ _) as [sealed|] eqn:Hs; cbn [map_err result_bind] in Hh; [|done].
  injection Hh as <-. apply (vault_decrypt_encrypt _ _ _ _ _ Hn1) in Hkc.
  apply unseal_seal_signing_key in Hs; [|done..]. apply from_to_json in Hj.
  destruct (ed_public_point (ce_signing_key env) Hsk) as [Hpl Hpt].
  unfold installation_identity, installation_public_key, read_header, vault_open, acquire_lock, unlock.
  cbn [d_files d_locks d_faults create_owner_only_file set_files].
  rewrite !lookup_insert_eq, Hj. cbn [serialized result_bind].
  split_and!.
  - rewrite bool_decide_false by set_solver. unfold read_header. cbn [d_files].
    rewrite lookup_insert_ne, lookup_insert_eq, Hj by done. cbn [serialized result_bind].
    unfold open_header. cbn. rewrite Hk. cbn. rewrite Hkc. cbn. by rewrite Hv.
  - by rewrite bool_decide_true by set_solver.
  - cbn. rewrite Hs. cbn. unfold eq_bytes. by rewrite bool_decide_true by done.
  - cbn. unfold VerifyingKey_from_bytes, SigningKey_verifying_key. rewrite Hpl, Hpt. done.
Qed.

(** The directory of a new vault has no audit log yet. *)
Lemma created_fresh passphrase env v ks d :
  vault_create None passphrase env = (Ok (v, ks), Some d) -> fresh d TAMPER_LOG_FILE.
Proof.
  intros (_ & _ & _ & header & json & _ & _ & _ & [= ->])%create_Ok. split_and!; [done| |].
  - cbn. rewrite elem_of_singleton. done.
  - intros name [c Hc]. cbn in Hc.
    apply lookup_insert_Some in Hc as [[<- _]|[_ Hc]]; [done|].
    apply lookup_singleton_Some in Hc as [<- _]. done.
Qed.

(** An interrupted creation blocks its path: when the header file cannot be written,
    the directory stays, [create] then refuses the path as existing and [open] as
    holding no vault. *)
Lemma interrupted_create_blocks passphrase env d e :
  ce_header_ok env = false -> vault_create None passphrase env = (Err e, Some d) ->
  forall passphrase' env', passphrase' <> [] ->
    (vault_create (Some d) passphrase' env').1 = Err AlreadyExists /\
    (vault_open (Some d) passphrase' true).1 = Err NotInitialized.
Proof.
  intros Hh Hc p' env' Hp. split; [by destruct p'|].
  assert (d_files d !! HEADER_FILE = None) as Hd; [|unfold vault_open; by rewrite Hd].
  unfold vault_create in Hc. destruct passphrase; [done|].
  unfold acquire_lock in Hc. rewrite bool_decide_false in Hc by apply not_elem_of_empty. rewrite Hh in Hc. cbn [negb] in Hc.
  repeat case_match; simplify_eq; done.
Qed.

(** A version-1 header is refused before the passphrase is looked at. *)
Lemma version_one_refused header passphrase :
  sh_version header = 1 -> open_header header passphrase = Err InvalidHeader.
Proof. intros Hv. unfold open_header. by rewrite Hv. Qed.

(** ** What the binding covers, and what it does not *)

(** The stored bytes of [raw] with the metadata ciphertext of [from] in its place:
    an edit of the data directory that needs no key. *)
Definition swap_metadata (raw from : bytes) : option bytes :=
  match from_json raw, from_json from with
  | Some e, Some e' => to_json (mkStoredEntry (se_envelope_version e) (se_encrypted_secret e) (se_encrypted_metadata e'))
  | _, _ => None
  end.
Definition swap_secret (raw from : bytes) : option bytes :=
  match from_json raw, from_json from with
  | Some e, Some e' => to_json (mkStoredEntry (se_envelope_version e) (se_encrypted_secret e') (se_encrypted_metadata e))
  | _, _ => None
  end.

(** C17. The metadata ciphertext is not bound to its entry: whoever can write the data
    directory, without any key, revives a revoked credential by giving its record the
    metadata ciphertext of an active credential of the same type; [get] then returns
    the revoked secret under the other entry's name and metadata. *)
Theorem swapped_metadata_revives v U st a n1 n2 c1 c2 raw1 raw2 raw :
  implements v U (vs_keyspace st) a -> n1 ∈ U -> n2 ∈ U ->
  a !! n1 = Some c1 -> a !! n2 = Some c2 ->
  mr_status (cr_record c1) = EActive -> mr_status (cr_record c2) = ERevoked ->
  mr_credential_type (cr_record c1) = mr_credential_type (cr_record c2) ->
  vs_keyspace st !! lookup_key v n1 = Some raw1 -> vs_keyspace st !! lookup_key v n2 = Some raw2 ->
  swap_metadata raw2 raw1 = Some raw ->
  vault_get v n2 true st = Err (EntryRevoked n2) /\
  vault_get v n2 true (mkStore (vs_dir st) (<[lookup_key v n2 := raw]> (vs_keyspace st)))
    = Ok (mkDecrypted n1 (mr_credential_type (cr_record c2)) (cr_secret c2) (mr_metadata (cr_record c1))).
Proof.
  intros HI Hn1 Hn2 Hc1 Hc2 Hs1 Hs2 Ht Hr1 Hr2 Hsw. split.
  { rewrite (get_agrees _ _ _ _ _ HI Hn2). unfold spec_get. by rewrite Hc2, Hs2. }
  destruct (im_present _ _ _ _ HI n1 c1 Hn1 Hc1) as (? & Hr1' & e1 & a1 & He1 & Hm1 & Hname1 & _).
  destruct (im_present _ _ _ _ HI n2 c2 Hn2 Hc2) as (? & Hr2' & e2 & a2 & He2 & _ & _ & Hv2 & Ha2 & Hd2).
  rewrite Hr1 in Hr1'. injection Hr1' as <-. rewrite Hr2 in Hr2'. injection Hr2' as <-.
  unfold swap_metadata in Hsw. rewrite He1, He2 in Hsw. apply from_to_json in Hsw.
  unfold vault_get, read_entry. cbn [negb vs_keyspace]. rewrite lookup_insert_eq, Hsw. cbn [serialized result_bind].
  unfold decrypt_metadata in *. cbn [se_encrypted_metadata]. rewrite Hm1. cbn [result_bind]. rewrite Hs1. cbn.
  rewrite Hv2. change (ENTRY_ENVELOPE_VERSION =? LEGACY_ENVELOPE_VERSION) with false. cbn beta iota.
  rewrite Ht, Ha2. cbn. rewrite Hd2. cbn. by rewrite Hname1.
Qed.

(** The secret ciphertext is bound: moved under another name it opens only if the
    cipher opens it with associated data it was not sealed under. *)
Lemma swapped_secret_rejected v U st a n1 n2 c1 c2 raw1 raw2 raw e1 aad1 :
  implements v U (vs_keyspace st) a -> n1 ∈ U -> n2 ∈ U -> n1 <> n2 ->
  a !! n1 = Some c1 -> a !! n2 = Some c2 -> mr_status (cr_record c2) = EActive ->
  vs_keyspace st !! lookup_key v n1 = Some raw1 -> vs_keyspace st !! lookup_key v n2 = Some raw2 ->
  from_json raw1 = Some e1 ->
  entry_aad (v_salt v) n1 (mr_credential_type (cr_record c1)) ENTRY_ENVELOPE_VERSION = Ok aad1 ->
  (forall aad, aad <> aad1 -> vault_decrypt (v_key v) (se_encrypted_secret e1) aad = Err DecryptionFailed) ->
  swap_secret raw2 raw1 = Some raw ->
  vault_get v n2 true (mkStore (vs_dir st) (<[lookup_key v n2 := raw]> (vs_keyspace st)))
    = Err (EntryCrypto DecryptionFailed).
Proof.
  intros HI Hn1 Hn2 Hne Hc1 Hc2 Hs2 Hr1 Hr2 He1 Ha1 Hbind Hsw.
  destruct (im_present _ _ _ _ HI n2 c2 Hn2 Hc2) as (? & Hr2' & e2 & a2 & He2 & Hm2 & _ & Hv2 & Ha2 & _).
  rewrite Hr2 in Hr2'. injection Hr2' as <-.
  unfold swap_secret in Hsw. rewrite He1, He2 in Hsw. apply from_to_json in Hsw.
  unfold vault_get, read_entry. cbn [negb vs_keyspace]. rewrite lookup_insert_eq, Hsw. cbn [serialized result_bind].
  unfold decrypt_metadata in *. cbn [se_encrypted_metadata]. rewrite Hm2. cbn [result_bind]. rewrite Hs2. cbn.
  rewrite Hv2. change (ENTRY_ENVELOPE_VERSION =? LEGACY_ENVELOPE_VERSION) with false. cbn beta iota.
  rewrite Ha2. cbn. rewrite Hbind; [done|]. intros ->.
  by destruct (entry_aad_inj _ _ _ _ _ _ _ _ _ Ha2 Ha1) as (_ & ? & _).
Qed.

(** The stored bytes of [raw] marked as a legacy entry with [ciphertext] as its secret. *)
Definition legacy_secret (raw ciphertext : bytes) : option bytes :=
  match from_json raw with
  | Some e => to_json (mkStoredEntry LEGACY_ENVELOPE_VERSION ciphertext (se_encrypted_metadata e))
  | None => None
  end.

(** A legacy entry's secret is bound to nothing, and the header's key check is
    sealed under the same key with the same empty associated data: whoever can write
    the vault's files, without any key, replaces the secret of an active credential by
    a publicly known value, by marking its record as a legacy entry and copying the key
    check ciphertext into it; [get] returns that value as the credential. *)
Theorem key_check_injected v U st a name c raw raw' header passphrase :
  implements v U (vs_keyspace st) a -> name ∈ U -> a !! name = Some c ->
  mr_status (cr_record c) = EActive ->
  open_header header passphrase = Ok v ->
  vs_keyspace st !! lookup_key v name = Some raw ->
  legacy_secret raw (sh_key_check header) = Some raw' ->
  vault_get v name true (mkStore (vs_dir st) (<[lookup_key v name := raw']> (vs_keyspace st)))
    = Ok (mkDecrypted name (mr_credential_type (cr_record c)) KEY_CHECK_PLAINTEXT (mr_metadata (cr_record c))).
Proof.
  intros HI Hn Hc Hs Ho Hr Hl.
  assert (vault_decrypt (v_key v) (sh_key_check header) [] = Ok KEY_CHECK_PLAINTEXT) as Hk.
  { unfold open_header in Ho. destruct (negb _); [done|].
    destruct (derive_key _ _ _) as [key|]; cbn [map_err result_bind] in Ho; [|done].
    destruct (vault_decrypt key _ _) as [p|] eqn:Hd; cbn [map_err result_bind] in Ho; [|done].
    destruct (eq_bytes p KEY_CHECK_PLAINTEXT) eqn:He; cbn [negb] in Ho; [|done].
    apply eq_bytes_true in He. injection Ho as <-. rewrite <- He. exact Hd. }
  destruct (im_present _ _ _ _ HI name c Hn Hc) as (? & Hr' & e & a1 & He & Hm & Hname & _).
  rewrite Hr in Hr'. injection Hr' as <-. unfold legacy_secret in Hl. rewrite He in Hl. apply from_to_json in Hl.
  unfold vault_get, read_entry. cbn [negb vs_keyspace]. rewrite lookup_insert_eq, Hl. cbn [serialized result_bind].
  unfold decrypt_metadata in *. cbn [se_encrypted_metadata]. rewrite Hm. cbn [result_bind]. rewrite Hs. cbn.
  rewrite Hk. cbn. by rewrite Hname.
Qed.

End Spec.

(** * A concrete vault *)

Module VaultSample.

(** A cheap 32-byte hash: the message, then the key. *)
#[local] Instance prefix_hash : KeyedHash.
Proof.
  refine {| blake3_keyed := fun k m => take 32 (m ++ k ++ repeat 0 32) |}.
  intros k m. rewrite length_take, !length_app, repeat_length. lia.
Defined.
#[local] Existing Instance toy_cbor.

(** Any countable type has a serialization. *)
Definition countable_json {A} `{Countable A} : Json A.
Proof.
  refine {| to_json := fun a : A => Some [Z.pos (encode a)];
            from_json := fun b => match b with [Z.pos p] => decode p | _ => None end |}.
  intros a b [= <-]. apply decode_encode.
Defined.

#[local] Instance credential_countable : Countable CredentialType.
Proof.
  refine (inj_countable' (fun t => match t with ApiKey => inl 0 | Psk => inl 1 | Certificate => inl 2
                                  | RadioKey => inl 3 | Custom l => inr l end)
            (fun c => match c with inl 0 => ApiKey | inl 1 => Psk | inl 2 => Certificate | inl _ => RadioKey
                      | inr l => Custom l end) _).
  by intros [].
Defined.
#[local] Instance kdf_eq_dec : EqDecision KdfParams.
Proof. solve_decision. Defined.
#[local] Instance kdf_countable : Countable KdfParams.
Proof. refine (inj_countable' (fun k => (memory_cost_kib k, time_cost k, parallelism k)) (fun '(a, b, c) => mkKdf a b c) _). by intros []. Defined.
#[local] Instance header_eq_dec : EqDecision StoredHeader.
Proof. solve_decision. Defined.
#[local] Instance header_countable : Countable StoredHeader.
Proof.
  refine (inj_countable' (fun h => (sh_version h, sh_salt h, sh_kdf_params h, sh_key_check h, sh_installation_public_key h, sh_sealed_signing_key h))
    (fun '(a, b, c, d, e, f) => mkHeader a b c d e f) _). by intros [].
Defined.
#[local] Instance entry_eq_dec : EqDecision StoredEntry.
Proof. solve_decision. Defined.
#[local] Instance entry_countable : Countable StoredEntry.
Proof.
  refine (inj_countable' (fun e => (se_envelope_version e, se_encrypted_secret e, se_encrypted_metadata e))
    (fun '(a, b, c) => mkStoredEntry a b c) _). by intros [].
Defined.
#[local] Instance kind_eq_dec : EqDecision HistoryEventKind.
Proof. solve_decision. Defined.
#[local] Instance event_eq_dec : EqDecision HistoryEvent.
Proof. solve_decision. Defined.
#[local] Instance event_countable : Countable HistoryEvent.
Proof.
  refine (inj_countable' (fun e => (he_timestamp e, match he_kind e with HCreated => 0 | HRotated => 1 | HRevoked => 2 end))
    (fun '(t, k) => mkHistory t (if k =? 0 then HCreated else if k =? 1 then HRotated else HRevoked)) _).
  by intros [? []].
Defined.
#[local] Instance metadata_eq_dec : EqDecision EntryMetadata.
Proof. solve_decision. Defined.
#[local] Instance metadata_countable : Countable EntryMetadata.
Proof.
  refine (inj_countable' (fun m => (em_created_at m, em_rotated_at m, em_revoked_at m, em_rotation_count m, em_tags m))
    (fun '(a, b, c, d, e) => mkMetadata a b c d e) _). by intros [].
Defined.
#[local] Instance record_eq_dec : EqDecision EntryMetadataRecord.
Proof. solve_decision. Defined.
#[local] Instance record_countable : Countable EntryMetadataRecord.
Proof.
  refine (inj_countable' (fun r => (mr_name r, mr_credential_type r, mr_metadata r,
      match mr_status r with EActive => 0 | ERevoked => 1 | EExpired => 2 end, mr_history r))
    (fun '(a, b, c, d, e) => mkRecord a b c (if d =? 0 then EActive else if d =? 1 then ERevoked else EExpired) e) _).
  by intros [? ? ? [] ?].
Defined.
#[local] Existing Instance countable_json.

(** A cipher that writes down what a ciphertext was sealed under. *)
Definition toy_prefix (k n a : bytes) : bytes :=
  (Z.of_nat (length k) :: k) ++ (Z.of_nat (length n) :: n) ++ (Z.of_nat (length a) :: a).
#[local] Instance toy_aead : Aead.
Proof.
  refine {| aead_seal := fun k n a m => Some (toy_prefix k n a ++ m);
            aead_open := fun k n a c => let p := toy_prefix k n a in
              if bool_decide (take (length p) c = p) then Some (drop (length p) c) else None |}.
  - intros k n a m c Hc. apply (inj Some) in Hc. subst c. cbv zeta. rewrite take_app_length, bool_decide_true by done. by rewrite drop_app_length.
  - intros k n a m c. cbv zeta. case_bool_decide as Hc; [|done]. intros Hm. apply (inj Some) in Hm. subst m.
    f_equal. rewrite <- Hc at 1. by rewrite take_drop.
Defined.
#[local] Instance toy_argon2 : Argon2id.
Proof.
  refine {| argon2_params := fun _ _ _ => true; argon2_hash := fun _ _ _ pw salt => Some (blake3_keyed salt pw) |}.
  intros m t p pw salt k Hk. apply (inj Some) in Hk. subst k. apply blake3_keyed_len.
Defined.
#[local] Instance toy_ed25519 : Ed25519.
Proof.
  refine {| ed_public := fun sk => sk; ed_sign := fun sk m => take 64 (sk ++ m ++ repeat 0 64);
            ed_verify := fun pk m s => bool_decide (s = take 64 (pk ++ m ++ repeat 0 64));
            ed_point := fun _ => true |}; [|done|by intros; apply bool_decide_eq_true].
  intros sk m. rewrite length_take, !length_app, repeat_length. lia.
Defined.

Definition phrase : bytes := byte_str "pass".
Definition cenv : CreateEnv := mkCreateEnv (repeat 3 32) (repeat 1 12) (repeat 2 12) (repeat 5 32) true true.
Definition created : result (Vault * gmap bytes bytes) VaultError * option Disk := vault_create None phrase cenv.
Definition v : Vault := match created.1 with Ok (v, _) => v | Err _ => mkVault [] [] end.
Definition dir : Disk := default {| d_files := ∅; d_locks := ∅; d_faults := [] |} created.2.
Definition env : OpEnv := mkOpEnv (repeat 8 12) (repeat 9 12) 100 7 true true true.
Definition alice : bytes := byte_str "a".
Definition bob : bytes := byte_str "b".
Definition names : gset bytes := {[ alice; bob ]}.
Definition plain (b : bytes) : bytes := take 32 (b ++ repeat 0 32).
Definition exec (op : VaultOp) (st : VaultStore) := vault_exec plain v op env st.
Definition spec (op : VaultOp) (a : gmap bytes Credential) : gmap bytes Credential :=
  match spec_exec (v_salt v) op 100 a with Ok a => a | Err _ => a end.

Definition st0 : VaultStore := mkStore dir ∅.
Definition st1 : VaultStore := (exec (OpAdd alice Psk [4; 4]) st0).2.
Definition st2 : VaultStore := (exec (OpAdd bob Psk [6; 6]) st1).2.
Definition st3 : VaultStore := (exec (OpRevoke bob) st2).2.
Definition a1 := spec (OpAdd alice Psk [4; 4]) ∅.
Definition a2 := spec (OpAdd bob Psk [6; 6]) a1.
Definition a3 := spec (OpRevoke bob) a2.

Lemma total : writes_total.
Proof. split; [by eexists|]. split; by eexists. Qed.
Lemma env_ok : nonces_ok env.
Proof. done. Qed.

Lemma impl0 : implements v names (vs_keyspace st0) ∅.
Proof.
  split; [|done|done]. intros n1 n2. unfold names. rewrite !elem_of_union, !elem_of_singleton.
  assert (lookup_key v alice <> lookup_key v bob) as Hne by (vm_compute; discriminate).
  intros [-> | ->] [-> | ->] E; [reflexivity|destruct (Hne E)|destruct (Hne (eq_sym E))|reflexivity].
Qed.
Lemma alice_in : alice ∈ names.
Proof. unfold names. set_solver. Qed.
Lemma bob_in : bob ∈ names.
Proof. unfold names. set_solver. Qed.

Lemma impl1 : implements v names (vs_keyspace st1) a1.
Proof. eapply exec_implements; [apply total|done|apply impl0|apply alice_in|vm_compute; reflexivity|vm_compute; reflexivity]. Qed.
Lemma impl2 : implements v names (vs_keyspace st2) a2.
Proof. eapply exec_implements; [apply total|done|apply impl1|apply bob_in|vm_compute; reflexivity|vm_compute; reflexivity]. Qed.
Lemma impl3 : implements v names (vs_keyspace st3) a3.
Proof. eapply exec_implements; [apply total|done|apply impl2|apply bob_in|vm_compute; reflexivity|vm_compute; reflexivity]. Qed.

Lemma vault_refines_map_witness :
  exists a', implements v names (vs_keyspace st3) a' /\ vault_get v bob true st3 = spec_get a' bob.
Proof.
  destruct (vault_refines_map plain v names st2 a2 (OpRevoke bob) env (exec (OpRevoke bob) st2).1 st3
    total env_ok impl2 bob_in (surjective_pairing _))
    as (a' & Himpl & Hget & _).
  exists a'. split; [exact Himpl | exact (Hget bob bob_in)].
Defined.

Definition bob_revoked : Credential := default (mkCredential (mkRecord [] Psk (mkMetadata 0 None None 0 []) EActive []) []) (a3 !! bob).
Definition later : list (VaultOp * OpEnv) :=
  [(OpAdd bob Psk [1], env); (OpRemove bob, env); (OpRotate bob [2], env);
   (OpRotate alice [5], mkOpEnv (repeat 8 12) (repeat 9 12) 200 8 true true false)].

Lemma revocation_is_final_witness : vault_get v bob true (vault_run plain v later st3) = Err (EntryRevoked bob).
Proof.
  refine (proj1 (revocation_is_final plain v names a3 bob bob_revoked later st3 total impl3 bob_in _ _ _)).
  - vm_compute; reflexivity.
  - vm_compute; reflexivity.
  - repeat constructor; apply bob_in || apply alice_in.
Defined.

Lemma audit_precedes_mutation_witness :
  append_vault_audit plain v alice (byte_str "add") 7 dir = (Ok tt, vs_dir st1).
Proof.
  refine (proj1 (audit_precedes_mutation plain v (OpAdd alice Psk [4; 4]) env st0
    (exec (OpAdd alice Psk [4; 4]) st0).1 st1 _) _).
  - apply surjective_pairing.
  - right. vm_compute; reflexivity.
Defined.

(** The seal write after the second call's entry fails, and that of the next opening. *)
Definition faulty : VaultStore :=
  mkStore (with_faults [None; None; None; Some Write; Some Sync] dir) ∅.
Definition calls : list (VaultOp * OpEnv) := (OpAdd alice Psk [4; 4], env) :: later.

Lemma audit_log_records_mutations_witness :
  (length (committed_events plain v calls st0) = 4%nat /\
   exists done live segs,
     verify_segment_chain (vs_dir (vault_run plain v calls st0)) TAMPER_LOG_FILE (vault_chain_key v) = Ok (SegmentsIntact 4 segs) /\
     Forall2 logged (committed_events plain v calls st0) (concat done ++ live)) /\
  length (committed_events plain v calls faulty) = 1%nat /\ length (logged_events plain v calls faulty) = 3%nat /\
  verify_segment_chain (vs_dir (vault_run plain v calls faulty)) TAMPER_LOG_FILE (vault_chain_key v) = Ok (SegmentsIntact 2 1) /\
  exists logs, committed_events plain v calls faulty `sublist_of` logs /\
    logs `sublist_of` logged_events plain v calls faulty.
Proof.
  split; [|split; [|split; [|split]]].
  - assert (length (committed_events plain v calls st0) = 4%nat) as Hl by (vm_compute; reflexivity).
    split; [exact Hl|].
    destruct (audit_log_records_mutations plain v calls st0) as (logs & _ & _ & Hno & Hend).
    + apply (created_fresh phrase cenv v ∅). vm_compute; reflexivity.
    + reflexivity.
    + left. reflexivity.
    + rewrite Hno in Hend by reflexivity. destruct Hend as [[_ Hc]|(done & live & segs & Hv & _ & Hlog)].
      * exfalso. rewrite Hc in Hl. discriminate Hl.
      * rewrite Hl in Hv. exists done, live, segs. split; [exact Hv|exact Hlog].
  - vm_compute. reflexivity.
  - vm_compute. reflexivity.
  - vm_compute. reflexivity.
  - destruct (audit_log_records_mutations plain v calls faulty) as (logs & Hc & Hl & _).
    + change (fresh dir TAMPER_LOG_FILE). apply (created_fresh phrase cenv v ∅). vm_compute; reflexivity.
    + reflexivity.
    + right. split; vm_compute; reflexivity.
    + exists logs. split; [exact Hc|exact Hl].
Defined.

Definition raw_of (n : bytes) : bytes := default [] (vs_keyspace st3 !! lookup_key v n).
Definition alice_live : Credential := default bob_revoked (a3 !! alice).

Lemma swapped_metadata_revives_witness :
  vault_get v bob true st3 = Err (EntryRevoked bob) /\
  exists raw, swap_metadata (raw_of bob) (raw_of alice) = Some raw /\
    is_ok (vault_get v bob true (mkStore (vs_dir st3) (<[lookup_key v bob := raw]> (vs_keyspace st3)))) = true.
Proof.
  destruct (swapped_metadata_revives v names st3 a3 alice bob alice_live bob_revoked (raw_of alice) (raw_of bob)
    (default [] (swap_metadata (raw_of bob) (raw_of alice)))) as [Hr Hg].
  - apply impl3.
  - apply alice_in.
  - apply bob_in.
  - vm_compute; reflexivity.
  - vm_compute; reflexivity.
  - vm_compute; reflexivity.
  - vm_compute; reflexivity.
  - vm_compute; reflexivity.
  - vm_compute; reflexivity.
  - vm_compute; reflexivity.
  - vm_compute; reflexivity.
  - split; [exact Hr|]. exists (default [] (swap_metadata (raw_of bob) (raw_of alice))).
    split; [vm_compute; reflexivity|]. by rewrite Hg.
Defined.

Definition the_header : StoredHeader :=
  match read_header dir with Ok h => h | Err _ => mkHeader 0 [] KdfParams_default [] None None end.

Lemma key_check_injected_witness :
  exists raw, legacy_secret (raw_of alice) (sh_key_check the_header) = Some raw /\
    is_ok (vault_get v alice true (mkStore (vs_dir st3) (<[lookup_key v alice := raw]> (vs_keyspace st3)))) = true.
Proof.
  exists (default [] (legacy_secret (raw_of alice) (sh_key_check the_header))).
  split; [vm_compute; reflexivity|].
  rewrite (key_check_injected v names st3 a3 alice alice_live (raw_of alice)
    (default [] (legacy_secret (raw_of alice) (sh_key_check the_header))) the_header phrase).
  - reflexivity.
  - apply impl3.
  - apply alice_in.
  - vm_compute; reflexivity.
  - vm_compute; reflexivity.
  - vm_compute; reflexivity.
  - vm_compute; reflexivity.
  - vm_compute; reflexivity.
Defined.

End VaultSample.
