(* ===== verification/VaultConfig.v ===== *)
(** * Configuration values from the vault (crates/kryphos/src/config.rs)

    A figment provider that replaces every [vault:name] string of a configuration by
    the secret of that entry. A dictionary is the list of its entries in key order;
    strings are their UTF-8 bytes; values that hold no string are opaque. *)

From S2P Require Import Prelude Text MeshCrypto TamperLog TamperSegments TamperWriter VaultCrypto Vault VaultSpec.

Local Open Scope Z_scope.

Definition VAULT_PREFIX : bytes := byte_str "vault:".

(** [figment::value::Value]; [Tag] says where a value comes from. *)
Inductive Value : Type :=
| VString (tag : Z) (s : bytes)
| VDict (tag : Z) (dict : list (bytes * Value))
| VArray (tag : Z) (arr : list Value)
| VPlain (tag : Z) (payload : Z).

Inductive ConfigError : Type :=
| VaultNotInitialized (entry_name : bytes)
| VaultFailed (e : VaultError)
| NonUtf8Secret (entry_name : bytes).

(** [collect] of results, and the loop of [resolve_dict]: the first error ends it. *)
Fixpoint traverse {A B E} (f : A -> result B E) (l : list A) : result (list B) E :=
  match l with
  | [] => Ok []
  | a :: l => let? b := f a in let? l := traverse f l in Ok (b :: l)
  end.

Section Resolve.
(** The vault's [get], when there is one. *)
Context (vault : option (bytes -> result DecryptedEntry VaultError)).

Definition resolve_reference (entry_name : bytes) : result bytes ConfigError :=
  match vault with
  | None => Err (VaultNotInitialized entry_name)
  | Some get =>
      let? decrypted := map_err VaultFailed (get entry_name) in
      match from_utf8 (de_secret decrypted) with
      | Some secret => Ok secret
      | None => Err (NonUtf8Secret entry_name)
      end
  end.

Fixpoint resolve_value (value : Value) : result Value ConfigError :=
  match value with
  | VString tag s =>
      match strip_prefix VAULT_PREFIX s with
      | Some entry_name => let? secret := resolve_reference entry_name in Ok (VString tag secret)
      | None => Ok (VString tag s)
      end
  | VDict tag dict =>
      let? dict := traverse (fun kv => let? v := resolve_value kv.2 in Ok (kv.1, v)) dict in Ok (VDict tag dict)
  | VArray tag arr => let? arr := traverse resolve_value arr in Ok (VArray tag arr)
  | VPlain tag x => Ok (VPlain tag x)
  end.

Definition resolve_dict (dict : list (bytes * Value)) : result (list (bytes * Value)) ConfigError :=
  traverse (fun kv => let? v := resolve_value kv.2 in Ok (kv.1, v)) dict.

(** [Provider::data]: every profile of the inner provider. *)
Definition provider_data {E} (into : ConfigError -> E) (inner : result (list (bytes * list (bytes * Value))) E)
  : result (list (bytes * list (bytes * Value))) E :=
  let? data := inner in
  traverse (fun pd => let? d := map_err into (resolve_dict pd.2) in Ok (pd.1, d)) data.
End Resolve.

(** * Lemmas *)

Section ValueInd.
Context (P : Value -> Prop) (HS : forall tag s, P (VString tag s))
  (HD : forall tag dict, Forall (fun kv => P kv.2) dict -> P (VDict tag dict))
  (HA : forall tag arr, Forall P arr -> P (VArray tag arr)) (HP : forall tag x, P (VPlain tag x)).

Fixpoint Value_nested_ind (v : Value) : P v :=
  match v with
  | VString tag s => HS tag s
  | VDict tag dict =>
      HD tag dict ((fix go (d : list (bytes * Value)) : Forall (fun kv => P kv.2) d :=
        match d with
        | [] => Forall_nil_2 _
        | kv :: d => Forall_cons_2 _ kv d (Value_nested_ind kv.2) (go d)
        end) dict)
  | VArray tag arr =>
      HA tag arr ((fix go (l : list Value) : Forall P l :=
        match l with [] => Forall_nil_2 _ | v :: l => Forall_cons_2 _ v l (Value_nested_ind v) (go l) end) arr)
  | VPlain tag x => HP tag x
  end.
End ValueInd.

(** The references of a value, in the order they are resolved. *)
Fixpoint references (v : Value) : list bytes :=
  match v with
  | VString _ s => option_list (strip_prefix VAULT_PREFIX s)
  | VDict _ dict => concat (map (fun kv => references kv.2) dict)
  | VArray _ arr => concat (map references arr)
  | VPlain _ _ => []
  end.

(** The value with [secret name] for every reference to [name]. *)
Fixpoint substitute (secret : bytes -> bytes) (v : Value) : Value :=
  match v with
  | VString tag s => VString tag (match strip_prefix VAULT_PREFIX s with Some name => secret name | None => s end)
  | VDict tag dict => VDict tag (map (fun kv => (kv.1, substitute secret kv.2)) dict)
  | VArray tag arr => VArray tag (map (substitute secret) arr)
  | VPlain tag x => VPlain tag x
  end.

Lemma traverse_ext {A B E} (f g : A -> result B E) l : Forall (fun a => f a = g a) l -> traverse f l = traverse g l.
Proof. induction 1 as [|a l Ha _ IH]; cbn; [done|]. by rewrite Ha, IH. Qed.

Lemma traverse_app {A B E} (f : A -> result B E) l l' :
  traverse f (l ++ l') = (let? m := traverse f l in let? m' := traverse f l' in Ok (m ++ m')).
Proof.
  induction l as [|a l IH]; cbn; [by destruct (traverse f l')|].
  destruct (f a); cbn; [|done]. rewrite IH. destruct (traverse f l); cbn; [|done]. by destruct (traverse f l').
Qed.

(** Resolving piece by piece fails as resolving all the references of the pieces. *)
Lemma traverse_concat {A B E} (res : bytes -> result bytes E) (f : A -> result B E) (refs : A -> list bytes) (g : A -> B) l :
  Forall (fun a => f a = (let? _ := traverse res (refs a) in Ok (g a))) l ->
  traverse f l = (let? _ := traverse res (concat (map refs l)) in Ok (map g l)).
Proof.
  induction 1 as [|a l Ha _ IH]; cbn [traverse concat map]; [done|].
  rewrite traverse_app, Ha. destruct (traverse res (refs a)); cbn; [|done]. rewrite IH.
  by destruct (traverse res (concat (map refs l))).
Qed.

Definition secret_or_empty {E} (res : bytes -> result bytes E) (name : bytes) : bytes :=
  match res name with Ok s => s | Err _ => [] end.

Lemma resolve_value_eq vault value :
  resolve_value vault value =
    (let? _ := traverse (resolve_reference vault) (references value) in
     Ok (substitute (secret_or_empty (resolve_reference vault)) value)).
Proof.
  induction value as [tag s|tag dict IH|tag arr IH|tag x] using Value_nested_ind;
    cbn [resolve_value references substitute]; [| | |done].
  - destruct (strip_prefix VAULT_PREFIX s) as [name|]; [|done]. cbn [option_list traverse].
    unfold secret_or_empty. cbn. destruct (resolve_reference vault name); cbn; done.
  - rewrite (traverse_concat (resolve_reference vault) _ (fun kv => references kv.2)
      (fun kv => (kv.1, substitute (secret_or_empty (resolve_reference vault)) kv.2))).
    { by destruct (traverse _ _). }
    eapply Forall_impl; [exact IH|]. intros kv E. cbn beta. rewrite E. by destruct (traverse _ _).
  - rewrite (traverse_concat (resolve_reference vault) _ references
      (substitute (secret_or_empty (resolve_reference vault)))) by done.
    by destruct (traverse _ _).
Qed.

Lemma traverse_first_error {A B E} (f : A -> result B E) l a :
  a ∈ l -> is_ok (f a) = false -> is_ok (traverse f l) = false.
Proof.
  induction l as [|b l IH]; intros Hin Hf; [by apply elem_of_nil in Hin|]. cbn.
  apply elem_of_cons in Hin as [<-|Hin]; [by destruct (f a)|].
  destruct (f b); cbn; [|done]. specialize (IH Hin Hf). by destruct (traverse f l).
Qed.

(** Two readings of a value agree when they agree on its references. *)
Lemma substitute_ext f g value :
  Forall (fun n => f n = g n) (references value) -> substitute f value = substitute g value.
Proof.
  induction value as [tag s|tag dict IH|tag arr IH|tag x] using Value_nested_ind;
    cbn [references substitute]; [| | |done].
  - destruct (strip_prefix VAULT_PREFIX s); [|done]. by intros [-> _]%Forall_cons.
  - intros Hr. f_equal. induction IH as [|kv dict Hkv _ IHd]; [done|].
    cbn [map concat] in *. apply Forall_app in Hr as [H1 H2]. by rewrite (Hkv H1), (IHd H2).
  - intros Hr. f_equal. induction IH as [|x arr Hx _ IHa]; [done|].
    cbn [map concat] in *. apply Forall_app in Hr as [H1 H2]. by rewrite (Hx H1), (IHa H2).
Qed.

(** A value without references is left alone. *)
Lemma substitute_none f value : references value = [] -> substitute f value = value.
Proof.
  induction value as [tag s|tag dict IH|tag arr IH|tag x] using Value_nested_ind;
    cbn [references substitute]; [| | |done].
  - by destruct (strip_prefix VAULT_PREFIX s).
  - intros Hr. f_equal. induction IH as [|[k x] dict Hkv _ IHd]; [done|].
    cbn [map concat fst snd] in *. apply app_eq_nil in Hr as [H1 H2]. by rewrite (Hkv H1), (IHd H2).
  - intros Hr. f_equal. induction IH as [|x arr Hx _ IHa]; [done|].
    cbn [map concat] in *. apply app_eq_nil in Hr as [H1 H2]. by rewrite (Hx H1), (IHa H2).
Qed.

(** What the map of credentials promises for one reference. *)
Definition spec_reference (a : gmap bytes Credential) (name : bytes) : result bytes ConfigError :=
  let? decrypted := map_err VaultFailed (spec_get a name) in
  match from_utf8 (de_secret decrypted) with
  | Some secret => Ok secret
  | None => Err (NonUtf8Secret name)
  end.

Lemma spec_reference_fails a name :
  match a !! name with
  | Some c => mr_status (cr_record c) <> EActive \/ from_utf8 (cr_secret c) = None
  | None => True
  end -> is_ok (spec_reference a name) = false.
Proof.
  unfold spec_reference, spec_get. destruct (a !! name) as [c|]; [|done].
  intros [Hs|Hu]; destruct (mr_status (cr_record c)); cbn; try done. by rewrite Hu.
Qed.

(** * Properties *)

Section Configuration.
Context `{KeyedHash} `{Cbor} `{Argon2id} `{Aead} `{Ed25519}.
Context `{Json CredentialType} `{Json StoredHeader} `{Json StoredEntry} `{Json EntryMetadataRecord}.

(** The vault as the source of secrets of the provider. *)
Definition vault_source (v : Vault) (st : VaultStore) : option (bytes -> result DecryptedEntry VaultError) :=
  Some (fun name => vault_get v name true st).

(** C12. Loading a configuration through an open vault gives the configuration with
    every [vault:name] string replaced by the secret the abstract credential map holds
    for [name], in one pass (a secret that is itself such a string is not looked up
    again), keys, tags and other values kept; or, when a reference does not resolve,
    the error of the first one that fails. A reference to a missing, expired or revoked
    credential, or to one whose secret is not UTF-8, always fails the load. A value
    without references loads unchanged, whatever the vault, and with none. *)
Theorem configuration_resolves (v : Vault) (U : gset bytes) (st : VaultStore) (a : gmap bytes Credential) (value : Value)
    (HI : implements v U (vs_keyspace st) a) (HU : Forall (fun n => n ∈ U) (references value)) :
  resolve_value (vault_source v st) value =
    (let? _ := traverse (spec_reference a) (references value) in
     Ok (substitute (secret_or_empty (spec_reference a)) value)) /\
  (forall name, name ∈ references value ->
     match a !! name with
     | Some c => mr_status (cr_record c) <> EActive \/ from_utf8 (cr_secret c) = None
     | None => True
     end -> is_ok (resolve_value (vault_source v st) value) = false) /\
  (references value = [] -> forall vault, resolve_value vault value = Ok value).
Proof.
  assert (resolve_value (vault_source v st) value =
    (let? _ := traverse (spec_reference a) (references value) in
     Ok (substitute (secret_or_empty (spec_reference a)) value))) as Heq.
  { assert (Forall (fun n => resolve_reference (vault_source v st) n = spec_reference a n) (references value)) as Hag.
    { eapply Forall_impl; [exact HU|]. intros n Hn. unfold vault_source, resolve_reference, spec_reference.
      cbn beta. by rewrite (get_agrees _ _ _ _ _ HI Hn). }
    rewrite resolve_value_eq. rewrite (traverse_ext _ (spec_reference a)).
    - f_equal. rewrite (substitute_ext _ (secret_or_empty (spec_reference a))); [done|].
      eapply Forall_impl; [exact Hag|]. intros n E. unfold secret_or_empty. by rewrite E.
    - exact Hag. }
  split; [exact Heq|]. split.
  - intros name Hin Hbad%spec_reference_fails. rewrite Heq.
    pose proof (traverse_first_error _ _ _ Hin Hbad). by destruct (traverse _ _).
  - intros Hr vault. rewrite resolve_value_eq, Hr. cbn. by rewrite substitute_none.
Qed.
End Configuration.

Module ConfigSample.
Import VaultSample.
#[local] Existing Instances prefix_hash toy_cbor credential_countable header_eq_dec header_countable entry_eq_dec
  entry_countable record_eq_dec record_countable countable_json toy_aead toy_argon2 toy_ed25519.

Definition reference (name : bytes) : Value := VString 1 (VAULT_PREFIX ++ name).
Definition port : Value := VPlain 2 4403.
Definition radio_section : Value := VDict 0 [(byte_str "port", port); (byte_str "psk", VArray 3 [reference alice; VString 4 alice])].
Definition stale_section : Value := VArray 0 [radio_section; reference bob].

(** The first section loads with alice's secret in place; the second names the
    revoked credential and does not load. *)
Lemma configuration_resolves_witness :
  resolve_value (vault_source v st3) radio_section =
    Ok (VDict 0 [(byte_str "port", port); (byte_str "psk", VArray 3 [VString 1 [4; 4]; VString 4 alice])]) /\
  resolve_value (vault_source v st3) stale_section = Err (VaultFailed (EntryRevoked bob)) /\
  is_ok (resolve_value (vault_source v st3) stale_section) = false /\
  resolve_value None port = Ok port.
Proof.
  destruct (configuration_resolves v names st3 a3 radio_section impl3) as [Hr [_ _]].
  { replace (references radio_section) with [alice] by (vm_compute; reflexivity). apply Forall_singleton, alice_in. }
  destruct (configuration_resolves v names st3 a3 stale_section impl3) as [Hs [Hf _]].
  { replace (references stale_section) with [alice; bob] by (vm_compute; reflexivity).
    apply Forall_cons; split; [apply alice_in|apply Forall_singleton, bob_in]. }
  destruct (configuration_resolves v names st3 a3 port impl3 (List.Forall_nil _)) as [_ [_ Hn]].
  split; [rewrite Hr; vm_compute; reflexivity|]. split; [rewrite Hs; vm_compute; reflexivity|].
  split; [|exact (Hn eq_refl None)]. apply (Hf bob).
  - replace (references stale_section) with [alice; bob] by (vm_compute; reflexivity). apply list_elem_of_further, list_elem_of_here.
  - destruct (a3 !! bob) as [c|] eqn:E; [|exact I]. left. revert E. vm_compute. intros [= <-]. discriminate.
Defined.
End ConfigSample.
