(* ===== verification/VaultCli.v ===== *)
(** * The vault command (crates/akroasis/src/vault/mod.rs)

    The subcommands over the vault of Vault.v. The host holds the vault directory and
    its keyspace; the terminal is the class [VaultTerminal]; what the environment
    decides in a command is a [CmdEnv]. A command that opens the vault drops it, and
    so its lock, when it returns. *)

From S2P Require Import Prelude Decimal ChannelCodec TamperLog TamperSegments TamperWriter VaultCrypto Vault VaultSpec.

Local Open Scope Z_scope.

(** ** Commands *)

Inductive VaultCommand : Type :=
| CmdInit
| CmdAdd (name : bytes) (credential_type : CredentialType)
| CmdList (json : bool)
| CmdGet (name : bytes)
| CmdRotate (name : bytes)
| CmdRevoke (name : bytes)
| CmdIdentity (json : bool).

Definition parse_credential_type (s : bytes) : result CredentialType bytes :=
  if bool_decide (s = byte_str "api-key") then Ok ApiKey
  else if bool_decide (s = byte_str "psk") then Ok Psk
  else if bool_decide (s = byte_str "certificate") then Ok Certificate
  else if bool_decide (s = byte_str "radio-key") then Ok RadioKey
  else
    match strip_prefix (byte_str "custom:") s with
    | Some label => Ok (Custom label)
    | None => Err (byte_str "unknown credential type '" ++ s
                   ++ byte_str "': expected api-key, psk, certificate, radio-key, or custom:<label>")
    end.

(** [Display] of the credential type and of the status (kryphos/src/vault.rs). *)
Definition CredentialType_display (t : CredentialType) : bytes :=
  match t with
  | ApiKey => byte_str "api-key"
  | Psk => byte_str "psk"
  | Certificate => byte_str "certificate"
  | RadioKey => byte_str "radio-key"
  | Custom label => byte_str "custom(" ++ label ++ byte_str ")"
  end.
Definition EntryStatus_display (s : EntryStatus) : bytes :=
  match s with EActive => byte_str "active" | ERevoked => byte_str "revoked" | EExpired => byte_str "expired" end.

(** The vault path, from [AKROASIS_VAULT_PATH] and [HOME]. *)
Definition default_vault_path (vault_path home : option bytes) : bytes :=
  match vault_path with
  | Some p => p
  | None => default (byte_str ".") home ++ byte_str "/.local/share/akroasis/vault"
  end.

(** ** What the command reads and writes *)

Inductive VaultCliError (IoErr : Type) : Type :=
| CliVault (source : VaultError)
| PassphraseInput (source : IoErr)
| PassphraseMismatch
| PassphraseEmpty
| Cancelled
| CliJsonReport (source : IoErr)
| CliIo (source : IoErr).
Arguments CliVault {IoErr} _.
Arguments PassphraseInput {IoErr} _.
Arguments PassphraseMismatch {IoErr}.
Arguments PassphraseEmpty {IoErr}.
Arguments Cancelled {IoErr}.
Arguments CliJsonReport {IoErr} _.
Arguments CliIo {IoErr} _.

Record ListEntryReport : Type := mkEntryReport {
  le_name : bytes; le_credential_type : bytes; le_status : bytes; le_created_at : bytes;
  le_rotated_at : option bytes; le_revoked_at : option bytes; le_rotation_count : Z; le_tags : list bytes }.

Inductive VaultReport : Type :=
| ListReport (schema_version : Z) (command : string) (entry_count : nat) (entries : list ListEntryReport)
| IdentityReport (schema_version : Z) (command : string) (public_key : option bytes).

Inductive Printed : Type :=
| PrintLine (t : bytes)
| PrintBytes (b : bytes)
| PrintTable (header : list bytes) (rows : list (list bytes)).

(** The standard streams: [prompt_password] reads without echo, [print_prompt] writes
    to standard error and flushes it, [read_line] reads standard input. *)
Class VaultTerminal (O IoErr : Type) : Type := {
  prompt_password : string -> O -> result bytes IoErr * O;
  print_prompt : bytes -> O -> result unit IoErr * O;
  read_line : O -> result (list Z) IoErr * O;
  print_out : Printed -> O -> result unit IoErr * O;
  print_json : VaultReport -> O -> result unit IoErr * O }.

(** jiff's [to_string] and [strftime("%Y-%m-%d %H:%M")]. *)
Class TimestampFormat : Type := { timestamp_display : Z -> bytes; format_timestamp : Z -> bytes }.

(** [answer.trim().eq_ignore_ascii_case("y")]; an answer is a list of code points. *)
Definition answers_yes (answer : list Z) : bool :=
  bool_decide (map ascii_lower (trim answer) = byte_str "y").

Definition confirm_passphrase {IoErr} (first second : bytes) : result unit (VaultCliError IoErr) :=
  if negb (bool_decide (first = second)) then Err PassphraseMismatch
  else match first with [] => Err PassphraseEmpty | _ => Ok tt end.

(** ** The host *)

Record VaultHost : Type := mkVaultHost { vh_path : option Disk; vh_keyspace : gmap bytes bytes }.

Record CmdEnv : Type := mkCmdEnv {
  cmd_create : CreateEnv; cmd_op : OpEnv; cmd_fjall_ok : bool; cmd_guard : bytes -> bool }.

Section Cli.
Context `{KeyedHash} `{Cbor} `{Argon2id} `{Aead} `{Ed25519}.
Context `{Json CredentialType} `{Json StoredHeader} `{Json StoredEntry} `{Json EntryMetadataRecord}.
Context (plain_hash : bytes -> bytes).
Context {O IoErr : Type} `{!VaultTerminal O IoErr} `{!TimestampFormat} `{!KeyOrder bytes}.
(** The path, for the messages. *)
Context (path : bytes).

Definition vcli (A : Type) : Type := VaultHost * O -> result A (VaultCliError IoErr) * (VaultHost * O).
Definition vcli_bind {A B} (m : vcli A) (k : A -> vcli B) : vcli B := fun s =>
  match m s with
  | (Ok a, s) => k a s
  | (Err e, s) => (Err e, s)
  end.

(** An action on the terminal. *)
Definition on_tty {A} (wrap : IoErr -> VaultCliError IoErr) (m : O -> result A IoErr * O) : vcli A := fun '(h, o) =>
  let '(r, o) := m o in (map_err wrap r, (h, o)).

Definition read_passphrase (prompt : string) : vcli bytes := on_tty PassphraseInput (prompt_password prompt).
Definition read_secret (prompt : string) : vcli bytes := on_tty PassphraseInput (prompt_password prompt).
Definition print_line (p : Printed) : vcli unit := on_tty CliIo (print_out p).
Definition print_report (r : VaultReport) : vcli unit :=
  vcli_bind (on_tty CliJsonReport (print_json r)) (fun _ => print_line (PrintLine [])).

Definition read_passphrase_confirmed (prompt : string) : vcli bytes :=
  vcli_bind (read_passphrase prompt) (fun first =>
  vcli_bind (read_passphrase "Confirm passphrase: ") (fun second =>
  fun s => (let? _ := confirm_passphrase first second in Ok first, s))).

(** Opening the vault: it is dropped, and its lock released, when [body] returns. *)
Definition with_vault {A} (env : CmdEnv) (passphrase : bytes)
    (body : Vault -> VaultStore * O -> result A (VaultCliError IoErr) * (VaultStore * O)) : vcli A := fun '(h, o) =>
  match vault_open (vh_path h) passphrase (cmd_fjall_ok env) with
  | (Ok v, Some d) =>
      let '(r, (st, o)) := body v (mkStore d (vh_keyspace h), o) in
      (r, (mkVaultHost (Some (unlock (vs_dir st))) (vs_keyspace st), o))
  | (Ok v, None) => (Err (CliVault NotInitialized), (h, o))
  | (Err e, p) => (Err (CliVault e), (mkVaultHost p (vh_keyspace h), o))
  end.

(** Inside an open vault: a step on the terminal and a mutation of the store. *)
Definition opened (A : Type) : Type := VaultStore * O -> result A (VaultCliError IoErr) * (VaultStore * O).
Definition opened_bind {A B} (m : opened A) (k : A -> opened B) : opened B := fun s =>
  match m s with
  | (Ok a, s) => k a s
  | (Err e, s) => (Err e, s)
  end.
Definition opened_tty {A} (wrap : IoErr -> VaultCliError IoErr) (m : O -> result A IoErr * O) : opened A := fun '(st, o) =>
  let '(r, o) := m o in (map_err wrap r, (st, o)).
Definition opened_op {A} (m : VaultStore -> result A VaultError * VaultStore) : opened A := fun '(st, o) =>
  let '(r, st) := m st in (map_err CliVault r, (st, o)).
Definition opened_read {A} (m : VaultStore -> result A VaultError) : opened A := fun '(st, o) =>
  (map_err CliVault (m st), (st, o)).

(** ** The subcommands *)

Definition run_init (env : CmdEnv) : vcli unit :=
  vcli_bind (read_passphrase_confirmed "Vault passphrase: ") (fun passphrase =>
  vcli_bind (fun '(h, o) =>
    match vault_create (vh_path h) passphrase (cmd_create env) with
    | (Ok (_, ks), p) => (Ok tt, (mkVaultHost (unlock <$> p) ks, o))
    | (Err e, p) => (Err (CliVault e), (mkVaultHost p (vh_keyspace h), o))
    end) (fun _ =>
  print_line (PrintLine (byte_str "Vault created at " ++ path)))).

Definition run_add (env : CmdEnv) (name : bytes) (t : CredentialType) : vcli unit :=
  vcli_bind (read_passphrase "Vault passphrase: ") (fun passphrase =>
  with_vault env passphrase (fun v =>
    opened_bind (opened_tty PassphraseInput (prompt_password "Secret value: ")) (fun secret =>
    opened_bind (opened_op (vault_add plain_hash v name t secret (cmd_op env))) (fun _ =>
    opened_tty CliIo (print_out (PrintLine (byte_str "Added '" ++ name ++ byte_str "' ("
                                            ++ CredentialType_display t ++ byte_str ")"))))))).

Definition entry_report (e : EntryInfo) : ListEntryReport :=
  let m := ei_metadata e in
  mkEntryReport (ei_name e) (CredentialType_display (ei_credential_type e)) (EntryStatus_display (ei_status e))
    (timestamp_display (em_created_at m)) (timestamp_display <$> em_rotated_at m)
    (timestamp_display <$> em_revoked_at m) (em_rotation_count m) (em_tags m).

Definition list_report (entries : list EntryInfo) : VaultReport :=
  ListReport 1 "vault list" (length entries) (map entry_report entries).

Definition list_row (e : EntryInfo) : list bytes :=
  let m := ei_metadata e in
  [ei_name e; CredentialType_display (ei_credential_type e); EntryStatus_display (ei_status e);
   format_timestamp (em_created_at m);
   match em_rotated_at m with Some t => format_timestamp t | None => byte_str "-" end].

Definition unreadable_warning (n : nat) : bytes :=
  byte_str "warning: " ++ show_uint (Z.of_nat n) ++ byte_str " entr"
  ++ (if (n =? 1)%nat then byte_str "y" else byte_str "ies") ++ byte_str " could not be read and "
  ++ (if (n =? 1)%nat then byte_str "is" else byte_str "are") ++ byte_str " omitted below.".

(** What [list] prints without [--json]: the lines, in order. *)
Definition list_lines (listing : VaultListing) : list Printed :=
  let entries := vl_entries listing in
  match entries, vl_unreadable listing with
  | [], 0%nat => [PrintLine (byte_str "Vault is empty.")]
  | _, _ =>
      (if (0 <? vl_unreadable listing)%nat then [PrintLine (unreadable_warning (vl_unreadable listing))] else [])
      ++ match entries with
         | [] => []
         | _ => [PrintTable (map byte_str ["Name"; "Type"; "Status"; "Created"; "Rotated"]%string) (map list_row entries)]
         end
  end.

Fixpoint opened_print (l : list Printed) : opened unit :=
  match l with
  | [] => fun s => (Ok tt, s)
  | p :: rest => opened_bind (opened_tty CliIo (print_out p)) (fun _ => opened_print rest)
  end.

Definition run_list (env : CmdEnv) (json : bool) : vcli unit :=
  vcli_bind (read_passphrase "Vault passphrase: ") (fun passphrase =>
  with_vault env passphrase (fun v =>
    opened_bind (opened_read (vault_list v (cmd_guard env))) (fun listing =>
    if json then
      opened_bind (opened_tty CliJsonReport (print_json (list_report (vl_entries listing)))) (fun _ =>
      opened_tty CliIo (print_out (PrintLine [])))
    else opened_print (list_lines listing)))).

Definition run_get (env : CmdEnv) (name : bytes) : vcli unit :=
  vcli_bind (read_passphrase "Vault passphrase: ") (fun passphrase =>
  with_vault env passphrase (fun v =>
    opened_bind (opened_read (vault_get v name (oe_get_ok (cmd_op env)))) (fun entry =>
    opened_tty CliIo (print_out (PrintBytes (de_secret entry)))))).

Definition run_rotate (env : CmdEnv) (name : bytes) : vcli unit :=
  vcli_bind (read_passphrase "Vault passphrase: ") (fun passphrase =>
  with_vault env passphrase (fun v =>
    opened_bind (opened_tty PassphraseInput (prompt_password "New secret value: ")) (fun secret =>
    opened_bind (opened_op (vault_rotate plain_hash v name secret (cmd_op env))) (fun _ =>
    opened_tty CliIo (print_out (PrintLine (byte_str "Rotated '" ++ name ++ byte_str "'"))))))).

Definition run_revoke (env : CmdEnv) (name : bytes) : vcli unit :=
  vcli_bind (read_passphrase "Vault passphrase: ") (fun passphrase =>
  with_vault env passphrase (fun v =>
    opened_bind (opened_tty CliIo (print_prompt (byte_str "Revoke '" ++ name
                                                 ++ byte_str "'? This cannot be undone. [y/N] "))) (fun _ =>
    opened_bind (opened_tty PassphraseInput read_line) (fun answer =>
    if negb (answers_yes answer) then (fun s => (Err Cancelled, s))
    else
      opened_bind (opened_op (vault_revoke plain_hash v name (cmd_op env))) (fun _ =>
      opened_tty CliIo (print_out (PrintLine (byte_str "Revoked '" ++ name ++ byte_str "'")))))))).

(** Reading the header of a path where nothing exists is an I/O error. *)
Definition run_identity (json : bool) : vcli unit :=
  vcli_bind (fun '(h, o) =>
    (map_err CliVault (match vh_path h with Some d => installation_public_key d | None => Err VIo end), (h, o)))
  (fun key =>
    let public_key := hex <$> key in
    if json then print_report (IdentityReport 1 "vault identity" public_key)
    else
      print_line (PrintLine (match public_key with
        | Some key => key
        | None => byte_str "no installation identity recorded (vault predates installation identity)"
        end))).

Definition dispatch (env : CmdEnv) (cmd : VaultCommand) : vcli unit :=
  match cmd with
  | CmdInit => run_init env
  | CmdAdd name t => run_add env name t
  | CmdList json => run_list env json
  | CmdGet name => run_get env name
  | CmdRotate name => run_rotate env name
  | CmdRevoke name => run_revoke env name
  | CmdIdentity json => run_identity json
  end.
End Cli.

(** * Lemmas *)

(** ** What the audit log leaves alone *)

(** A file that is not one of the log's: its name does not begin with the log's stem. *)
Definition foreign (p name : FileName) : Prop := ~ exists r, name = log_stem p ++ r.

Record log_frame (p : FileName) (d d' : Disk) : Prop := mkFrame {
  lf_files : forall name, foreign p name -> d_files d' !! name = d_files d !! name;
  lf_locks : forall name, name <> p -> name ∈ d_locks d' <-> name ∈ d_locks d }.

#[export] Instance log_frame_refl p : Reflexive (log_frame p).
Proof. by split. Qed.
#[export] Instance log_frame_trans p : Transitive (log_frame p).
Proof.
  intros a b c [F1 L1] [F2 L2]. split.
  - intros name Hn. by rewrite F2, F1.
  - intros name Hn. by rewrite L2, L1.
Qed.

Lemma frame_set_files p f d :
  (forall fs name, foreign p name -> f fs !! name = fs !! name) -> log_frame p d (set_files f d).
Proof. intros Hf. split; [|done]. intros name Hn. by apply Hf. Qed.

Lemma foreign_ne p name r : foreign p name -> name <> log_stem p ++ r.
Proof. intros Hn E. apply Hn. eauto. Qed.

(** The names the writer uses begin with the stem. *)
Lemma stem_prefix : exists r, TAMPER_LOG_FILE = log_stem TAMPER_LOG_FILE ++ r.
Proof. by exists (byte_str ".log"). Qed.

Section Frame.
Context `{KeyedHash} `{Cbor}.
Local Notation p := TAMPER_LOG_FILE.

Lemma own_ne name r : foreign p name -> name <> p ++ r.
Proof. destruct stem_prefix as [q E]. rewrite E at 2. rewrite <- app_assoc. apply foreign_ne. Qed.

Lemma frame_open_create r d : log_frame p d (open_create (p ++ r) d).
Proof.
  apply frame_set_files. intros fs name Hn. destruct (fs !! (p ++ r)) eqn:E; [done|].
  rewrite lookup_insert_ne; [done|]. apply not_eq_sym. by apply own_ne.
Qed.

Lemma frame_open_log d : log_frame p d (open_create p d).
Proof. pose proof (frame_open_create [] d) as Hf. by rewrite app_nil_r in Hf. Qed.

Lemma frame_write_seal d key n start prov : log_frame p d (write_seal d p key n start prov).1.
Proof.
  pose proof (write_seal_files d p key n start prov) as Hw. destruct (write_seal d p key n start prov) as [d' r].
  destruct Hw as (Hf & Hl & _). cbn [fst]. split; [|intros name _; by rewrite Hl].
  intros name Hn. apply Hf. unfold sidecar, seal_path. intros [E|[E|E]].
  - by apply (own_ne name SEAL_SUFFIX Hn).
  - rewrite <- app_assoc in E. exact (own_ne name _ Hn E).
  - exact (own_ne name _ Hn E).
Qed.

Lemma frame_refresh d l : path l = p -> log_frame p d (refresh_seal d l).1.
Proof. intros E. unfold refresh_seal. rewrite E. apply frame_write_seal. Qed.

Lemma frame_rename from to d d' :
  (forall name, foreign p name -> name <> from /\ name <> to) -> rename_file d from to = Ok d' -> log_frame p d d'.
Proof.
  intros Hne. unfold rename_file. destruct (d_files d !! from) as [bs|]; [|done]. intros [= <-].
  apply frame_set_files. intros fs name Hn. destruct (Hne name Hn).
  by rewrite lookup_insert_ne, lookup_delete_ne by done.
Qed.

Lemma frame_rotate d l : path l = p -> log_frame p d (rotate d l).1.1.
Proof.
  intros E. unfold rotate. rewrite E.
  assert (forall name n, foreign p name -> name <> rotation_path p n) as Hrot.
  { intros name n Hn. unfold rotation_path. by apply foreign_ne. }
  assert (forall name n, foreign p name -> name <> seal_path (rotation_path p n)) as Hrs.
  { intros name n Hn. unfold seal_path, rotation_path. rewrite <- app_assoc. by apply foreign_ne. }
  assert (forall name, foreign p name -> name <> p /\ name <> seal_path p) as Hown.
  { intros name Hn. split; [|by apply own_ne]. pose proof (own_ne name [] Hn) as Hx. by rewrite app_nil_r in Hx. }
  destruct (rename_file d p _) as [d1|e] eqn:E1; [|done].
  assert (log_frame p d d1) as F1 by (eapply frame_rename; [|exact E1]; naive_solver).
  unfold rename_seal. destruct (d_files d1 !! seal_path p) as [s|] eqn:Es.
  - destruct (rename_file d1 (seal_path p) _) as [d2|e] eqn:E2; cbn [fst]; [|done].
    assert (log_frame p d1 d2) as F2 by (eapply frame_rename; [|exact E2]; naive_solver).
    pose proof (frame_refresh (open_create p d2) (rotated_handle l) E) as F3.
    destruct (refresh_seal _ _) as [d3 r3]. cbn [fst] in *.
    do 2 (etransitivity; [eassumption|]). etransitivity; [apply frame_open_log|done].
  - pose proof (frame_refresh (open_create p d1) (rotated_handle l) E) as F3.
    destruct (refresh_seal _ _) as [d3 r3]. cbn [fst] in *.
    etransitivity; [eassumption|]. etransitivity; [apply frame_open_log|done].
Qed.

Lemma frame_append d l ms k : path l = p -> log_frame p d (TamperWriter.append d l ms k).1.1.
Proof.
  intros E. unfold TamperWriter.append. destruct (encode_entry _ _ _) as [[wire h]|e]; [|done].
  assert (log_frame p d (append_file (path l) wire d)) as F1.
  { apply frame_set_files. intros fs name Hn. rewrite lookup_insert_ne; [done|]. rewrite E.
    pose proof (own_ne name [] Hn) as Hx. rewrite app_nil_r in Hx. congruence. }
  match goal with |- context [refresh_seal ?d1 ?l1] =>
    pose proof (frame_refresh d1 l1 E) as F2; destruct (refresh_seal d1 l1) as [d2 [u|e2]]; cbn [fst] in F2 end;
    [|by etransitivity].
  destruct (_ <? _); [|by etransitivity].
  match goal with |- context [rotate d2 ?l1] =>
    pose proof (frame_rotate d2 l1 E) as F3; destruct (rotate d2 l1) as [[d3 l3] [u3|e3]]; cbn [fst] in F3 end;
    by do 2 (etransitivity; [eassumption|]).
Qed.

Lemma frame_release d : log_frame p d (release d p).
Proof. split; [done|]. intros name Hn. cbn. set_solver. Qed.

Lemma frame_acquire d : log_frame p d (acquire d p).1.
Proof.
  unfold acquire. cbv zeta. pose proof (frame_open_create LOCK_SUFFIX d) as F. unfold lock_path.
  destruct (bool_decide _); cbn [fst]; [done|]. etransitivity; [exact F|].
  split; [done|]. intros name Hn. cbn. set_solver.
Qed.

Lemma frame_open d key max sg :
  let '(d', r) := open_inner d p key max sg in
  log_frame p d d' /\ forall l, r = Ok l -> path l = p.
Proof.
  unfold open_inner. pose proof (frame_acquire d) as F1. destruct (acquire d p) as [d1 [u|e]]; cbn [fst] in F1; [|done].
  destruct (check_resumable d1 p key) as [u2|e].
  2: { split; [|done]. etransitivity; [exact F1|apply frame_release]. }
  destruct (recover_state _ _ _) as [[prev sequence] written].
  match goal with |- context [refresh_seal ?d2 ?l] =>
    pose proof (frame_refresh d2 l eq_refl) as F2; destruct (refresh_seal d2 l) as [d3 [u3|e3]]; cbn [fst] in F2 end.
  - split; [|by intros l [= <-]]. etransitivity; [exact F1|]. etransitivity; [apply frame_open_log|exact F2].
  - split; [|done]. etransitivity; [exact F1|]. etransitivity; [apply frame_open_log|].
    etransitivity; [exact F2|apply frame_release].
Qed.
End Frame.

Section Refinement.
Context `{KeyedHash} `{Cbor} `{Argon2id} `{Aead} `{Ed25519}.
Context `{Json CredentialType} `{Json StoredHeader} `{Json StoredEntry} `{Json EntryMetadataRecord}.
Context (plain_hash : bytes -> bytes).
Context {O IoErr : Type} `{!VaultTerminal O IoErr} `{!TimestampFormat} `{!KeyOrder bytes}.

Lemma frame_audit v name label ms d :
  log_frame TAMPER_LOG_FILE d (append_vault_audit plain_hash v name label ms d).2.
Proof.
  unfold append_vault_audit. destruct (installation_identity v d) as [id|e]; [|done].
  assert (open_audit_log plain_hash v id d =
    open_inner d TAMPER_LOG_FILE (vault_chain_key v) DEFAULT_MAX_FILE_BYTES (identity_signer plain_hash <$> id)) as ->
    by (by destruct id).
  pose proof (frame_open d (vault_chain_key v) DEFAULT_MAX_FILE_BYTES (identity_signer plain_hash <$> id)) as F1.
  destruct (open_inner _ _ _ _ _) as [d1 [l|e]]; destruct F1 as [F1 Hl]; [|done].
  pose proof (frame_append d1 l ms (VaultMutation (audit_ref v name) label) (Hl l eq_refl)) as F2.
  destruct (TamperWriter.append d1 l ms _) as [[d2 l2] q]. cbn [fst snd] in *.
  etransitivity; [exact F1|]. etransitivity; [exact F2|apply frame_release].
Qed.

Lemma frame_exec v op env st : log_frame TAMPER_LOG_FILE (vs_dir st) (vs_dir (vault_exec plain_hash v op env st).2).
Proof.
  destruct (exec_cases plain_hash v op env st) as [(e & _ & ->)|[f ->]]; [done|]. unfold commit_audited.
  pose proof (frame_audit v (op_name op) (op_label op) (oe_log_ms env) (vs_dir st)) as F.
  destruct (append_vault_audit _ _ _ _ _ _) as [[u|e] d]; cbn [snd] in F; [|done].
  by destruct (oe_write_ok env), (oe_persist_ok env).
Qed.

(** ** The vault a host holds *)

(** The host's vault opens with the passphrase, is not locked, and represents [a]. *)
Definition holds (pw : bytes) (U : gset bytes) (v : Vault) (a : gmap bytes Credential) (h : VaultHost) : Prop :=
  exists d, vh_path h = Some d /\ LOCK_FILE ∉ d_locks d /\
    (let? header := read_header d in open_header header pw) = Ok v /\ implements v U (vh_keyspace h) a.

Lemma vault_files_foreign : foreign TAMPER_LOG_FILE HEADER_FILE /\ LOCK_FILE <> TAMPER_LOG_FILE.
Proof. split; [|done]. intros [r E]. discriminate E. Qed.

(** Opening it locks it and changes nothing else; closing it after steps of the log
    leaves a vault that opens again. *)
Lemma with_vault_held {A} pw U v a h o env (body : Vault -> opened (O := O) (IoErr := IoErr) A) :
  holds pw U v a h -> cmd_fjall_ok env = true ->
  exists d, implements v U (vh_keyspace h) a /\
    with_vault env pw body (h, o) =
      (let '(r, (st, o)) := body v (mkStore d (vh_keyspace h), o) in
       (r, (mkVaultHost (Some (unlock (vs_dir st))) (vs_keyspace st), o))) /\
    forall st a', log_frame TAMPER_LOG_FILE d (vs_dir st) -> implements v U (vs_keyspace st) a' ->
      holds pw U v a' (mkVaultHost (Some (unlock (vs_dir st))) (vs_keyspace st)).
Proof.
  intros (d & Hp & Hlock & Hopen & Himp) Hfj. unfold with_vault, vault_open, acquire_lock. rewrite Hp.
  unfold read_header in *. destruct (d_files d !! HEADER_FILE) as [json|] eqn:Hh; [|done].
  rewrite bool_decide_false by done.
  cbn [d_files d_locks d_faults create_owner_only_file set_files]. rewrite lookup_insert_ne, Hh by done.
  rewrite Hopen, Hfj. eexists. split; [done|]. split; [reflexivity|].
  intros st a' [Ff _] Hi. destruct vault_files_foreign as [Hfor _]. eexists. split; [reflexivity|]. split_and!; [| |done].
  - cbn. set_solver.
  - unfold read_header. cbn [unlock d_files]. rewrite (Ff _ Hfor). cbn [d_files].
    by rewrite lookup_insert_ne, Hh by done.
Qed.

(** A mutation followed by a line of output. *)
Definition opened_exec (v : Vault) (op : VaultOp) (env : OpEnv) (p : Printed) : opened (O := O) (IoErr := IoErr) unit :=
  opened_bind (opened_op (vault_exec plain_hash v op env)) (fun _ => opened_tty CliIo (print_out p)).

Lemma opened_exec_step v op env p st o r st' o' :
  opened_exec v op env p (st, o) = (r, (st', o')) ->
  st' = (vault_exec plain_hash v op env st).2 /\ (r = Ok tt -> (vault_exec plain_hash v op env st).1 = Ok tt).
Proof.
  unfold opened_exec, opened_bind, opened_op, opened_tty. destruct (vault_exec _ _ _ _ _) as [[[]|e] st1]; cbn.
  - destruct (print_out p o) as [q o1]. by intros [= _ <- _].
  - by intros [= <- <- _].
Qed.

(** The operation a command asks for, from what is typed after the passphrase. *)
Definition typed_op (cmd : VaultCommand) (o : O) : option VaultOp :=
  match cmd with
  | CmdAdd name t =>
      match prompt_password "Secret value: " o with (Ok secret, _) => Some (OpAdd name t secret) | _ => None end
  | CmdRotate name =>
      match prompt_password "New secret value: " o with (Ok secret, _) => Some (OpRotate name secret) | _ => None end
  | CmdRevoke name =>
      match print_prompt (byte_str "Revoke '" ++ name ++ byte_str "'? This cannot be undone. [y/N] ") o with
      | (Ok _, o) =>
          match read_line o with
          | (Ok answer, _) => if answers_yes answer then Some (OpRevoke name) else None
          | _ => None
          end
      | _ => None
      end
  | _ => None
  end.

Definition cmd_names (cmd : VaultCommand) : list bytes :=
  match cmd with CmdAdd n _ | CmdGet n | CmdRotate n | CmdRevoke n => [n] | _ => [] end.

(** What a command leaves: the abstract operation done, or nothing changed. *)
Definition refined (v : Vault) (a a' : gmap bytes Credential) (now : Z) (op : option VaultOp)
    (r : result unit (VaultCliError IoErr)) : Prop :=
  match op with
  | Some op => (a' = a /\ r <> Ok tt) \/ spec_exec (v_salt v) op now a = Ok a'
  | None => a' = a
  end.

Lemma exec_refined pw U v a h d env op :
  writes_total -> nonces_ok (cmd_op env) -> implements v U (vh_keyspace h) a -> op_name op ∈ U ->
  (forall st a', log_frame TAMPER_LOG_FILE d (vs_dir st) -> implements v U (vs_keyspace st) a' ->
     holds pw U v a' (mkVaultHost (Some (unlock (vs_dir st))) (vs_keyspace st))) ->
  forall exec p o r st' o',
  opened_bind (opened_op exec) (fun _ => opened_tty CliIo (print_out p)) (mkStore d (vh_keyspace h), o) = (r, (st', o')) ->
  exec = vault_exec plain_hash v op (cmd_op env) ->
  exists a', holds pw U v a' (mkVaultHost (Some (unlock (vs_dir st'))) (vs_keyspace st')) /\
    refined v a a' (oe_now (cmd_op env)) (Some op) r.
Proof.
  intros HT Hn Hi HU Hheld exec p o r st' o' Hx ->. apply opened_exec_step in Hx as [-> Hok].
  set (st := mkStore d (vh_keyspace h)) in *.
  pose proof (frame_exec v op (cmd_op env) st) as Hf.
  destruct (exec_outcome plain_hash v U st a op (cmd_op env) _ _ HT Hn Hi HU (surjective_pairing _))
    as [(a' & Hs & Hi' & _)|[Hk Hr]].
  - exists a'. split; [by apply Hheld|]. by right.
  - exists a. split; [apply Hheld; [done|by rewrite Hk]|]. left. split; [done|]. intros E. by apply Hr, Hok.
Qed.
(** Reading leaves the store alone. *)
Lemma opened_print_store l : forall st o, exists r o', opened_print (O := O) (IoErr := IoErr) l (st, o) = (r, (st, o')).
Proof.
  induction l as [|p l IH]; intros st o; cbn; [eauto|]. unfold opened_bind, opened_tty.
  destruct (print_out p o) as [[u|e] o1]; cbn; [apply IH|eauto].
Qed.

Lemma list_store v env json st o :
  exists r o',
    opened_bind (O := O) (IoErr := IoErr) (opened_read (vault_list v (cmd_guard env))) (fun listing =>
      if json : bool then
        opened_bind (opened_tty CliJsonReport (print_json (list_report (vl_entries listing)))) (fun _ =>
        opened_tty CliIo (print_out (PrintLine [])))
      else opened_print (list_lines listing)) (st, o) = (r, (st, o')).
Proof.
  unfold opened_bind at 1, opened_read. destruct (vault_list v _ st) as [listing|e]; cbn [map_err]; [|eauto].
  destruct json; [|apply opened_print_store]. unfold opened_bind, opened_tty.
  destruct (print_json _ o) as [[u|e] o1]; cbn; [|eauto]. destruct (print_out _ o1) as [q o2]. eauto.
Qed.

Lemma get_step v name env st o r st' o' :
  opened_bind (O := O) (IoErr := IoErr) (opened_read (vault_get v name (oe_get_ok (cmd_op env)))) (fun entry =>
    opened_tty CliIo (print_out (PrintBytes (de_secret entry)))) (st, o) = (r, (st', o')) ->
  st' = st /\ (r = Ok tt -> exists entry, vault_get v name true st = Ok entry /\
    o' = (print_out (PrintBytes (de_secret entry)) o).2).
Proof.
  unfold opened_bind, opened_read, opened_tty. destruct (oe_get_ok (cmd_op env)).
  - destruct (vault_get v name true st) as [entry|e]; cbn [map_err].
    + destruct (print_out _ o) as [q o1] eqn:Ep. intros [= <- <- <-]. split; [done|]. intros _. exists entry.
      split; [done|]. by rewrite Ep.
    + by intros [= <- <- _].
  - by intros [= <- <- _].
Qed.

Lemma read_passphrase_typed {B} pw h o o1 (k : bytes -> vcli (O := O) (IoErr := IoErr) B) :
  prompt_password "Vault passphrase: " o = (Ok pw, o1) ->
  vcli_bind (read_passphrase "Vault passphrase: ") k (h, o) = k pw (h, o1).
Proof. intros E. unfold vcli_bind, read_passphrase, on_tty. by rewrite E. Qed.

(** A step that left the store alone, and one that executed an operation. *)
Ltac unchanged Hx Hsame a := injection Hx as <- <- <-; exists a; split; [exact Hsame|].
Ltac executed Hx H :=
  let E := fresh "E" in
  match type of Hx with
  | context [opened_bind ?m ?k ?s] => destruct (opened_bind m k s) as [? [? ?]] eqn:E
  end;
  injection Hx as <- <- <-; destruct (H _ _ _ _ _ _ E eq_refl) as (? & ? & ?);
  eexists; split; [eassumption|split; [eassumption|by intros]].

(** * Properties *)

(** C13. The command implements the abstract vault: on a host whose vault opens with the
    passphrase typed and represents an abstract vault, any subcommand but [init] leaves
    a host that holds, for the same passphrase and unlocked, the abstract vault after
    the operation that was typed (for [revoke], only after the answer was yes), or the
    same one if it failed or reads only; and a [get] that succeeds wrote exactly the
    bytes of the secret. *)
Theorem vault_cli_refines path pw U v a h o o1 env cmd r h' o' :
  writes_total -> nonces_ok (cmd_op env) -> cmd_fjall_ok env = true ->
  holds pw U v a h -> prompt_password "Vault passphrase: " o = (Ok pw, o1) ->
  cmd <> CmdInit -> Forall (fun n => n ∈ U) (cmd_names cmd) ->
  dispatch plain_hash path env cmd (h, o) = (r, (h', o')) ->
  exists a', holds pw U v a' h' /\ refined v a a' (oe_now (cmd_op env)) (typed_op cmd o1) r /\
    forall name, cmd = CmdGet name -> r = Ok tt -> exists entry, spec_get a name = Ok entry /\
      o' = (print_out (PrintBytes (de_secret entry)) o1).2.
Proof.
  intros HT Hno Hfj Hh Hp Hinit HU Hx. destruct cmd as [|name t|json|name|name|name|json]; [done| | | | | |];
    cbn [dispatch cmd_names] in *.
  6: { unfold run_identity, vcli_bind in Hx. exists a. split; [|done].
       destruct (map_err _ _) as [key|e]; [|by injection Hx as _ <- _].
       unfold print_report, vcli_bind, print_line, on_tty in Hx. destruct json.
       - destruct (print_json _ o) as [[u|e] o2]; cbn in Hx; [|by injection Hx as _ <- _].
         destruct (print_out _ o2). by injection Hx as _ <- _.
       - destruct (print_out _ o). by injection Hx as _ <- _. }
  all: unfold run_add, run_list, run_get, run_rotate, run_revoke in Hx; rewrite (read_passphrase_typed pw _ _ o1) in Hx by done.
  all: match type of Hx with with_vault _ _ ?body _ = _ =>
         destruct (with_vault_held pw U v a h o1 env body Hh Hfj) as (d & Hi & Hw & Hheld) end.
  all: rewrite Hw in Hx; clear Hw; inversion_clear HU as [|? ? HUn _] || clear HU.
  all: cbn beta in Hx; pose proof (Hheld (mkStore d (vh_keyspace h)) a (log_frame_refl _ _) Hi) as Hsame.
  - unfold opened_bind at 1, opened_tty at 1 in Hx. cbn [typed_op].
    destruct (prompt_password "Secret value: " o1) as [[secret|e] o2]; cbn [map_err] in Hx; [|by unchanged Hx Hsame a].
    executed Hx (exec_refined pw U v a h d env (OpAdd name t secret) HT Hno Hi HUn Hheld).
  - destruct (list_store v env json (mkStore d (vh_keyspace h)) o1) as (q & o2 & E). rewrite E in Hx. by unchanged Hx Hsame a.
  - destruct (opened_bind _ _ _) as [q [st' o2]] eqn:Eq. apply get_step in Eq as [-> Hget]. injection Hx as <- <- <-.
    exists a. split; [exact Hsame|]. split; [done|]. intros n [= <-] Hok.
    destruct (Hget Hok) as (entry & Hv & ->). exists entry. split; [|done].
    by rewrite <- (get_agrees v U (mkStore d (vh_keyspace h)) a name).
  - unfold opened_bind at 1, opened_tty at 1 in Hx. cbn [typed_op].
    destruct (prompt_password "New secret value: " o1) as [[secret|e] o2]; cbn [map_err] in Hx; [|by unchanged Hx Hsame a].
    executed Hx (exec_refined pw U v a h d env (OpRotate name secret) HT Hno Hi HUn Hheld).
  - unfold opened_bind at 1, opened_tty at 1 in Hx. cbn [typed_op].
    destruct (print_prompt _ o1) as [[u|e] o2]; cbn [map_err] in Hx; [|by unchanged Hx Hsame a].
    unfold opened_bind at 1, opened_tty at 1 in Hx.
    destruct (read_line o2) as [[answer|e] o3]; cbn [map_err] in Hx; [|by unchanged Hx Hsame a].
    destruct (answers_yes answer); cbn [negb] in Hx; [|by unchanged Hx Hsame a].
    executed Hx (exec_refined pw U v a h d env (OpRevoke name) HT Hno Hi HUn Hheld).
Qed.
Lemma open_header_held d pw v :
  (vault_open (Some d) pw true).1 = Ok v -> (let? header := read_header d in open_header header pw) = Ok v.
Proof.
  unfold vault_open, acquire_lock, read_header. destruct (d_files d !! HEADER_FILE) as [json|] eqn:Hh; [|done].
  destruct (bool_decide _); [done|]. cbn [d_files d_locks d_faults create_owner_only_file set_files].
  rewrite lookup_insert_ne, Hh by done. by destruct (let? header := serialized (from_json json) in open_header header pw) as [v'|e].
Qed.

(** Creating a vault: [init] succeeds only when the same non-empty passphrase was
    typed twice and nothing was at the path, and then the host holds an empty vault
    that opens with it; when it fails, a vault that was there is untouched. *)
Theorem vault_init_establishes path env h o r h' o' :
  length (ce_nonce_check (cmd_create env)) = NONCE_LEN -> length (ce_nonce_seal (cmd_create env)) = NONCE_LEN ->
  length (ce_signing_key (cmd_create env)) = SIGNING_KEY_LEN ->
  dispatch plain_hash path env CmdInit (h, o) = (r, (h', o')) ->
  match r with
  | Ok _ =>
      exists pw o1 o2 v, prompt_password "Vault passphrase: " o = (Ok pw, o1) /\
        prompt_password "Confirm passphrase: " o1 = (Ok pw, o2) /\ pw <> [] /\ vh_path h = None /\
        forall U, (forall n1 n2, n1 ∈ U -> n2 ∈ U -> lookup_key v n1 = lookup_key v n2 -> n1 = n2) ->
          holds pw U v ∅ h'
  | Err _ => is_Some (vh_path h) -> h' = h
  end.
Proof.
  intros Hn1 Hn2 Hsk. cbn [dispatch]. unfold run_init, read_passphrase_confirmed, read_passphrase, vcli_bind, on_tty.
  destruct (prompt_password "Vault passphrase: " o) as [[pw|e] o1] eqn:E1; cbn [map_err];
    [|by intros [= <- <- <-]].
  destruct (prompt_password "Confirm passphrase: " o1) as [[pw2|e] o2] eqn:E2; cbn [map_err];
    [|by intros [= <- <- <-]].
  unfold confirm_passphrase. case_bool_decide as Heq; cbn [negb result_bind]; [|by intros [= <- <- <-]].
  subst pw2. destruct pw as [|b pw]; cbn [result_bind]; [by intros [= <- <- <-]|].
  destruct (vault_create (vh_path h) (b :: pw) (cmd_create env)) as [[[v ks]|e] p] eqn:Ec.
  - pose proof (create_Ok _ _ _ _ _ _ Ec) as (Hp & -> & _ & header & json & _ & _ & _ & ->).
    rewrite Hp in Ec. pose proof (open_created _ _ _ _ _ Hn1 Hn2 Hsk Ec) as (Ho & _).
    unfold print_line, on_tty. destruct (print_out _ o2) as [[[]|e] o3]; cbn [map_err]; intros [= <- <- <-].
    + exists (b :: pw), o1, o2, v. split_and!; try done. intros U HU. eexists. split; [reflexivity|].
      split_and!; [cbn; set_solver|by apply open_header_held|by split].
    + rewrite Hp. by intros [].
  - intros [= <- <- <-] [d Hd]. rewrite Hd in Ec. cbn in Ec. injection Ec as _ <-.
    destruct h as [hp hk]. cbn in *. by rewrite Hd.
Qed.
End Refinement.

(** The JSON listing does not count the entries that could not be read: one that lists
    nothing but damaged records is that of an empty vault. *)
Lemma json_listing_hides_unreadable `{TimestampFormat} n :
  list_report (vl_entries (mkListing [] (S n))) = list_report (vl_entries (mkListing [] 0)) /\
  list_lines (mkListing [] (S n)) <> list_lines (mkListing [] 0).
Proof.
  split; [done|]. intros E.
  apply (f_equal (fun l => match l with PrintLine (c :: _) :: _ => c | _ => 0 end)) in E. discriminate E.
Qed.

(** A custom type is not accepted in the form in which it is shown. *)
Lemma custom_display_rejected label : is_ok (parse_credential_type (CredentialType_display (Custom label))) = false.
Proof. reflexivity. Qed.

(** * A session at the terminal *)

Module CliSample.
Import VaultSample.
#[local] Existing Instances prefix_hash toy_cbor credential_countable header_eq_dec header_countable entry_eq_dec
  entry_countable record_eq_dec record_countable countable_json toy_aead toy_argon2 toy_ed25519.

(** The terminal answers prompts from a script and keeps what is printed. *)
Record Tty : Type := mkTty { script : list bytes; shown : list Printed }.

Definition next_answer (t : Tty) : result bytes unit * Tty :=
  match script t with
  | s :: rest => (Ok s, mkTty rest (shown t))
  | [] => (Err tt, t)
  end.

#[local] Instance tty_terminal : VaultTerminal Tty unit := {
  prompt_password _ := next_answer;
  print_prompt _ t := (Ok tt, t);
  read_line := next_answer;
  print_out p t := (Ok tt, mkTty (script t) (shown t ++ [p]));
  print_json _ t := (Ok tt, t) }.

#[local] Instance tty_time : TimestampFormat := { timestamp_display _ := []; format_timestamp _ := [] }.
#[local] Instance tty_order : KeyOrder bytes := { key_iter _ m := map_to_list m; key_iter_perm _ _ := reflexivity _ }.

Definition cmd_env : CmdEnv := mkCmdEnv cenv env true (fun _ => true).
Definition run (cmd : VaultCommand) (h : VaultHost) (script : list bytes) :=
  dispatch plain [] cmd_env cmd (h, mkTty script []).

Definition no_vault : VaultHost := mkVaultHost None ∅.
Definition after_init : VaultHost := (run CmdInit no_vault [phrase; phrase]).2.1.
Definition after_add : VaultHost := (run (CmdAdd alice Psk) after_init [phrase; [4; 255]]).2.1.

Lemma result_eta {A B C} (x : A * (B * C)) a : x.1 = a -> x = (a, (x.2.1, x.2.2)).
Proof. destruct x as [? [? ?]]. by intros <-. Qed.

Lemma lookup_keys_differ v' : lookup_key v' alice <> lookup_key v' bob.
Proof. unfold lookup_key, blake3_keyed, prefix_hash. cbn. discriminate. Qed.

Lemma vault_init_establishes_witness : exists v, holds phrase names v ∅ after_init.
Proof.
  assert ((run CmdInit no_vault [phrase; phrase]).1 = Ok tt) as Hok by (vm_compute; reflexivity).
  pose proof (vault_init_establishes plain [] cmd_env no_vault (mkTty [phrase; phrase] []) _ _ _ eq_refl eq_refl eq_refl
    (result_eta _ _ Hok)) as (pw & o1 & o2 & v' & Hp & _ & _ & _ & Hh).
  injection Hp as <- _. exists v'. apply Hh.
  intros n1 n2 H1 H2 E. unfold names in H1, H2. rewrite !elem_of_union, !elem_of_singleton in H1, H2.
  destruct (decide (n1 = n2)) as [|Hne]; [done|exfalso].
  pose proof (lookup_keys_differ v') as Hx.
  destruct H1 as [-> | ->], H2 as [-> | ->]; [done|exact (Hx E)|exact (Hx (eq_sym E))|done].
Defined.

(** A [get] at a host that holds one credential. *)
Definition stored : VaultHost := mkVaultHost (Some (unlock (vs_dir st1))) (vs_keyspace st1).

Lemma stored_holds : holds phrase names v a1 stored.
Proof.
  eexists. split; [reflexivity|]. split_and!; [vm_compute; set_solver|vm_compute; reflexivity|apply impl1].
Qed.

Lemma vault_cli_refines_witness :
  (run (CmdGet alice) stored [phrase]).2.2 = mkTty [] [PrintBytes [4; 4]] /\
  exists a', holds phrase names v a' (run (CmdGet alice) stored [phrase]).2.1 /\ a' = a1.
Proof.
  split; [vm_compute; reflexivity|].
  assert ((run (CmdGet alice) stored [phrase]).1 = Ok tt) as Hok by (vm_compute; reflexivity).
  assert (prompt_password "Vault passphrase: " (mkTty [phrase] []) = (Ok phrase, mkTty [] [])) as Hp by reflexivity.
  assert (Forall (fun n => n ∈ names) (cmd_names (CmdGet alice))) as Hn by (constructor; [exact alice_in|constructor]).
  destruct (vault_cli_refines plain [] phrase names v a1 stored (mkTty [phrase] []) (mkTty [] []) cmd_env (CmdGet alice)
    _ _ _ total env_ok eq_refl stored_holds Hp ltac:(discriminate) Hn (result_eta _ _ Hok)) as (a' & Hh & Hr & _).
  exists a'. split; [exact Hh|exact Hr].
Defined.
End CliSample.
