(* ===== verification/Provenance.v ===== *)
(** * The provenance of the audit log
      (crates/tekmerion/src/tamper_log_seal.rs, crates/kryphos/src/storage.rs, key.rs)

    The tip of a log is signed by the installation that writes it. What a successful
    append leaves is checked here against the verifier of the same installation and
    of any other, through the vault that holds the identity. *)

From S2P Require Import Prelude Decimal Text MeshCrypto TamperLog TamperSegments TamperWriter VaultCrypto Vault VaultSpec VaultConfig VaultCli.

Local Open Scope Z_scope.

(** * The signed tip of a log *)

Section Tip.
Context `{KeyedHash} `{Cbor}.

Definition tip_of (sg : option TipSigner) (terminal : hash32) : option TipProvenance :=
  match sg with
  | None => None
  | Some s => Some {| tp_key_id := signer_key_id s; tp_terminal_hash := terminal;
                      tp_signature := sign_tip s (tip_payload terminal) |}
  end.

(** The live seal carries the signature of [sg] over the end of the chain. *)
Definition SignedSeal (d : Disk) (p : FileName) (key : bytes) (done : list (list bytes)) (live : list bytes)
    (sg : option TipSigner) : Prop :=
  d_files d !! seal_path p = Some (seal_payload key (Z.of_nat (length live)) (segments_end key done)
    (tip_of sg (chain_end key (segments_end key done) live))).

Lemma refresh_signs d l p key done live d' :
  Handle l p key done live -> refresh_seal d l = (d', Ok tt) -> SignedSeal d' p key done live (signer l).
Proof.
  intros [Hp Hk Hs Hprev Hseq Hsg]. unfold refresh_seal, SignedSeal, tip_of. rewrite Hp, Hk, Hs, Hseq, Hprev.
  match goal with |- write_seal _ _ _ _ _ ?prov = _ -> _ =>
    pose proof (write_seal_files d p key (Z.of_nat (length live)) (segments_end key done) prov) as Hw end.
  intros E. rewrite E in Hw. destruct Hw as (_ & _ & _ & Hseal & Hr).
  by destruct (default None (head (d_faults d))) as [[]|].
Qed.

Lemma open_signer d p key max sg d' l : open_inner d p key max sg = (d', Ok l) -> signer l = sg.
Proof.
  unfold open_inner. destruct (acquire d p) as [d1 [u|e]]; [|done]. destruct (check_resumable _ _ _); [|done].
  destruct (recover_state _ _ _) as [[prev sequence] written]. destruct (refresh_seal _ _) as [d2 [u2|e]]; [|done].
  by intros [= _ <-].
Qed.

(** A successful append ends with the refresh of a seal. *)
Lemma append_signs d l p key done live now k d' l' n :
  d_faults d = [] -> SegmentSet d p key done live -> Handle l p key done live ->
  LiveSeal d p key done (Z.of_nat (length live)) ->
  Z.of_nat (length (concat done ++ live)) + 1 < 2 ^ 32 ->
  append d l now k = (d', l', Ok n) ->
  exists done' live', SegmentSet d' p key done' live' /\ SignedSeal d' p key done' live' (signer l) /\
    (live' = [] -> done' <> done).
Proof.
  intros Hno Hset Hh Hseal Hb. unfold append.
  destruct (encode_entry _ (prev_hash l) (chain_key l)) as [[wire h]|e] eqn:He; [|done].
  destruct (append_written _ _ _ _ _ _ _ _ _ _ Hset Hh Hb He) as (cbor & Hset1 & Hh1 & _).
  fold (appended_handle l h wire). rewrite (h_path _ _ _ _ _ Hh).
  destruct (refresh_seal_ok (append_file p wire d) _ p key done (live ++ [cbor]) Hno Hset1 Hh1)
    as (d1 & Hr & Hset2 & Hseal2 & _ & Hno2).
  pose proof (refresh_signs _ _ _ _ _ _ _ Hh1 Hr) as Hsg. rewrite Hr. destruct (max_file_bytes _ <? bytes_written _).
  - destruct (rotate_spec _ _ _ _ _ _ Hh1 Hset2 Hseal2) as (d2 & Hset3 & _ & _ & Hno3 & Hh3 & Hrot); [by destruct live|].
    rewrite Hno2 in Hno3. destruct (refresh_seal_ok _ _ p key _ [] Hno3 Hset3 Hh3) as (d3 & Hr3 & Hset4 & _).
    rewrite Hrot, Hr3. intros [= <- <- <-]. exists (done ++ [live ++ [cbor]]), []. split; [done|].
    split; [exact (refresh_signs _ _ _ _ _ _ _ Hh3 Hr3)|]. intros _ E. apply (f_equal length) in E.
    rewrite length_app in E. cbn in E. lia.
  - intros [= <- <- <-]. exists done, (live ++ [cbor]). split; [done|]. split; [exact Hsg|]. by destruct live.
Qed.

(** What a verifier reports of a signed tip. *)
Definition tip_verdict (verifier : TipVerifier) (s : TipSigner) (terminal : hash32) : TipStatus :=
  if negb (eq_bytes (signer_key_id s) (verifier_key_id verifier)) then ForeignInstallation
  else if negb (verify_tip verifier (tip_payload terminal) (sign_tip s (tip_payload terminal))) then SignatureInvalid
  else Verified.

Lemma signed_seal_live d p key done live sg :
  signer_ok sg -> SignedSeal d p key done live sg -> LiveSeal d p key done (Z.of_nat (length live)) /\
  prov_ok (tip_of sg (chain_end key (segments_end key done) live)).
Proof.
  intros Hsg Hs. assert (prov_ok (tip_of sg (chain_end key (segments_end key done) live))) as Hp.
  { destruct sg as [s|]; [|done]. destruct Hsg as [Hid Hsig]. cbn. unfold tip_ok. cbn.
    split_and!; [|done|apply Hsig]. apply chain_end_len, segments_end_len. }
  split; [by eexists|done].
Qed.

Lemma provenance_reported d p key done live s verifier :
  signer_ok (Some s) -> SegmentSet d p key done live -> SignedSeal d p key done live (Some s) ->
  verify_tip_provenance d p key verifier =
  Ok (if bool_decide (live = []) then NoSeal else tip_verdict verifier s (chain_end key (segments_end key done) live)).
Proof.
  intros Hsg Hset Hs. destruct (signed_seal_live _ _ _ _ _ _ Hsg Hs) as [Hseal Hprov].
  pose proof (ss_count _ _ _ _ _ Hset) as Hcount. rewrite length_app in Hcount.
  destruct (verify_chain_live _ _ _ _ _ Hset _ Hseal ltac:(lia)) as (prov & Hread & Hv).
  assert (prov = tip_of (Some s) (chain_end key (segments_end key done) live)) as ->.
  { rewrite (read_seal_payload _ _ _ _ _ _ Hs) in Hread; [congruence|lia|apply segments_end_len|exact Hprov]. }
  unfold verify_tip_provenance. rewrite Hv. cbn [result_bind vr_status]. unfold classify_terminal.
  destruct live as [|c live]; [done|]. rewrite (proj2 (Z.eqb_neq _ 0)), Z.eqb_refl by (cbn [length]; lia).
  rewrite Hread. unfold stream_terminal_hash. cbn [resolve_start_hash]. rewrite (live_stream _ _ _ _ _ Hset).
  cbn [result_bind terminal_hash tip_of check_tip tp_key_id tp_terminal_hash tp_signature].
  unfold tip_verdict. by rewrite eq_bytes_refl.
Qed.
End Tip.

(** * The vault's log *)

Section VaultLog.
Context `{KeyedHash} `{Cbor} `{Argon2id} `{Aead} `{Ed25519}.
Context `{Json CredentialType} `{Json StoredHeader} `{Json StoredEntry} `{Json EntryMetadataRecord}.
Context (plain_hash : bytes -> bytes).

Lemma identity_keypair v d id : installation_identity v d = Ok (Some id) ->
  exists sk, length sk = SIGNING_KEY_LEN /\ id = from_signing_key sk.
Proof.
  unfold installation_identity, unseal_signing_key, SigningKey_from_bytes, zeroizing_key_array, result_bind, map_err.
  intros Hi. repeat case_match; simplify_eq. eexists. split; [|done]. by apply Nat.eqb_eq.
Qed.

Lemma identity_framed v d d' : log_frame TAMPER_LOG_FILE d d' -> installation_identity v d' = installation_identity v d.
Proof. intros [Hf _]. unfold installation_identity, read_header. by rewrite (Hf _ (proj1 vault_files_foreign)). Qed.

Lemma run_framed v ops : forall st, log_frame TAMPER_LOG_FILE (vs_dir st) (vs_dir (vault_run plain_hash v ops st)).
Proof.
  induction ops as [|[op env] ops IH]; intros st; [done|]. cbn [vault_run].
  etransitivity; [apply frame_exec|apply IH].
Qed.

Lemma own_verdict sk terminal : length sk = SIGNING_KEY_LEN ->
  tip_verdict (key_verifier plain_hash (ed_public sk)) (identity_signer plain_hash (from_signing_key sk)) terminal = Verified.
Proof.
  intros Hl. unfold tip_verdict. cbn [identity_signer key_verifier signer_key_id verifier_key_id verify_tip sign_tip from_signing_key ii_verifying ii_signing].
  rewrite eq_bytes_refl. unfold VerifyingKey_verify, identity_sign, SigningKey_sign, SigningKey_verifying_key. by rewrite ed_verify_sign.
Qed.

(** A committed entry leaves a tip signed by the installation. *)
Lemma append_vault_audit_signs v name label ms d events id d' :
  audited v d events -> d_faults d = [] -> Z.of_nat (length events) + 1 < 2 ^ 32 -> installation_identity v d = Ok (Some id) ->
  append_vault_audit plain_hash v name label ms d = (Ok tt, d') ->
  exists done live, SegmentSet d' TAMPER_LOG_FILE (vault_chain_key v) done live /\
    SignedSeal d' TAMPER_LOG_FILE (vault_chain_key v) done live (Some (identity_signer plain_hash id)).
Proof.
  intros Ha Hno0 Hn Hid. unfold append_vault_audit. rewrite Hid.
  destruct (open_audit_log_ok plain_hash v (Some id) d events Ha Hno0) as (d1 & l & done & live & Ho & Hno & Hset & Hh & Hseal & Hlog).
  pose proof (Forall2_length _ _ _ Hlog) as Hlen. pose proof (open_signer d TAMPER_LOG_FILE (vault_chain_key v) DEFAULT_MAX_FILE_BYTES
    (Some (identity_signer plain_hash id)) d1 l Ho) as Hsg. rewrite Ho.
  destruct (TamperWriter.append d1 l ms (VaultMutation (audit_ref v name) label)) as [[d2 l2] [q|e]] eqn:Hx; [|done]. intros [= <-].
  apply (append_signs d1 l TAMPER_LOG_FILE (vault_chain_key v) done live) in Hx as (done' & live' & Hset' & Hs & _); [|done..|lia].
  rewrite Hsg in Hs. exists done', live'. split; [by apply segment_set_release|exact Hs].
Qed.

(** C16. A committed mutation is attributable: in a vault with an installation identity,
    after any sequence of mutating calls on a fresh log and one more that was committed,
    with no seal write failing, the provenance check of the vault reports that the tip
    is signed by this installation, and the check of any installation with another key
    identifier that it is foreign - except when the last entry rotated the log: the new
    live file is empty, and although its seal is signed the check reports that there is
    none. *)
Theorem committed_mutation_attributable v ops op env st id :
  fresh (vs_dir st) TAMPER_LOG_FILE -> d_faults (vs_dir st) = [] -> Z.of_nat (length ops) + 1 < 2 ^ 32 ->
  installation_identity v (vs_dir st) = Ok (Some id) ->
  let '(r, st') := vault_exec plain_hash v op env (vault_run plain_hash v ops st) in
  committed r = true ->
  exists done live, SegmentSet (vs_dir st') TAMPER_LOG_FILE (vault_chain_key v) done live /\
    verify_tamper_log_provenance plain_hash v (vs_dir st') = Ok (if bool_decide (live = []) then NoSeal else Verified) /\
    forall other, installation_key_id plain_hash other <> installation_key_id plain_hash (ii_verifying id) ->
      verify_tip_provenance (vs_dir st') TAMPER_LOG_FILE (vault_chain_key v) (key_verifier plain_hash other) =
      Ok (if bool_decide (live = []) then NoSeal else ForeignInstallation).
Proof.
  intros Hf Hno Hn Hid. destruct (vault_exec _ _ _ _ _) as [r st'] eqn:Hx. intros Hc.
  destruct (run_records plain_hash v ops st [] (fresh_audited v _ (conj Hf (or_introl Hno))) ltac:(cbn; lia) Hno) as [Ha Hno1].
  cbn [app] in Ha. pose proof (run_events_length plain_hash committed v ops st) as Hl.
  change (run_events plain_hash committed v ops st) with (committed_events plain_hash v ops st) in Hl.
  set (st1 := vault_run plain_hash v ops st) in *.
  assert (installation_identity v (vs_dir st1) = Ok (Some id)) as Hid1 by (by rewrite (identity_framed _ _ _ (run_framed v ops st))).
  pose proof (frame_exec plain_hash v op env st1) as Fx. rewrite Hx in Fx. cbn [snd] in Fx.
  destruct (exec_cases plain_hash v op env st1) as [(e & He & E)|[f E]]; rewrite E in Hx.
  { injection Hx as <- <-. by rewrite He in Hc. }
  apply commit_audited_cases in Hx.
  destruct (append_vault_audit _ _ _ _ _ _) as [[u|e] d] eqn:Hap.
  2:{ destruct Hx as [-> ->]. by rewrite (append_vault_audit_error _ _ _ _ _ _ _ _ Hap) in Hc. }
  destruct Hx as [Hd _]. destruct u.
  destruct (append_vault_audit_signs _ _ _ _ _ _ _ _ Ha Hno1 ltac:(lia) Hid1 Hap) as (done & live & Hset & Hs). rewrite <- Hd in Hset, Hs.
  destruct (identity_keypair _ _ _ Hid) as (sk & Hsk & ->).
  pose proof (identity_signer_ok plain_hash (Some (from_signing_key sk))) as Hsg. cbn [fmap option_fmap option_map] in Hsg.
  exists done, live. split; [done|]. split.
  - unfold verify_tamper_log_provenance. rewrite (identity_framed _ _ _ Fx), Hid1. cbn [result_bind].
    cbn [from_signing_key ii_verifying]. rewrite (provenance_reported _ _ _ _ _ _ _ Hsg Hset Hs), own_verdict by done.
    cbn [map_err result_bind]. by destruct (bool_decide _).
  - intros other Hne. rewrite (provenance_reported _ _ _ _ _ _ _ Hsg Hset Hs). unfold tip_verdict.
    cbn [identity_signer key_verifier signer_key_id verifier_key_id from_signing_key ii_verifying] in *.
    destruct (eq_bytes _ _) eqn:Eb; [apply eq_bytes_true in Eb; congruence|done].
Qed.
End VaultLog.

(** * A vault whose last mutation is checked *)

Module ProvenanceSample.
Import VaultSample.
#[local] Existing Instances prefix_hash toy_cbor credential_countable header_eq_dec header_countable entry_eq_dec
  entry_countable record_eq_dec record_countable countable_json toy_aead toy_argon2 toy_ed25519.

Definition identity : InstallationIdentity := from_signing_key (repeat 5 32).

Lemma committed_mutation_attributable_witness :
  verify_tamper_log_provenance plain v (vs_dir st2) = Ok Verified /\
  exists done live, SegmentSet (vs_dir st2) TAMPER_LOG_FILE (vault_chain_key v) done live /\
    verify_tamper_log_provenance plain v (vs_dir st2) = Ok (if bool_decide (live = []) then NoSeal else Verified).
Proof.
  split; [vm_compute; reflexivity|].
  pose proof (committed_mutation_attributable plain v [(OpAdd alice Psk [4; 4], env)] (OpAdd bob Psk [6; 6]) env st0 identity) as Hp.
  change (vault_run plain v [(OpAdd alice Psk [4; 4], env)] st0) with st1 in Hp.
  destruct (vault_exec plain v (OpAdd bob Psk [6; 6]) env st1) as [r st'] eqn:E.
  assert (st2 = st') as -> by (unfold st2, exec; rewrite E; reflexivity).
  destruct Hp as (done & live & Hset & Hv & _).
  - apply (created_fresh phrase cenv v ∅). vm_compute; reflexivity.
  - reflexivity.
  - reflexivity.
  - vm_compute. reflexivity.
  - change r with (r, st').1. rewrite <- E. vm_compute. reflexivity.
  - exists done, live. split; [exact Hset|exact Hv].
Defined.
End ProvenanceSample.
