(* ===== verification/App.v ===== *)
(** * The command line (crates/akroasis/src/{cli,main}.rs)

    The subcommands over the models of the radio, mesh and vault commands, and the
    configuration the program loads before it looks at them. figment is the class
    [Figment]; clap's parsing of the arguments is the command. The world is the vault
    on disk and the rest, which the terminals, files and devices are part of. *)

From S2P Require Import Prelude Decimal ChannelCodec CloneProtocol RadioDetect CsvPlan ChirpCli RadioCli MeshCli TamperLog TamperSegments TamperWriter VaultCrypto Vault VaultSpec VaultConfig VaultCli.

Local Open Scope Z_scope.

(** ** Subcommands (cli.rs) *)

Inductive Command : Type :=
| CmdRadio (command : RadioCommand)
| CmdMesh (command : MeshCommand)
| CmdSdr | CmdProximity | CmdShield | CmdWatch | CmdTest | CmdIntel | CmdAuto | CmdNav | CmdKnow
| CmdVault (command : VaultCommand)
| CmdPrivacy.

(** ** Configuration (main.rs) *)

(** An environment maps the names of variables to their values. *)
Abbreviation Environ := (gmap bytes bytes) (only parsing).
Abbreviation Dict := (gmap bytes Value) (only parsing).

Record Config : Type := mkConfig { config_path : option bytes }.

(** The errors of figment and serde the extraction can meet. *)
Inductive FigmentError : Type := UnknownField (key : bytes) | InvalidType | BadToml (detail : bytes).

Definition is_dict (v : Value) : bool := match v with VDict _ _ => true | _ => false end.

(** figment: a TOML file that does not exist is empty; [env_name] is the name of a
    variable without the white space around it, which leaves a visible ASCII name as
    it is; [env_prefixed] names a variable by what follows the prefix there, in lower
    case, a dot nesting; [join] keeps what is there; [value_is_none] tells the empty
    values. *)
Class Figment : Type := {
  toml_file : option bytes -> result (gmap bytes Value) FigmentError;
  env_name : bytes -> bytes;
  env_prefixed : bytes -> gmap bytes bytes -> gmap bytes Value;
  join : gmap bytes Value -> gmap bytes Value -> gmap bytes Value;
  value_is_none : Value -> bool;
  toml_absent : toml_file None = Ok ∅;
  env_name_visible : forall name, Forall (fun c => 33 <= c <= 126) name -> env_name name = name;
  env_names : forall prefix vars name key value,
    vars !! name = Some value -> env_name name = prefix ++ key -> key <> [] -> ~ In 46 key ->
    is_Some (env_prefixed prefix vars !! map ascii_lower key);
  env_only_prefixed : forall prefix vars,
    (forall name value, vars !! name = Some value ->
       map ascii_lower (take (length prefix) (env_name name)) <> map ascii_lower prefix) ->
    env_prefixed prefix vars = ∅;
  join_absent : forall a b key, a !! key = None -> join a b !! key = b !! key;
  join_present : forall a b key v, a !! key = Some v -> is_dict v = false -> join a b !! key = Some v;
  join_keeps : forall a b key, is_Some (a !! key) -> is_Some (join a b !! key) }.

Definition ENV_PREFIX : bytes := byte_str "AKROASIS_".

Definition default_config_path (vars : Environ) : bytes :=
  default (byte_str ".") (vars !! byte_str "HOME") ++ byte_str "/.config/akroasis/config.toml".

(** The derived [Deserialize] of [Config], with [deny_unknown_fields]. A dictionary with
    both an unknown key and an ill-typed path is refused either way; here for the key. *)
Definition extract `{Figment} (d : Dict) : result Config FigmentError :=
  match map_to_list (delete (byte_str "config_path") d) with
  | (key, _) :: _ => Err (UnknownField key)
  | [] =>
      match d !! byte_str "config_path" with
      | None => Ok (mkConfig None)
      | Some (VString _ s) => Ok (mkConfig (Some s))
      | Some v => if value_is_none v then Ok (mkConfig None) else Err InvalidType
      end
  end.

(** [files] reads a file, [None] when it does not exist. *)
Definition load_config `{Figment} (vars : Environ) (files : bytes -> option bytes) : result Config FigmentError :=
  let? toml := toml_file (files (default_config_path vars)) in
  extract (join toml (env_prefixed ENV_PREFIX vars)).

(** ** Running a command *)

Inductive AppError (IoErr : Type) : Type :=
| AppConfig (source : FigmentError)
| AppRadio (source : RadioError)
| AppVault (source : VaultCliError IoErr)
| AppMesh (source : MeshError)
| AppIo (source : IoError).
Arguments AppConfig {IoErr} _.
Arguments AppRadio {IoErr} _.
Arguments AppVault {IoErr} _.
Arguments AppMesh {IoErr} _.
Arguments AppIo {IoErr} _.

Section App.
Context `{KeyedHash} `{Cbor} `{Argon2id} `{Aead} `{Ed25519}.
Context `{Json CredentialType} `{Json StoredHeader} `{Json StoredEntry} `{Json EntryMetadataRecord}.
Context (plain_hash : bytes -> bytes).
Context {O Ss E IoErr : Type} `{!VaultTerminal O IoErr} `{!TimestampFormat} `{!KeyOrder bytes}.
Context `{Hardware O Ss} `{Terminal O} `{Files O} `{CsvReader E} `{PlanSerde} `{MeshTerminal O}.

Definition World : Type := VaultHost * O.

(** [None] is a panic. *)
Definition app (A : Type) : Type := World -> option (result A (AppError IoErr)) * World.

Definition on_rest {A F} (wrap : F -> AppError IoErr) (m : O -> option (result A F) * O) : app A := fun '(h, o) =>
  let '(r, o) := m o in (map_err wrap <$> r, (h, o)).

Definition stub (message : string * string) : app unit :=
  on_rest AppIo (fun o => let '(r, o) := write_out (Line (byte_str message.1 ++ [32; 0x2014; 32] ++ byte_str message.2)) o in (Some r, o)).

(** The part of the environment and of the clock that a vault command uses. *)
Context (vars : Environ) (files : bytes -> option bytes) (env : CmdEnv) `{Figment}.

Definition vault_path : bytes := default_vault_path (vars !! byte_str "AKROASIS_VAULT_PATH") (vars !! byte_str "HOME").

Definition app_dispatch (command : Command) : app unit :=
  match command with
  | CmdRadio c => on_rest AppRadio (dispatch_with (S := Ss) (E := E) c)
  | CmdMesh c => on_rest AppMesh (fun o => let '(r, o) := mesh_dispatch c o in (Some r, o))
  | CmdVault c => fun w => let '(r, w) := VaultCli.dispatch plain_hash vault_path env c w in (Some (map_err AppVault r), w)
  | CmdSdr => stub ("dektis", "SDR reception (not yet implemented)")
  | CmdProximity => stub ("engys", "proximity intelligence (not yet implemented)")
  | CmdShield => stub ("aspis", "network defense (not yet implemented)")
  | CmdWatch => stub ("skopos", "OSINT collection (not yet implemented)")
  | CmdTest => stub ("peira", "offensive security (not yet implemented)")
  | CmdIntel => stub ("semaino + ichneutes", "intelligence (not yet implemented)")
  | CmdAuto => stub ("praxis", "automation (not yet implemented)")
  | CmdNav => stub ("chorografia", "navigation (not yet implemented)")
  | CmdKnow => fun '(h, o) =>
      let '(r, o) := write_out (Line (byte_str "reference-library application (name pending; not yet implemented)")) o in
      (Some (map_err AppIo r), (h, o))
  | CmdPrivacy => stub ("lethe", "privacy (not yet implemented)")
  end.

Definition app_run (command : Command) : app unit := fun w =>
  match load_config vars files with
  | Ok _ => app_dispatch command w
  | Err e => (Some (Err (AppConfig e)), w)
  end.

(** The exit status; the error goes to standard error. A panic exits with 101. *)
Definition app_main (command : Command) (w : World) : Z * World :=
  match app_run command w with
  | (Some (Ok _), w) => (0, w)
  | (Some (Err _), w) => (1, w)
  | (None, w) => (101, w)
  end.

(** * Lemmas *)

Lemma extract_unknown d key : key <> byte_str "config_path" -> is_Some (d !! key) -> exists k, extract d = Err (UnknownField k).
Proof.
  intros Hne [v Hv]. unfold extract. destruct (map_to_list _) as [|[k x] l] eqn:El; [|by exists k].
  apply map_to_list_empty_iff, (f_equal (fun m => m !! key)) in El. by rewrite lookup_delete_ne, Hv in El.
Qed.

Lemma extract_empty : extract ∅ = Ok (mkConfig None).
Proof. unfold extract. by rewrite delete_empty, map_to_list_empty, lookup_empty. Qed.

Lemma join_any a b key : is_Some (b !! key) -> is_Some (join a b !! key).
Proof.
  intros Hb. destruct (a !! key) eqn:Ea; [apply join_keeps; by eexists|by rewrite join_absent].
Qed.

(** A variable whose name begins with the prefix and whose rest is not the one known key. *)
Lemma load_config_refuses name key value :
  vars !! name = Some value -> env_name name = ENV_PREFIX ++ key -> key <> [] -> ~ In 46 key -> map ascii_lower key <> byte_str "config_path" ->
  is_ok (load_config vars files) = false.
Proof.
  intros Hv Hn Hk Hdot Hne. unfold load_config. destruct (toml_file _) as [toml|e]; cbn [result_bind]; [|done].
  destruct (extract_unknown (join toml (env_prefixed ENV_PREFIX vars)) (map ascii_lower key)) as [k ->]; [done| |done].
  apply join_any. by eapply env_names.
Qed.

(** The file's value stands, whatever the environment says. *)
Lemma file_overrides_environment toml tag s c :
  toml_file (files (default_config_path vars)) = Ok toml -> toml !! byte_str "config_path" = Some (VString tag s) ->
  load_config vars files = Ok c -> config_path c = Some s.
Proof.
  intros Ht Hs. unfold load_config. rewrite Ht. cbn [result_bind]. unfold extract.
  destruct (map_to_list _) as [|[k x] l]; [|done]. rewrite (join_present _ _ _ _ Hs eq_refl). by intros [= <-].
Qed.

(** * Properties *)

(** C39. The configuration decides whether any command runs. With no configuration file
    and no variable of the prefix the program dispatches the command; but a variable
    AKROASIS_x, x not being CONFIG_PATH in any case, makes every command end with
    status 1 before it touches anything - also AKROASIS_VAULT_PATH, the documented
    override of the vault's directory, and AKROASIS_LOG, the log filter. A name counts
    without the white space around it. *)
Theorem configuration_gates_commands (command : Command) (w : World) :
  (files (default_config_path vars) = None ->
   (forall name value, vars !! name = Some value ->
      map ascii_lower (take (length ENV_PREFIX) (env_name name)) <> map ascii_lower ENV_PREFIX) ->
   app_run command w = app_dispatch command w) /\
  (forall name key value, vars !! name = Some value -> env_name name = ENV_PREFIX ++ key ->
     key <> [] -> ~ In 46 key ->
     map ascii_lower key <> byte_str "config_path" -> app_main command w = (1, w)) /\
  (is_Some (vars !! byte_str "AKROASIS_VAULT_PATH") \/ is_Some (vars !! byte_str "AKROASIS_LOG") ->
   app_main command w = (1, w)).
Proof.
  assert (forall name key value, vars !! name = Some value -> env_name name = ENV_PREFIX ++ key -> key <> [] -> ~ In 46 key ->
     map ascii_lower key <> byte_str "config_path" -> app_main command w = (1, w)) as Hmain.
  { intros name key value Hv Hn Hk Hdot Hne. pose proof (load_config_refuses _ _ _ Hv Hn Hk Hdot Hne) as Hl.
    unfold app_main, app_run. by destruct (load_config vars files). }
  split; [|split; [exact Hmain|]].
  - intros Hf Hv. unfold app_run, load_config. rewrite Hf, toml_absent. cbn [result_bind].
    rewrite (env_only_prefixed _ _ Hv). replace (join ∅ ∅) with (∅ : Dict); [by rewrite extract_empty|].
    apply map_eq. intros key. symmetry. by apply join_absent.
  - intros [[p Hp]|[p Hp]].
    + apply (Hmain _ (byte_str "VAULT_PATH") p Hp); [|done|cbn; intuition discriminate|done].
      apply env_name_visible. by repeat constructor.
    + apply (Hmain _ (byte_str "LOG") p Hp); [|done|cbn; intuition discriminate|done].
      apply env_name_visible. by repeat constructor.
Qed.
End App.

(** * A terminal with the bench radio *)

Module AppSample.
Import VaultSample CliSample.
#[local] Existing Instances prefix_hash toy_cbor credential_countable header_eq_dec header_countable entry_eq_dec
  entry_countable record_eq_dec record_countable countable_json toy_aead toy_argon2 toy_ed25519 tty_time tty_order.
#[local] Existing Instances Bench.sim_port Bench.host_serial Bench.host_terminal Bench.host_files Bench.bench_serde
  Rfc4180.rfc4180 TrimmedRfc4180.rfc4180_reader.

#[local] Instance host_mesh : MeshTerminal Bench.Host := {
  mesh_write_out o h := (Ok tt, Bench.mkHost (Bench.device h) (Bench.printed h ++ [o]));
  mesh_write_json _ h := (Ok tt, h) }.
#[local] Instance host_vault : VaultTerminal Bench.Host unit := {
  prompt_password _ h := (Err tt, h); print_prompt _ h := (Ok tt, h); read_line h := (Err tt, h);
  print_out _ h := (Ok tt, h); print_json _ h := (Ok tt, h) }.

(** Values are strings and names, ASCII without dots, are trimmed. *)
Definition prefixed (prefix : bytes) (kv : bytes * bytes) : bool :=
  bool_decide (map ascii_lower (take (length prefix) (trim kv.1)) = map ascii_lower prefix).
Definition unprefix (prefix : bytes) (kv : bytes * bytes) : bytes * Value :=
  (map ascii_lower (drop (length prefix) (trim kv.1)), VString 0 kv.2).

#[local] Instance flat_figment : Figment.
Proof.
  refine {| toml_file f := Ok ∅; env_name := trim; join a b := a ∪ b; value_is_none _ := false;
    env_prefixed prefix vars := list_to_map (map (unprefix prefix) (List.filter (prefixed prefix) (map_to_list vars))) |}.
  - done.
  - intros name Hn. apply trim_visible. apply (Forall_impl _ _ _ Hn). intros c Hc. unfold is_whitespace. lia.
  - intros prefix vars name key value Hv Ht _ _. apply not_eq_None_Some. intros Hn%not_elem_of_list_to_map.
    apply Hn. rewrite map_map. apply list_elem_of_fmap. exists (name, value). split; [cbn -[trim]; by rewrite Ht, drop_app_length|].
    apply list_elem_of_In, filter_In. split; [by apply list_elem_of_In, elem_of_map_to_list|].
    apply bool_decide_eq_true. cbn -[trim]. by rewrite Ht, take_app_length.
  - intros prefix vars Hv. replace (List.filter _ _) with (@nil (bytes * bytes)); [done|]. symmetry.
    destruct (List.filter _ _) as [|[n x] l] eqn:E; [done|exfalso].
    assert (In (n, x) (List.filter (prefixed prefix) (map_to_list vars))) as [Hin Hp]%filter_In by (rewrite E; by left).
    apply list_elem_of_In, elem_of_map_to_list in Hin. apply bool_decide_eq_true in Hp. by apply (Hv n x).
  - intros a b key Ha. by rewrite lookup_union, Ha, (left_id_L None _).
  - intros a b key v Ha _. by rewrite (lookup_union_Some_l _ _ _ _ Ha).
  - intros a b key [v Ha]. exists v. by rewrite (lookup_union_Some_l _ _ _ _ Ha).
Defined.

Definition with_path : gmap bytes bytes := {[ byte_str "AKROASIS_VAULT_PATH" := byte_str "/srv/vault" ]}.
Definition no_files (_ : bytes) : option bytes := None.
Definition main vars := app_main (O := Bench.Host) (Ss := BaofengProtocolSession Bench.SimRadio) (E := Empty_set) (IoErr := unit)
  plain vars no_files cmd_env (CmdMesh (MeshNodes false)) (stored, Bench.bench 0).

(** Naming the vault's directory makes a mesh command fail; without it the command runs. *)
Lemma configuration_gates_commands_witness :
  main with_path = (1, (stored, Bench.bench 0)) /\ (main ∅).1 = 0.
Proof.
  destruct (configuration_gates_commands (Ss := BaofengProtocolSession Bench.SimRadio) (E := Empty_set) plain with_path no_files
    cmd_env (CmdMesh (MeshNodes false)) (stored, Bench.bench 0)) as (_ & _ & Hset).
  destruct (configuration_gates_commands (Ss := BaofengProtocolSession Bench.SimRadio) (E := Empty_set) plain ∅ no_files
    cmd_env (CmdMesh (MeshNodes false)) (stored, Bench.bench 0)) as (Hrun & _ & _).
  split.
  - apply Hset. left. exists (byte_str "/srv/vault"). reflexivity.
  - unfold main, app_main. rewrite Hrun; [reflexivity|reflexivity|done].
Defined.
End AppSample.
